(** * n8n-nodes-fs: a shallow embedding of the filesystem nodes

    The repository wraps Node's [fs.promises] calls into workflow nodes
    (list, copy, move, delete, exists, info).  This development embeds

    - the JavaScript values and the host's parameter lookup the nodes use,
    - a model of the filesystem calls the nodes make (a finite map from
      absolute paths to inodes, a logical clock, a mount table and the log
      of mutating calls),
    - the walkers and transfer helpers of [utils/fileUtils.ts] and the
      per-item bodies of the nodes' [execute] methods,

    and proves the properties the specification states about them.

    Conventions of the model.  An absolute path is the list of its
    components ([[]] is the root).  Symbolic links are followed at the last
    component, by at most 40 hops; a path going *through* a link is not
    resolved.  The process owns every entry and is not the superuser, so
    the owner's permission bits decide: a file or a directory is read
    with its read bit, a file is overwritten with its write bit, and an
    entry is created, renamed or removed in a directory that has the write
    and the search bit.  The search bits of the directories on the way to
    a path are not looked at by the model: the statements that promise a
    success assume them.  Access times are those [utimes] sets: the model
    does not move them on a read.  Text is ASCII and numbers are integers:
    [toLowerCase], [trim] and the coercions to a number are those of
    JavaScript on such values only. *)

From Stdlib Require Import ZArith String Ascii List Bool Lia Sorted.
From stdpp Require Import base option list gmap strings fin_maps pretty.

Set Warnings "-register-all".

Open Scope string_scope.
Open Scope list_scope.
Open Scope Z_scope.

(** ** Paths *)

Abbreviation path := (list string).

Definition join (dir : path) (item : string) : path := dir ++ [item].

Definition dirname (p : path) : path := removelast p.

Definition basename (p : path) : string := List.last p "".

Fixpoint split_on (sep : ascii) (s : string) : list string :=
  match s with
  | EmptyString => [EmptyString]
  | String c rest =>
      if Ascii.eqb c sep then EmptyString :: split_on sep rest
      else match split_on sep rest with
           | [] => [String c EmptyString]
           | hd :: tl => String c hd :: tl
           end
  end.

(** One step of [path.normalize]: [.] and empty segments are dropped and
    [..] removes the last component collected so far. *)
Definition push_segment (acc : path) (seg : string) : path :=
  if String.eqb seg "" then acc
  else if String.eqb seg "." then acc
  else if String.eqb seg ".." then removelast acc
  else acc ++ [seg].

Definition is_absolute (s : string) : bool :=
  match s with
  | String c _ => Ascii.eqb c "/"
  | EmptyString => false
  end.

(** [path.resolve(s)]: against the working directory unless [s] is absolute. *)
Definition resolve (cwd : path) (s : string) : path :=
  fold_left push_segment (split_on "/" s) (if is_absolute s then [] else cwd).

(** The path as a string. *)
Definition show_path (p : path) : string :=
  fold_left (fun acc c => acc +:+ "/" +:+ c) p "".

(** ** Strings: the few [String.prototype] and [path] functions in use *)

Definition lower_ascii (c : ascii) : ascii :=
  let n := nat_of_ascii c in
  if (Nat.leb 65 n && Nat.leb n 90)%bool then ascii_of_nat (n + 32) else c.

Fixpoint toLowerCase (s : string) : string :=
  match s with
  | EmptyString => EmptyString
  | String c r => String (lower_ascii c) (toLowerCase r)
  end.

Definition startsWith (s : string) (c : ascii) : bool :=
  match s with
  | String c' _ => Ascii.eqb c' c
  | EmptyString => false
  end.

Definition is_space (c : ascii) : bool :=
  let n := nat_of_ascii c in
  (Nat.eqb n 32 || (Nat.leb 9 n && Nat.leb n 13))%bool.

Fixpoint trim_start (s : string) : string :=
  match s with
  | String c r => if is_space c then trim_start r else s
  | EmptyString => EmptyString
  end.

Fixpoint rev_string (s : string) (acc : string) : string :=
  match s with
  | EmptyString => acc
  | String c r => rev_string r (String c acc)
  end.

Definition trim (s : string) : string :=
  rev_string (trim_start (rev_string (trim_start s) "")) "".

(** [ext_scan s]: the suffix of [s] from its last dot, when that dot is not
    the first character of [s]; [None] when there is none. *)
Fixpoint last_dot (s : string) : option string :=
  match s with
  | EmptyString => None
  | String c r =>
      match last_dot r with
      | Some e => Some e
      | None => if Ascii.eqb c "." then Some s else None
      end
  end.

(** [path.extname]: a leading dot does not start an extension. *)
Definition extname (name : string) : string :=
  match name with
  | EmptyString => ""
  | String _ r => match last_dot r with Some e => e | None => "" end
  end.

(** ** JavaScript values and the host's parameters *)

Inductive value : Type :=
  | VUndefined
  | VBool (b : bool)
  | VNum (n : Z)
  | VStr (s : string)
  | VArr (items : list value)
  | VObj (fields : list (string * value)).

Definition truthy (v : value) : bool :=
  match v with
  | VUndefined => false
  | VBool b => b
  | VNum n => negb (n =? 0)
  | VStr s => negb (String.eqb s "")
  | VArr _ | VObj _ => true
  end.

Fixpoint assoc {A : Type} (k : string) (l : list (string * A)) : option A :=
  match l with
  | [] => None
  | (k', v) :: r => if String.eqb k k' then Some v else assoc k r
  end.

(** Property access [o.k]; a missing field reads as [undefined]. *)
Definition field (o : value) (k : string) : value :=
  match o with
  | VObj fs => default VUndefined (assoc k fs)
  | _ => VUndefined
  end.

(** [a || b] *)
Definition js_or (a b : value) : value := if truthy a then a else b.

(** [a === b] on the values the nodes compare: primitives by value, arrays
    and objects (compared by identity in JavaScript) never equal. *)
Definition strict_eq (a b : value) : bool :=
  match a, b with
  | VUndefined, VUndefined => true
  | VBool x, VBool y => Bool.eqb x y
  | VNum x, VNum y => x =? y
  | VStr x, VStr y => String.eqb x y
  | _, _ => false
  end.

(** [v !== false], the idiom for options that default to true. *)
Definition not_false (v : value) : bool := negb (strict_eq v (VBool false)).

(** ** Errors *)

Inductive errno : Set :=
  ENOENT | EACCES | EEXIST | ENOTDIR | EISDIR | ENOTEMPTY | EXDEV | EINVAL | ELOOP | EPERM.

(** The [NodeOperationError]s the nodes throw, one constructor per message. *)
Inductive op_error : Type :=
  | PathRequired                       (* 'File path is required' *)
  | SourceRequired                     (* 'Source path is required' *)
  | DestinationRequired                (* 'Destination path is required' *)
  | DirectoryPathRequired              (* 'Directory path is required' *)
  | PathNotFound (p : path)            (* 'Path not found: ...' *)
  | SourceNotFound (p : path)          (* 'Source path not found: ...' *)
  | DirectoryNotFound (p : path)       (* 'Directory not found: ...' *)
  | NotAFile (p : path)                (* '... is not a file (... mode is 'file')' *)
  | NotADirectory (p : path)           (* '... is not a directory ...' *)
  | DestinationExists (p : path)       (* 'Destination already exists and overwrite is disabled' *)
  | FileTooLarge (size limit : Z)      (* 'File size (..MB) exceeds limit (..MB)' *)
  | ConfirmationRequired (phrase : value)  (* 'Deletion requires confirmation. Please provide: ...' *)
  | DirectoryBackupNotImplemented      (* 'Directory backup not implemented in this simplified version' *)
  | MoveFailedNoFallback (code : errno) (* 'Move failed and fallback is disabled: ...' *)
  | DirectoryNeedsRecursive.           (* 'Cannot copy directory without recursive option enabled' *)

Inductive error : Type :=
  | FsError (code : errno) (call : string) (p : path)
  | OperationError (e : op_error)
  | MissingParameter (name : string)
  | TypeError (what : string)
  | SyntaxError (pattern : string).

(** The taxonomy of section 7 of the specification. *)
Inductive error_class : Set :=
  Validation | NotFound | TypeMismatch | Conflict | PolicyRefusal | InputOutput.

Definition classify (e : error) : error_class :=
  match e with
  | OperationError PathRequired | OperationError SourceRequired
  | OperationError DestinationRequired | OperationError DirectoryPathRequired => Validation
  | OperationError (PathNotFound _) | OperationError (SourceNotFound _)
  | OperationError (DirectoryNotFound _) => NotFound
  | OperationError (NotAFile _) | OperationError (NotADirectory _)
  | OperationError DirectoryNeedsRecursive => TypeMismatch
  | OperationError (DestinationExists _) => Conflict
  | OperationError (FileTooLarge _ _) | OperationError (ConfirmationRequired _)
  | OperationError DirectoryBackupNotImplemented => PolicyRefusal
  | OperationError (MoveFailedNoFallback _) | FsError _ _ _ => InputOutput
  | MissingParameter _ | TypeError _ | SyntaxError _ => Validation
  end.

(** ** The filesystem *)

Record meta : Set := Meta {
  atime : Z;
  mtime : Z;
  birthtime : Z;
  mode : Z;
}.

Inductive node : Type :=
  | NFile (data : list Byte.byte) (m : meta)
  | NDir (m : meta)
  | NSymlink (target : path)
  | NOther (m : meta).

(** The mutating calls, as logged: the call, its arguments, whether it
    succeeded.  [CopyFileCall] also records how many bytes were written. *)
Inductive call : Type :=
  | MkdirCall (p : path)
  | CopyFileCall (src dst : path) (bytes : Z)
  | UtimesCall (p : path) (a m : Z)
  | RenameCall (src dst : path)
  | UnlinkCall (p : path)
  | RmdirCall (p : path) (recursive : bool)
  | WriteFileCall (p : path).

Record event : Type := Event { ev_call : call; ev_ok : bool }.

Record world : Type := World {
  files : gmap path node;
  clock : Z;
  cwd : path;
  mounts : list path;
  trace : list event;
}.

(** What [fs.stat] returns. *)
Inductive kind : Set := KFile | KDirectory | KSymlink | KOther.

Record Stats : Set := MkStats {
  st_kind : kind;
  size : Z;
  st_meta : meta;
}.

Definition isFile (st : Stats) : bool :=
  match st_kind st with KFile => true | _ => false end.
Definition isDirectory (st : Stats) : bool :=
  match st_kind st with KDirectory => true | _ => false end.
Definition isSymbolicLink (st : Stats) : bool :=
  match st_kind st with KSymlink => true | _ => false end.

Definition no_meta : meta := Meta 0 0 0 511.

(** The size a directory inode reports (one block). *)
Definition dir_size : Z := 4096.

Definition stats_of (n : node) : Stats :=
  match n with
  | NFile data m => MkStats KFile (Z.of_nat (length data)) m
  | NDir m => MkStats KDirectory dir_size m
  | NSymlink t => MkStats KSymlink (Z.of_nat (length t)) no_meta
  | NOther m => MkStats KOther 0 m
  end.

Definition owner_can (bit : N) (m : meta) : bool := Z.testbit (mode m) (Z.of_N bit).
Definition can_read : meta -> bool := owner_can 8.
Definition can_write : meta -> bool := owner_can 7.
Definition can_exec : meta -> bool := owner_can 6.

(** The owner may create, rename and remove entries in a directory that has
    the write and the search bit. *)
Definition can_change (m : meta) : bool := can_write m && can_exec m.

Definition set_times (a mt : Z) (m : meta) : meta :=
  Meta a mt (birthtime m) (mode m).

Definition node_set_times (a mt : Z) (n : node) : node :=
  match n with
  | NFile d m => NFile d (set_times a mt m)
  | NDir m => NDir (set_times a mt m)
  | NOther m => NOther (set_times a mt m)
  | NSymlink t => NSymlink t
  end.

Definition node_touch (now : Z) (n : node) : node :=
  match n with
  | NFile d m => NFile d (set_times (atime m) now m)
  | NDir m => NDir (set_times (atime m) now m)
  | NOther m => NOther (set_times (atime m) now m)
  | NSymlink t => NSymlink t
  end.

Definition fresh_meta (now : Z) (md : Z) : meta := Meta now now now md.

(** Following the links at the last component, at most [hops] times. *)
Fixpoint follow (hops : nat) (fs : gmap path node) (p : path) : option path :=
  match fs !! p with
  | Some (NSymlink t) =>
      match hops with
      | O => None
      | S h => follow h fs t
      end
  | _ => Some p
  end.

Definition max_hops : nat := 40.

(** The names directly below [dir]. *)
Definition child_name (dir q : path) : option string :=
  match q with
  | [] => None
  | _ => if decide (removelast q = dir) then Some (List.last q "") else None
  end.

Definition children (fs : gmap path node) (dir : path) : list string :=
  omap (fun e => child_name dir (fst e)) (map_to_list fs).

Definition below (p q : path) : Prop := p `prefix_of` q.

(** The device a path lives on: the longest mount point above it. *)
Definition device_of (ms : list path) (p : path) : path :=
  fold_left (fun best m =>
               if bool_decide (m `prefix_of` p) && (length best <? length m)%nat
               then m else best) ms [].

(** ** A state and exception monad for the asynchronous code

    A computation reads and updates the world and either returns, throws
    (a rejected promise), or runs out of the fuel that bounds the model's
    recursion.  [try_catch] is [try { } catch { }]: it handles what was
    thrown and nothing else. *)

Inductive result (A : Type) : Type :=
  | Ok (a : A)
  | Throw (e : error)
  | OutOfFuel.
Arguments Ok {A} a.
Arguments Throw {A} e.
Arguments OutOfFuel {A}.

Definition M (A : Type) : Type := world -> result A * world.

Definition ret {A : Type} (a : A) : M A := fun w => (Ok a, w).

Definition bind {A B : Type} (m : M A) (k : A -> M B) : M B :=
  fun w =>
    match m w with
    | (Ok a, w') => k a w'
    | (Throw e, w') => (Throw e, w')
    | (OutOfFuel, w') => (OutOfFuel, w')
    end.

Definition throw {A : Type} (e : error) : M A := fun w => (Throw e, w).

Definition out_of_fuel {A : Type} : M A := fun w => (OutOfFuel, w).

Definition try_catch {A : Type} (m : M A) (handler : error -> M A) : M A :=
  fun w =>
    match m w with
    | (Throw e, w') => handler e w'
    | r => r
    end.

Definition get_world : M world := fun w => (Ok w, w).

Notation "x <- c1 ;; c2" := (bind c1 (fun x => c2))
  (at level 100, c1 at next level, right associativity).
Notation "c1 ;; c2" := (bind c1 (fun _ => c2))
  (at level 100, right associativity).

Definition when (b : bool) (m : M unit) : M unit := if b then m else ret tt.

(** [for (const x of xs) body(x)] *)
Fixpoint for_each {A : Type} (xs : list A) (body : A -> M unit) : M unit :=
  match xs with
  | [] => ret tt
  | x :: rest => body x ;; for_each rest body
  end.

(** A loop threading an accumulator, for [let total = 0; for (...) total += ...]
    and for [results.push(...)]. *)
Fixpoint for_fold {A S : Type} (xs : list A) (acc : S) (body : S -> A -> M S) : M S :=
  match xs with
  | [] => ret acc
  | x :: rest => acc' <- body acc x ;; for_fold rest acc' body
  end.

(** ** The filesystem calls *)

Definition lift_fs {A : Type} (name : string) (p : path) (r : errno + A) : result A :=
  match r with
  | inr a => Ok a
  | inl code => Throw (FsError code name p)
  end.

Definition stat_pure (fs : gmap path node) (p : path) : errno + Stats :=
  match follow max_hops fs p with
  | None => inl ELOOP
  | Some q =>
      match fs !! q with
      | None => inl ENOENT
      | Some n => inr (stats_of n)
      end
  end.

(** [fs.lstat], which the nodes never call: it does not follow the link. *)
Definition lstat_pure (fs : gmap path node) (p : path) : errno + Stats :=
  match fs !! p with
  | None => inl ENOENT
  | Some n => inr (stats_of n)
  end.

Definition readdir_pure (fs : gmap path node) (p : path) : errno + list string :=
  match follow max_hops fs p with
  | None => inl ELOOP
  | Some q =>
      match fs !! q with
      | None => inl ENOENT
      | Some (NDir m) => if can_read m then inr (children fs q) else inl EACCES
      | Some _ => inl ENOTDIR
      end
  end.

Definition readFile_pure (fs : gmap path node) (p : path) : errno + list Byte.byte :=
  match follow max_hops fs p with
  | None => inl ELOOP
  | Some q =>
      match fs !! q with
      | None => inl ENOENT
      | Some (NFile data m) => if can_read m then inr data else inl EACCES
      | Some (NDir _) => inl EISDIR
      | Some _ => inl EINVAL
      end
  end.

Definition realpath_pure (fs : gmap path node) (p : path) : errno + path :=
  match follow max_hops fs p with
  | None => inl ELOOP
  | Some q => match fs !! q with None => inl ENOENT | Some _ => inr q end
  end.

Definition access_pure (bit : N) (fs : gmap path node) (p : path) : errno + unit :=
  match stat_pure fs p with
  | inl c => inl c
  | inr st => if owner_can bit (st_meta st) then inr tt else inl EACCES
  end.

Definition stat (p : path) : M Stats :=
  fun w => (lift_fs "stat" p (stat_pure (files w) p), w).
Definition readdir (p : path) : M (list string) :=
  fun w => (lift_fs "scandir" p (readdir_pure (files w) p), w).
Definition readFile (p : path) : M (list Byte.byte) :=
  fun w => (lift_fs "open" p (readFile_pure (files w) p), w).
Definition realpath (p : path) : M path :=
  fun w => (lift_fs "realpath" p (realpath_pure (files w) p), w).
Definition access (p : path) (bit : N) : M unit :=
  fun w => (lift_fs "access" p (access_pure bit (files w) p), w).

(** [existsSync]: true when the path can be stat-ed. *)
Definition exists_pure (fs : gmap path node) (p : path) : bool :=
  match stat_pure fs p with inr _ => true | inl _ => false end.
Definition existsSync (p : path) : M bool :=
  fun w => (Ok (exists_pure (files w) p), w).

(** A mutating call: on success the map is replaced and the clock ticks; the
    attempt is logged either way and a failed call changes nothing else. *)
Definition committed (w : world) (c : call) (fs' : gmap path node) : world :=
  World fs' (clock w + 1) (cwd w) (mounts w) (trace w ++ [Event c true]).

Definition refused (w : world) (c : call) : world :=
  World (files w) (clock w) (cwd w) (mounts w) (trace w ++ [Event c false]).

Definition commit (c : call) (name : string) (p : path)
    (r : errno + gmap path node) : M unit :=
  fun w =>
    match r with
    | inr fs' => (Ok tt, committed w c fs')
    | inl code => (Throw (FsError code name p), refused w c)
    end.

Definition touch_parent (now : Z) (p : path) (fs : gmap path node) : gmap path node :=
  alter (node_touch now) (dirname p) fs.

Definition add_entry (now : Z) (p : path) (n : node) (fs : gmap path node)
    : gmap path node :=
  <[p := n]> (touch_parent now p fs).

(** The directory of [p] is there. *)
Definition parent_is_dir (fs : gmap path node) (p : path) : errno + unit :=
  match fs !! dirname p with
  | Some (NDir _) => inr tt
  | Some _ => inl ENOTDIR
  | None => inl ENOENT
  end.

(** The directory of [p] is there and lets its entries be changed. *)
Definition parent_allows (fs : gmap path node) (p : path) : errno + unit :=
  match fs !! dirname p with
  | Some (NDir m) => if can_change m then inr tt else inl EACCES
  | Some _ => inl ENOTDIR
  | None => inl ENOENT
  end.

(** One step of [mkdir -p]: an existing directory is kept, a new one needs
    a directory that can be changed. *)
Definition mkdir_step (now : Z) (target : path) (acc : errno + gmap path node)
    (p : path) : errno + gmap path node :=
  match acc with
  | inl c => inl c
  | inr fs =>
      match fs !! p with
      | None =>
          match parent_allows fs p with
          | inl c => inl c
          | inr _ => inr (add_entry now p (NDir (fresh_meta now 493)) fs)
          end
      | Some (NDir _) => inr fs
      | Some _ => inl (if decide (p = target) then EEXIST else ENOTDIR)
      end
  end.

Definition ancestors_and_self (p : path) : list path :=
  List.map (fun n => take n p) (seq O (S (length p))).

(** [fs.mkdir(p, { recursive: true })] *)
Definition mkdir_pure (now : Z) (fs : gmap path node) (p : path)
    : errno + gmap path node :=
  match follow max_hops fs p with
  | None => inl ELOOP
  | Some q => fold_left (mkdir_step now q) (ancestors_and_self q) (inr fs)
  end.

Definition mkdir_recursive (p : path) : M unit :=
  w <- get_world ;;
  commit (MkdirCall p) "mkdir" p (mkdir_pure (clock w) (files w) p).

(** Writing [data] at [d] (already followed).  A new file is created with
    the mode [md] in a directory that can be changed.  An existing file
    must be writable: it gets the new content and the time of the write,
    and with [chmod] the mode [md] as well. *)
Definition write_at (now : Z) (md : Z) (chmod : bool) (fs : gmap path node) (d : path)
    (data : list Byte.byte) : errno + gmap path node :=
  match fs !! d with
  | None =>
      match parent_allows fs d with
      | inl c => inl c
      | inr _ => inr (add_entry now d (NFile data (fresh_meta now md)) fs)
      end
  | Some (NFile _ m) =>
      if can_write m then
        inr (<[d := NFile data (Meta (atime m) now (birthtime m)
                                  (if chmod then md else mode m))]> fs)
      else inl EACCES
  | Some (NDir _) => inl EISDIR
  | Some _ => inl EINVAL
  end.

(** [fs.copyFile]: the source is opened for reading and the destination
    for writing, created if need be; the destination is given the mode of
    the source, also when it was there already. *)

Definition copyFile_pure (now : Z) (fs : gmap path node) (src dst : path)
    : errno + (gmap path node * Z) :=
  match follow max_hops fs src, follow max_hops fs dst with
  | Some s, Some d =>
      match fs !! s with
      | None => inl ENOENT
      | Some (NFile data m) =>
          if can_read m then
            match write_at now (mode m) true fs d data with
            | inl c => inl c
            | inr fs' => inr (fs', Z.of_nat (length data))
            end
          else inl EACCES
      | Some (NDir _) => inl EISDIR
      | Some _ => inl EINVAL
      end
  | _, _ => inl ELOOP
  end.

(** [fs.copyFile(src, dst)] *)
Definition copyFile (src dst : path) : M unit :=
  w <- get_world ;;
  match copyFile_pure (clock w) (files w) src dst with
  | inr (fs', n) => commit (CopyFileCall src dst n) "copyfile" src (inr fs')
  | inl c => commit (CopyFileCall src dst 0) "copyfile" src (inl c)
  end.

(** [fs.writeFile(p, data)] *)
Definition writeFile (p : path) (data : list Byte.byte) : M unit :=
  w <- get_world ;;
  commit (WriteFileCall p) "open" p
    (match follow max_hops (files w) p with
     | None => inl ELOOP
     | Some d => write_at (clock w) 420 false (files w) d data
     end).

Definition utimes_pure (fs : gmap path node) (p : path) (a mt : Z)
    : errno + gmap path node :=
  match follow max_hops fs p with
  | None => inl ELOOP
  | Some q =>
      match fs !! q with
      | None => inl ENOENT
      | Some _ => inr (alter (node_set_times a mt) q fs)
      end
  end.

(** [fs.utimes(p, atime, mtime)] *)
Definition utimes (p : path) (a mt : Z) : M unit :=
  w <- get_world ;;
  commit (UtimesCall p a mt) "utime" p (utimes_pure (files w) p a mt).

(** [unlink(2)]: the entry is taken out of its directory, which must let
    its entries be changed; a link is removed, not what it leads to. *)
Definition unlink_pure (now : Z) (fs : gmap path node) (p : path)
    : errno + gmap path node :=
  match fs !! p with
  | None => inl ENOENT
  | Some n =>
      match parent_allows fs p with
      | inl c => inl c
      | inr _ =>
          match n with
          | NDir _ => inl EISDIR
          | _ => inr (touch_parent now p (delete p fs))
          end
      end
  end.

(** [fs.unlink(p)] *)
Definition unlink (p : path) : M unit :=
  w <- get_world ;;
  commit (UnlinkCall p) "unlink" p (unlink_pure (clock w) (files w) p).

Definition is_readable_dir_or_leaf (n : node) : bool :=
  match n with
  | NDir m => can_read m
  | _ => true
  end.

Definition outside (p : path) (fs : gmap path node) : gmap path node :=
  filter (fun e => ¬ below p (fst e)) fs.

Definition inside (p : path) (fs : gmap path node) : gmap path node :=
  filter (fun e => below p (fst e)) fs.

(** [rmdir(2)]: an empty directory is taken out of its directory, which
    must let its entries be changed. *)
Definition rmdir_pure (now : Z) (fs : gmap path node) (p : path)
    : errno + gmap path node :=
  match fs !! p with
  | None => inl ENOENT
  | Some n =>
      match parent_allows fs p with
      | inl c => inl c
      | inr _ =>
          match n with
          | NDir _ =>
              match children fs p with
              | [] => inr (touch_parent now p (delete p fs))
              | _ :: _ => inl ENOTEMPTY
              end
          | _ => inl ENOTDIR
          end
      end
  end.

(** *** The recursive removal

    [fs.rmdir(p, { recursive: true })] looks at [p] with [stat] and, for a
    directory, removes the tree as [rimraf] does: an entry that is not a
    directory is unlinked; a directory is tried with [rmdir], and when it
    holds entries it is read, its entries are removed, and it is tried
    again.  An entry that cannot be removed stops the removal of the
    directories above it and makes the call fail, but what else can be
    removed is removed.

    So an entry yields when its directory lets its entries be changed and,
    for a directory that holds entries, when it can be read; an entry of the
    tree goes when it yields with every entry of the tree above and below
    it. *)

Definition yields (fs : gmap path node) (q : path) (n : node) : bool :=
  match parent_allows fs q with
  | inl _ => false
  | inr _ =>
      match n with
      | NDir m => can_read m || bool_decide (children fs q = [])
      | _ => true
      end
  end.

(** What stops [rimraf] at an entry that does not yield. *)
Definition obstacle (fs : gmap path node) (q : path) (n : node) : errno * string * path :=
  match parent_allows fs q with
  | inl c => (c, match n with NDir _ => "rmdir" | _ => "unlink" end, q)
  | inr _ => (EACCES, "scandir", q)
  end.

Definition all_yield (fs : gmap path node) (p : path) : Prop :=
  map_Forall (fun q n => below p q -> yields fs q n = true) fs.

(** The entry at [q] goes with the removal of the tree at [p]. *)
Definition goes (fs : gmap path node) (p q : path) : Prop :=
  below p q /\
  map_Forall (fun r n => below p r -> below r q \/ below q r -> yields fs r n = true) fs.

(** [rimraf] gets to the entry at [q]: the directories of the tree above it
    yield. *)
Definition reached (fs : gmap path node) (p q : path) : Prop :=
  below p q /\
  map_Forall (fun r n => below p r -> below r q -> r <> q -> yields fs r n = true) fs.

(** A directory that is left and has lost an entry gets the time of the
    removal. *)
Definition lost_an_entry (fs : gmap path node) (p a : path) : Prop :=
  ~ map_Forall (fun q _ => ~ (q <> a /\ dirname q = a /\ goes fs p q)) fs.

Definition rimraf_pure (now : Z) (fs : gmap path node) (p : path)
    : option (errno * string * path) * gmap path node :=
  if bool_decide (all_yield fs p) then (None, touch_parent now p (outside p fs))
  else
    let left := filter (fun e => ~ goes fs p (fst e)) fs in
    (Some (default (EACCES, "rmdir", p)
             (head (omap (fun e => if bool_decide (reached fs p (fst e))
                                      && negb (yields fs (fst e) (snd e))
                                   then Some (obstacle fs (fst e) (snd e)) else None)
                         (map_to_list fs)))),
     map_imap (fun a n => Some (if bool_decide (lost_an_entry fs p a)
                                then node_touch now n else n)) left).

Definition rmdir_recursive_pure (now : Z) (fs : gmap path node) (p : path)
    : option (errno * string * path) * gmap path node :=
  match stat_pure fs p with
  | inl c => (Some (c, "stat", p), fs)
  | inr st =>
      if isDirectory st then rimraf_pure now fs p
      else match rmdir_pure now fs p with
           | inl c => (Some (c, "rmdir", p), fs)
           | inr fs' => (None, fs')
           end
  end.

(** A call that failed part-way: it is logged as failed and leaves the map
    it had reached. *)
Definition partly (w : world) (c : call) (fs' : gmap path node) : world :=
  World fs' (clock w) (cwd w) (mounts w) (trace w ++ [Event c false]).

Definition conclude (c : call) (r : option (errno * string * path) * gmap path node)
    : M unit :=
  fun w =>
    match r with
    | (None, fs') => (Ok tt, committed w c fs')
    | (Some (code, name, q), fs') => (Throw (FsError code name q), partly w c fs')
    end.

(** [fs.rmdir(p)] and [fs.rmdir(p, { recursive: true })] *)
Definition rmdir (p : path) (recursive : bool) : M unit :=
  w <- get_world ;;
  if recursive
  then conclude (RmdirCall p true) (rmdir_recursive_pure (clock w) (files w) p)
  else commit (RmdirCall p false) "rmdir" p (rmdir_pure (clock w) (files w) p).

Definition rekey (src dst q : path) : path := dst ++ drop (length src) q.

Definition moved (src dst : path) (fs : gmap path node) : gmap path node :=
  list_to_map (List.map (fun e => (rekey src dst (fst e), snd e))
                        (map_to_list (inside src fs))).

(** [rename(2)]: both directories must let their entries be changed, and a
    directory that changes its parent must be writable itself (its [..]
    is rewritten).  A path is not moved across devices ([EXDEV]) nor into
    itself ([EINVAL]). *)
Definition rename_pure (now : Z) (ms : list path) (fs : gmap path node) (src dst : path)
    : errno + gmap path node :=
  match fs !! src with
  | None => inl ENOENT
  | Some n =>
      match parent_is_dir fs dst with
      | inl c => inl c
      | inr _ =>
          if negb (bool_decide (device_of ms src = device_of ms dst)) then inl EXDEV
          else if bool_decide (src = dst) then inr fs
          else if bool_decide (below src dst) then inl EINVAL
          else
            match parent_allows fs src, parent_allows fs dst with
            | inl c, _ => inl c
            | _, inl c => inl c
            | inr _, inr _ =>
                let go := inr (touch_parent now src (touch_parent now dst
                                 (moved src dst fs ∪ outside src (outside dst fs)))) in
                let go_dir (m : meta) :=
                  if bool_decide (dirname src = dirname dst) || can_write m
                  then go else inl EACCES in
                match n, fs !! dst with
                | NDir m, None => go_dir m
                | _, None => go
                | NDir m, Some (NDir _) =>
                    if bool_decide (dirname src = dirname dst) || can_write m then
                      match children fs dst with [] => go | _ :: _ => inl ENOTEMPTY end
                    else inl EACCES
                | NDir _, Some _ => inl ENOTDIR
                | _, Some (NDir _) => inl EISDIR
                | _, Some _ => go
                end
            end
      end
  end.

(** [fs.rename(src, dst)] *)
Definition rename (src dst : path) : M unit :=
  w <- get_world ;;
  commit (RenameCall src dst) "rename" src
    (rename_pure (clock w) (mounts w) (files w) src dst).

(** ** The host: parameters of an item *)

Abbreviation params := (list (string * value)).

(** [this.getNodeParameter(name, i, fallback)]: the value the host resolved
    for the item, the fallback when it has none, an error without either. *)
Definition getNodeParameter (ps : params) (name : string) (fallback : option value)
    : M value :=
  match fallback with
  | Some d => ret (default d (assoc name ps))
  | None =>
      match assoc name ps with
      | Some v => ret v
      | None => throw (MissingParameter name)
      end
  end.

(** A declared property of a node description: its name, its default and,
    for a collection, the options it offers. *)
Record property : Type := Property {
  prop_name : string;
  prop_default : value;
  prop_options : list (string * value);
}.

Definition declared_names (desc : list property) : list string :=
  flat_map (fun p => prop_name p :: List.map fst (prop_options p)) desc.

(** [path.resolve(v)] on a parameter: a type error unless it is a string. *)
Definition path_resolve (v : value) : M path :=
  match v with
  | VStr s => w <- get_world ;; ret (resolve (cwd w) s)
  | _ => throw (TypeError "path")
  end.

(** [new Date().toISOString().replace(/[:.]/g, '-')], rendered here as the
    decimal value of the clock. *)
Definition timestamp : M string :=
  w <- get_world ;; ret (pretty (clock w)).

(** [v * 1024 * 1024] for a size limit given in megabytes; [None] is NaN. *)
Definition megabytes (v : value) : option Z :=
  match v with
  | VNum n => Some (n * 1024 * 1024)
  | VBool b => Some (if b then 1024 * 1024 else 0)
  | _ => None
  end.

(** ** The loop over the input items *)

(** An element of [returnData]: the [json] that was pushed and the index of
    the input item it is paired with. *)
Record returned (A : Type) : Type := Returned { json : A; pairedItem : nat }.
Arguments Returned {A} json pairedItem.
Arguments json {A} r.
Arguments pairedItem {A} r.

(** The loop every [execute] is written as:
    [for (let i = 0; i < items.length; i++) {
       try { ...; returnData.push(...) }
       catch (error) { if (this.continueOnFail()) returnData.push(...) else throw error } }
     return [returnData]].
    [item] is the [try] block, which pushes after its last call that can
    fail, and [failed] builds the record of the [catch] block. *)
Fixpoint for_items {I A : Type} (continueOnFail : bool) (item : I -> M (list A))
    (failed : error -> I -> M A) (i : nat) (items : list I) (returnData : list (returned A))
    : M (list (returned A)) :=
  match items with
  | [] => ret returnData
  | x :: rest =>
      returnData' <-
        try_catch
          (pushed <- item x ;;
           ret (returnData ++ List.map (fun j => Returned j i) pushed))
          (fun error =>
             if continueOnFail then
               j <- failed error x ;; ret (returnData ++ [Returned j i])
             else throw error) ;;
      for_items continueOnFail item failed (S i) rest returnData'
  end.

(** ** crypto: [createHash('md5')], after RFC 1321 *)

Module crypto.

Definition mask32 (x : Z) : Z := Z.land x 4294967295.

Definition rotl32 (x c : Z) : Z :=
  mask32 (Z.lor (Z.shiftl x c) (Z.shiftr (mask32 x) (32 - c))).

Definition not32 (x : Z) : Z := Z.lxor (mask32 x) 4294967295.

(** [floor(2^32 * abs(sin(i + 1)))] for [i] from 0 to 63. *)
Definition sines : list Z :=
  [ 3614090360; 3905402710; 606105819; 3250441966;
    4118548399; 1200080426; 2821735955; 4249261313;
    1770035416; 2336552879; 4294925233; 2304563134;
    1804603682; 4254626195; 2792965006; 1236535329;
    4129170786; 3225465664; 643717713; 3921069994;
    3593408605; 38016083; 3634488961; 3889429448;
    568446438; 3275163606; 4107603335; 1163531501;
    2850285829; 4243563512; 1735328473; 2368359562;
    4294588738; 2272392833; 1839030562; 4259657740;
    2763975236; 1272893353; 4139469664; 3200236656;
    681279174; 3936430074; 3572445317; 76029189;
    3654602809; 3873151461; 530742520; 3299628645;
    4096336452; 1126891415; 2878612391; 4237533241;
    1700485571; 2399980690; 4293915773; 2240044497;
    1873313359; 4264355552; 2734768916; 1309151649;
    4149444226; 3174756917; 718787259; 3951481745 ].

Definition shifts : list Z :=
  [ 7; 12; 17; 22; 7; 12; 17; 22; 7; 12; 17; 22; 7; 12; 17; 22;
    5; 9; 14; 20; 5; 9; 14; 20; 5; 9; 14; 20; 5; 9; 14; 20;
    4; 11; 16; 23; 4; 11; 16; 23; 4; 11; 16; 23; 4; 11; 16; 23;
    6; 10; 15; 21; 6; 10; 15; 21; 6; 10; 15; 21; 6; 10; 15; 21 ].

Record digest_state : Set := DigestState { sa : Z; sb : Z; sc : Z; sd : Z }.

Definition initial : digest_state :=
  DigestState 1732584193 4023233417 2562383102 271733878.

Definition nthZ (l : list Z) (i : nat) : Z := List.nth i l 0.

(** One of the 64 operations on the block whose words are [ws]. *)
Definition operation (ws : list Z) (st : digest_state) (i : nat) : digest_state :=
  let '(DigestState a b c d) := st in
  let '(f, g) :=
    if (i <? 16)%nat then (Z.lor (Z.land b c) (Z.land (not32 b) d), i)
    else if (i <? 32)%nat then (Z.lor (Z.land d b) (Z.land (not32 d) c), ((5 * i + 1) mod 16)%nat)
    else if (i <? 48)%nat then (Z.lxor b (Z.lxor c d), ((3 * i + 5) mod 16)%nat)
    else (Z.lxor c (Z.lor b (not32 d)), ((7 * i) mod 16)%nat) in
  let f' := mask32 (f + a + nthZ sines i + nthZ ws g) in
  DigestState d (mask32 (b + rotl32 f' (nthZ shifts i))) b c.

Fixpoint le_word (bs : list Z) : Z :=
  match bs with
  | [] => 0
  | b :: r => b + 256 * le_word r
  end.

Fixpoint words (n : nat) (bs : list Z) : list Z :=
  match n with
  | O => []
  | S n' => le_word (take 4 bs) :: words n' (drop 4 bs)
  end.

Definition process_block (st : digest_state) (block : list Z) : digest_state :=
  let r := fold_left (operation (words 16 block)) (seq 0 64) st in
  DigestState (mask32 (sa st + sa r)) (mask32 (sb st + sb r))
              (mask32 (sc st + sc r)) (mask32 (sd st + sd r)).

Fixpoint le_bytes (n : nat) (x : Z) : list Z :=
  match n with
  | O => []
  | S n' => x mod 256 :: le_bytes n' (x / 256)
  end.

(** The message followed by a 1 bit, zeros up to 56 modulo 64, and its
    length in bits on 8 bytes. *)
Definition pad (msg : list Z) : list Z :=
  let len := length msg in
  let zeros := ((55 + 64 - len mod 64) mod 64)%nat in
  msg ++ [128] ++ repeat 0 zeros ++ le_bytes 8 (8 * Z.of_nat len).

Fixpoint blocks (n : nat) (bs : list Z) : list (list Z) :=
  match n with
  | O => []
  | S n' => take 64 bs :: blocks n' (drop 64 bs)
  end.

Definition hex_digit (x : Z) : ascii :=
  List.nth (Z.to_nat x)
    (list_ascii_of_string "0123456789abcdef") "0"%char.

Definition hex_byte (b : Z) : string :=
  String (hex_digit (b / 16)) (String (hex_digit (b mod 16)) EmptyString).

Definition hex (bs : list Z) : string :=
  fold_right (fun b acc => hex_byte b +:+ acc) "" bs.

Definition byte_value (b : Byte.byte) : Z := Z.of_N (Byte.to_N b).

(** [createHash('md5').update(data).digest('hex')] *)
Definition md5_hex (data : list Byte.byte) : string :=
  let padded := pad (List.map byte_value data) in
  let st := fold_left process_block (blocks (length padded / 64) padded) initial in
  hex (le_bytes 4 (sa st) ++ le_bytes 4 (sb st) ++ le_bytes 4 (sc st) ++ le_bytes 4 (sd st)).

End crypto.

(** ** utils/fileUtils.ts *)

Module fileUtils.

(** [copyDirectoryRecursive(source, destination, preserveTimestamps)] *)
Fixpoint copyDirectoryRecursive (fuel : nat) (source destination : path)
    (preserveTimestamps : bool) : M Z :=
  match fuel with
  | O => out_of_fuel
  | S fuel' =>
      (* Create destination directory *)
      mkdir_recursive destination ;;
      items <- readdir source ;;
      for_fold items 0 (fun totalBytes item =>
        let sourcePath := join source item in
        let destPath := join destination item in
        stats <- stat sourcePath ;;
        if isDirectory stats then
          n <- copyDirectoryRecursive fuel' sourcePath destPath preserveTimestamps ;;
          ret (totalBytes + n)
        else
          copyFile sourcePath destPath ;;
          (* Preserve timestamps if requested *)
          when preserveTimestamps
            (utimes destPath (atime (st_meta stats)) (mtime (st_meta stats))) ;;
          ret (totalBytes + size stats))
  end.

(** [calculateMd5Checksum(filePath)] *)
Definition calculateMd5Checksum (filePath : path) : M string :=
  stream <- readFile filePath ;;
  ret (crypto.md5_hex stream).

(** [isBinaryContent(buffer)]: a NUL or a control character other than tab,
    line feed and carriage return among the first 512 bytes. *)
Definition isBinaryContent (buffer : list Byte.byte) : bool :=
  existsb (fun b => let byte := crypto.byte_value b in
                    (byte =? 0) || ((byte <? 32) && negb (byte =? 9)
                                    && negb (byte =? 10) && negb (byte =? 13)))
          (take 512 buffer).

Definition mimeTypes : list (string * string) :=
  [ (".txt", "text/plain"); (".html", "text/html"); (".css", "text/css");
    (".js", "text/javascript"); (".json", "application/json");
    (".xml", "application/xml"); (".pdf", "application/pdf");
    (".jpg", "image/jpeg"); (".jpeg", "image/jpeg"); (".png", "image/png");
    (".gif", "image/gif"); (".svg", "image/svg+xml"); (".mp3", "audio/mpeg");
    (".mp4", "video/mp4"); (".zip", "application/zip");
    (".doc", "application/msword");
    (".docx", "application/vnd.openxmlformats-officedocument.wordprocessingml.document");
    (".xls", "application/vnd.ms-excel");
    (".xlsx", "application/vnd.openxmlformats-officedocument.spreadsheetml.sheet") ].

(** [detectMimeType(filePath)] *)
Definition detectMimeType (filePath : path) : string :=
  default "application/octet-stream"
    (assoc (toLowerCase (extname (basename filePath))) mimeTypes).

Record entry : Type := Entry {
  entry_path : path;
  entry_name : string;
  entry_isDirectory : bool;
  entry_stats : Stats;
}.

Section Walk.

(** The regular-expression engine: [RegExp_test pattern s] is
    [new RegExp(pattern).test(s)], and [None] when the constructor throws. *)
Variable RegExp_test : string -> string -> option bool.

Definition regex_test (pattern subject : string) : M bool :=
  match RegExp_test pattern subject with
  | Some b => ret b
  | None => throw (SyntaxError pattern)
  end.

(** [patterns.some(pattern => regex.test(item) || regex.test(fullPath))] *)
Fixpoint some_pattern (patterns : list string) (item : string) (fullPath : path) : M bool :=
  match patterns with
  | [] => ret false
  | pattern :: rest =>
      a <- regex_test pattern item ;;
      if a then ret true else
      b <- regex_test pattern (show_path fullPath) ;;
      if b then ret true else some_pattern rest item fullPath
  end.

(** The loop of a [try] block pushing onto an array declared before it: an
    iteration that throws ends the loop, and what earlier iterations pushed
    is still in the array when the handler runs. *)
Fixpoint for_push {A S : Type} (xs : list A) (acc : S) (body : S -> A -> M S) : M S :=
  match xs with
  | [] => ret acc
  | x :: rest =>
      fun w =>
        match body acc x w with
        | (Ok acc', w') => for_push rest acc' body w'
        | (Throw _, w') => (Ok acc, w')
        | (OutOfFuel, w') => (OutOfFuel, w')
        end
  end.

(** [getFilesRecursively(dirPath, maxDepth, currentDepth, patterns,
    excludePatterns)].  [budget] bounds the recursion of the model; the
    depth test of the source stops it first (see [getFilesRecursively]). *)
Fixpoint getFilesRecursively_from (budget : nat) (dirPath : path)
    (maxDepth currentDepth : Z) (patterns excludePatterns : list string)
    : M (list entry) :=
  if maxDepth <=? currentDepth then ret [] else
  match budget with
  | O => out_of_fuel
  | S budget' =>
      try_catch
        (items <- readdir dirPath ;;
         for_push items [] (fun results item =>
           let fullPath := join dirPath item in
           stats <- stat fullPath ;;
           let fileInfo := Entry fullPath item (isDirectory stats) stats in
           (* Apply exclude patterns *)
           shouldExclude <- some_pattern excludePatterns item fullPath ;;
           if shouldExclude then ret results else
           (* Apply include patterns (if any) *)
           skip <-
             (if (0 <? length patterns)%nat then
                shouldInclude <- some_pattern patterns item fullPath ;;
                ret (negb shouldInclude && negb (isDirectory stats))
              else ret false) ;;
           if skip then ret results else
           let results := results ++ [fileInfo] in
           (* Recurse into directories *)
           if isDirectory stats then
             subResults <- getFilesRecursively_from budget' fullPath maxDepth
                             (currentDepth + 1) patterns excludePatterns ;;
             ret (results ++ subResults)
           else ret results))
        (fun _ => (* Skip directories we can't read *) ret [])
  end.

Definition getFilesRecursively (dirPath : path) (maxDepth currentDepth : Z)
    (patterns excludePatterns : list string) : M (list entry) :=
  getFilesRecursively_from (Z.to_nat (maxDepth - currentDepth)) dirPath
    maxDepth currentDepth patterns excludePatterns.

End Walk.

End fileUtils.

(** ** nodes/DeleteFile *)

Module DeleteFile.

Definition description : list property :=
  [ Property "filePath" (VStr "") [];
    Property "deleteMode" (VStr "auto") [];
    Property "safetyOptions" (VObj [])
      [ ("recursive", VBool false);
        ("requireConfirmation", VBool true);
        ("confirmationText", VStr "DELETE");
        ("maxFileSize", VNum 0);
        ("createBackup", VBool false);
        ("backupDirectory", VStr "");
        ("skipIfNotExists", VBool false) ] ].

Inductive output : Type :=
  | Skipped (p : path)
  | Deleted (p : path) (name : string) (type : string) (sz : Z) (backupPath : option path).

(** The confirmation phrase in force: [safetyOptions.confirmationText || 'DELETE']. *)
Definition confirmationText (safetyOptions : value) : value :=
  js_or (field safetyOptions "confirmationText") (VStr "DELETE").

(** The body of the loop of [execute], for one item. *)
Definition execute_item (ps : params) : M output :=
  filePath <- getNodeParameter ps "filePath" None ;;
  deleteMode <- getNodeParameter ps "deleteMode" None ;;
  safetyOptions <- getNodeParameter ps "safetyOptions" (Some (VObj [])) ;;
  (* Validate file path *)
  when (negb (truthy filePath)) (throw (OperationError PathRequired)) ;;
  (* Resolve absolute path *)
  absolutePath <- path_resolve filePath ;;
  (* Check if path exists *)
  found <- existsSync absolutePath ;;
  if negb found then
    if truthy (field safetyOptions "skipIfNotExists")
    then ret (Skipped absolutePath)
    else throw (OperationError (PathNotFound absolutePath))
  else
  (* Get file stats *)
  stats <- stat absolutePath ;;
  let isFile := isFile stats in
  let isDirectory := isDirectory stats in
  (* Validate delete mode *)
  when (strict_eq deleteMode (VStr "file") && negb isFile)
    (throw (OperationError (NotAFile absolutePath))) ;;
  when (strict_eq deleteMode (VStr "directory") && negb isDirectory)
    (throw (OperationError (NotADirectory absolutePath))) ;;
  (* Check file size limit *)
  when (truthy (field safetyOptions "maxFileSize") && isFile)
    (match megabytes (field safetyOptions "maxFileSize") with
     | Some maxSizeBytes =>
         when (maxSizeBytes <? size stats)
           (throw (OperationError (FileTooLarge (size stats) maxSizeBytes)))
     | None => ret tt
     end) ;;
  (* Check confirmation requirement *)
  when (truthy (field safetyOptions "requireConfirmation"))
    (providedConfirmation <- getNodeParameter ps "confirmationProvided" (Some (VStr "")) ;;
     when (negb (strict_eq providedConfirmation (confirmationText safetyOptions)))
       (throw (OperationError (ConfirmationRequired (confirmationText safetyOptions))))) ;;
  (* Create backup if requested *)
  backupPath <-
    (if truthy (field safetyOptions "createBackup") then
       backupDir <- path_resolve (js_or (field safetyOptions "backupDirectory") (VStr "/tmp")) ;;
       stamp <- timestamp ;;
       let backupName := basename absolutePath +:+ ".backup." +:+ stamp in
       let backupPath := join backupDir backupName in
       (* Ensure backup directory exists *)
       mkdir_recursive (dirname backupPath) ;;
       (if isFile then copyFile absolutePath backupPath
        else if isDirectory then throw (OperationError DirectoryBackupNotImplemented)
        else ret tt) ;;
       ret (Some backupPath)
     else ret None) ;;
  (* Perform deletion *)
  (if isFile then unlink absolutePath
   else if isDirectory then
     if truthy (field safetyOptions "recursive") then rmdir absolutePath true
     else rmdir absolutePath false
   else ret tt) ;;
  ret (Deleted absolutePath (basename absolutePath)
         (if isFile then "file" else "directory") (size stats) backupPath).

(** What [execute] pushes for an item: the record of the [try] block, or
    that of the [catch] block, [{ success: false, error, path }]. *)
Inductive answer : Type :=
  | Success (returnItem : output)
  | Failure (message : error) (filePath : value).

Definition execute (continueOnFail : bool) (items : list params) : M (list (returned answer)) :=
  for_items continueOnFail
    (fun ps => returnItem <- execute_item ps ;; ret [Success returnItem])
    (fun error ps =>
       filePath <- getNodeParameter ps "filePath" (Some (VStr "")) ;;
       ret (Failure error filePath))
    0 items [].

End DeleteFile.

(** ** nodes/MoveFile *)

Module MoveFile.

Definition description : list property :=
  [ Property "sourcePath" (VStr "") [];
    Property "destinationPath" (VStr "") [];
    Property "moveOptions" (VObj [])
      [ ("overwrite", VBool false);
        ("createDestDir", VBool true);
        ("moveMode", VStr "auto");
        ("fallbackCopy", VBool true);
        ("createBackup", VBool false);
        ("backupDirectory", VStr "") ] ].

Record output : Type := Moved {
  sourcePath : path;
  destinationPath : path;
  sourceType : string;
  out_size : Z;
  moveMethod : string;
  backupPath : option path;
}.

Definition quote : string := String (ascii_of_nat 34) EmptyString.

(** The marker written in place of a directory backup:
    [JSON.stringify({ originalPath, backupTime, type, note })]. *)
Definition backup_reference (originalPath : path) (backupTime : string) : string :=
  let str s := quote +:+ s +:+ quote in
  "{" +:+ str "originalPath" +:+ ":" +:+ str (show_path originalPath) +:+ ","
      +:+ str "backupTime" +:+ ":" +:+ str backupTime +:+ ","
      +:+ str "type" +:+ ":" +:+ str "directory" +:+ ","
      +:+ str "note" +:+ ":" +:+ str "Directory backup - original was moved" +:+ "}".

(** The backup step of [execute] ("Create backup if requested"). *)
Definition create_backup (moveOptions : value) (absoluteSourcePath : path)
    (isSourceFile isSourceDirectory : bool) : M (option path) :=
  if truthy (js_or (field moveOptions "createBackup") (VBool false)) then
    backupDir <- path_resolve (js_or (js_or (field moveOptions "backupDirectory") (VStr ""))
                                     (VStr "/tmp")) ;;
    stamp <- timestamp ;;
    let backupName := basename absoluteSourcePath +:+ ".backup." +:+ stamp in
    let backupPath := join backupDir backupName in
    (* Ensure backup directory exists *)
    mkdir_recursive (dirname backupPath) ;;
    (if isSourceFile then copyFile absoluteSourcePath backupPath
     else if isSourceDirectory then
       (* For directories, create a simple backup reference *)
       stamp' <- timestamp ;;
       writeFile (dirname backupPath ++ [basename backupPath +:+ ".info"])
         (list_byte_of_string (backup_reference absoluteSourcePath stamp'))
     else ret tt) ;;
    ret (Some backupPath)
  else ret None.

Definition errno_of (e : error) : errno :=
  match e with
  | FsError c _ _ => c
  | _ => EINVAL
  end.

(** The move itself ("Perform move operation"): the method used is returned. *)
Definition perform_move (fuel : nat) (fallbackCopy : bool)
    (absoluteSourcePath absoluteDestPath : path)
    (isSourceFile isSourceDirectory : bool) : M string :=
  try_catch
    ((* Try atomic rename first (fastest) *)
     rename absoluteSourcePath absoluteDestPath ;;
     ret "atomic")
    (fun renameError =>
       if fallbackCopy then
         (* Fallback to copy + delete (for cross-filesystem moves) *)
         (if isSourceFile then
            copyFile absoluteSourcePath absoluteDestPath ;;
            unlink absoluteSourcePath
          else if isSourceDirectory then
            fileUtils.copyDirectoryRecursive fuel absoluteSourcePath absoluteDestPath false ;;
            rmdir absoluteSourcePath true
          else ret tt) ;;
         ret "copy-delete"
       else
         throw (OperationError (MoveFailedNoFallback (errno_of renameError)))).

(** The body of the loop of [execute], for one item. *)
Definition execute_item (fuel : nat) (ps : params) : M output :=
  sourcePath <- getNodeParameter ps "sourcePath" None ;;
  destinationPath <- getNodeParameter ps "destinationPath" None ;;
  moveOptions <- getNodeParameter ps "moveOptions" (Some (VObj [])) ;;
  let overwrite := truthy (js_or (field moveOptions "overwrite") (VBool false)) in
  let createDestDir := not_false (field moveOptions "createDestDir") in
  let moveMode := js_or (field moveOptions "moveMode") (VStr "auto") in
  let fallbackCopy := not_false (field moveOptions "fallbackCopy") in
  (* Validate paths *)
  when (negb (truthy sourcePath)) (throw (OperationError SourceRequired)) ;;
  when (negb (truthy destinationPath)) (throw (OperationError DestinationRequired)) ;;
  (* Resolve absolute paths *)
  absoluteSourcePath <- path_resolve sourcePath ;;
  absoluteDestPath <- path_resolve destinationPath ;;
  (* Check if source exists *)
  found <- existsSync absoluteSourcePath ;;
  when (negb found) (throw (OperationError (SourceNotFound absoluteSourcePath))) ;;
  (* Get source stats *)
  sourceStats <- stat absoluteSourcePath ;;
  let isSourceFile := isFile sourceStats in
  let isSourceDirectory := isDirectory sourceStats in
  (* Validate move mode *)
  when (strict_eq moveMode (VStr "file") && negb isSourceFile)
    (throw (OperationError (NotAFile absoluteSourcePath))) ;;
  when (strict_eq moveMode (VStr "directory") && negb isSourceDirectory)
    (throw (OperationError (NotADirectory absoluteSourcePath))) ;;
  (* Check if destination exists *)
  destExists <- existsSync absoluteDestPath ;;
  when (destExists && negb overwrite)
    (throw (OperationError (DestinationExists absoluteDestPath))) ;;
  (* Create destination directory if needed *)
  when createDestDir
    (let destDir := dirname absoluteDestPath in
     dirExists <- existsSync destDir ;;
     when (negb dirExists) (mkdir_recursive destDir)) ;;
  (* Create backup if requested *)
  backupPath <- create_backup moveOptions absoluteSourcePath isSourceFile isSourceDirectory ;;
  (* Perform move operation *)
  moveMethod <- perform_move fuel fallbackCopy absoluteSourcePath absoluteDestPath
                  isSourceFile isSourceDirectory ;;
  (* Get destination stats *)
  destStats <- stat absoluteDestPath ;;
  ret (Moved absoluteSourcePath absoluteDestPath
         (if isSourceFile then "file" else "directory")
         (size destStats) moveMethod backupPath).

(** What [execute] pushes for an item: the record of the [try] block, or
    that of the [catch] block,
    [{ success: false, moved: false, error, sourcePath, destinationPath }]. *)
Inductive answer : Type :=
  | Success (returnItem : output)
  | Failure (message : error) (sourcePath destinationPath : value).

Definition execute (fuel : nat) (continueOnFail : bool) (items : list params)
    : M (list (returned answer)) :=
  for_items continueOnFail
    (fun ps => returnItem <- execute_item fuel ps ;; ret [Success returnItem])
    (fun error ps =>
       sourcePath <- getNodeParameter ps "sourcePath" (Some (VStr "")) ;;
       destinationPath <- getNodeParameter ps "destinationPath" (Some (VStr "")) ;;
       ret (Failure error sourcePath destinationPath))
    0 items [].

End MoveFile.

(** ** nodes/CopyFile *)

Module CopyFile.

Definition description : list property :=
  [ Property "sourcePath" (VStr "") [];
    Property "destinationPath" (VStr "") [];
    Property "copyOptions" (VObj [])
      [ ("overwrite", VBool false);
        ("preserveTimestamps", VBool true);
        ("createDestDir", VBool true);
        ("copyMode", VStr "auto");
        ("recursive", VBool true) ] ].

Record output : Type := Copied {
  sourcePath : path;
  destinationPath : path;
  sourceType : string;
  copiedBytes : Z;
  preservedTimestamps : bool;
}.

(** The private method [CopyFile.copyDirectoryRecursive], which [execute]
    does not call: it calls the function imported from [utils/fileUtils]. *)
Fixpoint copyDirectoryRecursive (fuel : nat) (sourcePath destPath : path)
    (preserveTimestamps : bool) : M Z :=
  match fuel with
  | O => out_of_fuel
  | S fuel' =>
      (* Create destination directory *)
      mkdir_recursive destPath ;;
      (* Get directory contents *)
      items <- readdir sourcePath ;;
      totalBytes <-
        for_fold items 0 (fun totalBytes item =>
          let sourceItemPath := join sourcePath item in
          let destItemPath := join destPath item in
          stats <- stat sourceItemPath ;;
          if isFile stats then
            copyFile sourceItemPath destItemPath ;;
            when preserveTimestamps
              (utimes destItemPath (atime (st_meta stats)) (mtime (st_meta stats))) ;;
            ret (totalBytes + size stats)
          else if isDirectory stats then
            subdirBytes <- copyDirectoryRecursive fuel' sourceItemPath destItemPath
                             preserveTimestamps ;;
            ret (totalBytes + subdirBytes)
          else ret totalBytes) ;;
      (* Preserve directory timestamps *)
      when preserveTimestamps
        (sourceStats <- stat sourcePath ;;
         utimes destPath (atime (st_meta sourceStats)) (mtime (st_meta sourceStats))) ;;
      ret totalBytes
  end.

(** The body of the loop of [execute], for one item. *)
Definition execute_item (fuel : nat) (ps : params) : M output :=
  sourcePath <- getNodeParameter ps "sourcePath" None ;;
  destinationPath <- getNodeParameter ps "destinationPath" None ;;
  copyOptions <- getNodeParameter ps "copyOptions" (Some (VObj [])) ;;
  let overwrite := truthy (js_or (field copyOptions "overwrite") (VBool false)) in
  let preserveTimestamps := not_false (field copyOptions "preserveTimestamps") in
  let createDestDir := not_false (field copyOptions "createDestDir") in
  let copyMode := js_or (field copyOptions "copyMode") (VStr "auto") in
  let recursive := not_false (field copyOptions "recursive") in
  (* Validate paths *)
  when (negb (truthy sourcePath)) (throw (OperationError SourceRequired)) ;;
  when (negb (truthy destinationPath)) (throw (OperationError DestinationRequired)) ;;
  (* Resolve absolute paths *)
  absoluteSourcePath <- path_resolve sourcePath ;;
  absoluteDestPath <- path_resolve destinationPath ;;
  (* Check if source exists *)
  found <- existsSync absoluteSourcePath ;;
  when (negb found) (throw (OperationError (SourceNotFound absoluteSourcePath))) ;;
  (* Get source stats *)
  sourceStats <- stat absoluteSourcePath ;;
  let isSourceFile := isFile sourceStats in
  let isSourceDirectory := isDirectory sourceStats in
  (* Validate copy mode *)
  when (strict_eq copyMode (VStr "file") && negb isSourceFile)
    (throw (OperationError (NotAFile absoluteSourcePath))) ;;
  when (strict_eq copyMode (VStr "directory") && negb isSourceDirectory)
    (throw (OperationError (NotADirectory absoluteSourcePath))) ;;
  (* Check if destination exists *)
  destExists <- existsSync absoluteDestPath ;;
  when (destExists && negb overwrite)
    (throw (OperationError (DestinationExists absoluteDestPath))) ;;
  (* Create destination directory if needed *)
  when createDestDir
    (let destDir := dirname absoluteDestPath in
     dirExists <- existsSync destDir ;;
     when (negb dirExists) (mkdir_recursive destDir)) ;;
  (* Perform copy operation *)
  copiedBytes <-
    (if isSourceFile then
       copyFile absoluteSourcePath absoluteDestPath ;;
       (* Preserve timestamps if requested *)
       when preserveTimestamps
         (utimes absoluteDestPath (atime (st_meta sourceStats)) (mtime (st_meta sourceStats))) ;;
       ret (size sourceStats)
     else if isSourceDirectory && recursive then
       fileUtils.copyDirectoryRecursive fuel absoluteSourcePath absoluteDestPath
         preserveTimestamps
     else if isSourceDirectory && negb recursive then
       throw (OperationError DirectoryNeedsRecursive)
     else ret 0) ;;
  (* Get destination stats *)
  destStats <- stat absoluteDestPath ;;
  ret (Copied absoluteSourcePath absoluteDestPath
         (if isSourceFile then "file" else "directory")
         copiedBytes preserveTimestamps).

(** What [execute] pushes for an item: the record of the [try] block, or
    that of the [catch] block,
    [{ success: false, copied: false, error, sourcePath, destinationPath }]. *)
Inductive answer : Type :=
  | Success (returnItem : output)
  | Failure (message : error) (sourcePath destinationPath : value).

Definition execute (fuel : nat) (continueOnFail : bool) (items : list params)
    : M (list (returned answer)) :=
  for_items continueOnFail
    (fun ps => returnItem <- execute_item fuel ps ;; ret [Success returnItem])
    (fun error ps =>
       sourcePath <- getNodeParameter ps "sourcePath" (Some (VStr "")) ;;
       destinationPath <- getNodeParameter ps "destinationPath" (Some (VStr "")) ;;
       ret (Failure error sourcePath destinationPath))
    0 items [].

End CopyFile.

(** ** Coercions of JavaScript used by the filters *)

Definition digit_value (c : ascii) : option Z :=
  let n := nat_of_ascii c in
  if (Nat.leb 48 n && Nat.leb n 57)%bool then Some (Z.of_nat (n - 48)) else None.

Fixpoint parse_digits (s : string) (acc : Z) : option Z :=
  match s with
  | EmptyString => Some acc
  | String c r =>
      match digit_value c with
      | Some d => parse_digits r (10 * acc + d)
      | None => None
      end
  end.

(** [Number(v)] on the values a size option can hold; [None] is NaN. *)
Definition to_number (v : value) : option Z :=
  match v with
  | VNum n => Some n
  | VBool b => Some (if b then 1 else 0)
  | VStr s => parse_digits (trim s) 0
  | _ => None
  end.

(** [String(v)] *)
Definition to_string (v : value) : string :=
  match v with
  | VStr s => s
  | VNum n => pretty n
  | VBool b => if b then "true" else "false"
  | VUndefined => "undefined"
  | VArr _ => ""
  | VObj _ => "[object Object]"
  end.

(** [x < v] and [x > v] for a number [x]: false when [v] is not a number. *)
Definition num_lt (x : Z) (v : value) : bool :=
  match to_number v with Some n => x <? n | None => false end.
Definition num_gt (x : Z) (v : value) : bool :=
  match to_number v with Some n => n <? x | None => false end.

Fixpoint relative (from to : path) : path :=
  match from, to with
  | a :: f, b :: t =>
      if String.eqb a b then relative f t
      else List.map (fun _ => "..") from ++ to
  | [], t => t
  | f, [] => List.map (fun _ => "..") f
  end.

(** ** nodes/ListFiles *)

Module ListFiles.

Definition description : list property :=
  [ Property "directoryPath" (VStr "") [];
    Property "listMode" (VStr "both") [];
    Property "recursive" (VBool false) [];
    Property "includeHidden" (VBool false) [];
    Property "filterOptions" (VObj [])
      [ ("extensionFilter", VStr ""); ("namePattern", VStr "");
        ("maxFiles", VNum 0); ("minSize", VNum 0); ("maxSize", VNum 0) ];
    Property "outputOptions" (VObj [])
      [ ("includeStats", VBool true); ("returnAsArray", VBool false);
        ("sortBy", VStr "name"); ("sortOrder", VStr "asc") ] ].

(** An entry of the listing ([sizeHuman], a display string, is left out). *)
Record fileInfo : Type := FileInfo {
  fi_name : string;
  fi_path : path;
  fi_relativePath : path;
  fi_type : string;
  fi_extension : string;
  fi_size : Z;
  fi_created : Z;
  fi_modified : Z;
  fi_accessed : Z;
  fi_isFile : bool;
  fi_isDirectory : bool;
  fi_permissions : Z;
}.

Section WithRegExp.

Variable RegExp_test : string -> string -> option bool.

(** [passesFileFilters(filePath, stats, filterOptions)] *)
Definition passesFileFilters (filePath : path) (stats : Stats) (filterOptions : value)
    : M bool :=
  (* Extension filter *)
  extensionOk <-
    (if truthy (field filterOptions "extensionFilter") then
       match field filterOptions "extensionFilter" with
       | VStr s =>
           let extensions := List.map (fun ext => toLowerCase (trim ext)) (split_on "," s) in
           let fileExt := toLowerCase (extname (basename filePath)) in
           ret (existsb (String.eqb fileExt) extensions)
       | _ => throw (TypeError "split")
       end
     else ret true) ;;
  if negb extensionOk then ret false else
  (* Name pattern filter *)
  nameOk <-
    (if truthy (field filterOptions "namePattern") then
       fileUtils.regex_test RegExp_test (to_string (field filterOptions "namePattern"))
         (basename filePath)
     else ret true) ;;
  if negb nameOk then ret false else
  (* Size filters *)
  if truthy (field filterOptions "minSize") && num_lt (size stats) (field filterOptions "minSize")
  then ret false else
  if truthy (field filterOptions "maxSize") && num_gt (size stats) (field filterOptions "maxSize")
  then ret false else
  ret true.

(** [getFilesRecursively(dirPath, recursive, includeHidden, listMode,
    filterOptions)] *)
Fixpoint getFilesRecursively (fuel : nat) (dirPath : path)
    (recursive includeHidden : bool) (listMode filterOptions : value)
    : M (list fileInfo) :=
  match fuel with
  | O => out_of_fuel
  | S fuel' =>
      items <- readdir dirPath ;;
      for_fold items [] (fun files item =>
        let fullPath := join dirPath item in
        stats <- stat fullPath ;;
        (* Skip hidden files if not included *)
        if negb includeHidden && startsWith item "." then ret files else
        let isDirectory := isDirectory stats in
        let isFile := isFile stats in
        (* Apply list mode filter *)
        if strict_eq listMode (VStr "files") && negb isFile then ret files else
        if strict_eq listMode (VStr "directories") && negb isDirectory then ret files else
        (* Apply file filters *)
        pass <- (if isFile then passesFileFilters fullPath stats filterOptions else ret true) ;;
        if isFile && negb pass then ret files else
        w <- get_world ;;
        let fileInfo :=
          FileInfo item fullPath (relative (cwd w) fullPath)
            (if isDirectory then "directory" else "file")
            (if isFile then extname item else "")
            (size stats) (birthtime (st_meta stats)) (mtime (st_meta stats))
            (atime (st_meta stats)) isFile isDirectory (mode (st_meta stats)) in
        let files := files ++ [fileInfo] in
        (* Recurse into subdirectories if enabled *)
        if recursive && isDirectory then
          subFiles <- getFilesRecursively fuel' fullPath recursive includeHidden
                        listMode filterOptions ;;
          ret (files ++ subFiles)
        else ret files)
  end.

Inductive sort_key : Type := KeyStr (s : string) | KeyNum (n : Z).

Definition key_lt (a b : sort_key) : bool :=
  match a, b with
  | KeyStr x, KeyStr y => String.ltb x y
  | KeyNum x, KeyNum y => x <? y
  | _, _ => false
  end.

Definition sort_key_of (sortBy : value) (f : fileInfo) : sort_key :=
  match sortBy with
  | VStr "size" => KeyNum (fi_size f)
  | VStr "modified" => KeyNum (fi_modified f)
  | VStr "created" => KeyNum (fi_created f)
  | VStr "extension" => KeyStr (toLowerCase (fi_extension f))
  | _ => KeyStr (toLowerCase (fi_name f))
  end.

(** The comparator handed to [Array.prototype.sort]. *)
Definition compare_files (sortBy sortOrder : value) (a b : fileInfo) : Z :=
  let aValue := sort_key_of sortBy a in
  let bValue := sort_key_of sortBy b in
  if key_lt aValue bValue then (if strict_eq sortOrder (VStr "asc") then -1 else 1)
  else if key_lt bValue aValue then (if strict_eq sortOrder (VStr "asc") then 1 else -1)
  else 0.

(** [Array.prototype.sort] is stable: an element goes after those that do
    not compare greater. *)
Fixpoint insert_sorted (cmp : fileInfo -> fileInfo -> Z) (x : fileInfo)
    (sorted : list fileInfo) : list fileInfo :=
  match sorted with
  | [] => [x]
  | y :: rest => if cmp x y <? 0 then x :: y :: rest else y :: insert_sorted cmp x rest
  end.

Definition sortFiles (files : list fileInfo) (sortBy sortOrder : value) : list fileInfo :=
  fold_left (fun sorted x => insert_sorted (compare_files sortBy sortOrder) x sorted) files [].

Inductive output : Type :=
  | Listing (directoryPath : path) (fileCount : nat) (files : list fileInfo)
  | Item (file : fileInfo).

(** The body of the loop of [execute], for one item. *)
Definition execute_item (fuel : nat) (ps : params) : M (list output) :=
  directoryPath <- getNodeParameter ps "directoryPath" None ;;
  listMode <- getNodeParameter ps "listMode" None ;;
  recursive <- getNodeParameter ps "recursive" None ;;
  includeHidden <- getNodeParameter ps "includeHidden" None ;;
  filterOptions <- getNodeParameter ps "filterOptions" (Some (VObj [])) ;;
  outputOptions <- getNodeParameter ps "outputOptions" (Some (VObj [])) ;;
  (* Validate directory path *)
  when (negb (truthy directoryPath)) (throw (OperationError DirectoryPathRequired)) ;;
  (* Resolve absolute path *)
  absolutePath <- path_resolve directoryPath ;;
  (* Check if directory exists *)
  found <- existsSync absolutePath ;;
  when (negb found) (throw (OperationError (DirectoryNotFound absolutePath))) ;;
  (* Check if it's a directory *)
  stats <- stat absolutePath ;;
  when (negb (isDirectory stats)) (throw (OperationError (NotADirectory absolutePath))) ;;
  (* Get files *)
  files <- getFilesRecursively fuel absolutePath (truthy recursive) (truthy includeHidden)
             listMode filterOptions ;;
  (* Sort files if requested *)
  let sortedFiles := sortFiles files (js_or (field outputOptions "sortBy") (VStr "name"))
                       (js_or (field outputOptions "sortOrder") (VStr "asc")) in
  (* Apply max files limit *)
  let maxFiles := js_or (field filterOptions "maxFiles") (VNum 0) in
  let finalFiles :=
    match to_number maxFiles with
    | Some n => if 0 <? n then take (Z.to_nat n) sortedFiles else sortedFiles
    | None => sortedFiles
    end in
  (* Return data based on output options *)
  if truthy (field outputOptions "returnAsArray")
  then ret [Listing absolutePath (length finalFiles) finalFiles]
  else ret (List.map Item finalFiles).

End WithRegExp.

End ListFiles.

(** ** Mutable locals around a [try] block

    The statements of a [try] block that assign to variables declared
    before it, run in order; when one throws, the handler sees the
    variables as the statements before it left them. *)

Fixpoint run_try {L : Type} (steps : list (L -> M L)) (l : L) : M (L * option error) :=
  match steps with
  | [] => ret (l, None)
  | step :: rest =>
      fun w =>
        match step l w with
        | (Ok l', w') => run_try rest l' w'
        | (Throw e, w') => (Ok (l, Some e), w')
        | (OutOfFuel, w') => (OutOfFuel, w')
        end
  end.

(** ** nodes/FileExists *)

Module FileExists.

Definition description : list property :=
  [ Property "filePath" (VStr "") [];
    Property "checkOptions" (VObj [])
      [ ("checkType", VStr "any"); ("includeDetails", VBool false);
        ("checkAccess", VArr []); ("resolveSymlinks", VBool false) ];
    Property "outputOptions" (VObj [])
      [ ("onlyIfExists", VBool false); ("includeInputData", VBool true) ] ].

(** [result.details] (the octal rendering of the mode and the owner ids are
    left out). *)
Record details : Type := Details {
  d_type : string;
  d_size : Z;
  d_created : Z;
  d_modified : Z;
  d_accessed : Z;
  d_isFile : bool;
  d_isDirectory : bool;
  d_isSymbolicLink : bool;
  d_mode : Z;
  d_realPath : option path;
}.

Record output : Type := Output {
  o_path : path;
  o_name : string;
  o_directory : path;
  o_exists : bool;
  o_pathExists : bool;
  o_typeMatches : bool;
  o_checkType : value;
  o_details : option details;
  o_access : option (list (string * bool));
  o_inputData : option value;
}.

(** The variables declared before the [try] of [execute]. *)
Record locals : Type := Locals {
  typeMatches : bool;
  stats : option Stats;
  realPath : option path;
  accessPermissions : list (string * bool);
}.

(** [accessPermissions[k] = b] *)
Fixpoint set_key (k : string) (b : bool) (o : list (string * bool)) : list (string * bool) :=
  match o with
  | [] => [(k, b)]
  | (k', b') :: r => if String.eqb k k' then (k, b) :: r else (k', b') :: set_key k b r
  end.

(** One turn of the loop over [accessChecks], with its own [try]. *)
Definition probe (absolutePath : path) (perms : list (string * bool)) (accessType : value)
    : M (list (string * bool)) :=
  try_catch
    (match accessType with
     | VStr "readable" => access absolutePath 8 ;; ret (set_key "readable" true perms)
     | VStr "writable" => access absolutePath 7 ;; ret (set_key "writable" true perms)
     | VStr "executable" => access absolutePath 6 ;; ret (set_key "executable" true perms)
     | _ => ret perms
     end)
    (fun _ => ret (set_key (to_string accessType) false perms)).

(** [accessChecks.length] and the values [for ... of] yields. *)
Definition js_length (v : value) : option Z :=
  match v with
  | VArr l => Some (Z.of_nat (length l))
  | VStr s => Some (Z.of_nat (String.length s))
  | VObj _ => to_number (field v "length")
  | _ => None
  end.

Definition iterate (v : value) : M (list value) :=
  match v with
  | VArr l => ret l
  | VStr s => ret (List.map (fun c => VStr (String c EmptyString)) (list_ascii_of_string s))
  | _ => throw (TypeError "not iterable")
  end.

(** The statements of the [try] block, in order. *)
Definition try_block (checkOptions : value) (absolutePath : path) : list (locals -> M locals) :=
  [ (fun l => st <- stat absolutePath ;;
              ret (Locals (typeMatches l) (Some st) (realPath l) (accessPermissions l)));
    (* Check type requirements *)
    (fun l =>
       let st := default (MkStats KOther 0 no_meta) (stats l) in
       let checkType := js_or (field checkOptions "checkType") (VStr "any") in
       let matches :=
         match checkType with
         | VStr "file" => isFile st
         | VStr "directory" => isDirectory st
         | _ => true
         end in
       ret (Locals matches (stats l) (realPath l) (accessPermissions l)));
    (* Resolve symbolic links if requested *)
    (fun l =>
       let st := default (MkStats KOther 0 no_meta) (stats l) in
       if truthy (field checkOptions "resolveSymlinks") && isSymbolicLink st then
         try_catch
           (rp <- realpath absolutePath ;;
            ret (Locals (typeMatches l) (stats l) (Some rp) (accessPermissions l)))
           (fun _ => (* Keep realPath as null if resolution fails *) ret l)
       else ret l);
    (* Check access permissions if requested *)
    (fun l =>
       let accessChecks := js_or (field checkOptions "checkAccess") (VArr []) in
       match js_length accessChecks with
       | Some n =>
           if 0 <? n then
             items <- iterate accessChecks ;;
             perms <- for_fold items (accessPermissions l) (probe absolutePath) ;;
             ret (Locals (typeMatches l) (stats l) (realPath l) perms)
           else ret l
       | None => ret l
       end) ].

(** The body of the loop of [execute], for one item; [None] when the item
    is skipped ([onlyIfExists]). *)
Definition execute_item (inputData : value) (ps : params) : M (option output) :=
  filePath <- getNodeParameter ps "filePath" None ;;
  checkOptions <- getNodeParameter ps "checkOptions" (Some (VObj [])) ;;
  outputOptions <- getNodeParameter ps "outputOptions" (Some (VObj [])) ;;
  (* Validate file path *)
  when (negb (truthy filePath)) (throw (OperationError PathRequired)) ;;
  (* Resolve absolute path *)
  absolutePath <- path_resolve filePath ;;
  (* Check basic existence *)
  found <- existsSync absolutePath ;;
  let l0 := Locals true None None [] in
  l <- (if found then
          r <- run_try (try_block checkOptions absolutePath) l0 ;;
          match r with
          | (l, Some _) =>
              (* Path exists but can't get stats (permission issue, etc.) *)
              ret (Locals (typeMatches l) None (realPath l) (accessPermissions l))
          | (l, None) => ret l
          end
        else ret l0) ;;
  let finalExists := found && typeMatches l in
  (* Skip if onlyIfExists is true and path doesn't exist *)
  if truthy (field outputOptions "onlyIfExists") && negb finalExists then ret None else
  (* Add detailed information if requested *)
  let details :=
    match stats l with
    | Some st =>
        if truthy (field checkOptions "includeDetails") then
          Some (Details
                  (if isDirectory st then "directory" else if isFile st then "file" else "other")
                  (size st) (birthtime (st_meta st)) (mtime (st_meta st)) (atime (st_meta st))
                  (isFile st) (isDirectory st) (isSymbolicLink st) (mode (st_meta st))
                  (realPath l))
        else None
    | None => None
    end in
  ret (Some (Output absolutePath (basename absolutePath) (dirname absolutePath)
               finalExists found (typeMatches l)
               (js_or (field checkOptions "checkType") (VStr "any"))
               details
               (* Add access permissions if checked *)
               (match accessPermissions l with [] => None | _ :: _ => Some (accessPermissions l) end)
               (* Include original input data if requested *)
               (if truthy (field outputOptions "includeInputData") then Some inputData else None))).

End FileExists.

(** ** nodes/FileInfo *)

Module FileInfo.

Definition description : list property :=
  [ Property "filePath" (VStr "") [];
    Property "includeOptions" (VObj [])
      [ ("detectMimeType", VBool false); ("includeContentSample", VBool false);
        ("countDirectoryContents", VBool false); ("calculateChecksum", VBool false);
        ("resolveRealPath", VBool false) ] ].

Record counts : Set := Counts { c_files : Z; c_directories : Z; c_others : Z; c_total : Z }.

(** The record returned for an item (display strings, owner ids and block
    numbers are left out; the content sample is kept as bytes). *)
Record fileInfo : Type := Info {
  i_path : path;
  i_name : string;
  i_directory : path;
  i_extension : string;
  i_type : string;
  i_size : Z;
  i_created : Z;
  i_modified : Z;
  i_accessed : Z;
  i_isFile : bool;
  i_isDirectory : bool;
  i_isSymbolicLink : bool;
  i_mode : Z;
  i_realPath : option path;
  i_realPathError : option error;
  i_mimeType : option string;
  i_contentSample : option (list Byte.byte);
  i_isBinary : option bool;
  i_contentSampleError : option error;
  i_contents : option counts;
  i_contentsError : option error;
  i_checksum : option string;
  i_checksumError : option error;
}.

(** The private method [FileInfo.calculateMd5Checksum], which [execute] does
    not call: [md5-${buffer.length}-${Date.now()}]. *)
Definition calculateMd5Checksum (filePath : path) : M string :=
  buffer <- readFile filePath ;;
  w <- get_world ;;
  ret ("md5-" +:+ pretty (Z.of_nat (length buffer)) +:+ "-" +:+ pretty (clock w)).

(** [try { x = await m } catch (error) { xError = error.message }] *)
Definition attempt {A : Type} (m : M A) : M (option A * option error) :=
  try_catch (a <- m ;; ret (Some a, None)) (fun e => ret (None, Some e)).

Definition count_item (absolutePath : path) (c : counts) (item : string) : M counts :=
  itemStats <- stat (join absolutePath item) ;;
  if isFile itemStats then ret (Counts (c_files c + 1) (c_directories c) (c_others c) (c_total c))
  else if isDirectory itemStats
  then ret (Counts (c_files c) (c_directories c + 1) (c_others c) (c_total c))
  else ret (Counts (c_files c) (c_directories c) (c_others c + 1) (c_total c)).

(** The body of the loop of [execute], for one item. *)
Definition execute_item (ps : params) : M fileInfo :=
  filePath <- getNodeParameter ps "filePath" None ;;
  includeOptions <- getNodeParameter ps "includeOptions" (Some (VObj [])) ;;
  (* Validate file path *)
  when (negb (truthy filePath)) (throw (OperationError PathRequired)) ;;
  (* Resolve absolute path *)
  absolutePath <- path_resolve filePath ;;
  (* Check if path exists *)
  found <- existsSync absolutePath ;;
  when (negb found) (throw (OperationError (PathNotFound absolutePath))) ;;
  (* Get basic file stats *)
  stats <- stat absolutePath ;;
  let isFile := isFile stats in
  let isDirectory := isDirectory stats in
  let isSymbolicLink := isSymbolicLink stats in
  (* Optional: Resolve real path for symbolic links *)
  real <- (if truthy (field includeOptions "resolveRealPath") && isSymbolicLink
           then attempt (realpath absolutePath) else ret (None, None)) ;;
  (* Optional: MIME type detection for files *)
  let mimeType :=
    if truthy (field includeOptions "detectMimeType") && isFile
    then Some (fileUtils.detectMimeType absolutePath) else None in
  (* Optional: Content sample for files *)
  sample <- (if truthy (field includeOptions "includeContentSample") && isFile && (0 <? size stats)
             then attempt (buffer <- readFile absolutePath ;;
                           ret (take 200 buffer, fileUtils.isBinaryContent (take 512 buffer)))
             else ret (None, None)) ;;
  (* Optional: Directory contents count *)
  contents <- (if truthy (field includeOptions "countDirectoryContents") && isDirectory
               then attempt (contents <- readdir absolutePath ;;
                             for_fold contents (Counts 0 0 0 (Z.of_nat (length contents)))
                               (count_item absolutePath))
               else ret (None, None)) ;;
  (* Optional: Calculate checksum for files *)
  checksum <- (if truthy (field includeOptions "calculateChecksum") && isFile && (0 <? size stats)
               then attempt (fileUtils.calculateMd5Checksum absolutePath)
               else ret (None, None)) ;;
  ret (Info absolutePath (basename absolutePath) (dirname absolutePath)
         (if isFile then extname (basename absolutePath) else "")
         (if isDirectory then "directory" else if isFile then "file" else "other")
         (size stats) (birthtime (st_meta stats)) (mtime (st_meta stats)) (atime (st_meta stats))
         isFile isDirectory isSymbolicLink (mode (st_meta stats))
         (fst real) (snd real) mimeType
         (fst <$> fst sample) (snd <$> fst sample) (snd sample)
         (fst contents) (snd contents) (fst checksum) (snd checksum)).

End FileInfo.

(** ** A sample world

    [/data] holds [a.txt] and [sub/b.txt]; [/guarded] holds [open.txt],
    [z.txt] and a directory [priv] nobody may read; [/link] is a symbolic
    link to [/data/a.txt]; [/mnt] is the mount point of another device. *)

Module Sample.

Definition text (s : string) : list Byte.byte := list_byte_of_string s.

Definition file_meta : meta := Meta 10 20 5 420.
Definition dir_meta : meta := Meta 11 21 6 493.
Definition locked_meta : meta := Meta 11 21 6 0.

Definition tree : gmap path node :=
  list_to_map
    [ ([], NDir dir_meta);
      (["data"], NDir dir_meta);
      (["data"; "a.txt"], NFile (text "hello") file_meta);
      (["data"; "sub"], NDir dir_meta);
      (["data"; "sub"; "b.txt"], NFile (text "abc") file_meta);
      (["guarded"], NDir dir_meta);
      (["guarded"; "priv"], NDir locked_meta);
      (["guarded"; "priv"; "secret.txt"], NFile (text "s") file_meta);
      (["guarded"; "open.txt"], NFile (text "open") file_meta);
      (["guarded"; "z.txt"], NFile (text "zz") file_meta);
      (["link"], NSymlink ["data"; "a.txt"]);
      (["mnt"], NDir dir_meta) ].

Definition w0 : world := World tree 1000 [] [["mnt"]] [].

(** A regular-expression engine for the examples: every pattern matches. *)
Definition any_match (pattern subject : string) : option bool := Some true.

(** Deleting [/data/a.txt] with the phrase mistyped. *)
Definition delete_mistyped : params :=
  [ ("filePath", VStr "/data/a.txt");
    ("deleteMode", VStr "auto");
    ("safetyOptions", VObj [("requireConfirmation", VBool true);
                            ("confirmationText", VStr "DELETE")]);
    ("confirmationProvided", VStr "delete") ].

(** Deleting [/data/a.txt] with the declared parameters at their defaults. *)
Definition delete_declared_only : params :=
  [ ("filePath", VStr "/data/a.txt");
    ("deleteMode", VStr "auto");
    ("safetyOptions", VObj [("requireConfirmation", VBool true);
                            ("confirmationText", VStr "DELETE")]) ].

(** Asking about [/link], a symbolic link, with every option on. *)
Definition exists_link : params :=
  [ ("filePath", VStr "/link");
    ("checkOptions", VObj [("resolveSymlinks", VBool true);
                           ("includeDetails", VBool true);
                           ("checkAccess", VArr [VStr "readable"; VStr "executable"])]) ].

Definition exists_link_details : FileExists.details :=
  FileExists.Details "file" 5 5 20 10 true false false 420 None.

Definition exists_link_output : FileExists.output :=
  FileExists.Output ["link"] "link" [] true true true (VStr "any")
    (Some exists_link_details)
    (Some [("readable", true); ("executable", false)]) None.

(** Asking for the checksum of [/data/sub/b.txt], which holds [abc]. *)
Definition info_checksum : params :=
  [ ("filePath", VStr "/data/sub/b.txt");
    ("includeOptions", VObj [("calculateChecksum", VBool true)]) ].

(** Moving the directory [/data/sub] to [/data/moved], on the same device,
    with a backup requested. *)
Definition move_with_backup : params :=
  [ ("sourcePath", VStr "/data/sub");
    ("destinationPath", VStr "/data/moved");
    ("moveOptions", VObj [("createBackup", VBool true)]) ].




(** Deleting the directory [/data/sub] with a backup requested and no
    confirmation required. *)
Definition delete_with_backup : params :=
  [ ("filePath", VStr "/data/sub");
    ("deleteMode", VStr "auto");
    ("safetyOptions", VObj [("createBackup", VBool true); ("recursive", VBool true)]) ].

(** Listing [/data], files only, recursively. *)
Definition list_files_recursively : params :=
  [ ("directoryPath", VStr "/data");
    ("listMode", VStr "files");
    ("recursive", VBool true);
    ("includeHidden", VBool false) ].

(** Listing [/guarded], files and directories, recursively. *)
Definition list_guarded : params :=
  [ ("directoryPath", VStr "/guarded");
    ("listMode", VStr "both");
    ("recursive", VBool true);
    ("includeHidden", VBool false) ].

(** Copying the directory [/data/sub] to [/data/copy] with the options at
    their defaults ([preserveTimestamps] and [recursive] are on). *)
Definition copy_directory : params :=
  [ ("sourcePath", VStr "/data/sub");
    ("destinationPath", VStr "/data/copy") ].

(** Copying the file [/data/a.txt] to [/data/b.txt]. *)
Definition copy_file : params :=
  [ ("sourcePath", VStr "/data/a.txt");
    ("destinationPath", VStr "/data/b.txt") ].

End Sample.

(** * Properties *)

(** ** Vocabulary of the statements

    [wp m Q w]: running [m] from [w] ends in a result and a world that
    satisfy [Q]. *)

Definition wp {A : Type} (m : M A) (Q : result A -> world -> Prop) (w : world) : Prop :=
  Q (fst (m w)) (snd (m w)).

(** What a continuation has to establish after a first computation. *)
Definition after {A B : Type} (k : A -> M B) (Q : result B -> world -> Prop)
    (r : result A) (w : world) : Prop :=
  match r with
  | Ok a => wp (k a) Q w
  | Throw e => Q (Throw e) w
  | OutOfFuel => Q OutOfFuel w
  end.

Definition not_deleted (r : result DeleteFile.output) : Prop :=
  match r with
  | Ok (DeleteFile.Deleted _ _ _ _ _) => False
  | _ => True
  end.

(** The options and the confirmation as [DeleteFile.execute] reads them. *)
Definition safetyOptions_of (ps : params) : value :=
  default (VObj []) (assoc "safetyOptions" ps).
Definition provided_of (ps : params) : value :=
  default (VStr "") (assoc "confirmationProvided" ps).

(** The kinds a delete, copy or move mode accepts. *)
Definition mode_accepts (mode : value) (st : Stats) : bool :=
  negb (strict_eq mode (VStr "file") && negb (isFile st))
  && negb (strict_eq mode (VStr "directory") && negb (isDirectory st)).

(** The size gate of the delete node lets the path through: no limit is
    set, or the path is not a regular file, or the limit is a number (or a
    boolean, which JavaScript reads as 0 or 1) of megabytes that the size
    does not exceed. *)
Definition within_size_limit (safetyOptions : value) (st : Stats) : bool :=
  negb (truthy (field safetyOptions "maxFileSize") && isFile st)
  || match field safetyOptions "maxFileSize" with
     | VNum limit => size st <=? limit * 1024 * 1024
     | VBool b => size st <=? (if b then 1024 * 1024 else 0)
     | _ => false
     end.

(** The variables of [FileExists.execute] hold no trace of a link. *)
Definition no_link_seen (l : FileExists.locals) : Prop :=
  (forall st, FileExists.stats l = Some st -> isSymbolicLink st = false) /\
  FileExists.realPath l = None.


(** The confirmation gate of the delete node lets the item through. *)
Definition confirmation_passes (ps : params) : bool :=
  negb (truthy (field (safetyOptions_of ps) "requireConfirmation"))
  || strict_eq (provided_of ps) (DeleteFile.confirmationText (safetyOptions_of ps)).

(** Two inodes that differ at most by their access and modification times. *)
Definition same_node (n n' : node) : Prop :=
  node_set_times 0 0 n = node_set_times 0 0 n'.

(** Every entry of [fs] is still in [fs'], touched at most. *)
Definition kept (fs fs' : gmap path node) : Prop :=
  forall q n, fs !! q = Some n -> exists n', fs' !! q = Some n' /\ same_node n n'.

Definition is_mkdir (e : event) : Prop :=
  match ev_call e with
  | MkdirCall _ => True
  | _ => False
  end.

(** A computation that leaves the world as it is and ends without having
    run out of fuel. *)
Definition quiet {A : Type} (m : M A) : Prop :=
  forall w, exists r, m w = (r, w) /\ r <> OutOfFuel.

(** The bytes of file content a logged call has written. *)
Definition payload (e : event) : Z :=
  match e with
  | Event (CopyFileCall _ _ n) true => n
  | _ => 0
  end.

Definition payload_bytes (evs : list event) : Z :=
  fold_right (fun e total => payload e + total) 0 evs.

(** From [w0] to [w] the calls logged have written [n] bytes of content. *)
Definition reports_payload (w0 : world) (n : Z) (w : world) : Prop :=
  exists evs, trace w = trace w0 ++ evs /\ n = payload_bytes evs.

(** The options of the copy node as [execute] reads them. *)
Definition copyOptions_of (ps : params) : value :=
  default (VObj []) (assoc "copyOptions" ps).

(** What an inode holds, whatever its times, its mode and its age. *)
Inductive shape : Type :=
  | SFile (data : list Byte.byte)
  | SDir
  | SLink (target : path)
  | SOther.

Definition shape_of (n : node) : shape :=
  match n with
  | NFile data _ => SFile data
  | NDir _ => SDir
  | NSymlink t => SLink t
  | NOther _ => SOther
  end.

(** The same entry up to its times, or no entry on either side. *)
Definition option_same (o o' : option node) : Prop :=
  match o, o' with
  | Some n, Some n' => same_node n n'
  | None, None => True
  | _, _ => False
  end.

(** A regular file its owner may read, or a directory its owner may read
    and search. *)
Definition is_plain (n : node) : bool :=
  match n with
  | NFile _ m => can_read m
  | NDir m => can_read m && can_exec m
  | _ => false
  end.

Definition is_dir_at (fs : gmap path node) (p : path) : bool :=
  match fs !! p with
  | Some (NDir _) => true
  | _ => false
  end.

(** The tree at [src] is made of readable files and directories. *)
Definition plain_below (fs : gmap path node) (src : path) : Prop :=
  map_Forall (fun q n => below src q -> is_plain n = true) fs.

(** Every entry under [src] sits in a directory. *)
Definition closed_below (fs : gmap path node) (src : path) : Prop :=
  map_Forall (fun q _ => below src q -> q <> src -> is_dir_at fs (dirname q) = true) fs.

(** Nothing is at [dst] or under it. *)
Definition fresh_below (fs : gmap path node) (dst : path) : Prop :=
  map_Forall (fun q _ => ~ below dst q) fs.

(** The entries under [src] are less than [depth] levels down. *)
Definition shallow_below (fs : gmap path node) (src : path) (depth : nat) : Prop :=
  map_Forall (fun q _ => below src q -> (length q < length src + depth)%nat) fs.

(** The directories above [dst] all exist. *)
Definition dirs_above (fs : gmap path node) (dst : path) : Prop :=
  Forall (fun k => is_dir_at fs (take k dst) = true) (seq 0 (length dst)).

(** A directory its owner may search. *)
Definition searchable (fs : gmap path node) (q : path) : bool :=
  match fs !! q with
  | Some (NDir m) => can_exec m
  | _ => false
  end.

(** The path [p] can be walked: the directories above it all exist and
    their owner may search them. *)
Definition passable (fs : gmap path node) (p : path) : Prop :=
  Forall (fun k => searchable fs (take k p) = true) (seq 0 (length p)).

(** The way to [p] is clear: the directories above it that exist can be
    searched by their owner (those that do not are yet to be made). *)
Definition clear_way (fs : gmap path node) (p : path) : Prop :=
  Forall (fun k => match fs !! take k p with
                   | Some (NDir m) => can_exec m = true
                   | _ => True
                   end) (seq 0 (length p)).

(** A directory in which its owner may create, rename and remove entries. *)
Definition changeable (fs : gmap path node) (dir : path) : bool :=
  match fs !! dir with
  | Some (NDir m) => can_change m
  | _ => false
  end.

(** Every directory at [p] or below it can be read, written and searched
    by its owner. *)
Definition open_below (fs : gmap path node) (p : path) : Prop :=
  map_Forall (fun q n => below p q ->
                match n with
                | NDir m => can_read m && can_change m = true
                | _ => True
                end) fs.

#[global] Instance clear_way_dec (fs : gmap path node) (p : path) :
  Decision (clear_way fs p).
Proof.
  unfold clear_way. apply Forall_dec. intros k.
  destruct (fs !! take k p) as [[]|]; apply _.
Defined.

#[global] Instance plain_below_dec (fs : gmap path node) (src : path) :
  Decision (plain_below fs src).
Proof. unfold plain_below, below. apply _. Defined.

#[global] Instance closed_below_dec (fs : gmap path node) (src : path) :
  Decision (closed_below fs src).
Proof. unfold closed_below, below. apply _. Defined.

#[global] Instance fresh_below_dec (fs : gmap path node) (dst : path) :
  Decision (fresh_below fs dst).
Proof. unfold fresh_below, below. apply _. Defined.

#[global] Instance shallow_below_dec (fs : gmap path node) (src : path) (depth : nat) :
  Decision (shallow_below fs src depth).
Proof. unfold shallow_below, below. apply _. Defined.

#[global] Instance dirs_above_dec (fs : gmap path node) (dst : path) :
  Decision (dirs_above fs dst).
Proof. unfold dirs_above. apply _. Defined.

#[global] Instance passable_dec (fs : gmap path node) (p : path) :
  Decision (passable fs p).
Proof. unfold passable. apply _. Defined.

#[global] Instance open_below_dec (fs : gmap path node) (p : path) :
  Decision (open_below fs p).
Proof.
  unfold open_below, below. apply map_Forall_dec. intros q n.
  destruct n; apply _.
Defined.

(** [src] is a tree of readable files and of directories that can be read
    and searched, less than [depth] levels deep, and [dst] a new path in a
    directory that can be changed, neither inside the other; both paths can
    be walked. *)
Definition copy_ready (fs : gmap path node) (src dst : path) (depth : nat) : Prop :=
  is_dir_at fs src = true /\ plain_below fs src /\ closed_below fs src /\
  shallow_below fs src depth /\ ~ below src dst /\ ~ below dst src /\
  fresh_below fs dst /\ passable fs dst /\ changeable fs (dirname dst) = true /\
  passable fs src.

#[global] Instance copy_ready_dec (fs : gmap path node) (src dst : path) (depth : nat) :
  Decision (copy_ready fs src dst depth).
Proof. unfold copy_ready, below. apply _. Defined.

(** [fs'] is [fs] with the tree at [src] copied at [dst]: what is outside
    [dst] is kept, and under [dst] is the shape of what is under [src]. *)
Definition copied_tree (fs : gmap path node) (src dst : path) (fs' : gmap path node) : Prop :=
  (forall q, ~ below dst q -> option_same (fs !! q) (fs' !! q)) /\
  (forall r, shape_of <$> fs' !! (dst ++ r) = shape_of <$> fs !! (src ++ r)).

(** The invariant of the loop of the copy over the entries [done]. *)
Definition copying (fs : gmap path node) (src dst : path) (done : list string)
    (fs' : gmap path node) : Prop :=
  (forall q, ~ below dst q -> option_same (fs !! q) (fs' !! q)) /\
  changeable fs' dst = true /\
  (forall item r, item ∈ done ->
     shape_of <$> fs' !! (dst ++ item :: r) = shape_of <$> fs !! (src ++ item :: r)) /\
  (forall item r, item ∉ done -> fs' !! (dst ++ item :: r) = None).

(** A readable regular file holding [data] is at [src], and [dst] is a new
    name in a directory that can be changed; both paths can be walked. *)
Definition file_ready (fs : gmap path node) (src dst : path) (data : list Byte.byte) : Prop :=
  match fs !! src with
  | Some (NFile d m) => d = data /\ can_read m = true
  | _ => False
  end /\ fs !! dst = None /\ changeable fs (dirname dst) = true /\
  passable fs src /\ passable fs dst.

(** The regular file at [src] can also be taken out of its directory. *)
Definition file_movable (fs : gmap path node) (src dst : path) (data : list Byte.byte)
    : Prop :=
  file_ready fs src dst data /\ changeable fs (dirname src) = true.

(** The tree at [src] can be removed: its directories can be read, written
    and searched, and so can the directory [src] is in. *)
Definition removable (fs : gmap path node) (src : path) : Prop :=
  open_below fs src /\ changeable fs (dirname src) = true.

#[global] Instance removable_dec (fs : gmap path node) (src : path) :
  Decision (removable fs src).
Proof. unfold removable. apply _. Defined.

#[global] Instance byte_eq_decision : EqDecision Byte.byte := Byte.byte_eq_dec.

#[global] Instance file_ready_dec (fs : gmap path node) (src dst : path)
    (data : list Byte.byte) : Decision (file_ready fs src dst data).
Proof. unfold file_ready. destruct (fs !! src) as [[]|]; apply _. Defined.

#[global] Instance file_movable_dec (fs : gmap path node) (src dst : path)
    (data : list Byte.byte) : Decision (file_movable fs src dst data).
Proof. unfold file_movable. apply _. Defined.

(** The rename of [src], which holds [n], to [dst] is allowed: both
    directories let their entries be changed, a directory that changes its
    parent is writable, and both paths can be walked. *)
Definition rename_allowed (fs : gmap path node) (src dst : path) (n : node) : Prop :=
  changeable fs (dirname src) = true /\ changeable fs (dirname dst) = true /\
  match n with
  | NDir m => dirname src = dirname dst \/ can_write m = true
  | _ => True
  end /\
  passable fs src /\ passable fs dst.

#[global] Instance rename_allowed_dec (fs : gmap path node) (src dst : path) (n : node) :
  Decision (rename_allowed fs src dst n).
Proof. unfold rename_allowed. destruct n; apply _. Defined.

(** The rename of [src] to [dst] is refused with [code]. *)
Definition rename_fails (w : world) (src dst : path) (code : errno) : Prop :=
  rename_pure (clock w) (mounts w) (files w) src dst = inl code.

(** The calls [evs] are those logged from [w] to [w']. *)
Definition logged (w : world) (evs : list event) (w' : world) : Prop :=
  trace w' = trace w ++ evs.


(** A computation only adds to the log of calls. *)
Definition grows {A : Type} (m : M A) : Prop :=
  forall w, trace w `prefix_of` trace (snd (m w)).

(** The calls that prepare a move: the creation of a directory, the copy
    of the backup, the writing of its marker. *)
Definition is_preparation (e : event) : Prop :=
  match ev_call e with
  | MkdirCall _ | CopyFileCall _ _ _ | WriteFileCall _ => True
  | _ => False
  end.

(** The calls [evs] of a move are preparations only, or preparations
    followed by a rename and, when the rename was refused, by what was done
    instead: nothing is moved or removed before the rename is tried, and
    nothing is done after a rename that succeeds. *)
Definition rename_comes_first (evs : list event) : Prop :=
  exists prep rest,
    evs = prep ++ rest /\ Forall is_preparation prep /\
    (rest = [] \/
     exists src dst ok more,
       rest = Event (RenameCall src dst) ok :: more /\ (ok = true -> more = [])).

(** A computation that logs preparations only. *)
Definition prepares {A : Type} (m : M A) : Prop :=
  forall w, exists evs, trace (snd (m w)) = trace w ++ evs /\ Forall is_preparation evs.


(** A computation that prepares, then renames. *)
Definition staged {A : Type} (m : M A) : Prop :=
  forall w, exists evs, trace (snd (m w)) = trace w ++ evs /\ rename_comes_first evs.

(** The options of the move node as [execute] reads them. *)
Definition moveOptions_of (ps : params) : value :=
  default (VObj []) (assoc "moveOptions" ps).

(** A computation that never throws [e]. *)
Definition never_throws {A : Type} (e : error) (m : M A) : Prop :=
  forall w, fst (m w) <> Throw e.

(** The path of the backup a move makes of [src]:
    [<backupDirectory>/<name>.backup.<timestamp>]. *)
Definition backup_path_of (backupDirectory : string) (src : path) (w : world) : path :=
  join (resolve (cwd w) backupDirectory) (basename src +:+ ".backup." +:+ pretty (clock w)).

(** The marker written for a directory: [<backupPath>.info]. *)
Definition marker_of (backupPath : path) : path :=
  dirname backupPath ++ [basename backupPath +:+ ".info"].

(** What [fs.writeFile(p, data)] makes of the files. *)
Definition writeFile_pure (now : Z) (fs : gmap path node) (p : path)
    (data : list Byte.byte) : errno + gmap path node :=
  match follow max_hops fs p with
  | None => inl ELOOP
  | Some q => write_at now 420 false fs q data
  end.

(** ** Vocabulary of the further properties *)

(** A computation that leaves the world as it is, whatever its outcome. *)
Definition read_only {A : Type} (m : M A) : Prop := forall w, snd (m w) = w.

(** A byte of plain text for [isBinaryContent]: not a control character, or
    a tab, a line feed or a carriage return. *)
Definition text_byte (b : Byte.byte) : bool :=
  let n := crypto.byte_value b in
  (32 <=? n) || (n =? 9) || (n =? 10) || (n =? 13).

(** [a] may stand before [b] in a listing sorted by [sortBy] in [sortOrder]:
    [b] does not go strictly first. *)
Definition in_order (sortBy sortOrder : value) (a b : ListFiles.fileInfo) : Prop :=
  if strict_eq sortOrder (VStr "asc")
  then ListFiles.key_lt (ListFiles.sort_key_of sortBy b) (ListFiles.sort_key_of sortBy a) = false
  else ListFiles.key_lt (ListFiles.sort_key_of sortBy a) (ListFiles.sort_key_of sortBy b) = false.

(** What the shared walker promises of an entry found from [dirPath] with
    [levels] levels left: where it is, and what the patterns say of it. *)
Definition found_ok (RegExp_test : string -> string -> option bool) (dirPath : path)
    (levels : nat) (patterns excludePatterns : list string) (e : fileUtils.entry) : Prop :=
  below dirPath (fileUtils.entry_path e) /\
  (length dirPath < length (fileUtils.entry_path e) <= length dirPath + levels)%nat /\
  fileUtils.entry_name e = basename (fileUtils.entry_path e) /\
  fileUtils.entry_isDirectory e = isDirectory (fileUtils.entry_stats e) /\
  Forall (fun pattern =>
            RegExp_test pattern (fileUtils.entry_name e) = Some false /\
            RegExp_test pattern (show_path (fileUtils.entry_path e)) = Some false)
         excludePatterns /\
  (fileUtils.entry_isDirectory e = false -> patterns <> [] ->
   Exists (fun pattern =>
             RegExp_test pattern (fileUtils.entry_name e) = Some true \/
             RegExp_test pattern (show_path (fileUtils.entry_path e)) = Some true)
          patterns).

(** Text in ASCII, on which the model's [toLowerCase], [trim] and string
    order are those of JavaScript. *)
Definition ascii_text (s : string) : bool :=
  forallb (fun c => (nat_of_ascii c <? 128)%nat) (list_ascii_of_string s).

(** An entry whose name and extension are in ASCII. *)
Definition ascii_named (f : ListFiles.fileInfo) : Prop :=
  ascii_text (ListFiles.fi_name f) = true /\ ascii_text (ListFiles.fi_extension f) = true.

(** Filter options of the declared types: the size bounds are numbers, the
    extension filter is ASCII text and the name pattern is text, where they
    are set. *)
Definition typed_filters (filterOptions : value) : bool :=
  match field filterOptions "minSize" with VUndefined | VNum _ => true | _ => false end
  && match field filterOptions "maxSize" with VUndefined | VNum _ => true | _ => false end
  && match field filterOptions "extensionFilter" with
     | VUndefined => true
     | VStr s => ascii_text s
     | _ => false
     end
  && match field filterOptions "namePattern" with VUndefined | VStr _ => true | _ => false end.

(** What the filters of the list node let through: a file named [name] of
    [sz] bytes is within the size bounds that are set (0 sets none), has one
    of the extensions listed, and matches the name pattern. *)
Definition within_filters (RegExp_test : string -> string -> option bool)
    (filterOptions : value) (name : string) (sz : Z) : Prop :=
  (forall lo, field filterOptions "minSize" = VNum lo -> lo = 0 \/ lo <= sz) /\
  (forall hi, field filterOptions "maxSize" = VNum hi -> hi = 0 \/ sz <= hi) /\
  (forall s, field filterOptions "extensionFilter" = VStr s ->
     s = "" \/ In (toLowerCase (extname name))
                  (List.map (fun ext => toLowerCase (trim ext)) (split_on "," s))) /\
  (truthy (field filterOptions "namePattern") = true ->
   RegExp_test (to_string (field filterOptions "namePattern")) name = Some true).

(** What the walk of the list node promises of an entry listed from
    [dirPath]; the filters are read on a name in ASCII. *)
Definition listed_ok (RegExp_test : string -> string -> option bool) (dirPath : path)
    (includeHidden : bool) (listMode filterOptions : value) (f : ListFiles.fileInfo) : Prop :=
  below dirPath (ListFiles.fi_path f) /\
  (length dirPath < length (ListFiles.fi_path f))%nat /\
  ListFiles.fi_name f = basename (ListFiles.fi_path f) /\
  (includeHidden = false ->
   Forall (fun c => startsWith c "." = false)
          (drop (length dirPath) (ListFiles.fi_path f))) /\
  (listMode = VStr "files" -> ListFiles.fi_isFile f = true) /\
  (listMode = VStr "directories" -> ListFiles.fi_isDirectory f = true) /\
  (ListFiles.fi_isFile f = true -> ascii_text (ListFiles.fi_name f) = true ->
   within_filters RegExp_test filterOptions (ListFiles.fi_name f) (ListFiles.fi_size f)).

(** The files an item of the list node returns, in order. *)
Definition listed_files (outs : list ListFiles.output) : list ListFiles.fileInfo :=
  flat_map (fun o => match o with
                     | ListFiles.Listing _ _ files => files
                     | ListFiles.Item f => [f]
                     end) outs.

(** Every path that holds an entry in [fs] still holds one in [fs']. *)
Definition remains (fs fs' : gmap path node) : Prop :=
  forall q, is_Some (fs !! q) -> is_Some (fs' !! q).

(** A computation that removes no entry, whatever its outcome. *)
Definition never_removes {A : Type} (m : M A) : Prop :=
  forall w, remains (files w) (files (snd (m w))).

(** The calls that take nothing away: all but a rename, an [unlink] or an
    [rmdir] that succeeds, and a recursive [rmdir], which may fail after it
    has removed part of the tree. *)
Definition harmless (e : event) : Prop :=
  match e with
  | Event (RenameCall _ _) true | Event (UnlinkCall _) true
  | Event (RmdirCall _ false) true | Event (RmdirCall _ true) _ => False
  | _ => True
  end.

(** A computation that removes entries by such calls only: as long as the
    calls it has logged are harmless, every entry is still there. *)
Definition removes_by_calls {A : Type} (m : M A) : Prop :=
  forall w, exists evs,
    logged w evs (snd (m w)) /\
    (Forall harmless evs -> remains (files w) (files (snd (m w)))).

(** The kind a check asks for is the kind of the entry. *)
Definition type_matches (checkType : value) (st : Stats) : bool :=
  match checkType with
  | VStr "file" => isFile st
  | VStr "directory" => isDirectory st
  | _ => true
  end.

(** ** Further items on the sample world *)

Module Cases.

(** Filters that keep files of at least 3 bytes named [.txt] or [.md]. *)
Definition text_filters : value :=
  VObj [("minSize", VNum 3); ("extensionFilter", VStr ".TXT, .md")].

(** Two entries of a listing, [b.TXT] and [A.txt]. *)
Definition two_entries : list ListFiles.fileInfo :=
  [ ListFiles.FileInfo "b.TXT" ["data"; "b.TXT"] ["data"; "b.TXT"] "file" ".TXT"
      3 5 20 10 true false 420;
    ListFiles.FileInfo "A.txt" ["data"; "A.txt"] ["data"; "A.txt"] "file" ".txt"
      5 5 20 10 true false 420 ].

(** Listing [/data] recursively, the two largest entries first, as one
    listing. *)
Definition list_two_largest : params :=
  [ ("directoryPath", VStr "/data");
    ("listMode", VStr "both");
    ("recursive", VBool true);
    ("includeHidden", VBool false);
    ("filterOptions", VObj [("maxFiles", VNum 2)]);
    ("outputOptions", VObj [("sortBy", VStr "size"); ("sortOrder", VStr "desc");
                            ("returnAsArray", VBool true)]) ].

(** Moving [/guarded], which holds a directory nobody may read, to
    [/mnt/g], on another device. *)
Definition move_guarded : params :=
  [ ("sourcePath", VStr "/guarded"); ("destinationPath", VStr "/mnt/g") ].

(** Moving the directory [/data/sub] to [/data/moved], on the same device. *)
Definition move_directory : params :=
  [ ("sourcePath", VStr "/data/sub"); ("destinationPath", VStr "/data/moved") ].

(** Deleting [/data/none.txt], which does not exist, skipping allowed. *)
Definition delete_missing : params :=
  [ ("filePath", VStr "/data/none.txt");
    ("deleteMode", VStr "auto");
    ("safetyOptions", VObj [("skipIfNotExists", VBool true)]) ].

(** Deleting [/link], a symbolic link to [/data/a.txt]. *)
Definition delete_link : params :=
  [ ("filePath", VStr "/link"); ("deleteMode", VStr "auto") ].

(** Deleting the directory [/data], which is not empty, without
    [recursive]. *)
Definition delete_directory : params :=
  [ ("filePath", VStr "/data"); ("deleteMode", VStr "auto") ].


(** Deleting [/data/a.txt] with a backup in [/mnt]. *)
Definition delete_backed_up : params :=
  [ ("filePath", VStr "/data/a.txt");
    ("deleteMode", VStr "auto");
    ("safetyOptions", VObj [("createBackup", VBool true);
                            ("backupDirectory", VStr "/mnt")]) ].

(** Copying or moving [/data/a.txt] onto [/data/sub], which exists. *)
Definition onto_existing : params :=
  [ ("sourcePath", VStr "/data/a.txt"); ("destinationPath", VStr "/data/sub") ].

(** Copying the directory [/data/sub] with [recursive] off. *)
Definition copy_flat : params :=
  [ ("sourcePath", VStr "/data/sub");
    ("destinationPath", VStr "/data/copy");
    ("copyOptions", VObj [("recursive", VBool false)]) ].

(** A transfer with no source given. *)
Definition no_source : params :=
  [ ("sourcePath", VStr ""); ("destinationPath", VStr "/data/copy") ].

(** Asking about a path with no path given, and about [/nope]. *)
Definition no_path : params := [ ("filePath", VStr "") ].
Definition ask_nope : params :=
  [ ("filePath", VStr "/nope");
    ("checkOptions", VObj [("includeDetails", VBool true)]) ].

(** Listing with no directory given. *)
Definition list_nothing : params :=
  [ ("directoryPath", VStr "");
    ("listMode", VStr "both");
    ("recursive", VBool false);
    ("includeHidden", VBool false) ].

(** The information of [/data], with its entries counted. *)
Definition info_counted : params :=
  [ ("filePath", VStr "/data");
    ("includeOptions", VObj [("countDirectoryContents", VBool true);
                             ("resolveRealPath", VBool true)]) ].

(** Deleting the directory [/data] as a file. *)
Definition delete_as_file : params :=
  [ ("filePath", VStr "/data"); ("deleteMode", VStr "file") ].

(** A world with one file of 2 MiB, and its deletion under a limit of one
    megabyte with the confirmation switched off. *)
Definition big_file : list Byte.byte := repeat Byte.x00 (N.to_nat 2097152).
Definition big_world : world :=
  World (list_to_map [ ([], NDir Sample.dir_meta);
                       (["big.bin"], NFile big_file Sample.file_meta) ])
        1000 [] [] [].
Definition delete_big : params :=
  [ ("filePath", VStr "/big.bin");
    ("deleteMode", VStr "auto");
    ("safetyOptions", VObj [("maxFileSize", VNum 1); ("requireConfirmation", VBool false)]) ].

(** Copying [/data/a.txt] into [/new], which does not exist, with the
    creation of the destination directory left on, and switched off. *)
Definition copy_into_new : params :=
  [ ("sourcePath", VStr "/data/a.txt"); ("destinationPath", VStr "/new/a.txt") ].
Definition copy_into_missing : params :=
  [ ("sourcePath", VStr "/data/a.txt"); ("destinationPath", VStr "/new/a.txt");
    ("copyOptions", VObj [("createDestDir", VBool false)]) ].

(** Moving [/data/a.txt] to [/data/c.txt]. *)
Definition move_file : params :=
  [ ("sourcePath", VStr "/data/a.txt"); ("destinationPath", VStr "/data/c.txt") ].

End Cases.

(** The error of a path whose kind the mode does not accept. *)
Definition kind_error (mode : value) (st : Stats) (p : path) : error :=
  OperationError (if strict_eq mode (VStr "file") && negb (isFile st)
                  then NotAFile p else NotADirectory p).

(** ** The loop over the items *)

(** The loop answers every item: it does not throw, and what it returns
    holds one record for each of the [n] input items, in their order. *)
Definition answers_each {A : Type} (n : nat) (r : result (list (returned A))) : Prop :=
  match r with
  | Ok out => List.map pairedItem out = seq 0 n
  | Throw _ => False
  | OutOfFuel => True
  end.

(** Without [continueOnFail] the node ends at the first item that throws:
    after the items [done] went through, the error of the next item is the
    error of the node and the world is the one that item left; the records
    of [done] are not returned and the items of [rest] are not run. *)
Definition stops_at_first_failure {I S A : Type}
    (execute : bool -> list I -> M (list (returned A))) (item : I -> M S) : Prop :=
  forall (done rest : list I) (x : I) (w w1 w2 : world) (out : list (returned A)) (e : error),
    execute false done w = (Ok out, w1) ->
    item x w1 = (Throw e, w2) ->
    execute false (done ++ x :: rest) w = (Throw e, w2).

(** Three items for the delete node on the sample world: [/data/a.txt],
    then the directory [/data], which is not empty, then [/link]; and the
    world the first one leaves. *)
Definition delete_file : params :=
  [ ("filePath", VStr "/data/a.txt"); ("deleteMode", VStr "auto") ].
Definition three_deletions : list params :=
  [ delete_file; Cases.delete_directory; Cases.delete_link ].
Definition after_first_deletion : world :=
  snd (DeleteFile.execute false [delete_file] Sample.w0).

(** ** Reasoning about computations *)

Lemma wp_ret {A : Type} (a : A) (Q : result A -> world -> Prop) (w : world) :
  Q (Ok a) w -> wp (ret a) Q w.
Proof. exact (fun H => H). Qed.

Lemma wp_throw {A : Type} (e : error) (Q : result A -> world -> Prop) (w : world) :
  Q (Throw e) w -> wp (throw e) Q w.
Proof. exact (fun H => H). Qed.

Lemma wp_bind {A B : Type} (m : M A) (k : A -> M B) (Q : result B -> world -> Prop)
    (w : world) :
  wp m (after k Q) w -> wp (bind m k) Q w.
Proof.
  unfold wp, after, bind. destruct (m w) as [[a|e|] w']; simpl; auto.
Qed.

Lemma wp_bind_inv {A B : Type} (m : M A) (k : A -> M B) (Q : result B -> world -> Prop)
    (w : world) :
  wp (bind m k) Q w -> wp m (after k Q) w.
Proof.
  unfold wp, after, bind. destruct (m w) as [[a|e|] w']; simpl; auto.
Qed.

Lemma wp_mono {A : Type} (m : M A) (Q Q' : result A -> world -> Prop) (w : world) :
  (forall r w', Q r w' -> Q' r w') -> wp m Q w -> wp m Q' w.
Proof. unfold wp. auto. Qed.

Lemma wp_run {A : Type} (m : M A) (Q : result A -> world -> Prop) (w : world)
    (r : result A) (w' : world) :
  m w = (r, w') -> Q r w' -> wp m Q w.
Proof. unfold wp. intros ->. auto. Qed.

Lemma wp_get_world (Q : result world -> world -> Prop) (w : world) :
  Q (Ok w) w -> wp get_world Q w.
Proof. exact (fun H => H). Qed.

Lemma wp_stat (p : path) (Q : result Stats -> world -> Prop) (w : world) :
  Q (lift_fs "stat" p (stat_pure (files w) p)) w -> wp (stat p) Q w.
Proof. exact (fun H => H). Qed.

Lemma wp_existsSync (p : path) (Q : result bool -> world -> Prop) (w : world) :
  Q (Ok (exists_pure (files w) p)) w -> wp (existsSync p) Q w.
Proof. exact (fun H => H). Qed.

Lemma wp_getNodeParameter_default (ps : params) (name : string) (d : value)
    (Q : result value -> world -> Prop) (w : world) :
  Q (Ok (default d (assoc name ps))) w -> wp (getNodeParameter ps name (Some d)) Q w.
Proof. exact (fun H => H). Qed.

Lemma wp_getNodeParameter (ps : params) (name : string)
    (Q : result value -> world -> Prop) (w : world) :
  match assoc name ps with
  | Some v => Q (Ok v) w
  | None => Q (Throw (MissingParameter name)) w
  end ->
  wp (getNodeParameter ps name None) Q w.
Proof. unfold wp, getNodeParameter. destruct (assoc name ps); auto. Qed.

Lemma wp_path_resolve (v : value) (Q : result path -> world -> Prop) (w : world) :
  match v with
  | VStr s => Q (Ok (resolve (cwd w) s)) w
  | _ => Q (Throw (TypeError "path")) w
  end ->
  wp (path_resolve v) Q w.
Proof. unfold wp, path_resolve. destruct v; auto. Qed.

Lemma wp_when (b : bool) (m : M unit) (Q : result unit -> world -> Prop) (w : world) :
  (if b then wp m Q w else Q (Ok tt) w) -> wp (when b m) Q w.
Proof. destruct b; auto. Qed.

Lemma wp_readFile (p : path) (Q : result (list Byte.byte) -> world -> Prop) (w : world) :
  Q (lift_fs "open" p (readFile_pure (files w) p)) w -> wp (readFile p) Q w.
Proof. exact (fun H => H). Qed.

Lemma wp_readdir (p : path) (Q : result (list string) -> world -> Prop) (w : world) :
  Q (lift_fs "scandir" p (readdir_pure (files w) p)) w -> wp (readdir p) Q w.
Proof. exact (fun H => H). Qed.

Lemma wp_realpath (p : path) (Q : result path -> world -> Prop) (w : world) :
  Q (lift_fs "realpath" p (realpath_pure (files w) p)) w -> wp (realpath p) Q w.
Proof. exact (fun H => H). Qed.

Lemma wp_access (p : path) (bit : N) (Q : result unit -> world -> Prop) (w : world) :
  Q (lift_fs "access" p (access_pure bit (files w) p)) w -> wp (access p bit) Q w.
Proof. exact (fun H => H). Qed.

Lemma wp_timestamp (Q : result string -> world -> Prop) (w : world) :
  Q (Ok (pretty (clock w))) w -> wp timestamp Q w.
Proof. exact (fun H => H). Qed.

(** What a handler has to establish after the block it guards. *)
Lemma wp_try_catch {A : Type} (m : M A) (handler : error -> M A)
    (Q : result A -> world -> Prop) (w : world) :
  wp m (fun r w' => match r with
                    | Throw e => wp (handler e) Q w'
                    | _ => Q r w'
                    end) w ->
  wp (try_catch m handler) Q w.
Proof.
  unfold wp, try_catch. destruct (m w) as [[a|e|] w']; simpl; auto.
Qed.

Lemma wp_commit (c : call) (name : string) (p : path) (r : errno + gmap path node)
    (Q : result unit -> world -> Prop) (w : world) :
  match r with
  | inr fs' => Q (Ok tt) (committed w c fs')
  | inl code => Q (Throw (FsError code name p)) (refused w c)
  end ->
  wp (commit c name p r) Q w.
Proof. unfold wp, commit. destruct r; auto. Qed.

Lemma wp_mkdir_recursive (p : path) (Q : result unit -> world -> Prop) (w : world) :
  match mkdir_pure (clock w) (files w) p with
  | inr fs' => Q (Ok tt) (committed w (MkdirCall p) fs')
  | inl code => Q (Throw (FsError code "mkdir" p)) (refused w (MkdirCall p))
  end ->
  wp (mkdir_recursive p) Q w.
Proof. intros H. unfold mkdir_recursive. apply wp_bind. apply wp_commit. exact H. Qed.

Lemma wp_copyFile (src dst : path) (Q : result unit -> world -> Prop) (w : world) :
  match copyFile_pure (clock w) (files w) src dst with
  | inr (fs', n) => Q (Ok tt) (committed w (CopyFileCall src dst n) fs')
  | inl code => Q (Throw (FsError code "copyfile" src)) (refused w (CopyFileCall src dst 0))
  end ->
  wp (copyFile src dst) Q w.
Proof.
  intros H. unfold copyFile. apply wp_bind. unfold get_world, wp, after. simpl.
  destruct (copyFile_pure _ _ _ _) as [c|[fs' n]]; exact H.
Qed.

Lemma wp_writeFile (p : path) (data : list Byte.byte) (Q : result unit -> world -> Prop)
    (w : world) :
  match (match follow max_hops (files w) p with
         | None => inl ELOOP
         | Some d => write_at (clock w) 420 false (files w) d data
         end) with
  | inr fs' => Q (Ok tt) (committed w (WriteFileCall p) fs')
  | inl code => Q (Throw (FsError code "open" p)) (refused w (WriteFileCall p))
  end ->
  wp (writeFile p data) Q w.
Proof. intros H. unfold writeFile. apply wp_bind. apply wp_commit. exact H. Qed.

Lemma wp_utimes (p : path) (a mt : Z) (Q : result unit -> world -> Prop) (w : world) :
  match utimes_pure (files w) p a mt with
  | inr fs' => Q (Ok tt) (committed w (UtimesCall p a mt) fs')
  | inl code => Q (Throw (FsError code "utime" p)) (refused w (UtimesCall p a mt))
  end ->
  wp (utimes p a mt) Q w.
Proof. intros H. unfold utimes. apply wp_bind. apply wp_commit. exact H. Qed.

Lemma wp_unlink (p : path) (Q : result unit -> world -> Prop) (w : world) :
  match unlink_pure (clock w) (files w) p with
  | inr fs' => Q (Ok tt) (committed w (UnlinkCall p) fs')
  | inl code => Q (Throw (FsError code "unlink" p)) (refused w (UnlinkCall p))
  end ->
  wp (unlink p) Q w.
Proof. intros H. unfold unlink. apply wp_bind. apply wp_commit. exact H. Qed.

Lemma wp_conclude (c : call) (r : option (errno * string * path) * gmap path node)
    (Q : result unit -> world -> Prop) (w : world) :
  match r with
  | (None, fs') => Q (Ok tt) (committed w c fs')
  | (Some (code, name, q), fs') => Q (Throw (FsError code name q)) (partly w c fs')
  end ->
  wp (conclude c r) Q w.
Proof. unfold wp, conclude. destruct r as [[[[code name] q]|] fs']; auto. Qed.

Lemma wp_rmdir (p : path) (recursive : bool) (Q : result unit -> world -> Prop) (w : world) :
  (if recursive then
     match rmdir_recursive_pure (clock w) (files w) p with
     | (None, fs') => Q (Ok tt) (committed w (RmdirCall p true) fs')
     | (Some (code, name, q), fs') =>
         Q (Throw (FsError code name q)) (partly w (RmdirCall p true) fs')
     end
   else
     match rmdir_pure (clock w) (files w) p with
     | inr fs' => Q (Ok tt) (committed w (RmdirCall p false) fs')
     | inl code => Q (Throw (FsError code "rmdir" p)) (refused w (RmdirCall p false))
     end) ->
  wp (rmdir p recursive) Q w.
Proof.
  intros H. unfold rmdir. apply wp_bind. unfold get_world, wp, after. simpl.
  destruct recursive; [apply wp_conclude|apply wp_commit]; exact H.
Qed.

Lemma wp_rename (src dst : path) (Q : result unit -> world -> Prop) (w : world) :
  match rename_pure (clock w) (mounts w) (files w) src dst with
  | inr fs' => Q (Ok tt) (committed w (RenameCall src dst) fs')
  | inl code => Q (Throw (FsError code "rename" src)) (refused w (RenameCall src dst))
  end ->
  wp (rename src dst) Q w.
Proof. intros H. unfold rename. apply wp_bind. apply wp_commit. exact H. Qed.

Lemma bind_Ok_inv {A B : Type} (m : M A) (k : A -> M B) (w w' : world) (b : B) :
  bind m k w = (Ok b, w') -> exists a w1, m w = (Ok a, w1) /\ k a w1 = (Ok b, w').
Proof.
  unfold bind. destruct (m w) as [[a|e|] w1]; [eauto|discriminate|discriminate].
Qed.

(** One step of symbolic execution; [wp_case] splits on a condition unless
    a hypothesis settles it. *)
Ltac wp_case b :=
  first [ match goal with
          | H : ?x = _ |- _ =>
              match b with context [x] => rewrite H; cbn [negb andb orb] end
          end
        | destruct b eqn:? ].

Ltac wp_step :=
  lazymatch goal with
  | |- wp (bind _ _) _ _ => apply wp_bind
  | |- wp (ret _) _ _ => apply wp_ret
  | |- wp (throw _) _ _ => apply wp_throw
  | |- wp get_world _ _ => apply wp_get_world
  | |- wp timestamp _ _ => apply wp_timestamp
  | |- wp (stat _) _ _ => apply wp_stat
  | |- wp (readFile _) _ _ => apply wp_readFile
  | |- wp (readdir _) _ _ => apply wp_readdir
  | |- wp (realpath _) _ _ => apply wp_realpath
  | |- wp (access _ _) _ _ => apply wp_access
  | |- wp (existsSync _) _ _ => apply wp_existsSync
  | |- wp (mkdir_recursive _) _ _ => apply wp_mkdir_recursive
  | |- wp (copyFile _ _) _ _ => apply wp_copyFile
  | |- wp (writeFile _ _) _ _ => apply wp_writeFile
  | |- wp (utimes _ _ _) _ _ => apply wp_utimes
  | |- wp (unlink _) _ _ => apply wp_unlink
  | |- wp (rmdir _ _) _ _ => apply wp_rmdir
  | |- wp (rename _ _) _ _ => apply wp_rename
  | |- wp (getNodeParameter _ _ (Some _)) _ _ => apply wp_getNodeParameter_default
  | |- wp (getNodeParameter _ _ None) _ _ => apply wp_getNodeParameter
  | |- wp (path_resolve _) _ _ => apply wp_path_resolve
  | |- wp (when _ _) _ _ => apply wp_when
  | |- wp (try_catch _ _) _ _ => apply wp_try_catch
  | |- wp (if ?b then _ else _) _ _ => wp_case b
  | |- wp (match ?x with _ => _ end) _ _ => wp_case x
  | |- after _ _ (Ok _) _ => unfold after at 1
  | |- after _ _ (Throw _) _ => unfold after at 1
  | |- after _ _ (lift_fs _ _ (inr _)) _ => unfold lift_fs at 1
  | |- after _ _ (lift_fs _ _ (inl _)) _ => unfold lift_fs at 1
  | |- after _ _ (lift_fs _ _ ?x) _ => wp_case x
  | |- if ?b then _ else _ => wp_case b
  | |- match ?x with _ => _ end => wp_case x
  end.

Ltac wp_steps := repeat wp_step.


(** ** The confirmation gate of the delete node *)

Lemma truthy_VStr (s : string) : s <> "" -> truthy (VStr s) = true.
Proof.
  intros H. simpl. destruct (String.eqb_spec s ""); [contradiction|reflexivity].
Qed.

Lemma exists_of_stat (fs : gmap path node) (p : path) (st : Stats) :
  stat_pure fs p = inr st -> exists_pure fs p = true.
Proof. unfold exists_pure. intros ->. reflexivity. Qed.

Lemma mode_accepts_split (mode : value) (st : Stats) :
  mode_accepts mode st = true ->
  strict_eq mode (VStr "file") && negb (isFile st) = false /\
  strict_eq mode (VStr "directory") && negb (isDirectory st) = false.
Proof.
  unfold mode_accepts. intros H. apply andb_prop in H as [H1 H2].
  split; [destruct (_ && _) | destruct (strict_eq mode (VStr "directory") && _)]; done.
Qed.

(** With the gate enabled and a confirmation that differs from the phrase,
    the item leaves the world as it was and never reports a deletion. *)
Lemma gate_refuses (ps : params) (w : world) :
  truthy (field (safetyOptions_of ps) "requireConfirmation") = true ->
  strict_eq (provided_of ps) (DeleteFile.confirmationText (safetyOptions_of ps)) = false ->
  wp (DeleteFile.execute_item ps) (fun r w' => w' = w /\ not_deleted r) w.
Proof.
  unfold safetyOptions_of, provided_of. intros Hreq Hneq.
  unfold DeleteFile.execute_item.
  wp_steps; simpl; done.
Qed.

(** An item that reaches the gates is refused by one of them. *)
Lemma gate_policy_refusal (ps : params) (w : world) (s : string) (mode : value) (st : Stats) :
  truthy (field (safetyOptions_of ps) "requireConfirmation") = true ->
  strict_eq (provided_of ps) (DeleteFile.confirmationText (safetyOptions_of ps)) = false ->
  assoc "filePath" ps = Some (VStr s) -> s <> "" ->
  assoc "deleteMode" ps = Some mode ->
  stat_pure (files w) (resolve (cwd w) s) = inr st ->
  mode_accepts mode st = true ->
  wp (DeleteFile.execute_item ps)
     (fun r _ => exists e, r = Throw e /\ classify e = PolicyRefusal) w.
Proof.
  unfold safetyOptions_of, provided_of.
  intros Hreq Hneq Hpath Hs Hmode Hstat Hacc.
  apply truthy_VStr in Hs. pose proof (exists_of_stat _ _ _ Hstat) as Hex.
  apply mode_accepts_split in Hacc as [Hf Hd].
  unfold DeleteFile.execute_item.
  wp_steps; simpl; eauto.
Qed.

(** What is within the size limit is let through by the gate of the item. *)
Lemma size_gate_lets_through (safetyOptions : value) (st : Stats) :
  within_size_limit safetyOptions st = true ->
  negb (truthy (field safetyOptions "maxFileSize") && isFile st
        && match megabytes (field safetyOptions "maxFileSize") with
           | Some maxSizeBytes => maxSizeBytes <? size st
           | None => false
           end) = true.
Proof.
  unfold within_size_limit. intros H. apply orb_prop in H as [H|H].
  - apply negb_true_iff in H. rewrite H. reflexivity.
  - apply negb_true_iff, andb_false_iff. right.
    destruct (field safetyOptions "maxFileSize") as [| b|limit| | |]; try discriminate;
      simpl; apply Z.leb_le in H; apply Z.ltb_ge; lia.
Qed.

(** Past the size gate, the error is the confirmation request. *)
Lemma gate_confirmation_required (ps : params) (w : world) (s : string) (mode : value)
    (st : Stats) :
  truthy (field (safetyOptions_of ps) "requireConfirmation") = true ->
  strict_eq (provided_of ps) (DeleteFile.confirmationText (safetyOptions_of ps)) = false ->
  assoc "filePath" ps = Some (VStr s) -> s <> "" ->
  assoc "deleteMode" ps = Some mode ->
  stat_pure (files w) (resolve (cwd w) s) = inr st ->
  mode_accepts mode st = true ->
  within_size_limit (safetyOptions_of ps) st = true ->
  wp (DeleteFile.execute_item ps)
     (fun r _ => r = Throw (OperationError
                    (ConfirmationRequired (DeleteFile.confirmationText (safetyOptions_of ps))))) w.
Proof.
  intros Hreq Hneq Hpath Hs Hmode Hstat Hacc Hsize.
  apply size_gate_lets_through in Hsize. revert Hreq Hneq Hsize.
  unfold safetyOptions_of, provided_of. intros Hreq Hneq Hsize.
  apply truthy_VStr in Hs. pose proof (exists_of_stat _ _ _ Hstat) as Hex.
  apply mode_accepts_split in Hacc as [Hf Hd].
  unfold DeleteFile.execute_item.
  wp_steps; simpl in *; congruence.
Qed.

Lemma assoc_None {A : Type} (k : string) (l : list (string * A)) :
  ~ In k (List.map fst l) -> assoc k l = None.
Proof.
  induction l as [|[k' v] l IH]; simpl; [reflexivity|].
  intros H. destruct (String.eqb_spec k k') as [->|Hne].
  - exfalso. apply H. now left.
  - apply IH. intros Hin. apply H. now right.
Qed.

(** An empty confirmation never equals the phrase in force. *)
Lemma empty_is_not_the_phrase (safetyOptions : value) :
  strict_eq (VStr "") (DeleteFile.confirmationText safetyOptions) = false.
Proof.
  unfold DeleteFile.confirmationText, js_or.
  destruct (truthy (field safetyOptions "confirmationText")) eqn:Ht; [|reflexivity].
  destruct (field safetyOptions "confirmationText") as [| | |s| |]; try reflexivity.
  simpl in *. destruct s; [discriminate|reflexivity].
Qed.

(** C6.  With the confirmation gate enabled and a supplied confirmation
    that is not the phrase in force, the delete item changes nothing in the
    world (the path is not removed, no backup is made, no call is even
    attempted), it never reports a deletion, and an invocation that reaches
    the gates (path given, found, of a kind the mode accepts) fails with a
    policy-refusal error. *)
Theorem delete_refused_on_confirmation_mismatch (ps : params) (w : world) :
  truthy (field (safetyOptions_of ps) "requireConfirmation") = true ->
  strict_eq (provided_of ps) (DeleteFile.confirmationText (safetyOptions_of ps)) = false ->
  snd (DeleteFile.execute_item ps w) = w /\
  not_deleted (fst (DeleteFile.execute_item ps w)) /\
  (forall (s : string) (mode : value) (st : Stats),
     assoc "filePath" ps = Some (VStr s) -> s <> "" ->
     assoc "deleteMode" ps = Some mode ->
     stat_pure (files w) (resolve (cwd w) s) = inr st ->
     mode_accepts mode st = true ->
     exists e, fst (DeleteFile.execute_item ps w) = Throw e /\ classify e = PolicyRefusal).
Proof.
  intros Hreq Hneq.
  destruct (gate_refuses ps w Hreq Hneq) as [Hw Hnot].
  repeat split; [exact Hw|exact Hnot|].
  intros s mode st Hp Hs Hm Hst Hacc.
  exact (gate_policy_refusal ps w s mode st Hreq Hneq Hp Hs Hm Hst Hacc).
Qed.

(** C9.  [confirmationProvided] is not a declared property of the delete
    node and its lookup falls back to the empty string, which never equals
    the phrase in force; so when the host supplies declared parameters only
    and the gate is enabled, the item changes nothing, never reports a
    deletion, and what gets past the earlier gates (the path given, found
    and of an accepted kind, and under the size limit when one is set, the
    limit being a number of megabytes) is refused with the request for the
    confirmation. *)
Theorem delete_always_refused_without_undeclared_parameter (ps : params) (w : world) :
  (forall k, In k (List.map fst ps) -> In k (declared_names DeleteFile.description)) ->
  truthy (field (safetyOptions_of ps) "requireConfirmation") = true ->
  ~ In "confirmationProvided" (declared_names DeleteFile.description) /\
  provided_of ps = VStr "" /\
  snd (DeleteFile.execute_item ps w) = w /\
  not_deleted (fst (DeleteFile.execute_item ps w)) /\
  (forall (s : string) (mode : value) (st : Stats),
     assoc "filePath" ps = Some (VStr s) -> s <> "" ->
     assoc "deleteMode" ps = Some mode ->
     stat_pure (files w) (resolve (cwd w) s) = inr st ->
     mode_accepts mode st = true ->
     within_size_limit (safetyOptions_of ps) st = true ->
     fst (DeleteFile.execute_item ps w) =
     Throw (OperationError
              (ConfirmationRequired (DeleteFile.confirmationText (safetyOptions_of ps))))).
Proof.
  intros Hdecl Hreq.
  assert (Hundeclared : ~ In "confirmationProvided" (declared_names DeleteFile.description)).
  { simpl. intros H. repeat destruct H as [H|H]; try discriminate H. exact H. }
  assert (Hprov : provided_of ps = VStr "").
  { unfold provided_of. rewrite assoc_None; [reflexivity|].
    intros Hin. exact (Hundeclared (Hdecl _ Hin)). }
  assert (Hneq : strict_eq (provided_of ps)
                   (DeleteFile.confirmationText (safetyOptions_of ps)) = false).
  { rewrite Hprov. apply empty_is_not_the_phrase. }
  destruct (gate_refuses ps w Hreq Hneq) as [Hw Hnot].
  repeat split; [exact Hundeclared|exact Hprov|exact Hw|exact Hnot|].
  intros s mode st Hp Hs Hm Hst Hacc Hsize.
  exact (gate_confirmation_required ps w s mode st Hreq Hneq Hp Hs Hm Hst Hacc Hsize).
Qed.

Lemma delete_refused_on_confirmation_mismatch_witness :
  truthy (field (safetyOptions_of Sample.delete_mistyped) "requireConfirmation") = true /\
  strict_eq (provided_of Sample.delete_mistyped)
    (DeleteFile.confirmationText (safetyOptions_of Sample.delete_mistyped)) = false /\
  snd (DeleteFile.execute_item Sample.delete_mistyped Sample.w0) = Sample.w0 /\
  not_deleted (fst (DeleteFile.execute_item Sample.delete_mistyped Sample.w0)) /\
  (forall (s : string) (mode : value) (st : Stats),
     assoc "filePath" Sample.delete_mistyped = Some (VStr s) -> s <> "" ->
     assoc "deleteMode" Sample.delete_mistyped = Some mode ->
     stat_pure (files Sample.w0) (resolve (cwd Sample.w0) s) = inr st ->
     mode_accepts mode st = true ->
     exists e, fst (DeleteFile.execute_item Sample.delete_mistyped Sample.w0) = Throw e
               /\ classify e = PolicyRefusal).
Proof.
  split; [reflexivity|]. split; [reflexivity|].
  apply (delete_refused_on_confirmation_mismatch Sample.delete_mistyped Sample.w0);
    reflexivity.
Defined.

Lemma delete_always_refused_without_undeclared_parameter_witness :
  (forall k, In k (List.map fst Sample.delete_declared_only) ->
             In k (declared_names DeleteFile.description)) /\
  truthy (field (safetyOptions_of Sample.delete_declared_only) "requireConfirmation") = true /\
  fst (DeleteFile.execute_item Sample.delete_declared_only Sample.w0) =
  Throw (OperationError (ConfirmationRequired (VStr "DELETE"))).
Proof.
  assert (Hdecl : forall k, In k (List.map fst Sample.delete_declared_only) ->
                            In k (declared_names DeleteFile.description)).
  { simpl. intros k H. repeat destruct H as [<-|H]; auto 10. contradiction. }
  split; [exact Hdecl|]. split; [reflexivity|].
  refine (proj2 (proj2 (proj2 (proj2
    (delete_always_refused_without_undeclared_parameter
       Sample.delete_declared_only Sample.w0 Hdecl eq_refl))))
    "/data/a.txt" (VStr "auto") _ eq_refl _ eq_refl eq_refl eq_refl eq_refl).
  discriminate.
Defined.

(** ** What [fs.stat] can report *)

Lemma follow_reaches_no_link (hops : nat) (fs : gmap path node) (p q : path) :
  follow hops fs p = Some q -> forall t, fs !! q <> Some (NSymlink t).
Proof.
  revert p. induction hops as [|h IH]; intros p; simpl.
  - destruct (fs !! p) as [[]|] eqn:Hp; intros [= <-] t; congruence.
  - destruct (fs !! p) as [[]|] eqn:Hp; try (intros [= <-] t; congruence).
    apply IH.
Qed.

(** The stat follows links, so it never describes a link. *)
Lemma stat_never_a_link (fs : gmap path node) (p : path) (st : Stats) :
  stat_pure fs p = inr st -> isSymbolicLink st = false.
Proof.
  unfold stat_pure. destruct (follow max_hops fs p) as [q|] eqn:Hq; [|discriminate].
  pose proof (follow_reaches_no_link _ _ _ _ Hq) as Hno.
  destruct (fs !! q) as [[]|]; intros [= <-]; try reflexivity.
  exfalso. eapply Hno. reflexivity.
Qed.

(** An invariant of the variables every statement of a [try] block keeps
    holds when the block ends, normally or not. *)
Lemma run_try_invariant {L : Type} (I : L -> Prop) (steps : list (L -> M L)) :
  Forall (fun step => forall l w l' w', I l -> step l w = (Ok l', w') -> I l') steps ->
  forall l w l' e w', I l -> run_try steps l w = (Ok (l', e), w') -> I l'.
Proof.
  induction 1 as [|step steps Hstep _ IH]; intros l w l' e w' Hl; simpl.
  - intros [= <- _ _]. exact Hl.
  - destruct (step l w) as [[l1|err|] w1] eqn:Hrun.
    + apply IH. eapply Hstep; eauto.
    + intros [= <- _ _]. exact Hl.
    + discriminate.
Qed.

(** ** The exists node and symbolic links *)

Lemma try_block_keeps_no_link (checkOptions : value) (absolutePath : path) :
  Forall (fun step => forall l w l' w', no_link_seen l -> step l w = (Ok l', w') ->
                                        no_link_seen l')
         (FileExists.try_block checkOptions absolutePath).
Proof.
  unfold FileExists.try_block.
  constructor; [|constructor; [|constructor; [|constructor; [|constructor]]]].
  - intros l w l' w' [_ Hrp] Hrun.
    apply bind_Ok_inv in Hrun as (st & w1 & Hst & Hret).
    unfold stat in Hst. injection Hret as <- _.
    split; simpl; [|exact Hrp]. intros st' [= <-].
    destruct (stat_pure (files w) absolutePath) eqn:Hs; simpl in Hst; [discriminate|].
    injection Hst as <- _. eapply stat_never_a_link; eauto.
  - intros l w l' w' [Hst Hrp] [= <- _]. split; simpl; assumption.
  - intros l w l' w' [Hst Hrp].
    assert (Hno : isSymbolicLink (default (MkStats KOther 0 no_meta) (FileExists.stats l)) = false).
    { destruct (FileExists.stats l) as [st|]; simpl; [auto|reflexivity]. }
    rewrite Hno, andb_false_r. intros [= <- _]. split; assumption.
  - intros l w l' w' [Hst Hrp] Hrun.
    destruct (FileExists.js_length _) as [n|]; [|injection Hrun as <- _; split; assumption].
    destruct (0 <? n); [|injection Hrun as <- _; split; assumption].
    apply bind_Ok_inv in Hrun as (items & w1 & _ & Hrun).
    apply bind_Ok_inv in Hrun as (perms & w2 & _ & Hrun).
    injection Hrun as <- _. split; simpl; assumption.
Qed.

Lemma locals_no_link (checkOptions : value) (absolutePath : path) (found : bool)
    (w w' : world) (l : FileExists.locals) :
  (if found then
     r <- run_try (FileExists.try_block checkOptions absolutePath)
            (FileExists.Locals true None None []) ;;
     match r with
     | (l, Some _) =>
         ret (FileExists.Locals (FileExists.typeMatches l) None (FileExists.realPath l)
                (FileExists.accessPermissions l))
     | (l, None) => ret l
     end
   else ret (FileExists.Locals true None None [])) w = (Ok l, w') ->
  no_link_seen l.
Proof.
  assert (H0 : no_link_seen (FileExists.Locals true None None [])).
  { split; [discriminate|reflexivity]. }
  destruct found; [|intros [= <- _]; exact H0].
  intros Hrun. apply bind_Ok_inv in Hrun as ([l1 e] & w1 & Htry & Hret).
  pose proof (run_try_invariant no_link_seen _ (try_block_keeps_no_link _ _)
                _ _ _ _ _ H0 Htry) as [Hst Hrp].
  destruct e; injection Hret as <- _; split; simpl; auto; discriminate.
Qed.

(** C10.  The exists node takes [isSymbolicLink] from a stat that follows
    links, for which the test is false on every path; so whatever the
    options, [resolveSymlinks] included, the record it returns has no
    [realPath] and its [details.isSymbolicLink] is false. *)
Theorem exists_never_reports_a_link (inputData : value) (ps : params) (w w' : world)
    (out : FileExists.output) (d : FileExists.details) :
  FileExists.execute_item inputData ps w = (Ok (Some out), w') ->
  FileExists.o_details out = Some d ->
  FileExists.d_isSymbolicLink d = false /\
  FileExists.d_realPath d = None /\
  (forall p st, stat_pure (files w) p = inr st -> isSymbolicLink st = false).
Proof.
  intros Hrun Hd.
  assert (Hout : FileExists.d_isSymbolicLink d = false /\ FileExists.d_realPath d = None).
  { unfold FileExists.execute_item in Hrun.
    apply bind_Ok_inv in Hrun as (filePath & w1 & _ & Hrun).
    apply bind_Ok_inv in Hrun as (checkOptions & w2 & _ & Hrun).
    apply bind_Ok_inv in Hrun as (outputOptions & w3 & _ & Hrun).
    apply bind_Ok_inv in Hrun as (u & w4 & _ & Hrun).
    apply bind_Ok_inv in Hrun as (absolutePath & w5 & _ & Hrun).
    apply bind_Ok_inv in Hrun as (found & w6 & _ & Hrun).
    apply bind_Ok_inv in Hrun as (l & w7 & Hl & Hrun).
    apply locals_no_link in Hl as [Hst Hrp].
    destruct (_ && _); [discriminate|].
    injection Hrun as <- _. simpl in Hd.
    destruct (FileExists.stats l) as [st|]; [|discriminate].
    destruct (truthy _); [|discriminate].
    injection Hd as <-. simpl. auto. }
  destruct Hout as [H1 H2].
  split; [exact H1|split; [exact H2|]].
  intros p st. apply stat_never_a_link.
Qed.

Lemma exists_never_reports_a_link_witness :
  lstat_pure (files Sample.w0) ["link"] = inr (MkStats KSymlink 2 no_meta) /\
  FileExists.execute_item VUndefined Sample.exists_link Sample.w0
    = (Ok (Some Sample.exists_link_output), Sample.w0) /\
  FileExists.o_details Sample.exists_link_output = Some Sample.exists_link_details /\
  FileExists.d_isSymbolicLink Sample.exists_link_details = false /\
  FileExists.d_realPath Sample.exists_link_details = None.
Proof.
  split; [reflexivity|].
  assert (Hrun : FileExists.execute_item VUndefined Sample.exists_link Sample.w0
                 = (Ok (Some Sample.exists_link_output), Sample.w0)) by reflexivity.
  split; [exact Hrun|]. split; [reflexivity|].
  destruct (exists_never_reports_a_link _ _ _ _ _ _ Hrun eq_refl) as (H1 & H2 & _).
  split; [exact H1|exact H2].
Defined.

(** ** Reading a regular file *)

Lemma stat_of_file (fs : gmap path node) (p q : path) (data : list Byte.byte) (m : meta) :
  follow max_hops fs p = Some q -> fs !! q = Some (NFile data m) ->
  stat_pure fs p = inr (MkStats KFile (Z.of_nat (length data)) m).
Proof. unfold stat_pure. intros -> ->. reflexivity. Qed.

Lemma readFile_of_file (fs : gmap path node) (p q : path) (data : list Byte.byte) (m : meta) :
  follow max_hops fs p = Some q -> fs !! q = Some (NFile data m) -> can_read m = true ->
  readFile_pure fs p = inr data.
Proof. unfold readFile_pure. intros -> -> ->. reflexivity. Qed.

(** ** What [mkdir -p] leaves in place *)

Lemma same_node_refl (n : node) : same_node n n.
Proof. reflexivity. Qed.

Lemma same_node_trans (a b c : node) : same_node a b -> same_node b c -> same_node a c.
Proof. unfold same_node. congruence. Qed.

Lemma same_node_touch (now : Z) (n : node) : same_node n (node_touch now n).
Proof. destruct n as [d m|m|t|m]; reflexivity. Qed.

Lemma kept_refl (fs : gmap path node) : kept fs fs.
Proof. intros q n H. exists n. split; [exact H|apply same_node_refl]. Qed.

Lemma kept_trans (a b c : gmap path node) : kept a b -> kept b c -> kept a c.
Proof.
  intros Hab Hbc q n H. destruct (Hab q n H) as (n1 & H1 & E1).
  destruct (Hbc q n1 H1) as (n2 & H2 & E2).
  exists n2. split; [exact H2|eapply same_node_trans; eauto].
Qed.

Lemma kept_touch_parent (now : Z) (p : path) (fs : gmap path node) :
  kept fs (touch_parent now p fs).
Proof.
  intros q n H. unfold touch_parent. rewrite lookup_alter.
  destruct (decide (dirname p = q)) as [->|_]; rewrite H; simpl.
  - eexists. split; [reflexivity|apply same_node_touch].
  - eexists. split; [reflexivity|apply same_node_refl].
Qed.

Lemma kept_add_entry (now : Z) (p : path) (n : node) (fs : gmap path node) :
  fs !! p = None -> kept fs (add_entry now p n fs).
Proof.
  intros Hp q x H. unfold add_entry.
  rewrite lookup_insert_ne by congruence.
  apply kept_touch_parent. exact H.
Qed.

Lemma mkdir_step_kept (now : Z) (target : path) (acc : errno + gmap path node) (p : path)
    (fs' : gmap path node) :
  mkdir_step now target acc p = inr fs' ->
  exists fs, acc = inr fs /\ kept fs fs'.
Proof.
  unfold mkdir_step. destruct acc as [c|fs]; [discriminate|].
  destruct (fs !! p) as [[]|] eqn:Hp; try discriminate.
  - intros [= <-]. exists fs. split; [reflexivity|apply kept_refl].
  - destruct (parent_allows fs p); [discriminate|]. intros [= <-]. exists fs.
    split; [reflexivity|apply kept_add_entry; exact Hp].
Qed.

Lemma mkdir_fold_kept (now : Z) (target : path) (l : list path)
    (acc : errno + gmap path node) (fs' : gmap path node) :
  fold_left (mkdir_step now target) l acc = inr fs' ->
  exists fs, acc = inr fs /\ kept fs fs'.
Proof.
  revert acc. induction l as [|p l IH]; intros acc; simpl.
  - intros ->. exists fs'. split; [reflexivity|apply kept_refl].
  - intros H. apply IH in H as (fs1 & Hstep & K1).
    apply mkdir_step_kept in Hstep as (fs & -> & K0).
    exists fs. split; [reflexivity|eapply kept_trans; eauto].
Qed.

Lemma mkdir_pure_kept (now : Z) (fs fs' : gmap path node) (p : path) :
  mkdir_pure now fs p = inr fs' -> kept fs fs'.
Proof.
  unfold mkdir_pure. destruct (follow max_hops fs p); [|discriminate].
  intros H. apply mkdir_fold_kept in H as (fs0 & [= <-] & K). exact K.
Qed.

(** ** Backups of directories *)

Lemma confirmation_passes_cases (ps : params) :
  confirmation_passes ps = true ->
  truthy (field (safetyOptions_of ps) "requireConfirmation") = false \/
  (truthy (field (safetyOptions_of ps) "requireConfirmation") = true /\
   strict_eq (provided_of ps) (DeleteFile.confirmationText (safetyOptions_of ps)) = true).
Proof.
  unfold confirmation_passes.
  destruct (truthy (field (safetyOptions_of ps) "requireConfirmation")); simpl; auto.
Qed.

Lemma directory_is_no_file (st : Stats) : isDirectory st = true -> isFile st = false.
Proof. unfold isFile, isDirectory. destruct (st_kind st); congruence. Qed.

(** Deleting a directory with a backup requested: an error, after at most
    the creation of the backup directory; nothing is removed. *)
Lemma delete_directory_backup (ps : params) (w : world) (s : string) (mode : value)
    (st : Stats) :
  assoc "filePath" ps = Some (VStr s) -> s <> "" ->
  assoc "deleteMode" ps = Some mode ->
  stat_pure (files w) (resolve (cwd w) s) = inr st ->
  isDirectory st = true ->
  mode_accepts mode st = true ->
  confirmation_passes ps = true ->
  truthy (field (safetyOptions_of ps) "createBackup") = true ->
  wp (DeleteFile.execute_item ps)
     (fun r w' =>
        exists e evs, r = Throw e /\ kept (files w) (files w') /\
          trace w' = trace w ++ evs /\ Forall is_mkdir evs /\
          (Exists (fun ev => ev_ok ev = true) evs ->
           e = OperationError DirectoryBackupNotImplemented)) w.
Proof.
  unfold safetyOptions_of, provided_of.
  intros Hpath Hs Hmode Hstat Hdir Hacc Hconf Hbackup.
  apply truthy_VStr in Hs. pose proof (exists_of_stat _ _ _ Hstat) as Hex.
  apply mode_accepts_split in Hacc as [Hf Hd].
  pose proof (directory_is_no_file _ Hdir) as Hfile.
  rewrite Hfile in Hf. rewrite Hdir in Hd. cbn [negb] in Hf, Hd.
  apply confirmation_passes_cases in Hconf.
  unfold safetyOptions_of, provided_of in Hconf.
  unfold DeleteFile.execute_item.
  destruct Hconf as [Hreq|[Hreq Heq]].
  all: wp_steps.
  all: try (simpl in *; congruence).
  all: eexists; eexists; split; [reflexivity|].
  all: split; [first [apply kept_refl | simpl; eapply mkdir_pure_kept; eassumption]|].
  all: split; [simpl; first [reflexivity | symmetry; apply app_nil_r]|].
  all: split; [repeat constructor|].
  all: intros Hok; repeat (inversion Hok as [? ? Hok'|? ? Hok']; clear Hok; subst;
                            try discriminate; try reflexivity; try rename Hok' into Hok).
Qed.

(** ** Loops *)

(** An invariant of the accumulator and the world that every turn keeps
    holds when the loop returns. *)
Lemma for_fold_invariant {A S : Type} (I : S -> world -> Prop) (xs : list A)
    (body : S -> A -> M S) :
  (forall acc x w acc' w', In x xs -> I acc w -> body acc x w = (Ok acc', w') -> I acc' w') ->
  forall acc w r w', I acc w -> for_fold xs acc body w = (Ok r, w') -> I r w'.
Proof.
  induction xs as [|x xs IH]; intros Hbody acc w r w' Hacc; simpl.
  - intros [= <- <-]. exact Hacc.
  - intros Hrun. apply bind_Ok_inv in Hrun as (acc1 & w1 & Hx & Hrest).
    eapply IH; [|eapply Hbody; [left; reflexivity|exact Hacc|exact Hx]|exact Hrest].
    intros acc0 y w0 acc0' w0' Hy. apply Hbody. right. exact Hy.
Qed.

(** ** The list node: files only *)

Section ListWalk.

Variable RegExp_test : string -> string -> option bool.

(** In files mode, every entry of the walk is a regular file, none is a
    directory, and the walk does not depend on the [recursive] flag: it
    never enters a subdirectory. *)
Lemma files_mode_walk (fuel : nat) (dirPath : path) (recursive includeHidden : bool)
    (filterOptions : value) (w w' : world) (l : list ListFiles.fileInfo) :
  ListFiles.getFilesRecursively RegExp_test fuel dirPath recursive includeHidden
    (VStr "files") filterOptions w = (Ok l, w') ->
  Forall (fun f => ListFiles.fi_isFile f = true /\ ListFiles.fi_isDirectory f = false /\
                   ListFiles.fi_type f = "file"
                   /\ dirname (ListFiles.fi_path f) = dirPath) l.
Proof.
  destruct fuel as [|fuel]; [discriminate|]. simpl.
  intros Hrun. apply bind_Ok_inv in Hrun as (items & w1 & _ & Hloop).
  match goal with |- Forall ?P l => set (entry_ok := P) end.
  apply (for_fold_invariant (fun acc _ => Forall entry_ok acc) _ _) with (acc := [])
    (w := w1) (r := l) (w' := w') in Hloop; [exact Hloop| |constructor].
  clear. intros acc item w acc' w' _ Hacc Hbody.
  apply bind_Ok_inv in Hbody as (st & w1 & _ & Hbody).
  destruct (negb includeHidden && startsWith item "."); [injection Hbody as <- _; exact Hacc|].
  destruct (isFile st) eqn:Hfile; simpl in Hbody; [|injection Hbody as <- _; exact Hacc].
  assert (Hdir : isDirectory st = false).
  { unfold isFile, isDirectory in *. destruct (st_kind st); congruence. }
  apply bind_Ok_inv in Hbody as (pass & w2 & _ & Hbody).
  destruct pass; simpl in Hbody; [|injection Hbody as <- _; exact Hacc].
  apply bind_Ok_inv in Hbody as (w3 & w4 & _ & Hbody).
  rewrite Hdir, andb_false_r in Hbody. injection Hbody as <- _.
  apply Forall_app. split; [exact Hacc|].
  apply Forall_cons_2; [|apply Forall_nil_2]. unfold entry_ok. simpl.
  repeat split. unfold dirname, join. apply removelast_last.
Qed.

End ListWalk.

(** C1, at the failing input.  [/data] holds the directory [sub], which is
    not hidden and holds the regular file [b.txt]; listing [/data] with
    [listMode = files] and [recursive] on returns [a.txt] alone: the walk
    skips [sub] before it reaches the recursion, so [b.txt] is missing. *)
Theorem files_mode_listing_misses_nested_files :
  fst (ListFiles.execute_item Sample.any_match 5 Sample.list_files_recursively Sample.w0) =
    Ok [ ListFiles.Item
           (ListFiles.FileInfo "a.txt" ["data"; "a.txt"] ["data"; "a.txt"] "file" ".txt"
              5 5 20 10 true false 420) ] /\
  stat_pure (files Sample.w0) ["data"; "sub"] =
    inr (MkStats KDirectory dir_size Sample.dir_meta) /\
  startsWith "sub" "." = false /\
  stat_pure (files Sample.w0) ["data"; "sub"; "b.txt"] =
    inr (MkStats KFile 3 Sample.file_meta).
Proof. vm_compute. repeat split. Qed.

(** ** The shared walker never throws *)

Lemma quiet_ret {A : Type} (a : A) : quiet (ret a).
Proof. intros w. exists (Ok a). split; [reflexivity|discriminate]. Qed.

Lemma quiet_throw {A : Type} (e : error) : quiet (@throw A e).
Proof. intros w. exists (Throw e). split; [reflexivity|discriminate]. Qed.

Lemma quiet_bind {A B : Type} (m : M A) (k : A -> M B) :
  quiet m -> (forall a, quiet (k a)) -> quiet (bind m k).
Proof.
  intros Hm Hk w. destruct (Hm w) as (r & Hr & Hne). unfold bind. rewrite Hr.
  destruct r as [a|e|]; [apply Hk| |contradiction].
  exists (Throw e). split; [reflexivity|discriminate].
Qed.

Lemma quiet_lift {A : Type} (name : string) (p : path) (f : world -> errno + A) :
  quiet (fun w => (lift_fs name p (f w), w)).
Proof.
  intros w. eexists. split; [reflexivity|]. destruct (f w); discriminate.
Qed.

Lemma quiet_stat (p : path) : quiet (stat p).
Proof. exact (quiet_lift "stat" p (fun w => stat_pure (files w) p)). Qed.

Lemma quiet_readdir (p : path) : quiet (readdir p).
Proof. exact (quiet_lift "scandir" p (fun w => readdir_pure (files w) p)). Qed.

Lemma quiet_try_catch {A : Type} (m : M A) (handler : error -> M A) :
  quiet m -> (forall e, quiet (handler e)) -> quiet (try_catch m handler).
Proof.
  intros Hm Hh w. destruct (Hm w) as (r & Hr & Hne). unfold try_catch. rewrite Hr.
  destruct r as [a|e|]; [|apply Hh|contradiction].
  exists (Ok a). split; [reflexivity|discriminate].
Qed.

Section SharedWalk.

Variable RegExp_test : string -> string -> option bool.

Lemma quiet_regex_test (pattern subject : string) :
  quiet (fileUtils.regex_test RegExp_test pattern subject).
Proof.
  unfold fileUtils.regex_test. destruct (RegExp_test pattern subject);
    [apply quiet_ret|apply quiet_throw].
Qed.

Lemma quiet_some_pattern (patterns : list string) (item : string) (fullPath : path) :
  quiet (fileUtils.some_pattern RegExp_test patterns item fullPath).
Proof.
  induction patterns as [|pattern rest IH]; simpl; [apply quiet_ret|].
  apply quiet_bind; [apply quiet_regex_test|]. intros [|]; [apply quiet_ret|].
  apply quiet_bind; [apply quiet_regex_test|]. intros [|]; [apply quiet_ret|exact IH].
Qed.

(** A loop of quiet turns returns: a turn that throws only ends it. *)
Lemma for_push_returns {A S : Type} (xs : list A) (body : S -> A -> M S) :
  (forall acc x, quiet (body acc x)) ->
  forall acc w, exists r, fileUtils.for_push xs acc body w = (Ok r, w).
Proof.
  intros Hbody. induction xs as [|x xs IH]; intros acc w; simpl.
  - exists acc. reflexivity.
  - destruct (Hbody acc x w) as (r & -> & Hne).
    destruct r as [acc'|e|]; [apply IH|eauto|contradiction].
Qed.

(** The walk returns a list, whatever it meets, and changes nothing. *)
Lemma shared_walk_returns (patterns excludePatterns : list string) (maxDepth : Z)
    (budget : nat) :
  forall (dirPath : path) (currentDepth : Z) (w : world),
    maxDepth - currentDepth <= Z.of_nat budget ->
    exists l, fileUtils.getFilesRecursively_from RegExp_test budget dirPath maxDepth
                currentDepth patterns excludePatterns w = (Ok l, w).
Proof.
  induction budget as [|budget IH]; intros dirPath currentDepth w Hdepth; simpl.
  - destruct (Z.leb_spec maxDepth currentDepth); [eexists; reflexivity|lia].
  - destruct (Z.leb_spec maxDepth currentDepth); [eexists; reflexivity|].
    unfold try_catch, bind at 1, readdir.
    destruct (readdir_pure (files w) dirPath) as [c|items]; simpl; [eexists; reflexivity|].
    match goal with
    | |- context [fileUtils.for_push items [] ?body w] =>
        destruct (for_push_returns items body) with (acc := @nil fileUtils.entry) (w := w)
          as (l & ->); [|eexists; reflexivity]
    end.
    intros acc item.
    apply quiet_bind; [apply quiet_stat|]. intros st.
    apply quiet_bind; [apply quiet_some_pattern|]. intros [|]; [apply quiet_ret|].
    apply quiet_bind.
    { destruct (0 <? length patterns)%nat; [|apply quiet_ret].
      apply quiet_bind; [apply quiet_some_pattern|]. intros b. apply quiet_ret. }
    intros [|]; [apply quiet_ret|].
    destruct (isDirectory st); [|apply quiet_ret].
    apply quiet_bind; [|intros sub; apply quiet_ret].
    intros w0. destruct (IH (join dirPath item) (currentDepth + 1) w0) as (l & Hl); [lia|].
    exists (Ok l). split; [exact Hl|discriminate].
Qed.

(** A directory that cannot be read contributes no entry. *)
Lemma shared_walk_of_unreadable (patterns excludePatterns : list string)
    (maxDepth currentDepth : Z) (dirPath : path) (w : world) (c : errno) :
  readdir_pure (files w) dirPath = inl c ->
  fileUtils.getFilesRecursively RegExp_test dirPath maxDepth currentDepth
    patterns excludePatterns w = (Ok [], w).
Proof.
  intros Hread. unfold fileUtils.getFilesRecursively.
  destruct (Z.to_nat (maxDepth - currentDepth)) eqn:Hbudget; simpl.
  - destruct (Z.leb_spec maxDepth currentDepth); [reflexivity|lia].
  - destruct (maxDepth <=? currentDepth); [reflexivity|].
    unfold try_catch, bind, readdir. rewrite Hread. reflexivity.
Qed.

Lemma shared_walk_total (patterns excludePatterns : list string)
    (maxDepth currentDepth : Z) (dirPath : path) (w : world) :
  exists l, fileUtils.getFilesRecursively RegExp_test dirPath maxDepth currentDepth
              patterns excludePatterns w = (Ok l, w).
Proof. apply shared_walk_returns. lia. Qed.

End SharedWalk.

(** C3, at the failing input.  [/guarded] holds the directory [priv], which
    cannot be read, and two files.  The walk of the list node, and with it
    the item, ends with the error of reading [priv]: no entry is returned,
    not even the two files.  The shared helper, on the same directory,
    returns [priv] itself and the two files that follow it. *)
Theorem list_walk_propagates_the_unreadable_directory :
  readdir_pure (files Sample.w0) ["guarded"; "priv"] = inl EACCES /\
  fst (ListFiles.getFilesRecursively Sample.any_match 5 ["guarded"] true false
         (VStr "both") (VObj []) Sample.w0) =
    Throw (FsError EACCES "scandir" ["guarded"; "priv"]) /\
  fst (ListFiles.execute_item Sample.any_match 5 Sample.list_guarded Sample.w0) =
    Throw (FsError EACCES "scandir" ["guarded"; "priv"]) /\
  (List.map fileUtils.entry_path <$>
     match fst (fileUtils.getFilesRecursively Sample.any_match ["guarded"] 10 0 [] []
                  Sample.w0) with
     | Ok l => Some l
     | _ => None
     end) = Some [["guarded"; "priv"]; ["guarded"; "z.txt"]; ["guarded"; "open.txt"]].
Proof. vm_compute. repeat split. Qed.

(** C2, at the failing input.  Copying the directory [/data/sub], whose
    times are 11 and 21, to [/data/copy] with [preserveTimestamps] on leaves
    [/data/copy] with the times of its creation and of the copy of its
    file; no [utimes] is ever called on it.  The private method of the copy
    node, which [execute] does not call, ends with that very call. *)
Theorem copy_leaves_the_times_of_the_directory :
  files Sample.w0 !! ["data"; "sub"] = Some (NDir (Meta 11 21 6 493)) /\
  fst (CopyFile.execute_item 5 Sample.copy_directory Sample.w0) =
    Ok (CopyFile.Copied ["data"; "sub"] ["data"; "copy"] "directory" 3 true) /\
  files (snd (CopyFile.execute_item 5 Sample.copy_directory Sample.w0)) !! ["data"; "copy"] =
    Some (NDir (Meta 1000 1001 1000 493)) /\
  trace (snd (CopyFile.execute_item 5 Sample.copy_directory Sample.w0)) =
    [ Event (MkdirCall ["data"; "copy"]) true;
      Event (CopyFileCall ["data"; "sub"; "b.txt"] ["data"; "copy"; "b.txt"] 3) true;
      Event (UtimesCall ["data"; "copy"; "b.txt"] 10 20) true ] /\
  files (snd (CopyFile.copyDirectoryRecursive 5 ["data"; "sub"] ["data"; "copy"] true
                Sample.w0)) !! ["data"; "copy"] =
    Some (NDir (Meta 11 21 1000 493)) /\
  List.last (trace (snd (CopyFile.copyDirectoryRecursive 5 ["data"; "sub"] ["data"; "copy"]
                           true Sample.w0))) (Event (MkdirCall []) false) =
    Event (UtimesCall ["data"; "copy"] 11 21) true.
Proof. vm_compute. repeat split. Qed.

(** ** What the mutating calls leave when they return *)

Lemma commit_Ok_inv (c : call) (name : string) (p : path) (r : errno + gmap path node)
    (w w' : world) (u : unit) :
  commit c name p r w = (Ok u, w') -> exists fs', r = inr fs' /\ w' = committed w c fs'.
Proof.
  unfold commit. destruct r as [code|fs']; [discriminate|]. intros [= _ <-]. eauto.
Qed.

Lemma mkdir_Ok_inv (p : path) (w w' : world) (u : unit) :
  mkdir_recursive p w = (Ok u, w') ->
  exists fs', mkdir_pure (clock w) (files w) p = inr fs' /\
              w' = committed w (MkdirCall p) fs'.
Proof. unfold mkdir_recursive, bind, get_world. apply commit_Ok_inv. Qed.

Lemma copyFile_Ok_inv (src dst : path) (w w' : world) (u : unit) :
  copyFile src dst w = (Ok u, w') ->
  exists fs' n, copyFile_pure (clock w) (files w) src dst = inr (fs', n) /\
                w' = committed w (CopyFileCall src dst n) fs'.
Proof.
  unfold copyFile, bind, get_world.
  destruct (copyFile_pure (clock w) (files w) src dst) as [c|[fs' n]].
  - discriminate.
  - intros H. apply commit_Ok_inv in H as (fs1 & [= <-] & ->). eauto.
Qed.

Lemma utimes_Ok_inv (p : path) (a mt : Z) (w w' : world) (u : unit) :
  utimes p a mt w = (Ok u, w') ->
  exists fs', utimes_pure (files w) p a mt = inr fs' /\
              w' = committed w (UtimesCall p a mt) fs'.
Proof. unfold utimes, bind, get_world. apply commit_Ok_inv. Qed.

(** ** The bytes a copy reports *)

Lemma payload_bytes_app (a b : list event) :
  payload_bytes (a ++ b) = payload_bytes a + payload_bytes b.
Proof. induction a as [|e a IH]; simpl; [reflexivity|]. rewrite IH. lia. Qed.

Lemma reports_payload_refl (w : world) : reports_payload w 0 w.
Proof. exists []. split; [symmetry; apply app_nil_r|reflexivity]. Qed.

Lemma reports_payload_step (w0 w1 w2 : world) (n k : Z) :
  reports_payload w0 n w1 -> reports_payload w1 k w2 -> reports_payload w0 (n + k) w2.
Proof.
  intros (e1 & H1 & ->) (e2 & H2 & ->). exists (e1 ++ e2).
  split; [rewrite H2, H1, app_assoc; reflexivity|symmetry; apply payload_bytes_app].
Qed.

Lemma reports_payload_call (w : world) (c : call) (fs' : gmap path node) :
  reports_payload w (payload (Event c true)) (committed w c fs').
Proof. exists [Event c true]. split; [reflexivity|simpl; lia]. Qed.

(** The size a stat reports is the number of bytes a copy made right after
    it writes. *)
Lemma copy_writes_the_stat_size (now : Z) (fs fs' : gmap path node) (src dst : path)
    (st : Stats) (n : Z) :
  stat_pure fs src = inr st ->
  copyFile_pure now fs src dst = inr (fs', n) ->
  n = size st.
Proof.
  unfold stat_pure, copyFile_pure.
  destruct (follow max_hops fs src) as [s|]; [|discriminate].
  destruct (follow max_hops fs dst) as [d|]; [|destruct (fs !! s); discriminate].
  destruct (fs !! s) as [[data m|m|t|m]|]; try discriminate.
  intros [= <-]. destruct (can_read m); [|discriminate].
  destruct (write_at _ _ _ _ _); [discriminate|]. intros [= _ <-]. reflexivity.
Qed.

Lemma when_Ok_inv (b : bool) (m : M unit) (w w' : world) (u : unit) :
  when b m w = (Ok u, w') -> (b = true /\ m w = (Ok u, w')) \/ (b = false /\ w' = w).
Proof. destruct b; simpl; [auto|]. intros [= _ <-]. auto. Qed.

(** The shared copy helper returns the bytes its [copyFile] calls wrote;
    creating directories and setting times counts for nothing. *)
Lemma copyDirectoryRecursive_reports (fuel : nat) :
  forall (source destination : path) (preserveTimestamps : bool) (w w' : world) (n : Z),
    fileUtils.copyDirectoryRecursive fuel source destination preserveTimestamps w = (Ok n, w') ->
    reports_payload w n w'.
Proof.
  induction fuel as [|fuel IH]; intros source destination preserve w w' n; [discriminate|].
  simpl. intros Hrun.
  apply bind_Ok_inv in Hrun as (u & w1 & Hmk & Hrun).
  apply mkdir_Ok_inv in Hmk as (fs1 & _ & ->).
  apply bind_Ok_inv in Hrun as (items & w2 & Hrd & Hloop).
  injection Hrd as _ <-.
  pose proof (reports_payload_call w (MkdirCall destination) fs1) as H0.
  change (payload _) with 0 in H0. revert H0 Hloop.
  generalize (committed w (MkdirCall destination) fs1). intros w1 H0 Hloop.
  eapply (for_fold_invariant (fun acc w2 => reports_payload w acc w2)) in Hloop;
    [exact Hloop| |exact H0].
  clear - IH. intros acc item wa acc' wb _ Hacc Hbody.
  apply bind_Ok_inv in Hbody as (st & w2 & Hst & Hbody).
  unfold stat in Hst.
  destruct (stat_pure (files wa) (join source item)) as [c|st'] eqn:Hstat; [discriminate|].
  injection Hst as <- <-.
  destruct (isDirectory st').
  - apply bind_Ok_inv in Hbody as (k & w3 & Hrec & [= <- <-]).
    eapply reports_payload_step; [exact Hacc|]. eapply IH. exact Hrec.
  - apply bind_Ok_inv in Hbody as (u & w3 & Hcp & Hbody).
    apply copyFile_Ok_inv in Hcp as (fs' & k & Hcp & ->).
    pose proof (copy_writes_the_stat_size _ _ _ _ _ _ _ Hstat Hcp) as ->.
    apply bind_Ok_inv in Hbody as (u' & w4 & Hut & [= <- <-]).
    eapply reports_payload_step; [exact Hacc|].
    replace (size st') with (size st' + 0) by lia.
    eapply reports_payload_step;
      [apply (reports_payload_call wa
                (CopyFileCall (join source item) (join destination item) (size st')) fs')|].
    apply when_Ok_inv in Hut as [[_ Hut]| [_ ->]]; [|apply reports_payload_refl].
    apply utimes_Ok_inv in Hut as (fs2 & _ & ->).
    apply (reports_payload_call _ (UtimesCall _ _ _)).
Qed.

Lemma same_node_link (t : path) (n : node) : same_node (NSymlink t) n -> n = NSymlink t.
Proof. unfold same_node. destruct n; simpl; congruence. Qed.

Lemma same_node_file (data : list Byte.byte) (m : meta) (n : node) :
  same_node (NFile data m) n ->
  exists m', n = NFile data m' /\ mode m' = mode m /\ birthtime m' = birthtime m.
Proof.
  unfold same_node. destruct n as [d' m'|m'|t|m']; simpl; try discriminate.
  intros [= <- Hb Hm]. eauto.
Qed.

Lemma same_node_dir (m : meta) (n : node) :
  same_node (NDir m) n -> exists m', n = NDir m' /\ mode m' = mode m.
Proof.
  unfold same_node. destruct n as [d' m'|m'|t|m']; simpl; try discriminate.
  intros [= Hb Hm]. eauto.
Qed.

Lemma same_node_not_link (n n' : node) :
  same_node n n' -> (forall t, n <> NSymlink t) -> forall t, n' <> NSymlink t.
Proof.
  unfold same_node. intros H Hn t ->. destruct n; simpl in H; try discriminate.
  eapply Hn. reflexivity.
Qed.

(** Links resolve the same way once entries have only been added or
    touched. *)
Lemma follow_kept (fs fs' : gmap path node) (hops : nat) :
  kept fs fs' ->
  forall p q, follow hops fs p = Some q -> is_Some (fs !! q) -> follow hops fs' p = Some q.
Proof.
  intros K. induction hops as [|h IH]; intros p q; simpl.
  - destruct (fs !! p) as [n|] eqn:Hp.
    + destruct (K p n Hp) as (n' & -> & E).
      destruct n; try discriminate; intros [= <-] _; destruct n'; try reflexivity;
        apply same_node_not_link with (t := target) in E; congruence.
    + intros [= <-] [x Hx]. congruence.
  - destruct (fs !! p) as [n|] eqn:Hp.
    + destruct (K p n Hp) as (n' & -> & E).
      destruct n as [d m|m|t|m].
      1,2,4: intros [= <-] _; destruct n'; try reflexivity;
        apply same_node_not_link with (t := target) in E; congruence.
      apply same_node_link in E as ->. apply IH.
    + intros [= <-] [x Hx]. congruence.
Qed.

(** The stat of a regular file still gives the number of bytes a later
    copy writes, when entries have only been added or touched since. *)
Lemma later_copy_writes_the_stat_size (now : Z) (fs fs1 fs2 : gmap path node)
    (src dst : path) (st : Stats) (n : Z) :
  kept fs fs1 ->
  stat_pure fs src = inr st ->
  copyFile_pure now fs1 src dst = inr (fs2, n) ->
  n = size st.
Proof.
  intros K Hstat Hcopy. unfold stat_pure in Hstat.
  destruct (follow max_hops fs src) as [q|] eqn:Hq; [|discriminate].
  destruct (fs !! q) as [x|] eqn:Hx; [|discriminate]. injection Hstat as <-.
  pose proof (follow_kept _ _ _ K _ _ Hq (ex_intro _ x Hx)) as Hq1.
  destruct (K q x Hx) as (x' & Hx' & E).
  unfold copyFile_pure in Hcopy. rewrite Hq1, Hx' in Hcopy.
  destruct (follow max_hops fs1 dst); [|discriminate].
  destruct x as [data m|m|t|m].
  - apply same_node_file in E as (m' & -> & _).
    destruct (can_read m'); [|discriminate].
    destruct (write_at _ _ _ _ _); [discriminate|]. injection Hcopy as _ <-. reflexivity.
  - apply same_node_dir in E as (m' & -> & _). discriminate.
  - apply same_node_link in E as ->. discriminate.
  - destruct x'; try discriminate; unfold same_node in E; simpl in E; discriminate.
Qed.

(** What is known of a computation when it returns suffices to go on. *)
Lemma wp_of_returns {A : Type} (m : M A) (P : A -> world -> Prop)
    (Q : result A -> world -> Prop) (w : world) :
  (forall a w', m w = (Ok a, w') -> P a w') ->
  (forall a w', P a w' -> Q (Ok a) w') ->
  (forall e w', Q (Throw e) w') ->
  (forall w', Q OutOfFuel w') ->
  wp m Q w.
Proof.
  intros Hm HP He Ho. unfold wp. destruct (m w) as [[a|e|] w'] eqn:Hrun; simpl; auto.
Qed.

(** The copy node reports the bytes its [copyFile] calls wrote. *)
Lemma copy_item_reports (fuel : nat) (ps : params) (w : world) :
  wp (CopyFile.execute_item fuel ps)
     (fun r w' => match r with
                  | Ok out => reports_payload w (CopyFile.copiedBytes out) w'
                  | _ => True
                  end) w.
Proof.
  unfold CopyFile.execute_item.
  wp_steps; try exact I.
  all: try (eapply wp_of_returns;
            [intros n w'; apply copyDirectoryRecursive_reports
            | | intros; exact I | intros; exact I];
            intros n w' Hn; wp_steps; try exact I; simpl).
  all: simpl in *.
  all: repeat match goal with
         | Hs : stat_pure ?fs ?src = inr ?st,
           Hc : copyFile_pure _ ?fs ?src _ = inr (_, ?z) |- _ =>
             pose proof (copy_writes_the_stat_size _ _ _ _ _ _ _ Hs Hc); subst z
         | Hs : stat_pure ?fs ?src = inr ?st,
           Hm : mkdir_pure _ ?fs _ = inr ?fs1,
           Hc : copyFile_pure _ ?fs1 ?src _ = inr (_, ?z) |- _ =>
             pose proof (later_copy_writes_the_stat_size _ _ _ _ _ _ _ _
                           (mkdir_pure_kept _ _ _ _ Hm) Hs Hc); subst z
         end.
  all: try (eexists; split; [simpl; rewrite <- ?app_assoc; reflexivity|simpl; lia]).
  all: try (replace n with (0 + n) by lia; eapply reports_payload_step; [|exact Hn];
            first [apply reports_payload_refl | apply (reports_payload_call _ (MkdirCall _))]).
  all: apply reports_payload_refl.
Qed.

Lemma follow_plain (fs : gmap path node) (hops : nat) (p : path) :
  (forall t, fs !! p <> Some (NSymlink t)) -> follow hops fs p = Some p.
Proof.
  intros H. destruct hops; simpl; destruct (fs !! p) as [[]|]; try reflexivity;
    exfalso; eapply H; reflexivity.
Qed.

Lemma follow_absent (fs : gmap path node) (hops : nat) (p : path) :
  fs !! p = None -> follow hops fs p = Some p.
Proof. intros H. apply follow_plain. intros t. rewrite H. discriminate. Qed.

Lemma follow_dir (fs : gmap path node) (hops : nat) (p : path) (m : meta) :
  fs !! p = Some (NDir m) -> follow hops fs p = Some p.
Proof. intros H. apply follow_plain. intros t. rewrite H. discriminate. Qed.

Lemma follow_file (fs : gmap path node) (hops : nat) (p : path) (d : list Byte.byte)
    (m : meta) :
  fs !! p = Some (NFile d m) -> follow hops fs p = Some p.
Proof. intros H. apply follow_plain. intros t. rewrite H. discriminate. Qed.

Lemma utimes_at (fs : gmap path node) (p : path) (n : node) (a mt : Z) :
  fs !! p = Some n -> (forall t, n <> NSymlink t) ->
  utimes_pure fs p a mt = inr (alter (node_set_times a mt) p fs).
Proof.
  intros Hp Hn. unfold utimes_pure. rewrite follow_plain, Hp; [reflexivity|].
  intros t. rewrite Hp. intros [= ->]. eapply Hn. reflexivity.
Qed.

Ltac wp_norm :=
  cbn [files clock cwd mounts committed refused st_meta st_kind size
       isFile isDirectory isSymbolicLink negb andb orb fst snd].

Ltac wp_run := repeat (wp_step; wp_norm).

(** Copying a regular file to a new path in an existing directory that
    can be changed: the item returns, reports the size of the file, and the
    destination holds the bytes of the source. *)
Lemma copy_file_to_new_path (fuel : nat) (ps : params) (w : world) (s d : string)
    (q : path) (data : list Byte.byte) (m pm : meta) :
  assoc "sourcePath" ps = Some (VStr s) -> s <> "" ->
  assoc "destinationPath" ps = Some (VStr d) -> d <> "" ->
  strict_eq (js_or (field (copyOptions_of ps) "copyMode") (VStr "auto")) (VStr "directory")
    = false ->
  follow max_hops (files w) (resolve (cwd w) s) = Some q ->
  files w !! q = Some (NFile data m) ->
  can_read m = true ->
  files w !! resolve (cwd w) d = None ->
  files w !! dirname (resolve (cwd w) d) = Some (NDir pm) ->
  can_change pm = true ->
  wp (CopyFile.execute_item fuel ps)
     (fun r w' =>
        exists out, r = Ok out /\
          CopyFile.copiedBytes out = Z.of_nat (length data) /\
          readFile_pure (files w') (resolve (cwd w) d) = inr data /\
          (size <$> match stat_pure (files w') (resolve (cwd w) d) with
                    | inr st => Some st
                    | inl _ => None
                    end) = Some (Z.of_nat (length data))) w.
Proof.
  unfold copyOptions_of.
  intros Hsrc Hs Hdst Hd Hmode Hq Hfile Hread Hnew Hparent Hchange.
  apply truthy_VStr in Hs, Hd.
  pose proof (stat_of_file _ _ _ _ _ Hq Hfile) as Hstat.
  pose proof (exists_of_stat _ _ _ Hstat) as Hex.
  assert (Hnodst : exists_pure (files w) (resolve (cwd w) d) = false).
  { unfold exists_pure, stat_pure. rewrite (follow_absent _ _ _ Hnew), Hnew. reflexivity. }
  assert (Hdir : exists_pure (files w) (dirname (resolve (cwd w) d)) = true).
  { unfold exists_pure, stat_pure. rewrite (follow_dir _ _ _ _ Hparent), Hparent. reflexivity. }
  pose (copied := NFile data (fresh_meta (clock w) (mode m))).
  assert (Hcopy : copyFile_pure (clock w) (files w) (resolve (cwd w) s) (resolve (cwd w) d)
                  = inr (add_entry (clock w) (resolve (cwd w) d) copied (files w),
                         Z.of_nat (length data))).
  { unfold copyFile_pure, write_at, parent_allows.
    rewrite Hq, (follow_absent _ _ _ Hnew), Hfile, Hread, Hnew, Hparent, Hchange.
    reflexivity. }
  assert (H1 : add_entry (clock w) (resolve (cwd w) d) copied (files w)
               !! resolve (cwd w) d = Some copied).
  { unfold add_entry. apply lookup_insert_eq. }
  assert (Hut : utimes_pure (add_entry (clock w) (resolve (cwd w) d) copied (files w))
                  (resolve (cwd w) d) (atime m) (mtime m)
                = inr (alter (node_set_times (atime m) (mtime m)) (resolve (cwd w) d)
                         (add_entry (clock w) (resolve (cwd w) d) copied (files w)))).
  { apply (utimes_at _ _ _ _ _ H1). discriminate. }
  assert (H2 : alter (node_set_times (atime m) (mtime m)) (resolve (cwd w) d)
                 (add_entry (clock w) (resolve (cwd w) d) copied (files w))
               !! resolve (cwd w) d
               = Some (NFile data (set_times (atime m) (mtime m)
                                     (fresh_meta (clock w) (mode m))))).
  { rewrite lookup_alter_eq, H1. reflexivity. }
  pose proof (stat_of_file _ _ _ _ _ (follow_file _ _ _ _ _ H1) H1) as Hs1.
  pose proof (stat_of_file _ _ _ _ _ (follow_file _ _ _ _ _ H2) H2) as Hs2.
  pose proof (readFile_of_file _ _ _ _ _ (follow_file _ _ _ _ _ H1) H1 Hread) as Hr1.
  pose proof (readFile_of_file _ _ _ _ _ (follow_file _ _ _ _ _ H2) H2 Hread) as Hr2.
  clearbody copied.
  unfold CopyFile.execute_item.
  wp_run.
  all: try (rewrite andb_false_r in *; discriminate).
  all: eexists; split; [reflexivity|]; cbn [CopyFile.copiedBytes files committed].
  all: rewrite ?Hr1, ?Hr2, ?Hs1, ?Hs2; repeat split.
Qed.

(** C7.  Copying a regular file that can be read to a new path, in a
    directory that is there and can be changed, both paths being ones that
    can be walked, leaves at the destination the bytes of the source, so a
    file of the same size, and reports that size; and whatever is copied,
    file or directory, the total the copy node reports (as the total the
    shared helper returns) is the sum of the bytes its [copyFile] calls
    wrote: creating a directory adds nothing. *)
Theorem copy_is_faithful_and_reports_its_payload :
  (forall (fuel : nat) (ps : params) (w : world) (s d : string) (q : path)
          (data : list Byte.byte) (m pm : meta),
     assoc "sourcePath" ps = Some (VStr s) -> s <> "" ->
     assoc "destinationPath" ps = Some (VStr d) -> d <> "" ->
     strict_eq (js_or (field (copyOptions_of ps) "copyMode") (VStr "auto"))
       (VStr "directory") = false ->
     follow max_hops (files w) (resolve (cwd w) s) = Some q ->
     files w !! q = Some (NFile data m) ->
     can_read m = true ->
     files w !! resolve (cwd w) d = None ->
     files w !! dirname (resolve (cwd w) d) = Some (NDir pm) ->
     can_change pm = true ->
     passable (files w) (resolve (cwd w) s) -> passable (files w) q ->
     passable (files w) (resolve (cwd w) d) ->
     exists out w',
       CopyFile.execute_item fuel ps w = (Ok out, w') /\
       CopyFile.copiedBytes out = Z.of_nat (length data) /\
       readFile_pure (files w') (resolve (cwd w) d) = inr data /\
       (size <$> match stat_pure (files w') (resolve (cwd w) d) with
                 | inr st => Some st
                 | inl _ => None
                 end) = Some (Z.of_nat (length data))) /\
  (forall (fuel : nat) (ps : params) (w w' : world) (out : CopyFile.output),
     CopyFile.execute_item fuel ps w = (Ok out, w') ->
     exists evs, trace w' = trace w ++ evs /\
                 CopyFile.copiedBytes out = payload_bytes evs) /\
  (forall (fuel : nat) (source destination : path) (preserveTimestamps : bool)
          (w w' : world) (n : Z),
     fileUtils.copyDirectoryRecursive fuel source destination preserveTimestamps w
       = (Ok n, w') ->
     exists evs, trace w' = trace w ++ evs /\ n = payload_bytes evs) /\
  (forall (p : path) (ok : bool), payload (Event (MkdirCall p) ok) = 0).
Proof.
  split; [|split; [|split]].
  - intros fuel ps w s d q data m pm H1 H2 H3 H4 H5 H6 H7 H8 H9 H10 H11 _ _ _.
    pose proof (copy_file_to_new_path fuel ps w s d q data m pm
                  H1 H2 H3 H4 H5 H6 H7 H8 H9 H10 H11) as H.
    unfold wp in H. destruct (CopyFile.execute_item fuel ps w) as [r w']. simpl in H.
    destruct H as (out & -> & Hrest). exists out, w'. split; [reflexivity|exact Hrest].
  - intros fuel ps w w' out Hrun.
    pose proof (copy_item_reports fuel ps w) as H. unfold wp in H.
    rewrite Hrun in H. exact H.
  - intros fuel source destination preserve w w' n.
    apply copyDirectoryRecursive_reports.
  - reflexivity.
Qed.

Lemma copy_is_faithful_and_reports_its_payload_witness :
  (exists out w',
     CopyFile.execute_item 5 Sample.copy_file Sample.w0 = (Ok out, w') /\
     CopyFile.copiedBytes out = 5 /\
     readFile_pure (files w') ["data"; "b.txt"] = inr (Sample.text "hello")) /\
  (exists evs,
     trace (snd (CopyFile.execute_item 5 Sample.copy_directory Sample.w0)) = [] ++ evs /\
     3 = payload_bytes evs).
Proof.
  destruct copy_is_faithful_and_reports_its_payload as (Hfile & Hitem & _).
  split.
  - destruct (Hfile 5%nat Sample.copy_file Sample.w0 "/data/a.txt" "/data/b.txt"
                ["data"; "a.txt"] (Sample.text "hello") Sample.file_meta Sample.dir_meta)
      as (out & w' & Hrun & Hn & Hread & _); try reflexivity; try discriminate;
      try (refine (bool_decide_unpack _ _); vm_compute; exact I).
    exists out, w'. split; [exact Hrun|]. split; [exact Hn|exact Hread].
  - apply (Hitem 5%nat Sample.copy_directory Sample.w0 _
             (CopyFile.Copied ["data"; "sub"] ["data"; "copy"] "directory" 3 true)).
    vm_compute. reflexivity.
Defined.

(** ** Paths and the entries of a directory *)

Lemma dirname_join (p : path) (item : string) : dirname (join p item) = p.
Proof. apply removelast_last. Qed.

Lemma below_refl (p : path) : below p p.
Proof. exists []. symmetry. apply app_nil_r. Qed.

Lemma below_app (p r : path) : below p (p ++ r).
Proof. exists r. reflexivity. Qed.

Lemma below_trans (a b c : path) : below a b -> below b c -> below a c.
Proof. intros [x ->] [y ->]. exists (x ++ y). symmetry. apply app_assoc. Qed.

Lemma below_inv (p q : path) : below p q -> exists r, q = p ++ r.
Proof. intros [r ->]. eauto. Qed.

(** Trees that are not one inside the other share no path. *)
Lemma below_apart (a b q : path) :
  ~ below a b -> ~ below b a -> below a q -> ~ below b q.
Proof.
  intros Hab Hba Ha Hb.
  destruct (prefix_weak_total a b q Ha Hb); contradiction.
Qed.

Lemma join_not_below (p : path) (item : string) : ~ below (join p item) p.
Proof. apply prefix_snoc_not. Qed.

Lemma sibling_not_below (p r : path) (item j : string) :
  j <> item -> ~ below (join p item) (p ++ j :: r).
Proof.
  intros Hne H. unfold join, below in H. apply prefix_app_inv in H.
  apply prefix_cons_inv_1 in H. congruence.
Qed.

Lemma children_apart (a b : path) (item : string) :
  ~ below a b -> ~ below b a -> ~ below (join a item) (join b item).
Proof.
  intros Hab Hba H.
  destruct (prefix_weak_total (join a item) b (join b item) H (below_app b [item]))
    as [H1|H1].
  - apply Hab. eapply below_trans; [apply below_app|exact H1].
  - destruct (decide (length b = length (join a item))) as [Hlen|Hlen].
    + apply prefix_length_eq in H1; [|lia]. subst b. apply Hab. apply below_app.
    + apply Hba. destruct H1 as [k Hk]. unfold join in *.
      destruct k as [|x k _] using rev_ind.
      * rewrite app_nil_r in Hk. rewrite Hk in Hlen. contradiction.
      * rewrite app_assoc in Hk. apply app_inj_tail in Hk as [-> _]. apply below_app.
Qed.

Lemma not_below_join (p q : path) (item : string) : ~ below p q -> ~ below (join p item) q.
Proof. intros H Hq. apply H. eapply below_trans; [apply below_app|exact Hq]. Qed.

Lemma child_name_spec (dir q : path) (item : string) :
  child_name dir q = Some item <-> q = join dir item.
Proof.
  unfold child_name, join. split.
  - destruct q as [|x q]; [discriminate|].
    destruct (decide (removelast (x :: q) = dir)) as [<-|]; [|discriminate].
    intros [= <-]. exact (app_removelast_last "" (l := x :: q) ltac:(discriminate)).
  - intros ->. destruct (dir ++ [item]) eqn:E; [destruct dir; discriminate|].
    rewrite <- E. rewrite removelast_last, last_last.
    destruct (decide (dir = dir)); [reflexivity|contradiction].
Qed.

Lemma elem_of_children (fs : gmap path node) (dir : path) (item : string) :
  item ∈ children fs dir <-> is_Some (fs !! join dir item).
Proof.
  unfold children. rewrite list_elem_of_omap. split.
  - intros ([q n] & Hin & Hname). apply elem_of_map_to_list in Hin.
    apply child_name_spec in Hname. simpl in Hname. subst q. eauto.
  - intros [n Hn]. exists (join dir item, n). split.
    + apply elem_of_map_to_list. exact Hn.
    + apply child_name_spec. reflexivity.
Qed.

Lemma NoDup_children (fs : gmap path node) (dir : path) : NoDup (children fs dir).
Proof.
  unfold children.
  pose proof (NoDup_fst_map_to_list fs) as Hnd.
  induction (map_to_list fs) as [|[q n] l IH]; simpl; [constructor|].
  apply NoDup_cons in Hnd as [Hq Hnd]. specialize (IH Hnd).
  destruct (child_name dir q) as [item|] eqn:Hname; simpl; [|exact IH].
  apply NoDup_cons. split; [|exact IH].
  intros Hin. apply list_elem_of_omap in Hin as ([q' n'] & Hin & Hname').
  apply child_name_spec in Hname, Hname'. simpl in *. subst q q'.
  apply Hq. apply list_elem_of_fmap. exists (join dir item, n'). split; [reflexivity|exact Hin].
Qed.

(** ** Entries kept, entries mirrored *)

Lemma option_same_refl (o : option node) : option_same o o.
Proof. destruct o; simpl; [apply same_node_refl|exact I]. Qed.

Lemma option_same_trans (a b c : option node) :
  option_same a b -> option_same b c -> option_same a c.
Proof.
  destruct a, b, c; simpl; try contradiction; try (intros; exact I).
  apply same_node_trans.
Qed.

Lemma same_node_shape (n n' : node) : same_node n n' -> shape_of n = shape_of n'.
Proof. unfold same_node. destruct n, n'; simpl; congruence. Qed.

Lemma same_node_plain (n n' : node) : same_node n n' -> is_plain n' = is_plain n.
Proof.
  unfold same_node. destruct n as [d m|m|t|m], n' as [d' m'|m'|t'|m']; simpl;
    try discriminate; try reflexivity.
  - intros [= _ _ H]. unfold can_read, owner_can. rewrite H. reflexivity.
  - intros [= _ H]. unfold can_read, can_exec, owner_can. rewrite H. reflexivity.
Qed.

Lemma option_same_shape (o o' : option node) :
  option_same o o' -> shape_of <$> o' = shape_of <$> o.
Proof.
  destruct o, o'; simpl; try contradiction; [|reflexivity].
  intros H. f_equal. symmetry. apply same_node_shape. exact H.
Qed.

Lemma option_same_Some (o o' : option node) (n : node) :
  option_same o o' -> o = Some n -> exists n', o' = Some n' /\ same_node n n'.
Proof. intros H ->. destruct o'; simpl in H; [eauto|contradiction]. Qed.

Lemma option_same_None (o o' : option node) : option_same o o' -> o = None -> o' = None.
Proof. intros H ->. destruct o'; simpl in H; [contradiction|reflexivity]. Qed.

Lemma option_same_dir (o o' : option node) :
  option_same o o' ->
  match o with Some (NDir _) => true | _ => false end
  = match o' with Some (NDir _) => true | _ => false end.
Proof.
  destruct o as [n|], o' as [n'|]; simpl; try contradiction; [|reflexivity].
  unfold same_node. destruct n, n'; simpl; congruence.
Qed.

(** The entries a call touches or adds, seen from the other paths. *)
Lemma touch_parent_same (now : Z) (p q : path) (fs : gmap path node) :
  option_same (fs !! q) (touch_parent now p fs !! q).
Proof.
  unfold touch_parent. rewrite lookup_alter.
  destruct (decide (dirname p = q)) as [->|_]; [|apply option_same_refl].
  unfold option_same. destruct (fs !! q); simpl; [apply same_node_touch|exact I].
Qed.

Lemma add_entry_same (now : Z) (p q : path) (n : node) (fs : gmap path node) :
  q <> p -> option_same (fs !! q) (add_entry now p n fs !! q).
Proof.
  intros Hne. unfold add_entry. rewrite lookup_insert_ne by congruence.
  apply touch_parent_same.
Qed.

Lemma set_times_same (a mt : Z) (p q : path) (fs : gmap path node) :
  option_same (fs !! q) (alter (node_set_times a mt) p fs !! q).
Proof.
  rewrite lookup_alter. destruct (decide (p = q)) as [->|_]; [|apply option_same_refl].
  unfold option_same. destruct (fs !! q) as [[]|]; simpl; try exact I; reflexivity.
Qed.

(** ** [mkdir -p] of a new directory under existing ones *)

Lemma mkdir_existing (now : Z) (target : path) (fs : gmap path node) (l : list path) :
  Forall (fun p => is_dir_at fs p = true) l ->
  fold_left (mkdir_step now target) l (inr fs) = inr fs.
Proof.
  induction 1 as [|p l Hp _ IH]; simpl; [reflexivity|].
  unfold is_dir_at in Hp. destruct (fs !! p) as [[]|]; try discriminate. exact IH.
Qed.

Lemma changeable_allows (fs : gmap path node) (p : path) :
  changeable fs (dirname p) = true -> parent_allows fs p = inr tt.
Proof.
  unfold changeable, parent_allows. destruct (fs !! dirname p) as [[]|]; try discriminate.
  intros ->. reflexivity.
Qed.

Lemma changeable_dir (fs : gmap path node) (p : path) :
  changeable fs p = true -> is_dir_at fs p = true.
Proof. unfold changeable, is_dir_at. destruct (fs !! p) as [[]|]; auto. Qed.

Lemma passable_dirs_above (fs : gmap path node) (p : path) :
  passable fs p -> dirs_above fs p.
Proof.
  unfold passable, dirs_above. intros H. eapply Forall_impl; [exact H|]. intros k.
  unfold searchable, is_dir_at. destruct (fs !! take k p) as [[]|]; auto.
Qed.

Lemma mkdir_new (now : Z) (fs : gmap path node) (dst : path) :
  dirs_above fs dst -> changeable fs (dirname dst) = true -> fs !! dst = None ->
  mkdir_pure now fs dst = inr (add_entry now dst (NDir (fresh_meta now 493)) fs).
Proof.
  intros Hdirs Hchange Hnew. unfold mkdir_pure. rewrite (follow_absent _ _ _ Hnew).
  unfold ancestors_and_self. rewrite seq_S, map_app, fold_left_app. simpl.
  rewrite mkdir_existing.
  - rewrite firstn_all. simpl. rewrite Hnew, (changeable_allows _ _ Hchange). reflexivity.
  - unfold dirs_above in Hdirs. apply Forall_map. exact Hdirs.
Qed.

(** ** The recursive copy of a tree *)

Lemma option_same_sym_None (o o' : option node) : option_same o o' -> o' = None -> o = None.
Proof. intros H ->. destruct o; simpl in H; [contradiction|reflexivity]. Qed.

Lemma option_same_back (o o' : option node) (n' : node) :
  option_same o o' -> o' = Some n' -> exists n, o = Some n /\ same_node n n'.
Proof. intros H ->. destruct o; simpl in H; [eauto|contradiction]. Qed.

Lemma is_dir_at_same (fs fs' : gmap path node) (p : path) :
  option_same (fs !! p) (fs' !! p) -> is_dir_at fs' p = is_dir_at fs p.
Proof. intros H. unfold is_dir_at. symmetry. apply option_same_dir. exact H. Qed.

(** The permissions of an entry are those of the same entry at other times. *)
Lemma same_node_mode (m m' : meta) : same_node (NDir m) (NDir m') -> mode m' = mode m.
Proof. unfold same_node. simpl. intros [= _ H]. symmetry. exact H. Qed.

Lemma searchable_same (fs fs' : gmap path node) (p : path) :
  option_same (fs !! p) (fs' !! p) -> searchable fs' p = searchable fs p.
Proof.
  unfold searchable, option_same.
  destruct (fs !! p) as [[d m|m|t|m]|], (fs' !! p) as [[d' m'|m'|t'|m']|];
    try contradiction; try reflexivity; try (intros H; discriminate H).
  intros H. unfold can_exec, owner_can. rewrite (same_node_mode _ _ H). reflexivity.
Qed.

Lemma changeable_same (fs fs' : gmap path node) (p : path) :
  option_same (fs !! p) (fs' !! p) -> changeable fs' p = changeable fs p.
Proof.
  unfold changeable, option_same.
  destruct (fs !! p) as [[d m|m|t|m]|], (fs' !! p) as [[d' m'|m'|t'|m']|];
    try contradiction; try reflexivity; try (intros H; discriminate H).
  intros H. unfold can_change, can_write, can_exec, owner_can.
  rewrite (same_node_mode _ _ H). reflexivity.
Qed.

Lemma changeable_searchable (fs : gmap path node) (p : path) :
  changeable fs p = true -> searchable fs p = true.
Proof.
  unfold changeable, searchable, can_change. destruct (fs !! p) as [[]|]; try discriminate.
  intros H. apply andb_prop in H as [_ H]. exact H.
Qed.

(** A path below a directory that can be searched can be walked when the
    path of the directory can. *)
Lemma passable_join (fs : gmap path node) (p : path) (item : string) :
  passable fs p -> searchable fs p = true -> passable fs (join p item).
Proof.
  intros Hp Hs. unfold passable, join. rewrite length_app. simpl.
  rewrite Nat.add_1_r, seq_S. apply Forall_app. split.
  - unfold passable in Hp. rewrite Forall_forall in Hp |- *.
    intros k Hk. specialize (Hp k Hk). apply elem_of_seq in Hk.
    rewrite take_app_le by lia. exact Hp.
  - apply Forall_cons_2; [|apply Forall_nil_2]. simpl. rewrite take_app_length. exact Hs.
Qed.

Lemma passable_same (fs fs' : gmap path node) (p : path) :
  (forall k, (k < length p)%nat -> option_same (fs !! take k p) (fs' !! take k p)) ->
  passable fs p -> passable fs' p.
Proof.
  intros Hsame Hp. unfold passable in *. rewrite Forall_forall in Hp |- *.
  intros k Hk. rewrite (searchable_same fs fs'); [apply Hp; exact Hk|].
  apply Hsame. apply elem_of_seq in Hk. lia.
Qed.

Lemma dirname_app (p r : path) : r <> [] -> dirname (p ++ r) = p ++ removelast r.
Proof. intros H. unfold dirname. apply removelast_app. exact H. Qed.

Lemma below_length (p q : path) : below p q -> (length p <= length q)%nat.
Proof. intros [r ->]. rewrite length_app. lia. Qed.

(** Under a path that is no directory there is nothing. *)
Lemma nothing_below (fs : gmap path node) (src p : path) :
  closed_below fs src -> below src p -> is_dir_at fs p = false ->
  forall r, r <> [] -> fs !! (p ++ r) = None.
Proof.
  intros Hclosed Hp Hnodir r. induction r as [|x r IH] using rev_ind; [contradiction|].
  intros _. destruct (fs !! (p ++ r ++ [x])) as [n|] eqn:Hn; [|reflexivity]. exfalso.
  assert (Hdir : is_dir_at fs (dirname (p ++ r ++ [x])) = true).
  { apply (Hclosed _ _ Hn).
    - eapply below_trans; [exact Hp|apply below_app].
    - intros E. apply below_length in Hp. apply (f_equal length) in E.
      rewrite !length_app in E. simpl in E. lia. }
  rewrite app_assoc in Hdir. unfold dirname in Hdir. rewrite removelast_last in Hdir.
  destruct r as [|y r].
  - rewrite app_nil_r in Hdir. congruence.
  - unfold is_dir_at in Hdir. rewrite IH in Hdir by discriminate. discriminate.
Qed.

(** A loop whose turns all return, returns. *)
Lemma for_fold_total {A S : Type} (I : list A -> world -> Prop) (body : S -> A -> M S)
    (xs : list A) :
  (forall done x acc w, I done w -> x ∉ done -> x ∈ xs ->
     exists acc' w', body acc x w = (Ok acc', w') /\ I (done ++ [x]) w') ->
  NoDup xs ->
  forall done acc w, I done w -> (forall x, x ∈ xs -> x ∉ done) ->
    exists r w', for_fold xs acc body w = (Ok r, w') /\ I (done ++ xs) w'.
Proof.
  induction xs as [|x xs IH]; intros Hbody Hnd done acc w Hdone Hfresh; simpl.
  - exists acc, w. rewrite app_nil_r. split; [reflexivity|exact Hdone].
  - apply NoDup_cons in Hnd as [Hx Hnd].
    destruct (Hbody done x acc w Hdone) as (acc1 & w1 & Hrun & H1).
    { apply Hfresh. left. }
    { left. }
    unfold bind. rewrite Hrun.
    destruct (IH (fun d y a w0 Hd Hy Hin => Hbody d y a w0 Hd Hy (list_elem_of_further _ _ _ Hin))
                 Hnd (done ++ [x]) acc1 w1 H1) as (r & w' & Hrest & H').
    { intros y Hy Hin. apply elem_of_app in Hin as [Hin|Hin].
      - apply (Hfresh y); [right; exact Hy|exact Hin].
      - apply list_elem_of_singleton in Hin. subst y. contradiction. }
    exists r, w'. split; [exact Hrest|]. rewrite <- app_assoc in H'. exact H'.
Qed.

Section CopyStep.

Variables (fuel : nat) (preserveTimestamps : bool).

Hypothesis copies :
  forall (src dst : path) (w : world),
    copy_ready (files w) src dst fuel ->
    exists n w',
      fileUtils.copyDirectoryRecursive fuel src dst preserveTimestamps w = (Ok n, w') /\
      copied_tree (files w) src dst (files w').

Variables (fs0 : gmap path node) (source destination : path).

Hypothesis ready : copy_ready fs0 source destination (S fuel).

(** What is under the source is out of the destination, and kept. *)
Lemma source_kept (done : list string) (fs : gmap path node) (q : path) :
  copying fs0 source destination done fs -> below source q ->
  option_same (fs0 !! q) (fs !! q).
Proof.
  intros (Hframe & _) Hq. apply Hframe.
  destruct ready as (_ & _ & _ & _ & Hsd & Hds & _).
  eapply below_apart; eauto.
Qed.

(** The subtree of an entry that is a directory is ready to be copied. *)
Lemma child_ready (done : list string) (fs : gmap path node) (item : string) :
  copying fs0 source destination done fs -> item ∉ done ->
  is_dir_at fs (join source item) = true ->
  copy_ready fs (join source item) (join destination item) fuel.
Proof.
  intros Hinv Hitem Hdir.
  pose proof (source_kept done fs) as Hkept. specialize (fun q => Hkept q Hinv).
  destruct Hinv as (Hframe & Hdst & Hdone & Hnew).
  destruct ready as (Hsrc & Hplain & Hclosed & Hshallow & Hsd & Hds & Hfresh & Habove
                     & Hchange & Hwalk).
  assert (Hback : forall q n, fs !! q = Some n -> below (join source item) q ->
                    below source q /\ exists n0, fs0 !! q = Some n0 /\ same_node n0 n).
  { intros q n Hq Hbelow.
    assert (Hs : below source q) by (eapply below_trans; [apply below_app|exact Hbelow]).
    split; [exact Hs|]. eapply option_same_back; [apply Hkept; exact Hs|exact Hq]. }
  repeat split.
  - exact Hdir.
  - intros q n Hq Hbelow. destruct (Hback q n Hq Hbelow) as (Hs & n0 & Hq0 & E).
    rewrite (same_node_plain _ _ E). exact (Hplain q n0 Hq0 Hs).
  - intros q n Hq Hbelow Hne. destruct (Hback q n Hq Hbelow) as (Hs & n0 & Hq0 & E).
    assert (Hne0 : q <> source).
    { intros ->. apply below_length in Hbelow. unfold join in Hbelow.
      rewrite length_app in Hbelow. simpl in Hbelow. lia. }
    pose proof (Hclosed q n0 Hq0 Hs Hne0) as Hd.
    rewrite <- Hd. apply is_dir_at_same. apply Hkept.
    destruct Hbelow as [r ->]. destruct r as [|x r _] using rev_ind.
    { rewrite app_nil_r in Hne. contradiction. }
    rewrite app_assoc. unfold dirname. rewrite removelast_last.
    eapply below_trans; [apply below_app|apply below_app].
  - intros q n Hq Hbelow. destruct (Hback q n Hq Hbelow) as (Hs & n0 & Hq0 & E).
    pose proof (Hshallow q n0 Hq0 Hs) as Hlen. unfold join. rewrite length_app. simpl. lia.
  - apply children_apart; assumption.
  - apply children_apart; assumption.
  - intros q n Hq Hbelow. destruct Hbelow as [r ->]. unfold join in Hq.
    rewrite <- app_assoc in Hq. simpl in Hq. rewrite (Hnew item r Hitem) in Hq. discriminate.
  - apply passable_join; [|apply changeable_searchable; exact Hdst].
    apply (passable_same fs0); [|exact Habove].
    intros k Hk. apply Hframe.
    intros Hb. apply below_length in Hb. rewrite length_take in Hb. lia.
  - rewrite dirname_join. exact Hdst.
  - apply passable_join.
    + apply (passable_same fs0); [|exact Hwalk].
      intros k Hk. apply Hframe. intros Hb. apply Hds.
      eapply below_trans; [exact Hb|]. exists (drop k source). symmetry. apply take_drop.
    + unfold is_dir_at in Hsrc. destruct (fs0 !! source) as [[d m|m|t|m]|] eqn:E;
        try discriminate.
      pose proof (Hplain _ _ E (below_refl _)) as Hp. simpl in Hp.
      apply andb_prop in Hp as [_ Hx].
      rewrite (searchable_same fs0 fs) by (apply Hkept; apply below_refl).
      unfold searchable. rewrite E. exact Hx.
Qed.

Lemma join_app (p r : path) (item : string) : join p item ++ r = p ++ item :: r.
Proof. unfold join. rewrite <- app_assoc. reflexivity. Qed.

Lemma join_is_not (p r : path) (item j : string) :
  j <> item \/ r <> [] -> p ++ j :: r <> join p item.
Proof.
  intros H E. unfold join in E. apply app_inv_head in E. injection E as -> ->.
  destruct H; contradiction.
Qed.

(** The invariant after the copy of an entry that is a file. *)
Lemma copying_file (done : list string) (fs fs' : gmap path node) (item : string)
    (n0 : node) (data : list Byte.byte) :
  copying fs0 source destination done fs -> item ∉ done ->
  fs0 !! join source item = Some n0 -> shape_of n0 = SFile data ->
  (forall q, q <> join destination item -> option_same (fs !! q) (fs' !! q)) ->
  shape_of <$> fs' !! join destination item = Some (SFile data) ->
  copying fs0 source destination (done ++ [item]) fs'.
Proof.
  intros (Hframe & Hdst & Hdone & Hnew) Hitem Hn0 Hshape Hrest Hcopy.
  destruct ready as (_ & _ & Hclosed & _).
  assert (Hnodir : is_dir_at fs0 (join source item) = false).
  { unfold is_dir_at. rewrite Hn0. destruct n0; try reflexivity; discriminate. }
  repeat split.
  - intros q Hq. eapply option_same_trans; [apply Hframe; exact Hq|apply Hrest].
    intros ->. apply Hq. apply below_app.
  - rewrite <- Hdst. apply changeable_same. apply Hrest.
    intros E. apply (join_not_below destination item). rewrite <- E. apply below_refl.
  - intros j r Hj. apply elem_of_app in Hj as [Hj|Hj].
    + rewrite <- (Hdone j r Hj). apply option_same_shape. apply Hrest.
      apply join_is_not. left. intros ->. contradiction.
    + apply list_elem_of_singleton in Hj. subst j. destruct r as [|x r].
      * change (destination ++ [item]) with (join destination item).
        change (source ++ [item]) with (join source item).
        rewrite Hcopy, Hn0. simpl. rewrite Hshape. reflexivity.
      * rewrite <- (join_app source). rewrite (nothing_below fs0 source (join source item));
          [|exact Hclosed|apply below_app|exact Hnodir|discriminate].
        assert (Hxr : x :: r <> []) by discriminate.
        rewrite (option_same_None _ _
                   (Hrest _ (join_is_not destination (x :: r) item item (or_intror Hxr)))
                   (Hnew item (x :: r) Hitem)). reflexivity.
  - intros j r Hj.
    assert (Hne : j <> item).
    { intros ->. apply Hj. apply elem_of_app. right. apply list_elem_of_singleton. reflexivity. }
    assert (Hnd : j ∉ done).
    { intros H. apply Hj. apply elem_of_app. left. exact H. }
    apply (option_same_None _ _ (Hrest _ (join_is_not _ _ _ _ (or_introl Hne)))).
    apply Hnew. exact Hnd.
Qed.

(** The invariant after the copy of an entry that is a directory. *)
Lemma copying_directory (done : list string) (fs fs' : gmap path node) (item : string) :
  copying fs0 source destination done fs -> item ∉ done ->
  copied_tree fs (join source item) (join destination item) fs' ->
  copying fs0 source destination (done ++ [item]) fs'.
Proof.
  intros Hinv Hitem (Hframe' & Hmirror).
  pose proof (source_kept done fs) as Hkept. specialize (fun q => Hkept q Hinv).
  destruct Hinv as (Hframe & Hdst & Hdone & Hnew).
  repeat split.
  - intros q Hq. eapply option_same_trans; [apply Hframe; exact Hq|apply Hframe'].
    apply not_below_join. exact Hq.
  - rewrite <- Hdst. apply changeable_same. apply Hframe'. apply join_not_below.
  - intros j r Hj. apply elem_of_app in Hj as [Hj|Hj].
    + rewrite <- (Hdone j r Hj). apply option_same_shape. apply Hframe'.
      apply sibling_not_below. intros ->. contradiction.
    + apply list_elem_of_singleton in Hj. subst j.
      rewrite <- !join_app. rewrite Hmirror. apply option_same_shape.
      apply Hkept. rewrite join_app. apply below_app.
  - intros j r Hj.
    assert (Hne : j <> item).
    { intros ->. apply Hj. apply elem_of_app. right. apply list_elem_of_singleton. reflexivity. }
    assert (Hnd : j ∉ done).
    { intros H. apply Hj. apply elem_of_app. left. exact H. }
    apply (option_same_None _ _ (Hframe' _ (sibling_not_below _ _ _ _ Hne))).
    apply Hnew. exact Hnd.
Qed.

(** One turn of the loop of the copy. *)
Lemma copy_step (done : list string) (item : string) (totalBytes : Z) (w : world) :
  copying fs0 source destination done (files w) -> item ∉ done ->
  is_Some (fs0 !! join source item) ->
  exists acc' w',
    (stats <- stat (join source item) ;;
     if isDirectory stats then
       n <- fileUtils.copyDirectoryRecursive fuel (join source item)
              (join destination item) preserveTimestamps ;;
       ret (totalBytes + n)
     else
       copyFile (join source item) (join destination item) ;;
       when preserveTimestamps
         (utimes (join destination item) (atime (st_meta stats)) (mtime (st_meta stats))) ;;
       ret (totalBytes + size stats)) w = (Ok acc', w') /\
    copying fs0 source destination (done ++ [item]) (files w').
Proof.
  intros Hinv Hitem [n0 Hn0].
  match goal with
  | |- exists acc' w', ?m w = _ /\ _ =>
      cut (wp m (fun r w' => exists acc', r = Ok acc' /\
                   copying fs0 source destination (done ++ [item]) (files w')) w)
  end.
  { unfold wp. match goal with |- context [fst (?m w)] => destruct (m w) as [r w'] end.
    simpl. intros (acc' & -> & H). eauto. }
  pose proof (source_kept done (files w) (join source item) Hinv (below_app _ _)) as Hk.
  destruct (option_same_Some _ _ _ Hk Hn0) as (nc & Hnc & E).
  assert (Hplain : is_plain nc = true).
  { rewrite (same_node_plain _ _ E). destruct ready as (_ & Hp & _).
    apply (Hp _ _ Hn0). apply below_app. }
  destruct nc as [data m|m|t|m]; simpl in Hplain; try discriminate.
  2: apply andb_prop in Hplain as [Hplain _].
  - (* a file *)
    pose proof (stat_of_file _ _ _ _ _ (follow_file _ _ _ _ _ Hnc) Hnc) as Hstat.
    destruct Hinv as (Hframe & Hdst & Hdone & Hnew).
    assert (Hfree : files w !! join destination item = None) by apply (Hnew item [] Hitem).
    pose (copied := NFile data (fresh_meta (clock w) (mode m))).
    assert (Hcopy : copyFile_pure (clock w) (files w) (join source item)
                      (join destination item)
                    = inr (add_entry (clock w) (join destination item) copied (files w),
                           Z.of_nat (length data))).
    { unfold copyFile_pure, write_at.
      rewrite (follow_file _ _ _ _ _ Hnc), (follow_absent _ _ _ Hfree), Hnc, Hplain, Hfree.
      rewrite changeable_allows by (rewrite dirname_join; exact Hdst). reflexivity. }
    assert (H1 : add_entry (clock w) (join destination item) copied (files w)
                 !! join destination item = Some copied).
    { unfold add_entry. apply lookup_insert_eq. }
    assert (Hut : utimes_pure (add_entry (clock w) (join destination item) copied (files w))
                    (join destination item) (atime m) (mtime m)
                  = inr (alter (node_set_times (atime m) (mtime m)) (join destination item)
                           (add_entry (clock w) (join destination item) copied (files w)))).
    { apply (utimes_at _ _ _ _ _ H1). discriminate. }
    assert (Hshape : shape_of n0 = SFile data).
    { rewrite (same_node_shape _ _ E). reflexivity. }
    wp_run; (eexists; split; [reflexivity|]); cbn [files committed].
    + eapply (copying_file done (files w)); eauto.
      * repeat split; assumption.
      * intros q Hq. eapply option_same_trans;
          [apply add_entry_same; exact Hq|apply set_times_same].
      * rewrite lookup_alter_eq, H1. reflexivity.
    + eapply (copying_file done (files w)); eauto.
      * repeat split; assumption.
      * intros q Hq. apply add_entry_same. exact Hq.
      * rewrite H1. reflexivity.
  - (* a directory *)
    assert (Hstat : stat_pure (files w) (join source item) = inr (MkStats KDirectory dir_size m)).
    { unfold stat_pure. rewrite (follow_dir _ _ _ _ Hnc), Hnc. reflexivity. }
    assert (Hdir : is_dir_at (files w) (join source item) = true).
    { unfold is_dir_at. rewrite Hnc. reflexivity. }
    destruct (copies (join source item) (join destination item) w
                (child_ready done (files w) item Hinv Hitem Hdir))
      as (n & w' & Hrun & Htree).
    wp_run. eapply wp_run; [exact Hrun|]. wp_run.
    eexists. split; [reflexivity|].
    eapply copying_directory; eauto.
Qed.

End CopyStep.
(** ** The copy of a tree returns, and the destination mirrors the source *)

Lemma copy_ready_source (fs : gmap path node) (src dst : path) (depth : nat) :
  copy_ready fs src dst depth -> exists m, fs !! src = Some (NDir m) /\ can_read m = true.
Proof.
  intros (Hdir & Hplain & _). unfold is_dir_at in Hdir.
  destruct (fs !! src) as [[d m|m|t|m]|] eqn:E; try discriminate.
  exists m. split; [reflexivity|].
  pose proof (Hplain _ _ E (below_refl _)) as H. simpl in H.
  apply andb_prop in H as [H _]. exact H.
Qed.

Lemma copy_ready_fresh (fs : gmap path node) (src dst : path) (depth : nat) :
  copy_ready fs src dst depth -> forall r, fs !! (dst ++ r) = None.
Proof.
  intros (_ & _ & _ & _ & _ & _ & Hfresh & _) r.
  destruct (fs !! (dst ++ r)) eqn:E; [|reflexivity].
  exfalso. apply (Hfresh _ _ E). apply below_app.
Qed.

Lemma copy_tree (preserveTimestamps : bool) (fuel : nat) :
  forall src dst w, copy_ready (files w) src dst fuel ->
    exists n w', fileUtils.copyDirectoryRecursive fuel src dst preserveTimestamps w = (Ok n, w')
                 /\ copied_tree (files w) src dst (files w').
Proof.
  induction fuel as [|fuel IH]; intros src dst w Hready.
  - exfalso. destruct (copy_ready_source _ _ _ _ Hready) as (m & Hsrc & _).
    destruct Hready as (_ & _ & _ & Hshallow & _).
    pose proof (Hshallow _ _ Hsrc (below_refl _)). lia.
  - destruct (copy_ready_source _ _ _ _ Hready) as (m & Hsrc & Hm).
    pose proof (copy_ready_fresh _ _ _ _ Hready) as Hfresh.
    assert (Hdst : files w !! dst = None).
    { rewrite <- (app_nil_r dst). apply Hfresh. }
    pose proof Hready as (_ & _ & Hclosed & _ & Hsd & Hds & _ & Habove & Hchange & _).
    pose proof (mkdir_new (clock w) _ _ (passable_dirs_above _ _ Habove) Hchange Hdst) as Hmk.
    set (fs1 := add_entry (clock w) dst (NDir (fresh_meta (clock w) 493)) (files w)) in *.
    assert (Hframe : forall q, q <> dst -> option_same (files w !! q) (fs1 !! q)).
    { intros q Hq. apply add_entry_same. exact Hq. }
    assert (Hne : src <> dst).
    { intros ->. apply Hsd. apply below_refl. }
    destruct (option_same_Some _ _ _ (Hframe src Hne) Hsrc) as (n1 & Hsrc1 & E1).
    assert (Hn1 : exists m1, n1 = NDir m1 /\ can_read m1 = true).
    { pose proof (same_node_plain _ _ E1) as Hp. pose proof (same_node_shape _ _ E1) as Hs.
      destruct n1 as [d1 m1|m1|t1|m1]; simpl in Hs; try discriminate.
      exists m1. split; [reflexivity|].
      destruct (copy_ready_source _ _ _ _ Hready) as (m0 & Hsrc0 & Hm0).
      rewrite Hsrc in Hsrc0. injection Hsrc0 as <-.
      unfold can_read, owner_can. rewrite (same_node_mode _ _ E1). exact Hm0. }
    destruct Hn1 as (m1 & -> & Hm1).
    assert (Hrd : readdir_pure fs1 src = inr (children fs1 src)).
    { unfold readdir_pure. rewrite (follow_dir _ _ _ _ Hsrc1), Hsrc1, Hm1. reflexivity. }
    assert (Hinit : copying (files w) src dst [] fs1).
    { repeat split.
      - intros q Hq. apply Hframe. intros ->. apply Hq, below_refl.
      - unfold changeable, fs1, add_entry. rewrite lookup_insert_eq. reflexivity.
      - intros item r Hin. inversion Hin.
      - intros item r _. eapply option_same_None; [apply Hframe|apply Hfresh].
        rewrite <- (app_nil_r dst) at 2. intros H. apply app_inv_head in H. discriminate. }
    set (w1 := committed w (MkdirCall dst) fs1).
    destruct (for_fold_total
                (fun done w' => copying (files w) src dst done (files w'))
                (fun totalBytes item =>
                   stats <- stat (join src item) ;;
                   if isDirectory stats then
                     n <- fileUtils.copyDirectoryRecursive fuel (join src item)
                            (join dst item) preserveTimestamps ;;
                     ret (totalBytes + n)
                   else
                     copyFile (join src item) (join dst item) ;;
                     when preserveTimestamps
                       (utimes (join dst item) (atime (st_meta stats)) (mtime (st_meta stats))) ;;
                     ret (totalBytes + size stats))
                (children fs1 src)) with (done := @nil string) (acc := 0) (w := w1)
      as (n & w' & Hrun & Hend).
    { intros done item acc w2 Hinv Hnew Hin.
      apply (copy_step fuel preserveTimestamps IH (files w) src dst Hready); try assumption.
      apply elem_of_children in Hin. destruct Hin as [n2 Hn2].
      assert (Hout : ~ below dst (join src item)).
      { apply (below_apart src dst); try assumption. apply below_app. }
      destruct (option_same_back _ _ _ (Hframe (join src item)
                  ltac:(intros E; apply Hout; rewrite E; apply below_refl)) Hn2)
        as (n3 & Hn3 & _).
      eauto. }
    { apply NoDup_children. }
    { exact Hinit. }
    { intros x _ H. inversion H. }
    exists n, w'. split.
    + cut (wp (fileUtils.copyDirectoryRecursive (S fuel) src dst preserveTimestamps)
             (fun r w'' => r = Ok n /\ w'' = w') w).
      { unfold wp. destruct (fileUtils.copyDirectoryRecursive _ _ _ _ w) as [r w''].
        simpl. intros [-> ->]. reflexivity. }
      cbn [fileUtils.copyDirectoryRecursive].
      apply wp_bind, wp_mkdir_recursive. rewrite Hmk. unfold after at 1.
      apply wp_bind, wp_readdir. cbn [files committed]. rewrite Hrd. unfold lift_fs, after at 1.
      eapply wp_run; [exact Hrun|]. split; reflexivity.
    + simpl in Hend. destruct Hend as (HF & HD & HM & HN). split; [exact HF|].
      intros [|item r].
      * rewrite !app_nil_r, Hsrc. unfold changeable in HD.
        destruct (files w' !! dst) as [[]|]; try discriminate. reflexivity.
      * destruct (decide (item ∈ children fs1 src)) as [Hin|Hout]; [apply HM; exact Hin|].
        rewrite (HN _ r Hout). symmetry.
        assert (Hnone : files w !! join src item = None).
        { assert (H1 : fs1 !! join src item = None).
          { destruct (fs1 !! join src item) eqn:E; [|reflexivity].
            exfalso. apply Hout. apply elem_of_children. eauto. }
          eapply option_same_sym_None; [apply Hframe|exact H1].
          intros E. apply (below_apart src dst (join src item)); try assumption.
          - apply below_app.
          - rewrite E. apply below_refl. }
        assert (Hr : files w !! (src ++ item :: r) = None).
        { destruct r as [|x r].
          - rewrite <- (join_app src [] item), app_nil_r. exact Hnone.
          - rewrite <- join_app. apply (nothing_below _ src); try assumption.
            + apply below_app.
            + unfold is_dir_at. rewrite Hnone. reflexivity.
            + discriminate. }
        rewrite Hr. reflexivity.
Qed.
(** ** Running an item to its end *)

Lemma wp_ends {A : Type} (m : M A) (r0 : result A) (w0 w : world) :
  wp m (fun r w' => r = r0 /\ w' = w0) w -> m w = (r0, w0).
Proof. unfold wp. destruct (m w) as [r w']. simpl. intros [-> ->]. reflexivity. Qed.

Lemma wp_returns {A : Type} (m : M A) (P : A -> world -> Prop) (w : world) :
  wp m (fun r w' => exists a, r = Ok a /\ P a w') w -> exists a w', m w = (Ok a, w') /\ P a w'.
Proof. unfold wp. destruct (m w) as [r w']. simpl. intros (a & -> & H). eauto. Qed.

(** Closing a branch that a gate the hypotheses hold open would have taken. *)
Ltac absurd_gate :=
  exfalso;
  repeat match goal with
         | H : _ && _ = true |- _ => apply andb_prop in H as [? ?]
         | H : negb _ = true |- _ => apply negb_true_iff in H
         | H : negb _ = false |- _ => apply negb_false_iff in H
         | H : _ || _ = true |- _ => apply orb_prop in H as [?|?]
         | H : _ && _ = false |- _ => apply andb_false_iff in H as [?|?]
         end;
  congruence.

Lemma stat_of_dir (fs : gmap path node) (p : path) (m : meta) :
  fs !! p = Some (NDir m) -> stat_pure fs p = inr (MkStats KDirectory dir_size m).
Proof. intros H. unfold stat_pure. rewrite (follow_dir _ _ _ _ H), H. reflexivity. Qed.

Lemma exists_of_dir (fs : gmap path node) (p : path) :
  is_dir_at fs p = true -> exists_pure fs p = true.
Proof.
  unfold is_dir_at. destruct (fs !! p) as [[d m|m|t|m]|] eqn:E; try discriminate.
  intros _. unfold exists_pure. rewrite (stat_of_dir _ _ _ E). reflexivity.
Qed.


(** ** The move: rename first, then copy and delete *)

Lemma outside_in (p q : path) (fs : gmap path node) : below p q -> outside p fs !! q = None.
Proof.
  intros H. unfold outside. apply map_lookup_filter_None. right. intros n _ Hn.
  apply Hn. exact H.
Qed.

Lemma outside_out (p q : path) (fs : gmap path node) :
  ~ below p q -> outside p fs !! q = fs !! q.
Proof.
  intros H. unfold outside. destruct (fs !! q) as [n|] eqn:E.
  - apply map_lookup_filter_Some. split; [exact E|exact H].
  - apply map_lookup_filter_None. left. exact E.
Qed.




Lemma option_same_plain (o o' : option node) (n' : node) :
  option_same o o' -> o' = Some n' ->
  (forall n, o = Some n -> is_plain n = true) -> is_plain n' = true.
Proof.
  intros H E Hp. destruct (option_same_back _ _ _ H E) as (n & Hn & Hs).
  rewrite (same_node_plain _ _ Hs). apply Hp. exact Hn.
Qed.




(** ** The log of calls only grows *)

Lemma grows_quiet {A : Type} (m : M A) : quiet m -> grows m.
Proof. intros H w. destruct (H w) as (r & -> & _). reflexivity. Qed.

Lemma grows_ret {A : Type} (a : A) : grows (ret a).
Proof. intros w. reflexivity. Qed.

Lemma grows_bind {A B : Type} (m : M A) (k : A -> M B) :
  grows m -> (forall a, grows (k a)) -> grows (bind m k).
Proof.
  intros Hm Hk w. unfold bind. specialize (Hm w).
  destruct (m w) as [[a|e|] w1]; simpl in *; try exact Hm.
  etransitivity; [exact Hm|apply Hk].
Qed.

Lemma grows_commit (c : call) (name : string) (p : path) (r : errno + gmap path node) :
  grows (commit c name p r).
Proof. intros w. unfold commit. destruct r; simpl; apply prefix_app_r; reflexivity. Qed.

Lemma grows_conclude (c : call) (r : option (errno * string * path) * gmap path node) :
  grows (conclude c r).
Proof.
  intros w. unfold conclude. destruct r as [[[[code name] q]|] fs']; simpl;
    apply prefix_app_r; reflexivity.
Qed.

Lemma grows_when (b : bool) (m : M unit) : grows m -> grows (when b m).
Proof. intros H. destruct b; [exact H|apply grows_ret]. Qed.

Lemma grows_for_fold {A S : Type} (xs : list A) (body : S -> A -> M S) :
  (forall acc x, grows (body acc x)) -> forall acc, grows (for_fold xs acc body).
Proof.
  intros H. induction xs as [|x xs IH]; intros acc; simpl; [apply grows_ret|].
  apply grows_bind; [apply H|exact IH].
Qed.

Lemma grows_by_world {A : Type} (k : world -> M A) :
  (forall w, grows (k w)) -> grows (w <- get_world ;; k w).
Proof. intros H w. unfold bind, get_world. apply H. Qed.

Lemma grows_mkdir_recursive (p : path) : grows (mkdir_recursive p).
Proof. apply grows_by_world. intros w. apply grows_commit. Qed.

Lemma grows_copyFile (src dst : path) : grows (copyFile src dst).
Proof.
  apply grows_by_world. intros w.
  destruct (copyFile_pure _ _ _ _) as [c|[fs' n]]; apply grows_commit.
Qed.

Lemma grows_utimes (p : path) (a mt : Z) : grows (utimes p a mt).
Proof. apply grows_by_world. intros w. apply grows_commit. Qed.

Lemma grows_unlink (p : path) : grows (unlink p).
Proof. apply grows_by_world. intros w. apply grows_commit. Qed.

Lemma grows_rmdir (p : path) (recursive : bool) : grows (rmdir p recursive).
Proof.
  apply grows_by_world. intros w.
  destruct recursive; [apply grows_conclude|apply grows_commit].
Qed.

Lemma grows_copyDirectoryRecursive (fuel : nat) :
  forall (source destination : path) (preserveTimestamps : bool),
    grows (fileUtils.copyDirectoryRecursive fuel source destination preserveTimestamps).
Proof.
  induction fuel as [|fuel IH]; intros source destination preserve; simpl.
  - intros w. reflexivity.
  - apply grows_bind; [apply grows_mkdir_recursive|intros _].
    apply grows_bind; [apply grows_quiet, quiet_readdir|intros items].
    apply grows_for_fold. intros acc item.
    apply grows_bind; [apply grows_quiet, quiet_stat|intros stats].
    destruct (isDirectory stats).
    + apply grows_bind; [apply IH|intros n; apply grows_ret].
    + apply grows_bind; [apply grows_copyFile|intros _].
      apply grows_bind; [apply grows_when, grows_utimes|intros _; apply grows_ret].
Qed.

(** The handler of a refused rename only adds to the log. *)
Lemma grows_fallback (fuel : nat) (src dst : path) (isSourceFile isSourceDirectory : bool) :
  grows ((if isSourceFile then copyFile src dst ;; unlink src
          else if isSourceDirectory then
            fileUtils.copyDirectoryRecursive fuel src dst false ;; rmdir src true
          else ret tt) ;; ret "copy-delete").
Proof.
  apply grows_bind; [|intros _; apply grows_ret].
  destruct isSourceFile; [|destruct isSourceDirectory].
  - apply grows_bind; [apply grows_copyFile|intros _; apply grows_unlink].
  - apply grows_bind; [apply grows_copyDirectoryRecursive|intros _; apply grows_rmdir].
  - apply grows_ret.
Qed.

Lemma move_after_refusal (fuel : nat) (fallbackCopy : bool) (src dst : path)
    (isSourceFile isSourceDirectory : bool) (w : world) (code : errno) :
  rename_fails w src dst code ->
  MoveFile.perform_move fuel fallbackCopy src dst isSourceFile isSourceDirectory w
  = (if fallbackCopy then
       (if isSourceFile then copyFile src dst ;; unlink src
        else if isSourceDirectory then
          fileUtils.copyDirectoryRecursive fuel src dst false ;; rmdir src true
        else ret tt) ;; ret "copy-delete"
     else throw (OperationError (MoveFailedNoFallback code)))
      (refused w (RenameCall src dst)).
Proof.
  unfold rename_fails. intros H.
  unfold MoveFile.perform_move, try_catch, rename, commit, bind at 1 2, get_world.
  rewrite H. reflexivity.
Qed.

Lemma move_after_rename (fuel : nat) (fallbackCopy : bool) (src dst : path)
    (isSourceFile isSourceDirectory : bool) (w : world) (fs' : gmap path node) :
  rename_pure (clock w) (mounts w) (files w) src dst = inr fs' ->
  MoveFile.perform_move fuel fallbackCopy src dst isSourceFile isSourceDirectory w
  = (Ok "atomic", committed w (RenameCall src dst) fs').
Proof.
  intros H.
  unfold MoveFile.perform_move, try_catch, rename, commit, bind, get_world.
  rewrite H. reflexivity.
Qed.


(** ** The order of the calls of a move *)

Lemma prepares_still {A : Type} (m : M A) : (forall w, snd (m w) = w) -> prepares m.
Proof. intros H w. exists []. rewrite H, app_nil_r. split; [reflexivity|constructor]. Qed.

Lemma prepares_bind {A B : Type} (m : M A) (k : A -> M B) :
  prepares m -> (forall a, prepares (k a)) -> prepares (bind m k).
Proof.
  intros Hm Hk w. unfold bind. destruct (Hm w) as (evs & Ht & Hp).
  destruct (m w) as [[a|e|] w1]; simpl in *; try (exists evs; split; assumption).
  destruct (Hk a w1) as (evs' & Ht' & Hp'). exists (evs ++ evs').
  rewrite Ht', Ht, app_assoc. split; [reflexivity|]. apply Forall_app. split; assumption.
Qed.

Lemma prepares_commit (c : call) (name : string) (p : path) (r : errno + gmap path node) :
  (forall ok, is_preparation (Event c ok)) -> prepares (commit c name p r).
Proof.
  intros H w. unfold commit. destruct r; simpl; eexists; (split; [reflexivity|]);
    repeat constructor; apply H.
Qed.


Lemma prepares_by_world {A : Type} (k : world -> M A) :
  (forall w, prepares (k w)) -> prepares (w <- get_world ;; k w).
Proof. intros H w. unfold bind, get_world. apply H. Qed.

Lemma prepares_mkdir_recursive (p : path) : prepares (mkdir_recursive p).
Proof. apply prepares_by_world. intros w. apply prepares_commit. intros ok. exact I. Qed.

Lemma prepares_copyFile (src dst : path) : prepares (copyFile src dst).
Proof.
  apply prepares_by_world. intros w.
  destruct (copyFile_pure _ _ _ _) as [c|[fs' n]]; apply prepares_commit; intros ok; exact I.
Qed.

Lemma prepares_writeFile (p : path) (data : list Byte.byte) : prepares (writeFile p data).
Proof. apply prepares_by_world. intros w. apply prepares_commit. intros ok. exact I. Qed.


Lemma prepares_path_resolve (v : value) : prepares (path_resolve v).
Proof. apply prepares_still. intros w. destruct v; reflexivity. Qed.


Lemma prepares_ret {A : Type} (a : A) : prepares (ret a).
Proof. apply prepares_still. reflexivity. Qed.



Lemma prepares_timestamp : prepares timestamp.
Proof. apply prepares_still. reflexivity. Qed.

Lemma prepares_create_backup (moveOptions : value) (absoluteSourcePath : path)
    (isSourceFile isSourceDirectory : bool) :
  prepares (MoveFile.create_backup moveOptions absoluteSourcePath
              isSourceFile isSourceDirectory).
Proof.
  unfold MoveFile.create_backup.
  destruct (truthy _); [|apply prepares_ret].
  apply prepares_bind; [apply prepares_path_resolve|intros backupDir].
  apply prepares_bind; [apply prepares_timestamp|intros stamp].
  apply prepares_bind; [apply prepares_mkdir_recursive|intros _].
  apply prepares_bind; [|intros _; apply prepares_ret].
  destruct isSourceFile; [apply prepares_copyFile|].
  destruct isSourceDirectory; [|apply prepares_ret].
  apply prepares_bind; [apply prepares_timestamp|intros stamp'].
  apply prepares_writeFile.
Qed.




Lemma staged_prepares {A : Type} (m : M A) : prepares m -> staged m.
Proof.
  intros H w. destruct (H w) as (evs & Ht & Hp). exists evs. split; [exact Ht|].
  exists evs, []. rewrite app_nil_r. split; [reflexivity|]. split; [exact Hp|left; reflexivity].
Qed.



(** ** The move item when the rename is refused *)

Section MoveItem.

Variables (fuel : nat) (ps : params) (w : world) (s d : string) (code : errno) (st : Stats).

Hypothesis Hsource : assoc "sourcePath" ps = Some (VStr s).
Hypothesis Hs : s <> "".
Hypothesis Hdestination : assoc "destinationPath" ps = Some (VStr d).
Hypothesis Hd : d <> "".
Hypothesis Hbackup :
  truthy (js_or (field (moveOptions_of ps) "createBackup") (VBool false)) = false.
Hypothesis Hnew : exists_pure (files w) (resolve (cwd w) d) = false.
Hypothesis Hparent : exists_pure (files w) (dirname (resolve (cwd w) d)) = true.
Hypothesis Hrefused : rename_fails w (resolve (cwd w) s) (resolve (cwd w) d) code.
Hypothesis Hstat : stat_pure (files w) (resolve (cwd w) s) = inr st.
Hypothesis Hacc :
  mode_accepts (js_or (field (moveOptions_of ps) "moveMode") (VStr "auto")) st = true.





End MoveItem.




(** ** The checksum the info node reports *)

Lemma quiet_for_fold {A S : Type} (xs : list A) (body : S -> A -> M S) :
  (forall acc x, quiet (body acc x)) -> forall acc, quiet (for_fold xs acc body).
Proof.
  intros H. induction xs as [|x xs IH]; intros acc; simpl; [apply quiet_ret|].
  apply quiet_bind; [apply H|exact IH].
Qed.

Lemma quiet_realpath (p : path) : quiet (realpath p).
Proof. exact (quiet_lift "realpath" p (fun w => realpath_pure (files w) p)). Qed.

Lemma quiet_count_item (absolutePath : path) (c : FileInfo.counts) (item : string) :
  quiet (FileInfo.count_item absolutePath c item).
Proof.
  unfold FileInfo.count_item. apply quiet_bind; [apply quiet_stat|intros itemStats].
  destruct (isFile itemStats); [|destruct (isDirectory itemStats)]; apply quiet_ret.
Qed.

(** An attempt at something that only reads: it returns, with the value or
    with the error, and the world is as it was. *)
Lemma wp_attempt_quiet {A : Type} (m : M A)
    (Q : result (option A * option error) -> world -> Prop) (w : world) :
  quiet m -> (forall r, Q (Ok r) w) -> wp (FileInfo.attempt m) Q w.
Proof.
  intros Hm HQ. unfold wp, FileInfo.attempt, try_catch, bind.
  destruct (Hm w) as (r & -> & Hne). destruct r as [a|e|]; [| |contradiction]; apply HQ.
Qed.

(** C8, as the code has it.  With [calculateChecksum] enabled the info node
    returns for a path that can be walked, without changing the world, a
    record with no [checksumError] whose [checksum] is, for a regular file
    that can be read, the MD5 digest (in hexadecimal) of the whole content
    of the file, or nothing when the file is empty; for a path that is not
    a regular file there is no [checksum] either.  [execute] calls the helper of [utils/fileUtils], not
    the private placeholder. *)
Theorem info_checksum_is_the_md5_digest (ps : params) (w : world) (s : string)
    (includeOptions : value) :
  assoc "filePath" ps = Some (VStr s) -> s <> "" ->
  assoc "includeOptions" ps = Some includeOptions ->
  truthy (field includeOptions "calculateChecksum") = true ->
  passable (files w) (resolve (cwd w) s) ->
  (forall q data m,
     follow max_hops (files w) (resolve (cwd w) s) = Some q ->
     files w !! q = Some (NFile data m) ->
     can_read m = true -> passable (files w) q ->
     exists info,
       FileInfo.execute_item ps w = (Ok info, w) /\
       FileInfo.i_checksum info
       = (if decide (data = []) then None else Some (crypto.md5_hex data)) /\
       FileInfo.i_checksumError info = None) /\
  (forall st,
     stat_pure (files w) (resolve (cwd w) s) = inr st -> isFile st = false ->
     exists info,
       FileInfo.execute_item ps w = (Ok info, w) /\
       FileInfo.i_checksum info = None /\
       FileInfo.i_checksumError info = None).
Proof.
  intros Hpath Hs Hopts Hsum _. apply truthy_VStr in Hs. split.
  - intros q data m Hq Hfile Hread _.
    pose proof (stat_of_file _ _ _ _ _ Hq Hfile) as Hstat.
    pose proof (exists_of_stat _ _ _ Hstat) as Hex.
    pose proof (readFile_of_file _ _ _ _ _ Hq Hfile Hread) as Hrd.
    assert (Hpos : (0 <? Z.of_nat (length data)) = if decide (data = []) then false else true).
    { destruct data; [reflexivity|]. rewrite decide_False by discriminate.
      apply Z.ltb_lt. simpl length. lia. }
    cut (wp (FileInfo.execute_item ps)
            (fun r w' => w' = w /\ exists info, r = Ok info /\
               FileInfo.i_checksum info
               = (if decide (data = []) then None else Some (crypto.md5_hex data)) /\
               FileInfo.i_checksumError info = None) w).
    { unfold wp. destruct (FileInfo.execute_item ps w) as [r w']; simpl.
      intros (-> & info & -> & H1 & H2). eauto. }
    unfold FileInfo.execute_item, FileInfo.attempt, fileUtils.calculateMd5Checksum.
    destruct (decide (data = [])) as [Hnil|Hnil].
    all: wp_steps.
    all: simpl in *; rewrite ?Hsum, ?Hpos, ?andb_false_r in *; simpl in *; try discriminate.
    all: try congruence.
    all: split; [reflexivity|]; eexists; split; [reflexivity|]; simpl; split; congruence.
  - intros st Hstat Hkind.
    pose proof (exists_of_stat _ _ _ Hstat) as Hex.
    cut (wp (FileInfo.execute_item ps)
            (fun r w' => w' = w /\ exists info, r = Ok info /\
               FileInfo.i_checksum info = None /\
               FileInfo.i_checksumError info = None) w).
    { unfold wp. destruct (FileInfo.execute_item ps w) as [r w']; simpl.
      intros (-> & info & -> & H1 & H2). eauto. }
    unfold FileInfo.execute_item.
    repeat first
      [ match goal with
        | H : _ && false && _ = true |- _ => rewrite andb_false_r in H; discriminate
        end
      | wp_step
      | rewrite Hkind, ?andb_false_r
      | apply wp_attempt_quiet;
        [ first [ apply quiet_realpath
                | apply quiet_bind; [apply quiet_readdir|intros contents];
                  apply quiet_for_fold; intros c item; apply quiet_count_item ]
        | intros ? ] ].
    all: try (rewrite ?andb_false_r in *; discriminate).
    all: split; [reflexivity|]; eexists; split; [reflexivity|]; simpl; split; reflexivity.
Qed.

(** C8, against the claim.  For [/data/sub/b.txt], which holds [abc], the
    info node reports the MD5 digest of the content, the one RFC 1321 gives
    for [abc]; the private placeholder would have reported something else. *)
Lemma info_checksum_of_abc :
  FileInfo.i_checksum <$>
    (match fst (FileInfo.execute_item Sample.info_checksum Sample.w0) with
     | Ok info => Some info
     | _ => None
     end) = Some (Some (crypto.md5_hex (Sample.text "abc"))) /\
  crypto.md5_hex (Sample.text "abc") = "900150983cd24fb0d6963f7d28e17f72" /\
  fst (FileInfo.calculateMd5Checksum ["data"; "sub"; "b.txt"] Sample.w0) = Ok "md5-3-1000".
Proof. vm_compute. repeat split. Qed.

Lemma info_checksum_is_the_md5_digest_witness :
  exists info,
    FileInfo.execute_item Sample.info_checksum Sample.w0 = (Ok info, Sample.w0) /\
    FileInfo.i_checksum info = Some (crypto.md5_hex (Sample.text "abc")) /\
    FileInfo.i_checksumError info = None.
Proof.
  exact (proj1 (info_checksum_is_the_md5_digest Sample.info_checksum Sample.w0
                  "/data/sub/b.txt" (VObj [("calculateChecksum", VBool true)])
                  eq_refl ltac:(discriminate) eq_refl eq_refl
                  ltac:(refine (bool_decide_unpack _ _); vm_compute; exact I))
           ["data"; "sub"; "b.txt"] (Sample.text "abc") Sample.file_meta
           eq_refl eq_refl eq_refl
           ltac:(refine (bool_decide_unpack _ _); vm_compute; exact I)).
Defined.

(** ** The move never objects to the backup of a directory *)

Section NeverThrows.

Variable o : op_error.
Let e : error := OperationError o.

Lemma spares_ret {A : Type} (a : A) : never_throws e (ret a).
Proof. intros w. discriminate. Qed.

Lemma spares_throw {A : Type} (e' : error) : e' <> e -> never_throws e (@throw A e').
Proof. intros H w. simpl. congruence. Qed.

Lemma spares_bind {A B : Type} (m : M A) (k : A -> M B) :
  never_throws e m -> (forall a, never_throws e (k a)) -> never_throws e (bind m k).
Proof.
  intros Hm Hk w. unfold bind. specialize (Hm w).
  destruct (m w) as [[a|e'|] w1]; simpl in *; [apply Hk|congruence|discriminate].
Qed.

Lemma spares_try_catch {A : Type} (m : M A) (handler : error -> M A) :
  (forall e', never_throws e (handler e')) -> never_throws e (try_catch m handler).
Proof.
  intros Hh w. unfold try_catch.
  destruct (m w) as [[a|e'|] w1]; simpl; [discriminate|apply Hh|discriminate].
Qed.

Lemma spares_when (b : bool) (m : M unit) : never_throws e m -> never_throws e (when b m).
Proof. intros H. destruct b; [exact H|apply spares_ret]. Qed.

Lemma spares_by_world {A : Type} (k : world -> M A) :
  (forall w, never_throws e (k w)) -> never_throws e (w <- get_world ;; k w).
Proof. intros H w. unfold bind, get_world. apply H. Qed.

Lemma spares_lift {A : Type} (name : string) (p : path) (f : world -> errno + A) :
  never_throws e (fun w => (lift_fs name p (f w), w)).
Proof. intros w. simpl. destruct (f w); discriminate. Qed.

Lemma spares_commit (c : call) (name : string) (p : path) (r : errno + gmap path node) :
  never_throws e (commit c name p r).
Proof. intros w. unfold commit. destruct r; discriminate. Qed.

Lemma spares_conclude (c : call) (r : option (errno * string * path) * gmap path node) :
  never_throws e (conclude c r).
Proof. intros w. unfold conclude. destruct r as [[[[code name] q]|] fs']; discriminate. Qed.

Lemma spares_for_fold {A S : Type} (xs : list A) (body : S -> A -> M S) :
  (forall acc x, never_throws e (body acc x)) -> forall acc, never_throws e (for_fold xs acc body).
Proof.
  intros H. induction xs as [|x xs IH]; intros acc; simpl; [apply spares_ret|].
  apply spares_bind; [apply H|exact IH].
Qed.

Lemma spares_stat (p : path) : never_throws e (stat p).
Proof. exact (spares_lift "stat" p (fun w => stat_pure (files w) p)). Qed.

Lemma spares_readdir (p : path) : never_throws e (readdir p).
Proof. exact (spares_lift "scandir" p (fun w => readdir_pure (files w) p)). Qed.

Lemma spares_existsSync (p : path) : never_throws e (existsSync p).
Proof. intros w. discriminate. Qed.

Lemma spares_timestamp : never_throws e timestamp.
Proof. intros w. discriminate. Qed.

Lemma spares_getNodeParameter (ps : params) (name : string) (fallback : option value) :
  never_throws e (getNodeParameter ps name fallback).
Proof.
  unfold getNodeParameter. destruct fallback; [apply spares_ret|].
  destruct (assoc name ps); [apply spares_ret|apply spares_throw; discriminate].
Qed.

Lemma spares_path_resolve (v : value) : never_throws e (path_resolve v).
Proof.
  destruct v; simpl; try (apply spares_throw; discriminate).
  apply spares_by_world. intros w. apply spares_ret.
Qed.

Lemma spares_mkdir_recursive (p : path) : never_throws e (mkdir_recursive p).
Proof. apply spares_by_world. intros w. apply spares_commit. Qed.

Lemma spares_copyFile (src dst : path) : never_throws e (copyFile src dst).
Proof.
  apply spares_by_world. intros w.
  destruct (copyFile_pure _ _ _ _) as [c|[fs' n]]; apply spares_commit.
Qed.

Lemma spares_writeFile (p : path) (data : list Byte.byte) : never_throws e (writeFile p data).
Proof. apply spares_by_world. intros w. apply spares_commit. Qed.

Lemma spares_utimes (p : path) (a mt : Z) : never_throws e (utimes p a mt).
Proof. apply spares_by_world. intros w. apply spares_commit. Qed.

Lemma spares_unlink (p : path) : never_throws e (unlink p).
Proof. apply spares_by_world. intros w. apply spares_commit. Qed.

Lemma spares_rmdir (p : path) (recursive : bool) : never_throws e (rmdir p recursive).
Proof.
  apply spares_by_world. intros w.
  destruct recursive; [apply spares_conclude|apply spares_commit].
Qed.

Lemma spares_copyDirectoryRecursive (fuel : nat) :
  forall (source destination : path) (preserveTimestamps : bool),
    never_throws e
      (fileUtils.copyDirectoryRecursive fuel source destination preserveTimestamps).
Proof.
  induction fuel as [|fuel IH]; intros source destination preserve; simpl.
  - intros w. discriminate.
  - apply spares_bind; [apply spares_mkdir_recursive|intros _].
    apply spares_bind; [apply spares_readdir|intros items].
    apply spares_for_fold. intros acc item.
    apply spares_bind; [apply spares_stat|intros stats].
    destruct (isDirectory stats).
    + apply spares_bind; [apply IH|intros n; apply spares_ret].
    + apply spares_bind; [apply spares_copyFile|intros _].
      apply spares_bind; [apply spares_when, spares_utimes|intros _; apply spares_ret].
Qed.

End NeverThrows.

Ltac spares_step :=
  first [ apply spares_ret
        | apply spares_getNodeParameter
        | apply spares_path_resolve
        | apply spares_existsSync
        | apply spares_stat
        | apply spares_timestamp
        | apply spares_mkdir_recursive
        | apply spares_copyFile
        | apply spares_writeFile
        | apply spares_unlink
        | apply spares_rmdir
        | apply spares_copyDirectoryRecursive
        | apply spares_when
        | apply spares_bind; [|intros ?]
        | apply spares_throw; discriminate
        | apply spares_try_catch; intros ?
        | match goal with |- never_throws _ (if ?b then _ else _) => destruct b end ].

(** Whatever the item and the files, the move does not throw the error of
    an unsupported directory backup. *)
Lemma move_item_spares_the_backup (fuel : nat) (ps : params) :
  never_throws (OperationError DirectoryBackupNotImplemented) (MoveFile.execute_item fuel ps).
Proof.
  unfold MoveFile.execute_item, MoveFile.create_backup, MoveFile.perform_move.
  repeat spares_step.
Qed.

(** ** The backup of a directory that is moved *)

(** The move logs its rename first. *)
Lemma perform_move_logs_the_rename (fuel : nat) (fallbackCopy : bool) (src dst : path)
    (isSourceFile isSourceDirectory : bool) (w : world) :
  exists ok more,
    logged w (Event (RenameCall src dst) ok :: more)
      (snd (MoveFile.perform_move fuel fallbackCopy src dst isSourceFile isSourceDirectory w)).
Proof.
  destruct (rename_pure (clock w) (mounts w) (files w) src dst) as [code|fs'] eqn:E.
  - rewrite (move_after_refusal _ _ _ _ _ _ _ _ E). exists false.
    destruct fallbackCopy.
    + destruct (grows_fallback fuel src dst isSourceFile isSourceDirectory
                  (refused w (RenameCall src dst))) as [rest Hrest].
      exists rest. unfold logged. rewrite Hrest. simpl. rewrite <- app_assoc. reflexivity.
    + exists []. reflexivity.
  - rewrite (move_after_rename _ _ _ _ _ _ _ _ E). exists true, []. reflexivity.
Qed.

Lemma wp_equals {A : Type} (m : M A) (x : result A * world) (w : world) :
  wp m (fun r w' => (r, w') = x) w -> m w = x.
Proof. unfold wp. destruct (m w) as [r w']. simpl. exact (fun H => H). Qed.

Lemma wp_is {A : Type} (m : M A) (x : result A * world) (w : world) :
  m w = x -> wp m (fun r w' => (r, w') = x) w.
Proof. unfold wp. intros <-. destruct (m w) as [r w']. reflexivity. Qed.

Section MoveBackup.

Variables (fuel : nat) (ps : params) (w : world) (s d b : string) (st : Stats).

Hypothesis Hsource : assoc "sourcePath" ps = Some (VStr s).
Hypothesis Hs : s <> "".
Hypothesis Hdestination : assoc "destinationPath" ps = Some (VStr d).
Hypothesis Hd : d <> "".
Hypothesis Hbackup :
  truthy (js_or (field (moveOptions_of ps) "createBackup") (VBool false)) = true.
Hypothesis Hwhere :
  js_or (js_or (field (moveOptions_of ps) "backupDirectory") (VStr "")) (VStr "/tmp") = VStr b.
Hypothesis Hnew : exists_pure (files w) (resolve (cwd w) d) = false.
Hypothesis Hparent : exists_pure (files w) (dirname (resolve (cwd w) d)) = true.
Hypothesis Hstat : stat_pure (files w) (resolve (cwd w) s) = inr st.
Hypothesis Hdir : isDirectory st = true.
Hypothesis Hacc :
  mode_accepts (js_or (field (moveOptions_of ps) "moveMode") (VStr "auto")) st = true.

Let src := resolve (cwd w) s.
Let dst := resolve (cwd w) d.
Let p := backup_path_of b src w.

(** The backup of a directory is a marker, and the move follows. *)
Lemma move_item_marks_the_directory :
  match mkdir_pure (clock w) (files w) (dirname p) with
  | inl c =>
      MoveFile.execute_item fuel ps w
      = (Throw (FsError c "mkdir" (dirname p)), refused w (MkdirCall (dirname p)))
  | inr fs1 =>
      let w1 := committed w (MkdirCall (dirname p)) fs1 in
      match writeFile_pure (clock w1) fs1 (marker_of p)
              (list_byte_of_string (MoveFile.backup_reference src (pretty (clock w1)))) with
      | inl c =>
          MoveFile.execute_item fuel ps w
          = (Throw (FsError c "open" (marker_of p)), refused w1 (WriteFileCall (marker_of p)))
      | inr fs2 =>
          let w2 := committed w1 (WriteFileCall (marker_of p)) fs2 in
          MoveFile.execute_item fuel ps w
          = (moveMethod <- MoveFile.perform_move fuel
                             (not_false (field (moveOptions_of ps) "fallbackCopy"))
                             src dst false true ;;
             destStats <- stat dst ;;
             ret (MoveFile.Moved src dst "directory" (size destStats) moveMethod (Some p))) w2
      end
  end.
Proof.
  pose proof (directory_is_no_file _ Hdir) as Hfile.
  revert Hbackup Hwhere Hacc. unfold moveOptions_of. intros Hbackup' Hwhere' Hacc'.
  pose proof (truthy_VStr _ Hs) as Hs'. pose proof (truthy_VStr _ Hd) as Hd'.
  pose proof (exists_of_stat _ _ _ Hstat) as Hex.
  apply mode_accepts_split in Hacc' as [Hf Hdr].
  unfold writeFile_pure, marker_of, p, backup_path_of, src, dst.
  destruct (mkdir_pure _ _ _) as [c|fs1] eqn:Hmk; cbv zeta.
  - apply wp_ends. unfold MoveFile.execute_item, MoveFile.create_backup. wp_run.
    all: try (rewrite ?andb_false_r in *; discriminate).
    all: try congruence.
    all: split; reflexivity.
  - cbn [clock committed].
    destruct (match follow max_hops fs1 _ with Some q => _ | None => _ end)
      as [c|fs2] eqn:Hwr.
    + apply wp_ends. unfold MoveFile.execute_item, MoveFile.create_backup. wp_run.
      all: try (rewrite ?andb_false_r in *; discriminate).
      all: try congruence.
      all: split; reflexivity.
    + apply wp_equals. unfold MoveFile.execute_item, MoveFile.create_backup. wp_run.
      all: try (rewrite ?andb_false_r in *; discriminate).
      all: try congruence.
      all: apply wp_bind_inv, wp_is; reflexivity.
Qed.

End MoveBackup.

Lemma report_keeps_the_log (m : M string) (src dst : path) (kind : string)
    (backup : option path) (w : world) :
  trace (snd ((moveMethod <- m ;;
               destStats <- stat dst ;;
               ret (MoveFile.Moved src dst kind (size destStats) moveMethod backup)) w))
  = trace (snd (m w)).
Proof.
  unfold bind, stat. destruct (m w) as [[a|e|] w1]; simpl; try reflexivity.
  destruct (lift_fs _ _ _); reflexivity.
Qed.

(** C4, as the code has it.  Deleting a directory with a backup requested
    (the item having passed the earlier gates) always throws and removes
    nothing: at most the backup directory has been created, and once it has,
    the error is the one for unsupported directory backups.  The move never
    throws that error, whatever the item.  Moving a directory with a backup
    requested (to a new destination in a directory that exists, the backup
    directory given by an absolute path, the paths being such that they can
    be walked), the item creates the backup directory, then writes the
    marker [<backupPath>.info], and copies nothing; if one of the two calls is refused the item throws
    the error of that call, and otherwise the move goes on from there: its
    first call is the rename of the source to the destination, and the item
    ends as the move does, reporting the backup path. *)
Theorem directory_backup_is_refused_by_delete_and_marked_by_move :
  (forall (ps : params) (w : world) (s : string) (mode : value) (st : Stats),
     assoc "filePath" ps = Some (VStr s) -> s <> "" ->
     assoc "deleteMode" ps = Some mode ->
     stat_pure (files w) (resolve (cwd w) s) = inr st ->
     isDirectory st = true ->
     mode_accepts mode st = true ->
     confirmation_passes ps = true ->
     truthy (field (safetyOptions_of ps) "createBackup") = true ->
     exists e evs,
       fst (DeleteFile.execute_item ps w) = Throw e /\
       kept (files w) (files (snd (DeleteFile.execute_item ps w))) /\
       trace (snd (DeleteFile.execute_item ps w)) = trace w ++ evs /\
       Forall is_mkdir evs /\
       (Exists (fun ev => ev_ok ev = true) evs ->
        e = OperationError DirectoryBackupNotImplemented /\ classify e = PolicyRefusal)) /\
  (forall (fuel : nat) (ps : params) (w : world),
     fst (MoveFile.execute_item fuel ps w)
     <> Throw (OperationError DirectoryBackupNotImplemented)) /\
  (forall (fuel : nat) (ps : params) (w : world) (s d b : string) (st : Stats),
     assoc "sourcePath" ps = Some (VStr s) -> s <> "" ->
     assoc "destinationPath" ps = Some (VStr d) -> d <> "" ->
     truthy (js_or (field (moveOptions_of ps) "createBackup") (VBool false)) = true ->
     js_or (js_or (field (moveOptions_of ps) "backupDirectory") (VStr "")) (VStr "/tmp")
     = VStr b ->
     is_absolute b = true ->
     exists_pure (files w) (resolve (cwd w) d) = false ->
     exists_pure (files w) (dirname (resolve (cwd w) d)) = true ->
     stat_pure (files w) (resolve (cwd w) s) = inr st ->
     isDirectory st = true ->
     mode_accepts (js_or (field (moveOptions_of ps) "moveMode") (VStr "auto")) st = true ->
     passable (files w) (resolve (cwd w) s) -> passable (files w) (resolve (cwd w) d) ->
     clear_way (files w) (backup_path_of b (resolve (cwd w) s) w) ->
     let src := resolve (cwd w) s in
     let dst := resolve (cwd w) d in
     let p := backup_path_of b src w in
     match mkdir_pure (clock w) (files w) (dirname p) with
     | inl c =>
         MoveFile.execute_item fuel ps w
         = (Throw (FsError c "mkdir" (dirname p)), refused w (MkdirCall (dirname p)))
     | inr fs1 =>
         let w1 := committed w (MkdirCall (dirname p)) fs1 in
         match writeFile_pure (clock w1) fs1 (marker_of p)
                 (list_byte_of_string
                    (MoveFile.backup_reference src (pretty (clock w1)))) with
         | inl c =>
             MoveFile.execute_item fuel ps w
             = (Throw (FsError c "open" (marker_of p)),
                refused w1 (WriteFileCall (marker_of p)))
         | inr fs2 =>
             let w2 := committed w1 (WriteFileCall (marker_of p)) fs2 in
             MoveFile.execute_item fuel ps w
             = (moveMethod <- MoveFile.perform_move fuel
                                (not_false (field (moveOptions_of ps) "fallbackCopy"))
                                src dst false true ;;
                destStats <- stat dst ;;
                ret (MoveFile.Moved src dst "directory" (size destStats) moveMethod
                       (Some p))) w2 /\
             exists ok more,
               logged w (Event (MkdirCall (dirname p)) true
                         :: Event (WriteFileCall (marker_of p)) true
                         :: Event (RenameCall src dst) ok :: more)
                 (snd (MoveFile.execute_item fuel ps w))
         end
     end).
Proof.
  split; [|split].
  - intros ps w s mode st Hp Hs Hm Hst Hdir Hacc Hconf Hb.
    destruct (delete_directory_backup ps w s mode st Hp Hs Hm Hst Hdir Hacc Hconf Hb)
      as (e & evs & He & Hk & Ht & Hm' & Hok).
    exists e, evs. repeat split; try assumption.
    + exact (Hok H).
    + rewrite (Hok H). reflexivity.
  - intros fuel ps w. apply move_item_spares_the_backup.
  - intros fuel ps w s d b st Hsource Hs Hdestination Hd Hbackup Hwhere _ Hnew Hparent
      Hstat Hdir Hacc _ _ _. cbv zeta.
    pose proof (move_item_marks_the_directory fuel ps w s d b st Hsource Hs Hdestination
                  Hd Hbackup Hwhere Hnew Hparent Hstat Hdir Hacc) as H.
    cbv zeta in H.
    destruct (mkdir_pure _ _ _) as [c|fs1]; [exact H|].
    destruct (writeFile_pure _ _ _ _) as [c|fs2]; [exact H|].
    split; [exact H|]. unfold logged. rewrite H, report_keeps_the_log.
    match goal with
    | |- context [MoveFile.perform_move ?f ?fb ?a ?b0 ?x ?y ?w2] =>
        destruct (perform_move_logs_the_rename f fb a b0 x y w2) as (ok & more & Hlog)
    end.
    exists ok, more. unfold logged in *. rewrite Hlog. simpl.
    rewrite <- !app_assoc. reflexivity.
Qed.

(** C4, against the claim: moving the directory [/data/sub] with a backup
    requested succeeds.  The directory is moved (nothing is left at the
    source, its file is at the destination) and the backup consists of the
    marker [/tmp/sub.backup.1000.info]; nothing is at the backup path. *)
Lemma move_with_backup_moves_the_directory :
  fst (MoveFile.execute_item 5 Sample.move_with_backup Sample.w0) =
    Ok (MoveFile.Moved ["data"; "sub"] ["data"; "moved"] "directory" 4096 "atomic"
          (Some ["tmp"; "sub.backup.1000"])) /\
  files (snd (MoveFile.execute_item 5 Sample.move_with_backup Sample.w0))
    !! ["data"; "sub"] = None /\
  files (snd (MoveFile.execute_item 5 Sample.move_with_backup Sample.w0))
    !! ["data"; "moved"; "b.txt"] = Some (NFile (Sample.text "abc") Sample.file_meta) /\
  files (snd (MoveFile.execute_item 5 Sample.move_with_backup Sample.w0))
    !! ["tmp"; "sub.backup.1000"] = None /\
  trace (snd (MoveFile.execute_item 5 Sample.move_with_backup Sample.w0)) =
    [ Event (MkdirCall ["tmp"]) true;
      Event (WriteFileCall ["tmp"; "sub.backup.1000.info"]) true;
      Event (RenameCall ["data"; "sub"] ["data"; "moved"]) true ].
Proof. vm_compute. repeat split. Qed.

Lemma directory_backup_is_refused_by_delete_and_marked_by_move_witness :
  fst (DeleteFile.execute_item Sample.delete_with_backup Sample.w0) =
    Throw (OperationError DirectoryBackupNotImplemented) /\
  kept (files Sample.w0)
       (files (snd (DeleteFile.execute_item Sample.delete_with_backup Sample.w0))) /\
  (exists ok more,
     logged Sample.w0
       (Event (MkdirCall ["tmp"]) true
        :: Event (WriteFileCall ["tmp"; "sub.backup.1000.info"]) true
        :: Event (RenameCall ["data"; "sub"] ["data"; "moved"]) ok :: more)
       (snd (MoveFile.execute_item 5 Sample.move_with_backup Sample.w0))).
Proof.
  destruct directory_backup_is_refused_by_delete_and_marked_by_move as (Hdelete & _ & Hmove).
  destruct (Hdelete Sample.delete_with_backup Sample.w0 "/data/sub" (VStr "auto")
              (MkStats KDirectory dir_size Sample.dir_meta))
    as (e & evs & He & Hk & Ht & _ & Hok); try reflexivity; try discriminate.
  split; [|split; [exact Hk|]].
  - vm_compute. reflexivity.
  - specialize (Hmove 5%nat Sample.move_with_backup Sample.w0 "/data/sub" "/data/moved" "/tmp"
                  (MkStats KDirectory dir_size Sample.dir_meta)
                  eq_refl ltac:(discriminate) eq_refl ltac:(discriminate)
                  eq_refl eq_refl eq_refl eq_refl eq_refl eq_refl eq_refl eq_refl
                  ltac:(refine (bool_decide_unpack _ _); vm_compute; exact I)
                  ltac:(refine (bool_decide_unpack _ _); vm_compute; exact I)
                  ltac:(refine (bool_decide_unpack _ _); vm_compute; exact I)).
    vm_compute in Hmove. destruct Hmove as [_ Hlog]. vm_compute. exact Hlog.
Defined.

(** * Further properties of the nodes and their helpers *)
(** ** The content sniffer and the type table *)

Lemma text_byte_not_binary (l : list Byte.byte) :
  forallb text_byte l = true ->
  existsb (fun b => let byte := crypto.byte_value b in
                    (byte =? 0) || ((byte <? 32) && negb (byte =? 9)
                                    && negb (byte =? 10) && negb (byte =? 13))) l = false.
Proof.
  intros H. apply not_true_is_false. intros E.
  apply existsb_exists in E as (b & Hin & Hb).
  pose proof (proj1 (forallb_forall text_byte l) H b Hin) as Ht.
  unfold text_byte in Ht. cbv zeta in *.
  destruct (Z.eqb_spec (crypto.byte_value b) 0), (Z.ltb_spec (crypto.byte_value b) 32),
    (Z.eqb_spec (crypto.byte_value b) 9), (Z.eqb_spec (crypto.byte_value b) 10),
    (Z.eqb_spec (crypto.byte_value b) 13), (Z.leb_spec 32 (crypto.byte_value b));
    simpl in *; try discriminate; lia.
Qed.

(** X1. [isBinaryContent] reads the first 512 bytes only: what follows them
    never changes the verdict, so a buffer whose first 512 bytes are text is
    not binary even when a NUL byte follows; and an empty buffer is not
    binary. *)
Theorem isBinaryContent_reads_512_bytes (buffer rest : list Byte.byte) :
  (512 <= length buffer)%nat ->
  fileUtils.isBinaryContent (buffer ++ rest) = fileUtils.isBinaryContent buffer /\
  (forallb text_byte (take 512 buffer) = true ->
   fileUtils.isBinaryContent (buffer ++ rest) = false) /\
  fileUtils.isBinaryContent [] = false.
Proof.
  intros Hlen. unfold fileUtils.isBinaryContent.
  rewrite (take_app_le buffer rest 512) by exact Hlen.
  split; [reflexivity|]. split; [apply text_byte_not_binary|reflexivity].
Qed.

Lemma isBinaryContent_reads_512_bytes_witness :
  fileUtils.isBinaryContent (repeat Byte.x61 512 ++ [Byte.x00])
  = fileUtils.isBinaryContent (repeat Byte.x61 512) /\
  fileUtils.isBinaryContent (repeat Byte.x61 512 ++ [Byte.x00]) = false /\
  fileUtils.isBinaryContent [Byte.x00] = true.
Proof.
  assert (Hlen : (512 <= length (repeat Byte.x61 512))%nat)
    by (rewrite repeat_length; lia).
  destruct (isBinaryContent_reads_512_bytes (repeat Byte.x61 512) [Byte.x00] Hlen)
    as (H1 & H2 & _).
  split; [exact H1|]. split; [apply H2; vm_compute; reflexivity|reflexivity].
Defined.

Lemma lower_ascii_dot (c : ascii) : Ascii.eqb (lower_ascii c) "." = Ascii.eqb c ".".
Proof. destruct c as [[] [] [] [] [] [] [] []]; reflexivity. Qed.

Lemma last_dot_lower (s : string) :
  last_dot (toLowerCase s) = toLowerCase <$> last_dot s.
Proof.
  induction s as [|c s IH]; simpl; [reflexivity|]. rewrite IH.
  destruct (last_dot s); simpl; [reflexivity|].
  rewrite lower_ascii_dot. destruct (Ascii.eqb c "."); reflexivity.
Qed.

Lemma extname_lower (name : string) : extname (toLowerCase name) = toLowerCase (extname name).
Proof.
  destruct name as [|c s]; simpl; [reflexivity|]. rewrite last_dot_lower.
  destruct (last_dot s); reflexivity.
Qed.

Lemma basename_join (dir : path) (name : string) : basename (join dir name) = name.
Proof. unfold basename, join. apply last_last. Qed.

Lemma last_dot_starts (s e : string) : last_dot s = Some e -> startsWith e "." = true.
Proof.
  revert e. induction s as [|c s IH]; simpl; [discriminate|]. intros e.
  destruct (last_dot s) as [e'|].
  - intros [= <-]. apply IH. reflexivity.
  - destruct (Ascii.eqb c ".") eqn:E; [|discriminate]. intros [= <-]. exact E.
Qed.

(** What [path.extname] returns is empty or starts with a dot. *)
Lemma extname_starts (name : string) : extname name = "" \/ startsWith (extname name) "." = true.
Proof.
  destruct name as [|c s]; simpl; [left; reflexivity|].
  destruct (last_dot s) as [e|] eqn:E; [right; exact (last_dot_starts _ _ E)|left; reflexivity].
Qed.

(** X2. [detectMimeType] reads the file name only, without regard to the
    case of its letters; a name without an extension, such as a name that
    only starts with a dot, gets the type of unknown content. *)
Theorem detectMimeType_reads_the_lowered_extension (dir dir' : path) (name name' : string) :
  (toLowerCase name = toLowerCase name' ->
   fileUtils.detectMimeType (join dir name) = fileUtils.detectMimeType (join dir' name')) /\
  (extname name = "" ->
   fileUtils.detectMimeType (join dir name) = "application/octet-stream").
Proof.
  unfold fileUtils.detectMimeType. rewrite !basename_join. split.
  - intros H. rewrite <- !extname_lower, H. reflexivity.
  - intros ->. reflexivity.
Qed.

Lemma detectMimeType_reads_the_lowered_extension_witness :
  fileUtils.detectMimeType ["data"; "Report.PDF"] = fileUtils.detectMimeType ["tmp"; "report.pdf"]
  /\ fileUtils.detectMimeType ["tmp"; "report.pdf"] = "application/pdf"
  /\ fileUtils.detectMimeType ["data"; ".gitignore"] = "application/octet-stream".
Proof.
  split; [|split].
  - apply (proj1 (detectMimeType_reads_the_lowered_extension ["data"] ["tmp"]
                    "Report.PDF" "report.pdf")). reflexivity.
  - reflexivity.
  - apply (proj2 (detectMimeType_reads_the_lowered_extension ["data"] [] ".gitignore" "")).
    reflexivity.
Defined.
(** ** Sorting the listing *)

Lemma ascii_compare_trans (a b c : ascii) :
  Ascii.compare a b = Lt -> Ascii.compare b c = Lt -> Ascii.compare a c = Lt.
Proof.
  unfold Ascii.compare. rewrite !N.compare_lt_iff. apply N.lt_trans.
Qed.

Lemma string_compare_trans (a : string) :
  forall b c, String.compare a b = Lt -> String.compare b c = Lt -> String.compare a c = Lt.
Proof.
  induction a as [|x a IH]; intros [|y b] [|z c]; simpl; try discriminate; try reflexivity.
  destruct (Ascii.compare x y) eqn:Exy; try discriminate.
  - apply Ascii.compare_eq_iff in Exy as ->.
    destruct (Ascii.compare y z) eqn:Eyz; try discriminate; [apply IH|reflexivity].
  - intros _. destruct (Ascii.compare y z) eqn:Eyz; try discriminate.
    + apply Ascii.compare_eq_iff in Eyz as <-. rewrite Exy. reflexivity.
    + rewrite (ascii_compare_trans _ _ _ Exy Eyz). reflexivity.
Qed.

Lemma key_lt_trans (a b c : ListFiles.sort_key) :
  ListFiles.key_lt a b = true -> ListFiles.key_lt b c = true -> ListFiles.key_lt a c = true.
Proof.
  destruct a as [x|x], b as [y|y], c as [z|z]; simpl; try discriminate.
  - unfold String.ltb.
    destruct (String.compare x y) eqn:Exy; try discriminate.
    destruct (String.compare y z) eqn:Eyz; try discriminate.
    rewrite (string_compare_trans _ _ _ Exy Eyz). reflexivity.
  - rewrite !Z.ltb_lt. lia.
Qed.

Lemma key_lt_asym (a b : ListFiles.sort_key) :
  ListFiles.key_lt a b = true -> ListFiles.key_lt b a = false.
Proof.
  destruct a as [x|x], b as [y|y]; simpl; try discriminate.
  - unfold String.ltb. rewrite (String.compare_antisym x y).
    destruct (String.compare y x); simpl; try discriminate. reflexivity.
  - rewrite Z.ltb_lt, Z.ltb_ge. lia.
Qed.

(** When the comparator puts [x] strictly first. *)
Lemma compare_files_first (sortBy sortOrder : value) (x y : ListFiles.fileInfo) :
  (ListFiles.compare_files sortBy sortOrder x y <? 0) = true <->
  (if strict_eq sortOrder (VStr "asc")
   then ListFiles.key_lt (ListFiles.sort_key_of sortBy x) (ListFiles.sort_key_of sortBy y)
   else ListFiles.key_lt (ListFiles.sort_key_of sortBy y) (ListFiles.sort_key_of sortBy x))
  = true.
Proof.
  unfold ListFiles.compare_files. cbv zeta.
  destruct (ListFiles.key_lt (ListFiles.sort_key_of sortBy x) (ListFiles.sort_key_of sortBy y))
    eqn:Hxy.
  - rewrite (key_lt_asym _ _ Hxy). destruct (strict_eq sortOrder (VStr "asc")); simpl;
      split; (reflexivity || discriminate).
  - destruct (ListFiles.key_lt (ListFiles.sort_key_of sortBy y) (ListFiles.sort_key_of sortBy x));
      destruct (strict_eq sortOrder (VStr "asc")); simpl; split; (reflexivity || discriminate).
Qed.

Lemma in_order_after (sortBy sortOrder : value) (x y : ListFiles.fileInfo) :
  (ListFiles.compare_files sortBy sortOrder x y <? 0) = false -> in_order sortBy sortOrder y x.
Proof.
  intros H. unfold in_order.
  destruct (ListFiles.compare_files sortBy sortOrder x y <? 0) eqn:E; [discriminate|].
  pose proof (compare_files_first sortBy sortOrder x y) as Hf. rewrite E in Hf.
  destruct (strict_eq sortOrder (VStr "asc"));
    match goal with |- ?b = false => destruct b; [|reflexivity] end;
    destruct Hf as [_ Hf]; specialize (Hf eq_refl); discriminate.
Qed.

Lemma in_order_before (sortBy sortOrder : value) (x y : ListFiles.fileInfo) :
  (ListFiles.compare_files sortBy sortOrder x y <? 0) = true ->
  in_order sortBy sortOrder x y /\
  forall z, in_order sortBy sortOrder y z -> in_order sortBy sortOrder x z.
Proof.
  intros H. apply compare_files_first in H. unfold in_order.
  destruct (strict_eq sortOrder (VStr "asc")).
  - split; [apply key_lt_asym; exact H|]. intros z Hyz.
    destruct (ListFiles.key_lt (ListFiles.sort_key_of sortBy z)
                (ListFiles.sort_key_of sortBy x)) eqn:Hzx; [|reflexivity].
    rewrite (key_lt_trans _ _ _ Hzx H) in Hyz. discriminate.
  - split; [apply key_lt_asym; exact H|]. intros z Hyz.
    destruct (ListFiles.key_lt (ListFiles.sort_key_of sortBy x)
                (ListFiles.sort_key_of sortBy z)) eqn:Hxz; [|reflexivity].
    rewrite (key_lt_trans _ _ _ H Hxz) in Hyz. discriminate.
Qed.

Lemma insert_sorted_perm (cmp : ListFiles.fileInfo -> ListFiles.fileInfo -> Z)
    (x : ListFiles.fileInfo) (l : list ListFiles.fileInfo) :
  ListFiles.insert_sorted cmp x l ≡ₚ x :: l.
Proof.
  induction l as [|y l IH]; simpl; [reflexivity|].
  destruct (cmp x y <? 0); [reflexivity|]. rewrite IH. apply perm_swap.
Qed.

Lemma insert_sorted_ordered (sortBy sortOrder : value) (x : ListFiles.fileInfo)
    (l : list ListFiles.fileInfo) :
  StronglySorted (in_order sortBy sortOrder) l ->
  StronglySorted (in_order sortBy sortOrder)
    (ListFiles.insert_sorted (ListFiles.compare_files sortBy sortOrder) x l).
Proof.
  induction 1 as [|y l Hl IH Hy]; simpl; [repeat constructor|].
  destruct (ListFiles.compare_files sortBy sortOrder x y <? 0) eqn:E.
  - destruct (in_order_before _ _ _ _ E) as [Hxy Hx].
    constructor; [constructor; assumption|].
    constructor; [exact Hxy|]. eapply List.Forall_impl; [|exact Hy]. exact Hx.
  - constructor; [exact IH|].
    rewrite (insert_sorted_perm _ x l). constructor; [|exact Hy].
    apply in_order_after. exact E.
Qed.

Lemma sortFiles_from (sortBy sortOrder : value) (files : list ListFiles.fileInfo) :
  forall sorted,
    StronglySorted (in_order sortBy sortOrder) sorted ->
    let result := fold_left (fun sorted x =>
                     ListFiles.insert_sorted (ListFiles.compare_files sortBy sortOrder) x sorted)
                    files sorted in
    result ≡ₚ sorted ++ files /\ StronglySorted (in_order sortBy sortOrder) result.
Proof.
  induction files as [|x files IH]; intros sorted Hs; simpl.
  - rewrite app_nil_r. split; [reflexivity|exact Hs].
  - destruct (IH _ (insert_sorted_ordered sortBy sortOrder x sorted Hs)) as [Hp Hsorted].
    split; [|exact Hsorted]. rewrite Hp, insert_sorted_perm.
    rewrite <- Permutation_middle. reflexivity.
Qed.

(** X3. [sortFiles] returns the entries it was given, each as many times as
    it was given; and when their names and extensions are in ASCII, in the
    order asked for: ascending keys when [sortOrder] is ['asc'] and
    descending keys for any other value, the key being the lower-cased name
    unless [sortBy] names another one. *)
Theorem sortFiles_permutes_and_orders (files : list ListFiles.fileInfo)
    (sortBy sortOrder : value) :
  ListFiles.sortFiles files sortBy sortOrder ≡ₚ files /\
  (Forall ascii_named files ->
   StronglySorted (in_order sortBy sortOrder) (ListFiles.sortFiles files sortBy sortOrder)).
Proof.
  unfold ListFiles.sortFiles.
  destruct (sortFiles_from sortBy sortOrder files [] ltac:(constructor)) as [Hp Hs].
  split; [exact Hp|intros _; exact Hs].
Qed.

Lemma sortFiles_permutes_and_orders_witness :
  StronglySorted (in_order (VStr "name") (VStr "desc"))
    (ListFiles.sortFiles Cases.two_entries (VStr "name") (VStr "desc")).
Proof.
  apply (proj2 (sortFiles_permutes_and_orders Cases.two_entries (VStr "name") (VStr "desc"))).
  repeat constructor.
Defined.

(** ** The inspecting nodes change nothing *)

Lemma read_only_ret {A : Type} (a : A) : read_only (ret a).
Proof. intros w. reflexivity. Qed.

Lemma read_only_throw {A : Type} (e : error) : read_only (@throw A e).
Proof. intros w. reflexivity. Qed.

Lemma read_only_out_of_fuel {A : Type} : read_only (@out_of_fuel A).
Proof. intros w. reflexivity. Qed.

Lemma read_only_bind {A B : Type} (m : M A) (k : A -> M B) :
  read_only m -> (forall a, read_only (k a)) -> read_only (bind m k).
Proof.
  intros Hm Hk w. unfold bind. specialize (Hm w).
  destruct (m w) as [[a|e|] w1]; simpl in *; subst; [apply Hk|reflexivity|reflexivity].
Qed.

Lemma read_only_try_catch {A : Type} (m : M A) (handler : error -> M A) :
  read_only m -> (forall e, read_only (handler e)) -> read_only (try_catch m handler).
Proof.
  intros Hm Hh w. unfold try_catch. specialize (Hm w).
  destruct (m w) as [[a|e|] w1]; simpl in *; subst; [reflexivity|apply Hh|reflexivity].
Qed.

Lemma read_only_when (b : bool) (m : M unit) : read_only m -> read_only (when b m).
Proof. intros H. destruct b; [exact H|apply read_only_ret]. Qed.

Lemma read_only_get_world : read_only get_world.
Proof. intros w. reflexivity. Qed.

Lemma read_only_stat (p : path) : read_only (stat p).
Proof. intros w. reflexivity. Qed.

Lemma read_only_readdir (p : path) : read_only (readdir p).
Proof. intros w. reflexivity. Qed.

Lemma read_only_readFile (p : path) : read_only (readFile p).
Proof. intros w. reflexivity. Qed.

Lemma read_only_realpath (p : path) : read_only (realpath p).
Proof. intros w. reflexivity. Qed.

Lemma read_only_access (p : path) (bit : N) : read_only (access p bit).
Proof. intros w. reflexivity. Qed.

Lemma read_only_existsSync (p : path) : read_only (existsSync p).
Proof. intros w. reflexivity. Qed.

Lemma read_only_getNodeParameter (ps : params) (name : string) (fallback : option value) :
  read_only (getNodeParameter ps name fallback).
Proof.
  unfold getNodeParameter. destruct fallback; [apply read_only_ret|].
  destruct (assoc name ps); [apply read_only_ret|apply read_only_throw].
Qed.

Lemma read_only_path_resolve (v : value) : read_only (path_resolve v).
Proof.
  unfold path_resolve. destruct v; try apply read_only_throw.
  apply read_only_bind; [apply read_only_get_world|intros w; apply read_only_ret].
Qed.

Lemma read_only_for_fold {A S : Type} (xs : list A) (body : S -> A -> M S) :
  (forall acc x, read_only (body acc x)) -> forall acc, read_only (for_fold xs acc body).
Proof.
  intros H. induction xs as [|x xs IH]; intros acc; simpl; [apply read_only_ret|].
  apply read_only_bind; [apply H|exact IH].
Qed.

Lemma read_only_for_push {A S : Type} (xs : list A) (body : S -> A -> M S) :
  (forall acc x, read_only (body acc x)) ->
  forall acc, read_only (fileUtils.for_push xs acc body).
Proof.
  intros H. induction xs as [|x xs IH]; intros acc w; simpl; [reflexivity|].
  pose proof (H acc x w) as Hx.
  destruct (body acc x w) as [[acc'|e|] w1]; simpl in *; subst; [apply IH|reflexivity|reflexivity].
Qed.

Lemma read_only_run_try {L : Type} (steps : list (L -> M L)) :
  Forall (fun step => forall l, read_only (step l)) steps ->
  forall l, read_only (run_try steps l).
Proof.
  induction 1 as [|step steps Hstep _ IH]; intros l w; simpl; [reflexivity|].
  pose proof (Hstep l w) as Hx.
  destruct (step l w) as [[l'|e|] w1]; simpl in *; subst; [apply IH|reflexivity|reflexivity].
Qed.

(** Symbolic execution of a read-only computation. *)
Ltac read_only_step :=
  lazymatch goal with
  | |- read_only (bind _ _) => apply read_only_bind; [|intros ?]
  | |- read_only (ret _) => apply read_only_ret
  | |- read_only (throw _) => apply read_only_throw
  | |- read_only out_of_fuel => apply read_only_out_of_fuel
  | |- read_only get_world => apply read_only_get_world
  | |- read_only (stat _) => apply read_only_stat
  | |- read_only (readdir _) => apply read_only_readdir
  | |- read_only (readFile _) => apply read_only_readFile
  | |- read_only (realpath _) => apply read_only_realpath
  | |- read_only (access _ _) => apply read_only_access
  | |- read_only (existsSync _) => apply read_only_existsSync
  | |- read_only (getNodeParameter _ _ _) => apply read_only_getNodeParameter
  | |- read_only (path_resolve _) => apply read_only_path_resolve
  | |- read_only (when _ _) => apply read_only_when
  | |- read_only (try_catch _ _) => apply read_only_try_catch; [|intros ?]
  | |- read_only (for_fold _ _ _) => apply read_only_for_fold; intros ? ?
  | |- read_only (fileUtils.for_push _ _ _) => apply read_only_for_push; intros ? ?
  | |- read_only (if ?b then _ else _) => destruct b
  | |- read_only (match ?x with _ => _ end) => destruct x
  end.

Ltac read_only_steps := repeat read_only_step.

Section ReadOnly.

Variable RegExp_test : string -> string -> option bool.

Lemma read_only_regex_test (pattern subject : string) :
  read_only (fileUtils.regex_test RegExp_test pattern subject).
Proof. unfold fileUtils.regex_test. read_only_steps. Qed.

Lemma read_only_some_pattern (patterns : list string) (item : string) (fullPath : path) :
  read_only (fileUtils.some_pattern RegExp_test patterns item fullPath).
Proof.
  induction patterns as [|pattern rest IH]; simpl; [apply read_only_ret|].
  apply read_only_bind; [apply read_only_regex_test|]. intros [|]; [apply read_only_ret|].
  apply read_only_bind; [apply read_only_regex_test|]. intros [|]; [apply read_only_ret|exact IH].
Qed.

Lemma read_only_passesFileFilters (filePath : path) (stats : Stats) (filterOptions : value) :
  read_only (ListFiles.passesFileFilters RegExp_test filePath stats filterOptions).
Proof.
  unfold ListFiles.passesFileFilters.
  apply read_only_bind; [read_only_steps|intros extensionOk].
  destruct (negb extensionOk); [apply read_only_ret|].
  apply read_only_bind.
  { destruct (truthy _); [apply read_only_regex_test|apply read_only_ret]. }
  intros nameOk. read_only_steps.
Qed.

Lemma read_only_list_walk (fuel : nat) :
  forall (dirPath : path) (recursive includeHidden : bool) (listMode filterOptions : value),
    read_only (ListFiles.getFilesRecursively RegExp_test fuel dirPath recursive includeHidden
                 listMode filterOptions).
Proof.
  induction fuel as [|fuel IH]; intros dirPath recursive includeHidden listMode filterOptions;
    simpl; [apply read_only_out_of_fuel|].
  apply read_only_bind; [apply read_only_readdir|intros items].
  apply read_only_for_fold. intros files item.
  apply read_only_bind; [apply read_only_stat|intros stats].
  destruct (negb includeHidden && startsWith item "."); [apply read_only_ret|].
  destruct (strict_eq listMode (VStr "files") && negb (isFile stats)); [apply read_only_ret|].
  destruct (strict_eq listMode (VStr "directories") && negb (isDirectory stats));
    [apply read_only_ret|].
  apply read_only_bind.
  { destruct (isFile stats); [apply read_only_passesFileFilters|apply read_only_ret]. }
  intros pass. destruct (isFile stats && negb pass); [apply read_only_ret|].
  apply read_only_bind; [apply read_only_get_world|intros w].
  destruct (recursive && isDirectory stats); [|apply read_only_ret].
  apply read_only_bind; [apply IH|intros sub; apply read_only_ret].
Qed.

Lemma read_only_list_item (fuel : nat) (ps : params) :
  read_only (ListFiles.execute_item RegExp_test fuel ps).
Proof.
  unfold ListFiles.execute_item.
  repeat (apply read_only_bind; [solve [read_only_steps]|intros ?]).
  apply read_only_bind; [apply read_only_list_walk|intros files].
  read_only_steps.
Qed.

Lemma read_only_shared_walk (budget : nat) :
  forall (dirPath : path) (maxDepth currentDepth : Z) (patterns excludePatterns : list string),
    read_only (fileUtils.getFilesRecursively_from RegExp_test budget dirPath maxDepth
                 currentDepth patterns excludePatterns).
Proof.
  induction budget as [|budget IH]; intros dirPath maxDepth currentDepth patterns excludePatterns;
    simpl.
  - destruct (maxDepth <=? currentDepth); [apply read_only_ret|apply read_only_out_of_fuel].
  - destruct (maxDepth <=? currentDepth); [apply read_only_ret|].
    apply read_only_try_catch; [|intros e; apply read_only_ret].
    apply read_only_bind; [apply read_only_readdir|intros items].
    apply read_only_for_push. intros results item.
    apply read_only_bind; [apply read_only_stat|intros stats].
    apply read_only_bind; [apply read_only_some_pattern|intros [|]]; [apply read_only_ret|].
    apply read_only_bind.
    { destruct (0 <? length patterns)%nat; [|apply read_only_ret].
      apply read_only_bind; [apply read_only_some_pattern|intros b; apply read_only_ret]. }
    intros [|]; [apply read_only_ret|].
    destruct (isDirectory stats); [|apply read_only_ret].
    apply read_only_bind; [apply IH|intros sub; apply read_only_ret].
Qed.

End ReadOnly.

Lemma read_only_probe (absolutePath : path) (perms : list (string * bool)) (accessType : value) :
  read_only (FileExists.probe absolutePath perms accessType).
Proof.
  unfold FileExists.probe. apply read_only_try_catch; [|intros e; apply read_only_ret].
  repeat lazymatch goal with
         | |- read_only (match ?x with _ => _ end) => destruct x
         | |- read_only (if ?b then _ else _) => destruct b
         | |- read_only (ret _) => apply read_only_ret
         | |- read_only (bind _ _) =>
             apply read_only_bind; [apply read_only_access|intros ?]
         end.
Qed.

Lemma read_only_exists_item (inputData : value) (ps : params) :
  read_only (FileExists.execute_item inputData ps).
Proof.
  unfold FileExists.execute_item.
  repeat (apply read_only_bind; [solve [read_only_steps]|intros ?]).
  apply read_only_bind; [|intros l; read_only_steps].
  match goal with |- read_only (if ?b then _ else _) => destruct b end; [|apply read_only_ret].
  apply read_only_bind; [|intros [l [e|]]; apply read_only_ret].
  apply read_only_run_try. unfold FileExists.try_block.
  repeat (apply Forall_cons_2; [intros l|]); [..|apply Forall_nil_2].
  - read_only_steps.
  - apply read_only_ret.
  - destruct (_ && _); [|apply read_only_ret].
    apply read_only_try_catch; [read_only_steps|intros e; apply read_only_ret].
  - destruct (FileExists.js_length _) as [n|]; [|apply read_only_ret].
    destruct (0 <? n); [|apply read_only_ret].
    apply read_only_bind; [unfold FileExists.iterate; read_only_steps|intros items].
    apply read_only_bind; [|intros perms; apply read_only_ret].
    apply read_only_for_fold. intros acc x. apply read_only_probe.
Qed.

Lemma read_only_attempt {A : Type} (m : M A) : read_only m -> read_only (FileInfo.attempt m).
Proof.
  intros H. unfold FileInfo.attempt.
  apply read_only_try_catch; [|intros e; apply read_only_ret].
  apply read_only_bind; [exact H|intros a; apply read_only_ret].
Qed.

Lemma read_only_info_item (ps : params) : read_only (FileInfo.execute_item ps).
Proof.
  unfold FileInfo.execute_item.
  repeat (apply read_only_bind; [solve [read_only_steps]|intros ?]).
  apply read_only_bind.
  { destruct (_ && _); [apply read_only_attempt, read_only_realpath|apply read_only_ret]. }
  intros real. apply read_only_bind.
  { destruct (_ && _); [apply read_only_attempt|apply read_only_ret]. read_only_steps. }
  intros sample. apply read_only_bind.
  { destruct (_ && _); [apply read_only_attempt|apply read_only_ret].
    apply read_only_bind; [apply read_only_readdir|intros contents].
    apply read_only_for_fold. intros c item. unfold FileInfo.count_item. read_only_steps. }
  intros contents. apply read_only_bind; [|intros checksum; apply read_only_ret].
  destruct (_ && _); [apply read_only_attempt|apply read_only_ret].
  unfold fileUtils.calculateMd5Checksum. read_only_steps.
Qed.

(** X4. Listing a directory, checking a path and reading the information of
    a path change nothing, whatever the parameters, the files and the
    outcome: the files, the clock and the log of mutating calls are after
    the item what they were before it.  So does the shared walker. *)
Theorem inspecting_nodes_change_nothing (RegExp_test : string -> string -> option bool)
    (fuel : nat) (inputData : value) (ps : params) (w : world) :
  snd (ListFiles.execute_item RegExp_test fuel ps w) = w /\
  snd (FileExists.execute_item inputData ps w) = w /\
  snd (FileInfo.execute_item ps w) = w /\
  forall dirPath maxDepth currentDepth patterns excludePatterns,
    snd (fileUtils.getFilesRecursively RegExp_test dirPath maxDepth currentDepth
           patterns excludePatterns w) = w.
Proof.
  split; [apply read_only_list_item|]. split; [apply read_only_exists_item|].
  split; [apply read_only_info_item|]. intros. apply read_only_shared_walk.
Qed.
(** ** What the shared walker finds *)

Lemma try_catch_Ok_inv {A : Type} (m : M A) (handler : error -> M A) (w w' : world) (a : A) :
  try_catch m handler w = (Ok a, w') ->
  m w = (Ok a, w') \/ exists e w1, m w = (Throw e, w1) /\ handler e w1 = (Ok a, w').
Proof.
  unfold try_catch. destruct (m w) as [[a'|e|] w1]; [auto|eauto|discriminate].
Qed.

Lemma for_push_invariant {A S : Type} (I : S -> Prop) (xs : list A) (body : S -> A -> M S) :
  (forall acc x w acc' w', I acc -> body acc x w = (Ok acc', w') -> I acc') ->
  forall acc w r w', I acc -> fileUtils.for_push xs acc body w = (Ok r, w') -> I r.
Proof.
  intros Hbody. induction xs as [|x xs IH]; intros acc w r w' Hacc; simpl.
  - intros [= <- _]. exact Hacc.
  - destruct (body acc x w) as [[acc'|e|] w1] eqn:Hx.
    + apply IH. eapply Hbody; [exact Hacc|exact Hx].
    + intros [= <- _]. exact Hacc.
    + discriminate.
Qed.

Section SharedWalkEntries.

Variable RegExp_test : string -> string -> option bool.

Lemma regex_test_Ok (pattern subject : string) (b : bool) (w w' : world) :
  fileUtils.regex_test RegExp_test pattern subject w = (Ok b, w') ->
  RegExp_test pattern subject = Some b.
Proof.
  unfold fileUtils.regex_test. destruct (RegExp_test pattern subject); [|discriminate].
  intros [= <- _]. reflexivity.
Qed.

(** No pattern matches when [some] returns false. *)
Lemma some_pattern_false (patterns : list string) (item : string) (fullPath : path)
    (w w' : world) :
  fileUtils.some_pattern RegExp_test patterns item fullPath w = (Ok false, w') ->
  Forall (fun pattern => RegExp_test pattern item = Some false /\
                         RegExp_test pattern (show_path fullPath) = Some false) patterns.
Proof.
  revert w. induction patterns as [|pattern rest IH]; intros w; simpl; [constructor|].
  intros H. apply bind_Ok_inv in H as (a & w1 & Ha & H). apply regex_test_Ok in Ha.
  destruct a; [discriminate|].
  apply bind_Ok_inv in H as (b & w2 & Hb & H). apply regex_test_Ok in Hb.
  destruct b; [discriminate|]. constructor; [split; assumption|]. apply (IH w2). exact H.
Qed.

(** A pattern matches when [some] returns true. *)
Lemma some_pattern_true (patterns : list string) (item : string) (fullPath : path)
    (w w' : world) :
  fileUtils.some_pattern RegExp_test patterns item fullPath w = (Ok true, w') ->
  Exists (fun pattern => RegExp_test pattern item = Some true \/
                         RegExp_test pattern (show_path fullPath) = Some true) patterns.
Proof.
  revert w. induction patterns as [|pattern rest IH]; intros w; simpl; [discriminate|].
  intros H. apply bind_Ok_inv in H as (a & w1 & Ha & H). apply regex_test_Ok in Ha.
  destruct a; [apply Exists_cons_hd; left; exact Ha|].
  apply bind_Ok_inv in H as (b & w2 & Hb & H). apply regex_test_Ok in Hb.
  destruct b; [apply Exists_cons_hd; right; exact Hb|].
  apply Exists_cons_tl. apply (IH w2). exact H.
Qed.

Lemma found_ok_deeper (dirPath : path) (item : string) (levels : nat)
    (patterns excludePatterns : list string) (e : fileUtils.entry) :
  found_ok RegExp_test (join dirPath item) levels patterns excludePatterns e ->
  found_ok RegExp_test dirPath (S levels) patterns excludePatterns e.
Proof.
  intros (Hb & Hlen & Hrest). split; [|split; [|exact Hrest]].
  - eapply below_trans; [apply below_app|exact Hb].
  - unfold join in Hlen. rewrite length_app in Hlen. simpl in Hlen. lia.
Qed.

Lemma shared_walk_entries (patterns excludePatterns : list string) (maxDepth : Z)
    (budget : nat) :
  forall (dirPath : path) (currentDepth : Z) (w w' : world) (l : list fileUtils.entry),
    fileUtils.getFilesRecursively_from RegExp_test budget dirPath maxDepth currentDepth
      patterns excludePatterns w = (Ok l, w') ->
    Forall (found_ok RegExp_test dirPath (Z.to_nat (maxDepth - currentDepth))
              patterns excludePatterns) l.
Proof.
  induction budget as [|budget IH]; intros dirPath currentDepth w w' l; simpl.
  - destruct (maxDepth <=? currentDepth); [|discriminate]. intros [= <- _]. constructor.
  - destruct (Z.leb_spec maxDepth currentDepth) as [|Hdepth]; [intros [= <- _]; constructor|].
    intros Hrun. apply try_catch_Ok_inv in Hrun as [Hrun|(e & w1 & _ & Hrun)];
      [|injection Hrun as <- _; constructor].
    apply bind_Ok_inv in Hrun as (items & w1 & _ & Hloop).
    assert (Hlevels : Z.to_nat (maxDepth - currentDepth)
                      = S (Z.to_nat (maxDepth - (currentDepth + 1)))) by lia.
    revert Hloop. apply for_push_invariant; [|constructor].
    clear w w1 w'. intros acc item w acc' w' Hacc Hbody.
    apply bind_Ok_inv in Hbody as (st & w1 & _ & Hbody).
    apply bind_Ok_inv in Hbody as (shouldExclude & w2 & Hex & Hbody).
    destruct shouldExclude; [injection Hbody as <- _; exact Hacc|].
    apply some_pattern_false in Hex.
    apply bind_Ok_inv in Hbody as (skip & w3 & Hskip & Hbody).
    destruct skip; [injection Hbody as <- _; exact Hacc|].
    assert (Hentry : found_ok RegExp_test dirPath (Z.to_nat (maxDepth - currentDepth))
                       patterns excludePatterns
                       (fileUtils.Entry (join dirPath item) item (isDirectory st) st)).
    { split; [apply below_app|]. split.
      { cbn [fileUtils.entry_path]. unfold join. rewrite length_app. simpl. lia. }
      split; [simpl; symmetry; apply basename_join|]. split; [reflexivity|].
      split; [exact Hex|]. simpl. intros Hfile Hsome.
      destruct (0 <? length patterns)%nat eqn:Hn.
      - apply bind_Ok_inv in Hskip as (shouldInclude & w4 & Hin & Hskip).
        injection Hskip as Hskip _. rewrite Hfile in Hskip.
        destruct shouldInclude; [|discriminate]. exact (some_pattern_true _ _ _ _ _ Hin).
      - destruct patterns; [contradiction|discriminate]. }
    destruct (isDirectory st).
    + apply bind_Ok_inv in Hbody as (sub & w4 & Hsub & Hbody). injection Hbody as <- _.
      apply Forall_app. split; [apply Forall_app; split; [exact Hacc|]|].
      * apply Forall_cons_2; [exact Hentry|apply Forall_nil_2].
      * apply IH in Hsub. rewrite Hlevels.
        eapply List.Forall_impl; [|exact Hsub]. intros e. apply found_ok_deeper.
    + injection Hbody as <- _. apply Forall_app. split; [exact Hacc|].
      apply Forall_cons_2; [exact Hentry|apply Forall_nil_2].
Qed.

End SharedWalkEntries.

(** X5. The shared walker always returns a list and changes nothing,
    whatever the tree holds and whatever the patterns are.  Every entry it
    returns is strictly below the directory given, at most
    [maxDepth - currentDepth] levels down, is matched by no exclude pattern
    and, when it is not a directory and include patterns are given, is
    matched by one of them.  The list is empty once [currentDepth] has
    reached [maxDepth], and also whenever one of the exclude patterns is
    not a valid regular expression: that error is not reported. *)
Theorem shared_walk_returns_bounded_entries (RegExp_test : string -> string -> option bool)
    (dirPath : path) (maxDepth currentDepth : Z) (patterns excludePatterns : list string)
    (w : world) :
  exists l,
    fileUtils.getFilesRecursively RegExp_test dirPath maxDepth currentDepth
      patterns excludePatterns w = (Ok l, w) /\
    Forall (found_ok RegExp_test dirPath (Z.to_nat (maxDepth - currentDepth))
              patterns excludePatterns) l /\
    (maxDepth <= currentDepth -> l = []) /\
    (forall bad, In bad excludePatterns -> (forall s, RegExp_test bad s = None) -> l = []).
Proof.
  destruct (shared_walk_total RegExp_test patterns excludePatterns maxDepth currentDepth
              dirPath w) as (l & Hrun).
  exists l. split; [exact Hrun|].
  pose proof (shared_walk_entries RegExp_test _ _ _ _ _ _ _ _ _ Hrun) as Hall.
  split; [exact Hall|]. split.
  - intros Hdepth. destruct l as [|e l]; [reflexivity|]. exfalso.
    apply Forall_cons_1 in Hall as [(_ & Hlen & _) _].
    replace (Z.to_nat (maxDepth - currentDepth)) with O in Hlen by lia. lia.
  - intros bad Hbad Hnone. destruct l as [|e l]; [reflexivity|]. exfalso.
    apply Forall_cons_1 in Hall as [(_ & _ & _ & _ & Hex & _) _].
    rewrite List.Forall_forall in Hex. destruct (Hex bad Hbad) as [H _].
    rewrite Hnone in H. discriminate.
Qed.
(** ** What the list node lists *)

Section ListEntries.

Variable RegExp_test : string -> string -> option bool.

Lemma passes_within (filePath : path) (stats : Stats) (filterOptions : value)
    (w w' : world) :
  ListFiles.passesFileFilters RegExp_test filePath stats filterOptions w = (Ok true, w') ->
  within_filters RegExp_test filterOptions (basename filePath) (size stats).
Proof.
  unfold ListFiles.passesFileFilters. intros H.
  apply bind_Ok_inv in H as (extensionOk & w1 & Hext & H).
  destruct extensionOk; simpl in H; [|discriminate].
  apply bind_Ok_inv in H as (nameOk & w2 & Hname & H).
  destruct nameOk; simpl in H; [|discriminate].
  destruct (truthy (field filterOptions "minSize")
            && num_lt (size stats) (field filterOptions "minSize")) eqn:Hmin; [discriminate|].
  destruct (truthy (field filterOptions "maxSize")
            && num_gt (size stats) (field filterOptions "maxSize")) eqn:Hmax; [discriminate|].
  clear H. repeat split.
  - intros lo E. rewrite E in Hmin. unfold num_lt in Hmin. simpl in Hmin.
    destruct (Z.eqb_spec lo 0); [left; assumption|right]. simpl in Hmin.
    apply Z.ltb_ge in Hmin. exact Hmin.
  - intros hi E. rewrite E in Hmax. unfold num_gt in Hmax. simpl in Hmax.
    destruct (Z.eqb_spec hi 0); [left; assumption|right]. simpl in Hmax.
    apply Z.ltb_ge in Hmax. exact Hmax.
  - intros s E. rewrite E in Hext. simpl in Hext.
    destruct (String.eqb_spec s ""); [left; assumption|right]. simpl in Hext.
    injection Hext as Hext _. apply existsb_exists in Hext as (x & Hin & Hx).
    apply String.eqb_eq in Hx. rewrite Hx. exact Hin.
  - intros Htruthy. rewrite Htruthy in Hname.
    exact (regex_test_Ok RegExp_test _ _ _ _ _ Hname).
Qed.

Lemma passes_without_filters (filePath : path) (stats : Stats) (filterOptions : value)
    (w : world) :
  truthy (field filterOptions "extensionFilter") = false ->
  truthy (field filterOptions "namePattern") = false ->
  truthy (field filterOptions "minSize") = false ->
  truthy (field filterOptions "maxSize") = false ->
  ListFiles.passesFileFilters RegExp_test filePath stats filterOptions w = (Ok true, w).
Proof.
  intros H1 H2 H3 H4. unfold ListFiles.passesFileFilters. rewrite H1, H2, H3, H4. reflexivity.
Qed.

Lemma listed_ok_deeper (dirPath : path) (item : string) (includeHidden : bool)
    (listMode filterOptions : value) (f : ListFiles.fileInfo) :
  (includeHidden = false -> startsWith item "." = false) ->
  listed_ok RegExp_test (join dirPath item) includeHidden listMode filterOptions f ->
  listed_ok RegExp_test dirPath includeHidden listMode filterOptions f.
Proof.
  intros Hitem (Hb & Hlen & Hname & Hhidden & Hrest).
  split; [eapply below_trans; [apply below_app|exact Hb]|].
  split; [unfold join in Hlen; rewrite length_app in Hlen; simpl in Hlen; lia|].
  split; [exact Hname|]. split; [|exact Hrest].
  intros Hno. specialize (Hhidden Hno). specialize (Hitem Hno).
  apply below_inv in Hb as (r & Hr). rewrite Hr in *. unfold join in *.
  rewrite drop_app_length in Hhidden. rewrite <- app_assoc, drop_app_length. simpl.
  constructor; assumption.
Qed.

Lemma list_walk_entries (fuel : nat) :
  forall (dirPath : path) (recursive includeHidden : bool) (listMode filterOptions : value)
         (w w' : world) (l : list ListFiles.fileInfo),
    ListFiles.getFilesRecursively RegExp_test fuel dirPath recursive includeHidden
      listMode filterOptions w = (Ok l, w') ->
    Forall (listed_ok RegExp_test dirPath includeHidden listMode filterOptions) l.
Proof.
  induction fuel as [|fuel IH];
    intros dirPath recursive includeHidden listMode filterOptions w w' l; [discriminate|].
  simpl. intros Hrun. apply bind_Ok_inv in Hrun as (items & w1 & _ & Hloop).
  apply (for_fold_invariant
           (fun acc _ => Forall (listed_ok RegExp_test dirPath includeHidden listMode
                                   filterOptions) acc) _ _) with (acc := [])
    (w := w1) (r := l) (w' := w') in Hloop; [exact Hloop| |constructor].
  clear w w1 w' Hloop. intros acc item w acc' w' _ Hacc Hbody.
  apply bind_Ok_inv in Hbody as (st & w1 & _ & Hbody).
  destruct (negb includeHidden && startsWith item ".") eqn:Hhid;
    [injection Hbody as <- _; exact Hacc|].
  destruct (strict_eq listMode (VStr "files") && negb (isFile st)) eqn:Hf;
    [injection Hbody as <- _; exact Hacc|].
  destruct (strict_eq listMode (VStr "directories") && negb (isDirectory st)) eqn:Hd;
    [injection Hbody as <- _; exact Hacc|].
  apply bind_Ok_inv in Hbody as (pass & w2 & Hpass & Hbody).
  destruct (isFile st && negb pass) eqn:Hfp; [injection Hbody as <- _; exact Hacc|].
  apply bind_Ok_inv in Hbody as (w3 & w4 & _ & Hbody).
  assert (Hitem : includeHidden = false -> startsWith item "." = false).
  { intros ->. exact Hhid. }
  match type of Hbody with
  | context [acc ++ [?f]] =>
      assert (Hentry : listed_ok RegExp_test dirPath includeHidden listMode filterOptions f)
  end.
  { split; [apply below_app|]. cbn [ListFiles.fi_path ListFiles.fi_name ListFiles.fi_isFile
                                    ListFiles.fi_isDirectory ListFiles.fi_size].
    split; [unfold join; rewrite length_app; simpl; lia|].
    split; [symmetry; apply basename_join|].
    split; [intros Hno; unfold join; rewrite drop_app_length; constructor; auto|].
    split; [intros ->; simpl in Hf; destruct (isFile st); [reflexivity|discriminate]|].
    split; [intros ->; simpl in Hd; destruct (isDirectory st); [reflexivity|discriminate]|].
    intros Hfile _. rewrite Hfile in Hpass, Hfp. destruct pass; [|discriminate].
    apply passes_within in Hpass. rewrite basename_join in Hpass. exact Hpass. }
  destruct (recursive && isDirectory st).
  - apply bind_Ok_inv in Hbody as (sub & w5 & Hsub & Hbody). injection Hbody as <- _.
    apply Forall_app. split; [apply Forall_app; split; [exact Hacc|]|].
    + apply Forall_cons_2; [exact Hentry|apply Forall_nil_2].
    + apply IH in Hsub. eapply List.Forall_impl; [|exact Hsub].
      intros f. apply listed_ok_deeper. exact Hitem.
  - injection Hbody as <- _. apply Forall_app. split; [exact Hacc|].
    apply Forall_cons_2; [exact Hentry|apply Forall_nil_2].
Qed.

End ListEntries.

(** X6. The filters of the list node, the options being of their declared
    types and the name of the file in ASCII: a file that passes is within
    the size bounds that are set, has one of the extensions listed (compared
    with their dot, without regard to case) and matches the name pattern;
    and with no filter set (each option absent, empty or 0) every file
    passes. *)
Theorem list_filters_bound_what_passes (RegExp_test : string -> string -> option bool)
    (filePath : path) (stats : Stats) (filterOptions : value) (w : world) :
  (forall w', typed_filters filterOptions = true ->
     ascii_text (basename filePath) = true ->
     ListFiles.passesFileFilters RegExp_test filePath stats filterOptions w
     = (Ok true, w') ->
     within_filters RegExp_test filterOptions (basename filePath) (size stats)) /\
  (truthy (field filterOptions "extensionFilter") = false ->
   truthy (field filterOptions "namePattern") = false ->
   truthy (field filterOptions "minSize") = false ->
   truthy (field filterOptions "maxSize") = false ->
   ListFiles.passesFileFilters RegExp_test filePath stats filterOptions w = (Ok true, w)).
Proof.
  split; [intros w' _ _; apply passes_within|apply passes_without_filters].
Qed.

(** X7. Every entry the walk of the list node returns is strictly below
    the directory listed and named after its path; with [includeHidden] off
    no component of its path below that directory starts with a dot; in
    ['files'] mode it is a regular file and in ['directories'] mode a
    directory; and, the filter options being of their declared types, a
    regular file whose name is in ASCII is within the filters. *)
Theorem list_walk_returns_what_was_asked (RegExp_test : string -> string -> option bool)
    (fuel : nat) (dirPath : path) (recursive includeHidden : bool)
    (listMode filterOptions : value) (w w' : world) (l : list ListFiles.fileInfo) :
  typed_filters filterOptions = true ->
  ListFiles.getFilesRecursively RegExp_test fuel dirPath recursive includeHidden
    listMode filterOptions w = (Ok l, w') ->
  Forall (listed_ok RegExp_test dirPath includeHidden listMode filterOptions) l.
Proof. intros _. apply list_walk_entries. Qed.
(** ** The item of the list node *)

Lemma getNodeParameter_Ok_inv (ps : params) (name : string) (v : value) (w w' : world) :
  getNodeParameter ps name None w = (Ok v, w') -> assoc name ps = Some v /\ w' = w.
Proof.
  unfold getNodeParameter. destruct (assoc name ps); [|discriminate].
  intros [= <- <-]. split; reflexivity.
Qed.

Lemma getNodeParameter_default_inv (ps : params) (name : string) (d v : value)
    (w w' : world) :
  getNodeParameter ps name (Some d) w = (Ok v, w') -> v = default d (assoc name ps) /\ w' = w.
Proof. intros [= <- <-]. split; reflexivity. Qed.

Lemma path_resolve_Ok_inv (v : value) (p : path) (w w' : world) :
  path_resolve v w = (Ok p, w') -> exists s, v = VStr s /\ p = resolve (cwd w) s /\ w' = w.
Proof.
  unfold path_resolve. destruct v; try discriminate. intros [= <- <-]. eauto.
Qed.

Lemma when_throw_Ok_inv (b : bool) (e : error) (w w' : world) (u : unit) :
  when b (throw e) w = (Ok u, w') -> b = false /\ w' = w.
Proof. destruct b; [discriminate|]. intros [= _ <-]. split; reflexivity. Qed.

Lemma StronglySorted_take {A : Type} (R : A -> A -> Prop) (l : list A) (n : nat) :
  StronglySorted R l -> StronglySorted R (take n l).
Proof.
  intros H. revert n. induction H as [|x l Hl IH Hx]; intros [|n]; simpl; try constructor.
  - apply IH.
  - apply Forall_take. exact Hx.
Qed.

Lemma listed_files_items (files : list ListFiles.fileInfo) :
  listed_files (List.map ListFiles.Item files) = files.
Proof. induction files as [|f files IH]; simpl; [reflexivity|]. f_equal. exact IH. Qed.

(** X8. What an item of the list node returns, when it returns: the files,
    when their names and extensions are in ASCII, are in the order asked
    for ([sortBy], by default the name, and [sortOrder], by default
    ascending); when [maxFiles] is a positive number there are at most that
    many; with [returnAsArray] they come as one listing whose [fileCount] is
    their number, and otherwise as one output each; and, the filter options
    being of their declared types, each of them is an entry of the
    directory given that the mode, the hidden-file switch and the filters
    let through. *)
Theorem list_item_orders_and_limits (RegExp_test : string -> string -> option bool)
    (fuel : nat) (ps : params) (w w' : world) (outs : list ListFiles.output) :
  ListFiles.execute_item RegExp_test fuel ps w = (Ok outs, w') ->
  let outputOptions := default (VObj []) (assoc "outputOptions" ps) in
  let filterOptions := default (VObj []) (assoc "filterOptions" ps) in
  (Forall ascii_named (listed_files outs) ->
   StronglySorted (in_order (js_or (field outputOptions "sortBy") (VStr "name"))
                            (js_or (field outputOptions "sortOrder") (VStr "asc")))
                  (listed_files outs)) /\
  (forall n, field filterOptions "maxFiles" = VNum n -> 0 < n ->
     (length (listed_files outs) <= Z.to_nat n)%nat) /\
  (if truthy (field outputOptions "returnAsArray")
   then exists directoryPath,
          outs = [ListFiles.Listing directoryPath (length (listed_files outs))
                    (listed_files outs)]
   else outs = List.map ListFiles.Item (listed_files outs)) /\
  exists directoryPath listMode recursive includeHidden,
    assoc "directoryPath" ps = Some (VStr directoryPath) /\
    assoc "listMode" ps = Some listMode /\
    assoc "recursive" ps = Some recursive /\
    assoc "includeHidden" ps = Some includeHidden /\
    (typed_filters filterOptions = true ->
     Forall (listed_ok RegExp_test (resolve (cwd w) directoryPath) (truthy includeHidden)
               listMode filterOptions) (listed_files outs)).
Proof.
  intros H outputOptions filterOptions. unfold ListFiles.execute_item in H.
  apply bind_Ok_inv in H as (directoryPath & w1 & H1 & H).
  apply getNodeParameter_Ok_inv in H1 as [Hdir ->].
  apply bind_Ok_inv in H as (listMode & w1 & H1 & H).
  apply getNodeParameter_Ok_inv in H1 as [Hmode ->].
  apply bind_Ok_inv in H as (recursive & w1 & H1 & H).
  apply getNodeParameter_Ok_inv in H1 as [Hrec ->].
  apply bind_Ok_inv in H as (includeHidden & w1 & H1 & H).
  apply getNodeParameter_Ok_inv in H1 as [Hhid ->].
  apply bind_Ok_inv in H as (fo & w1 & H1 & H).
  apply getNodeParameter_default_inv in H1 as [-> ->].
  apply bind_Ok_inv in H as (oo & w1 & H1 & H).
  apply getNodeParameter_default_inv in H1 as [-> ->].
  apply bind_Ok_inv in H as (u & w1 & H1 & H).
  apply when_throw_Ok_inv in H1 as [_ ->].
  apply bind_Ok_inv in H as (absolutePath & w1 & H1 & H).
  apply path_resolve_Ok_inv in H1 as (s & -> & -> & ->).
  apply bind_Ok_inv in H as (found & w1 & H1 & H). injection H1 as _ <-.
  apply bind_Ok_inv in H as (u1 & w1 & H1 & H).
  apply when_throw_Ok_inv in H1 as [_ ->].
  apply bind_Ok_inv in H as (stats & w1 & H1 & H). injection H1 as _ <-.
  apply bind_Ok_inv in H as (u2 & w1 & H1 & H).
  apply when_throw_Ok_inv in H1 as [_ ->].
  apply bind_Ok_inv in H as (files & w1 & Hwalk & H).
  apply list_walk_entries in Hwalk.
  cbv zeta in H. fold outputOptions filterOptions in H, Hwalk.
  destruct (sortFiles_from (js_or (field outputOptions "sortBy") (VStr "name"))
              (js_or (field outputOptions "sortOrder") (VStr "asc")) files []
              ltac:(constructor)) as [Hperm Hsorted].
  cbv zeta in Hperm, Hsorted. simpl in Hperm.
  fold (ListFiles.sortFiles files (js_or (field outputOptions "sortBy") (VStr "name"))
          (js_or (field outputOptions "sortOrder") (VStr "asc"))) in Hperm, Hsorted.
  set (sortedFiles := ListFiles.sortFiles files _ _) in *.
  rewrite <- Hperm in Hwalk.
  set (finalFiles := match to_number (js_or (field filterOptions "maxFiles") (VNum 0)) with
                     | Some n => if 0 <? n then take (Z.to_nat n) sortedFiles else sortedFiles
                     | None => sortedFiles
                     end) in *.
  assert (Hfinal : listed_files outs = finalFiles).
  { destruct (truthy (field outputOptions "returnAsArray")); injection H as <- _.
    - simpl. apply app_nil_r.
    - apply listed_files_items. }
  rewrite Hfinal.
  assert (Hshape : finalFiles = sortedFiles \/
                   exists n, to_number (js_or (field filterOptions "maxFiles") (VNum 0)) = Some n
                             /\ 0 < n /\ finalFiles = take (Z.to_nat n) sortedFiles).
  { unfold finalFiles. destruct (to_number _) as [n|]; [|left; reflexivity].
    destruct (Z.ltb_spec 0 n); [right; eauto|left; reflexivity]. }
  split; [|split; [|split]].
  - intros _. destruct Hshape as [->|(n & _ & _ & ->)]; [exact Hsorted|].
    apply StronglySorted_take. exact Hsorted.
  - intros n Hn Hpos. unfold finalFiles, js_or. rewrite Hn.
    replace (truthy (VNum n)) with true by (simpl; destruct (Z.eqb_spec n 0); [lia|reflexivity]).
    simpl. destruct (Z.ltb_spec 0 n); [|lia]. rewrite length_take. lia.
  - destruct (truthy (field outputOptions "returnAsArray")); injection H as <- _.
    + eexists. reflexivity.
    + reflexivity.
  - exists s, listMode, recursive, includeHidden. repeat (split; [assumption|]).
    intros _. destruct Hshape as [->|(n & _ & _ & ->)]; [exact Hwalk|].
    apply Forall_take. exact Hwalk.
Qed.
(** ** The delete node: what is removed *)



Lemma exists_of_missing (fs : gmap path node) (p : path) :
  exists_pure fs p = false -> forall st, stat_pure fs p <> inr st.
Proof. unfold exists_pure. intros H st E. rewrite E in H. discriminate. Qed.


(** X9. Deleting a path that does not exist: with [skipIfNotExists] the
    item reports that it skipped the path, and without it the item fails
    with the error of a missing path; either way nothing is changed and no
    call is attempted. *)
Theorem delete_of_a_missing_path (ps : params) (w : world) (s : string) (mode : value) :
  assoc "filePath" ps = Some (VStr s) -> s <> "" ->
  assoc "deleteMode" ps = Some mode ->
  exists_pure (files w) (resolve (cwd w) s) = false ->
  DeleteFile.execute_item ps w =
    (if truthy (field (safetyOptions_of ps) "skipIfNotExists")
     then Ok (DeleteFile.Skipped (resolve (cwd w) s))
     else Throw (OperationError (PathNotFound (resolve (cwd w) s))), w).
Proof.
  unfold safetyOptions_of. intros Hpath Hs Hmode Hmissing. apply truthy_VStr in Hs.
  apply wp_ends. unfold DeleteFile.execute_item.
  wp_run; split; reflexivity.
Qed.

(** What a path that leads to a regular file holds. *)
Lemma follow_to_file (fs : gmap path node) (hops : nat) (p q : path) (data : list Byte.byte)
    (m : meta) :
  follow hops fs p = Some q -> fs !! q = Some (NFile data m) ->
  exists n, fs !! p = Some n /\ forall dm, n <> NDir dm.
Proof.
  destruct hops; simpl; destruct (fs !! p) as [[d pm|pm|t|pm]|] eqn:E;
    try (intros [= <-] Hq; rewrite E in Hq; try discriminate);
    intros; eexists; (split; [reflexivity|discriminate]).
Qed.

Lemma unlink_at (now : Z) (fs : gmap path node) (p : path) (n : node) :
  fs !! p = Some n -> (forall dm, n <> NDir dm) -> changeable fs (dirname p) = true ->
  unlink_pure now fs p = inr (touch_parent now p (delete p fs)).
Proof.
  unfold unlink_pure. intros -> H Hc. rewrite (changeable_allows _ _ Hc).
  destruct n; try reflexivity. exfalso. eapply H. reflexivity.
Qed.

(** X10. Deleting a path that leads to a regular file, past the gates and
    with no backup asked for, in a directory that lets its entries be
    changed, the path and the one it leads to being paths that can be
    walked: the item returns and reports a file of the size of the content;
    the only call made is [unlink] of the path; the path is gone and every
    other entry is as it was, up to the times of the parent directory.
    When the path is a symbolic link, the link is what is removed: the file
    it leads to is kept. *)
Theorem delete_unlinks_the_path (ps : params) (w : world) (s : string) (mode : value)
    (q : path) (data : list Byte.byte) (m : meta) :
  assoc "filePath" ps = Some (VStr s) -> s <> "" ->
  assoc "deleteMode" ps = Some mode -> strict_eq mode (VStr "directory") = false ->
  follow max_hops (files w) (resolve (cwd w) s) = Some q ->
  files w !! q = Some (NFile data m) ->
  within_size_limit (safetyOptions_of ps) (MkStats KFile (Z.of_nat (length data)) m) = true ->
  confirmation_passes ps = true ->
  truthy (field (safetyOptions_of ps) "createBackup") = false ->
  changeable (files w) (dirname (resolve (cwd w) s)) = true ->
  passable (files w) (resolve (cwd w) s) -> passable (files w) q ->
  exists w',
    DeleteFile.execute_item ps w =
      (Ok (DeleteFile.Deleted (resolve (cwd w) s) (basename (resolve (cwd w) s)) "file"
             (Z.of_nat (length data)) None), w') /\
    trace w' = trace w ++ [Event (UnlinkCall (resolve (cwd w) s)) true] /\
    files w' !! resolve (cwd w) s = None /\
    forall p, p <> resolve (cwd w) s -> option_same (files w !! p) (files w' !! p).
Proof.
  intros Hpath Hs Hmode Hnotdir Hq Hfile Hsize Hconfirm Hbackup Hchange _ _.
  apply size_gate_lets_through in Hsize.
  unfold confirmation_passes, safetyOptions_of, provided_of in *.
  apply truthy_VStr in Hs.
  pose proof (stat_of_file _ _ _ _ _ Hq Hfile) as Hstat.
  pose proof (exists_of_stat _ _ _ Hstat) as Hex.
  destruct (follow_to_file _ _ _ _ _ _ Hq Hfile) as (n & Hn & Hnd).
  pose proof (unlink_at (clock w) _ _ _ Hn Hnd Hchange) as Hun.
  eexists. split; [|split; [|split]].
  - apply wp_ends. unfold DeleteFile.execute_item.
    wp_run.
    all: cbn [isFile st_kind size negb andb] in *.
    all: try (split; reflexivity).
    all: absurd_gate.
  - simpl. reflexivity.
  - simpl. eapply option_same_None; [apply touch_parent_same|]. apply lookup_delete_eq.
  - intros p Hp. simpl. eapply option_same_trans; [|apply touch_parent_same].
    rewrite lookup_delete_ne by congruence. apply option_same_refl.
Qed.

(** ** What copying and a failed move never remove *)

Lemma remains_refl (fs : gmap path node) : remains fs fs.
Proof. intros q H. exact H. Qed.

Lemma remains_trans (a b c : gmap path node) : remains a b -> remains b c -> remains a c.
Proof. intros Hab Hbc q H. apply Hbc, Hab, H. Qed.

Lemma kept_remains (fs fs' : gmap path node) : kept fs fs' -> remains fs fs'.
Proof. intros K q [n Hn]. destruct (K q n Hn) as (n' & Hn' & _). eauto. Qed.

Lemma remains_insert (fs : gmap path node) (p : path) (n : node) : remains fs (<[p := n]> fs).
Proof.
  intros q H. destruct (decide (p = q)) as [->|Hne].
  - rewrite lookup_insert_eq. eauto.
  - rewrite lookup_insert_ne by exact Hne. exact H.
Qed.

Lemma remains_add_entry (now : Z) (p : path) (n : node) (fs : gmap path node) :
  remains fs (add_entry now p n fs).
Proof.
  unfold add_entry. eapply remains_trans; [|apply remains_insert].
  apply kept_remains, kept_touch_parent.
Qed.

Lemma remains_write_at (now md : Z) (chmod : bool) (fs fs' : gmap path node) (d : path)
    (data : list Byte.byte) :
  write_at now md chmod fs d data = inr fs' -> remains fs fs'.
Proof.
  unfold write_at. destruct (fs !! d) as [[dt m|m|t|m]|]; try discriminate.
  - destruct (can_write m); [|discriminate]. intros [= <-]. apply remains_insert.
  - destruct (parent_allows fs d); [discriminate|]. intros [= <-]. apply remains_add_entry.
Qed.

Lemma remains_copyFile (now : Z) (fs fs' : gmap path node) (src dst : path) (n : Z) :
  copyFile_pure now fs src dst = inr (fs', n) -> remains fs fs'.
Proof.
  unfold copyFile_pure. destruct (follow max_hops fs src); [|discriminate].
  destruct (follow max_hops fs dst) as [d|]; [|discriminate].
  destruct (fs !! _) as [[data m|m|t|m]|]; try discriminate.
  destruct (can_read m); [|discriminate].
  destruct (write_at now (mode m) true fs d data) as [c|fs1] eqn:E; [discriminate|].
  intros [= <- _]. exact (remains_write_at _ _ _ _ _ _ _ E).
Qed.

Lemma remains_utimes (fs fs' : gmap path node) (p : path) (a mt : Z) :
  utimes_pure fs p a mt = inr fs' -> remains fs fs'.
Proof.
  unfold utimes_pure. destruct (follow max_hops fs p) as [q|]; [|discriminate].
  destruct (fs !! q); [|discriminate]. intros [= <-] x H.
  rewrite lookup_alter. destruct (decide (q = x)) as [<-|]; [|exact H].
  destruct H as [nx Hn]. rewrite Hn. simpl. eauto.
Qed.

Lemma never_removes_ret {A : Type} (a : A) : never_removes (ret a).
Proof. intros w. apply remains_refl. Qed.

Lemma never_removes_read_only {A : Type} (m : M A) : read_only m -> never_removes m.
Proof. intros H w. rewrite H. apply remains_refl. Qed.

Lemma never_removes_bind {A B : Type} (m : M A) (k : A -> M B) :
  never_removes m -> (forall a, never_removes (k a)) -> never_removes (bind m k).
Proof.
  intros Hm Hk w. unfold bind. specialize (Hm w).
  destruct (m w) as [[a|e|] w1]; simpl in *; try exact Hm.
  eapply remains_trans; [exact Hm|apply Hk].
Qed.

Lemma never_removes_when (b : bool) (m : M unit) : never_removes m -> never_removes (when b m).
Proof. intros H. destruct b; [exact H|apply never_removes_ret]. Qed.

Lemma never_removes_for_fold {A S : Type} (xs : list A) (body : S -> A -> M S) :
  (forall acc x, never_removes (body acc x)) -> forall acc, never_removes (for_fold xs acc body).
Proof.
  intros H. induction xs as [|x xs IH]; intros acc; simpl; [apply never_removes_ret|].
  apply never_removes_bind; [apply H|exact IH].
Qed.

Lemma never_removes_mkdir_recursive (p : path) : never_removes (mkdir_recursive p).
Proof.
  intros w. unfold mkdir_recursive, bind, get_world, commit.
  destruct (mkdir_pure (clock w) (files w) p) as [c|fs'] eqn:E; simpl; [apply remains_refl|].
  apply kept_remains. exact (mkdir_pure_kept _ _ _ _ E).
Qed.

Lemma never_removes_copyFile (src dst : path) : never_removes (copyFile src dst).
Proof.
  intros w. unfold copyFile, bind, get_world.
  destruct (copyFile_pure (clock w) (files w) src dst) as [c|[fs' n]] eqn:E; simpl;
    [apply remains_refl|]. exact (remains_copyFile _ _ _ _ _ _ E).
Qed.

Lemma never_removes_utimes (p : path) (a mt : Z) : never_removes (utimes p a mt).
Proof.
  intros w. unfold utimes, bind, get_world, commit.
  destruct (utimes_pure (files w) p a mt) as [c|fs'] eqn:E; simpl; [apply remains_refl|].
  exact (remains_utimes _ _ _ _ _ E).
Qed.

Lemma never_removes_writeFile (p : path) (data : list Byte.byte) :
  never_removes (writeFile p data).
Proof.
  intros w. unfold writeFile, bind, get_world, commit.
  destruct (follow max_hops (files w) p) as [d|]; simpl; [|apply remains_refl].
  destruct (write_at (clock w) 420 false (files w) d data) as [c|fs'] eqn:E; simpl;
    [apply remains_refl|]. exact (remains_write_at _ _ _ _ _ _ _ E).
Qed.

Lemma never_removes_copyDirectoryRecursive (fuel : nat) :
  forall (source destination : path) (preserveTimestamps : bool),
    never_removes (fileUtils.copyDirectoryRecursive fuel source destination preserveTimestamps).
Proof.
  induction fuel as [|fuel IH]; intros source destination preserve; simpl.
  - intros w. apply remains_refl.
  - apply never_removes_bind; [apply never_removes_mkdir_recursive|intros _].
    apply never_removes_bind; [apply never_removes_read_only, read_only_readdir|intros items].
    apply never_removes_for_fold. intros acc item.
    apply never_removes_bind; [apply never_removes_read_only, read_only_stat|intros stats].
    destruct (isDirectory stats).
    + apply never_removes_bind; [apply IH|intros n; apply never_removes_ret].
    + apply never_removes_bind; [apply never_removes_copyFile|intros _].
      apply never_removes_bind; [apply never_removes_when, never_removes_utimes|].
      intros _. apply never_removes_ret.
Qed.

Ltac never_removes_step :=
  lazymatch goal with
  | |- never_removes (bind _ _) => apply never_removes_bind; [|intros ?]
  | |- never_removes (ret _) => apply never_removes_ret
  | |- never_removes (throw _) => apply never_removes_read_only, read_only_throw
  | |- never_removes (stat _) => apply never_removes_read_only, read_only_stat
  | |- never_removes (existsSync _) => apply never_removes_read_only, read_only_existsSync
  | |- never_removes (getNodeParameter _ _ _) =>
      apply never_removes_read_only, read_only_getNodeParameter
  | |- never_removes (path_resolve _) => apply never_removes_read_only, read_only_path_resolve
  | |- never_removes timestamp => apply never_removes_read_only; unfold timestamp; read_only_steps
  | |- never_removes (when _ _) => apply never_removes_when
  | |- never_removes (mkdir_recursive _) => apply never_removes_mkdir_recursive
  | |- never_removes (copyFile _ _) => apply never_removes_copyFile
  | |- never_removes (utimes _ _ _) => apply never_removes_utimes
  | |- never_removes (writeFile _ _) => apply never_removes_writeFile
  | |- never_removes (fileUtils.copyDirectoryRecursive _ _ _ _) =>
      apply never_removes_copyDirectoryRecursive
  | |- never_removes (if ?b then _ else _) => destruct b
  | |- never_removes (match ?x with _ => _ end) => destruct x
  end.

Lemma never_removes_copy_item (fuel : nat) (ps : params) :
  never_removes (CopyFile.execute_item fuel ps).
Proof. unfold CopyFile.execute_item. repeat never_removes_step. Qed.

Lemma never_removes_create_backup (moveOptions : value) (absoluteSourcePath : path)
    (isSourceFile isSourceDirectory : bool) :
  never_removes (MoveFile.create_backup moveOptions absoluteSourcePath
                   isSourceFile isSourceDirectory).
Proof. unfold MoveFile.create_backup. repeat never_removes_step. Qed.

(** X12. The copy node removes nothing: whatever the parameters, the files
    and the outcome of the item, every path that held an entry before the
    item holds one after it.  The same holds of the shared helper that
    copies a tree, and of the backup step of the move node. *)
Theorem copying_removes_nothing (fuel : nat) (ps : params) (w : world) :
  remains (files w) (files (snd (CopyFile.execute_item fuel ps w))) /\
  (forall source destination preserveTimestamps,
     remains (files w)
       (files (snd (fileUtils.copyDirectoryRecursive fuel source destination
                      preserveTimestamps w)))) /\
  (forall moveOptions absoluteSourcePath isSourceFile isSourceDirectory,
     remains (files w)
       (files (snd (MoveFile.create_backup moveOptions absoluteSourcePath
                      isSourceFile isSourceDirectory w)))).
Proof.
  split; [apply never_removes_copy_item|]. split.
  - intros. apply never_removes_copyDirectoryRecursive.
  - intros. apply never_removes_create_backup.
Qed.

(** ** What a move removes, and by which calls *)

Lemma by_calls_quiet {A : Type} (m : M A) :
  never_removes m -> grows m -> removes_by_calls m.
Proof.
  intros Hn Hg w. destruct (Hg w) as [evs Hevs]. exists evs.
  split; [exact Hevs|intros _; apply Hn].
Qed.

Lemma by_calls_bind {A B : Type} (m : M A) (k : A -> M B) :
  removes_by_calls m -> (forall a, removes_by_calls (k a)) -> removes_by_calls (bind m k).
Proof.
  intros Hm Hk w. unfold bind. destruct (Hm w) as (evs & Hevs & Hrem).
  destruct (m w) as [[a|e|] w1]; simpl in *; try (exists evs; split; assumption).
  destruct (Hk a w1) as (evs' & Hevs' & Hrem'). exists (evs ++ evs'). split.
  - unfold logged in *. rewrite Hevs', Hevs, app_assoc. reflexivity.
  - intros H. apply Forall_app in H as [H1 H2].
    eapply remains_trans; [apply Hrem; exact H1|apply Hrem'; exact H2].
Qed.

Lemma by_calls_try_catch {A : Type} (m : M A) (handler : error -> M A) :
  removes_by_calls m -> (forall e, removes_by_calls (handler e)) ->
  removes_by_calls (try_catch m handler).
Proof.
  intros Hm Hh w. unfold try_catch. destruct (Hm w) as (evs & Hevs & Hrem).
  destruct (m w) as [[a|e|] w1]; simpl in *; try (exists evs; split; assumption).
  destruct (Hh e w1) as (evs' & Hevs' & Hrem'). exists (evs ++ evs'). split.
  - unfold logged in *. rewrite Hevs', Hevs, app_assoc. reflexivity.
  - intros H. apply Forall_app in H as [H1 H2].
    eapply remains_trans; [apply Hrem; exact H1|apply Hrem'; exact H2].
Qed.

Lemma by_calls_when (b : bool) (m : M unit) : removes_by_calls m -> removes_by_calls (when b m).
Proof.
  intros H. destruct b; [exact H|].
  intros w. exists []. split; [symmetry; apply app_nil_r|intros _; apply remains_refl].
Qed.

Lemma by_calls_read_only {A : Type} (m : M A) : read_only m -> removes_by_calls m.
Proof.
  intros H w. rewrite H. exists [].
  split; [symmetry; apply app_nil_r|intros _; apply remains_refl].
Qed.

(** A call that removes: its success is not harmless, and refused it
    changes nothing. *)
Lemma by_calls_commit (c : call) (name : string) (p : path) (r : errno + gmap path node) :
  ~ harmless (Event c true) -> removes_by_calls (commit c name p r).
Proof.
  intros Hc w. unfold commit. destruct r as [code|fs']; simpl.
  - exists [Event c false]. split; [reflexivity|intros _; apply remains_refl].
  - exists [Event c true]. split; [reflexivity|].
    intros H. apply Forall_cons_1 in H as [H _]. contradiction.
Qed.

Lemma by_calls_rename (src dst : path) : removes_by_calls (rename src dst).
Proof.
  intros w. unfold rename, bind, get_world. apply by_calls_commit. exact (fun H => H).
Qed.

Lemma by_calls_unlink (p : path) : removes_by_calls (unlink p).
Proof.
  intros w. unfold unlink, bind, get_world. apply by_calls_commit. exact (fun H => H).
Qed.

Lemma by_calls_rmdir (p : path) (recursive : bool) : removes_by_calls (rmdir p recursive).
Proof.
  intros w. unfold rmdir, bind, get_world. destruct recursive.
  - unfold conclude.
    destruct (rmdir_recursive_pure _ _ _) as [[[[code name] q]|] fs']; simpl;
      eexists [_]; (split; [reflexivity|]);
      intros H; apply Forall_cons_1 in H as [H _]; contradiction.
  - apply by_calls_commit. exact (fun H => H).
Qed.

Lemma grows_create_backup (moveOptions : value) (absoluteSourcePath : path)
    (isSourceFile isSourceDirectory : bool) :
  grows (MoveFile.create_backup moveOptions absoluteSourcePath isSourceFile isSourceDirectory).
Proof.
  intros w.
  destruct (prepares_create_backup moveOptions absoluteSourcePath isSourceFile
              isSourceDirectory w) as (evs & H & _).
  exists evs. exact H.
Qed.

Ltac by_calls_step :=
  lazymatch goal with
  | |- removes_by_calls (bind _ _) => apply by_calls_bind; [|intros ?]
  | |- removes_by_calls (ret _) => apply by_calls_read_only, read_only_ret
  | |- removes_by_calls (throw _) => apply by_calls_read_only, read_only_throw
  | |- removes_by_calls (stat _) => apply by_calls_read_only, read_only_stat
  | |- removes_by_calls (existsSync _) => apply by_calls_read_only, read_only_existsSync
  | |- removes_by_calls (getNodeParameter _ _ _) =>
      apply by_calls_read_only, read_only_getNodeParameter
  | |- removes_by_calls (path_resolve _) => apply by_calls_read_only, read_only_path_resolve
  | |- removes_by_calls (when _ _) => apply by_calls_when
  | |- removes_by_calls (try_catch _ _) => apply by_calls_try_catch; [|intros ?]
  | |- removes_by_calls (mkdir_recursive _) =>
      apply by_calls_quiet; [apply never_removes_mkdir_recursive|apply grows_mkdir_recursive]
  | |- removes_by_calls (copyFile _ _) =>
      apply by_calls_quiet; [apply never_removes_copyFile|apply grows_copyFile]
  | |- removes_by_calls (MoveFile.create_backup _ _ _ _) =>
      apply by_calls_quiet; [apply never_removes_create_backup|apply grows_create_backup]
  | |- removes_by_calls (fileUtils.copyDirectoryRecursive _ _ _ _) =>
      apply by_calls_quiet;
      [apply never_removes_copyDirectoryRecursive|apply grows_copyDirectoryRecursive]
  | |- removes_by_calls (rename _ _) => apply by_calls_rename
  | |- removes_by_calls (unlink _) => apply by_calls_unlink
  | |- removes_by_calls (rmdir _ _) => apply by_calls_rmdir
  | |- removes_by_calls (if ?b then _ else _) => destruct b
  end.

(** X13. A move removes nothing but by the rename, when it succeeds, or by
    the [unlink] or the [rmdir] of the fallback: whatever the item and its
    outcome, as long as the calls it has logged hold no rename, [unlink] or
    [rmdir] that succeeded and no recursive [rmdir], every path that held
    an entry before the item still holds one.  So a move that fails before
    its rename, at a rename that is refused with the fallback off, or in
    the copy of the fallback, has removed nothing. *)
Theorem move_removes_by_its_calls (fuel : nat) (ps : params) (w : world) :
  exists evs,
    logged w evs (snd (MoveFile.execute_item fuel ps w)) /\
    (Forall harmless evs ->
     remains (files w) (files (snd (MoveFile.execute_item fuel ps w)))).
Proof.
  revert w. change (removes_by_calls (MoveFile.execute_item fuel ps)).
  unfold MoveFile.execute_item, MoveFile.perform_move. repeat by_calls_step.
Qed.

(** ** The atomic move *)

Lemma rekey_below (src dst r : path) : rekey src dst (src ++ r) = dst ++ r.
Proof. unfold rekey. rewrite drop_app_length. reflexivity. Qed.

Lemma inside_lookup (p q : path) (fs : gmap path node) (n : node) :
  inside p fs !! q = Some n <-> fs !! q = Some n /\ below p q.
Proof. unfold inside. apply map_lookup_filter_Some. Qed.

(** What the renamed tree holds: under [dst] what [fs] holds under [src],
    and nothing elsewhere. *)
Lemma moved_lookup (src dst : path) (fs : gmap path node) (r : path) :
  moved src dst fs !! (dst ++ r) = fs !! (src ++ r).
Proof.
  unfold moved.
  set (l := List.map (fun e => (rekey src dst (fst e), snd e)) (map_to_list (inside src fs))).
  assert (Hin : forall k n, (k, n) ∈ l <-> exists r', k = dst ++ r' /\ fs !! (src ++ r') = Some n).
  { intros k n. unfold l. rewrite list_elem_of_fmap. split.
    - intros ([q x] & [= -> ->] & Hq). apply elem_of_map_to_list in Hq.
      apply inside_lookup in Hq as [Hq Hb]. apply below_inv in Hb as (r' & ->).
      exists r'. simpl. rewrite rekey_below. split; [reflexivity|exact Hq].
    - intros (r' & -> & Hq). exists (src ++ r', n). simpl. rewrite rekey_below.
      split; [reflexivity|]. apply elem_of_map_to_list. apply inside_lookup.
      split; [exact Hq|apply below_app]. }
  assert (Hnodup : NoDup l.*1).
  { unfold l. rewrite <- list_fmap_compose.
    apply NoDup_fmap_2_strong; [|apply NoDup_map_to_list].
    intros [q1 n1] [q2 n2] H1 H2. simpl. intros Hk.
    apply elem_of_map_to_list in H1, H2.
    apply inside_lookup in H1 as [H1 B1], H2 as [H2 B2].
    apply below_inv in B1 as (r1 & ->), B2 as (r2 & ->).
    rewrite !rekey_below in Hk. apply app_inv_head in Hk as ->.
    rewrite H1 in H2. congruence. }
  destruct (fs !! (src ++ r)) as [n|] eqn:E.
  - apply elem_of_list_to_map_1; [exact Hnodup|]. apply Hin. eauto.
  - apply not_elem_of_list_to_map_1. intros Hk.
    apply list_elem_of_fmap in Hk as ([k n] & Hk & Hkn). simpl in Hk. subst k.
    apply Hin in Hkn as (r' & Hr & Hn). apply app_inv_head in Hr as ->. congruence.
Qed.

Lemma moved_elsewhere (src dst : path) (fs : gmap path node) (q : path) :
  ~ below dst q -> moved src dst fs !! q = None.
Proof.
  intros Hq. unfold moved. apply not_elem_of_list_to_map_1. intros Hk.
  apply list_elem_of_fmap in Hk as ([k n] & Hk & Hkn). simpl in Hk. subst k.
  apply list_elem_of_fmap in Hkn as ([q1 n1] & Heq & _). simpl in Heq.
  injection Heq as -> _. apply Hq. unfold rekey. apply below_app.
Qed.

(** What a rename that is accepted leaves. *)
Lemma rename_moves (now : Z) (ms : list path) (fs : gmap path node) (src dst : path) (n : node) :
  fs !! src = Some n -> fs !! dst = None ->
  rename_allowed fs src dst n ->
  device_of ms src = device_of ms dst ->
  ~ below src dst -> ~ below dst src ->
  exists fs', rename_pure now ms fs src dst = inr fs' /\
    (forall r, option_same (fs !! (src ++ r)) (fs' !! (dst ++ r))) /\
    (forall q, below src q -> fs' !! q = None) /\
    (forall q, ~ below src q -> ~ below dst q -> option_same (fs !! q) (fs' !! q)).
Proof.
  intros Hsrc Hdst (Hfrom & Hto & Hown & _ & _) Hdev Hsd Hds.
  assert (Hne : src <> dst) by (intros ->; apply Hsd, below_refl).
  eexists. split.
  { unfold rename_pure, parent_is_dir. rewrite Hsrc.
    pose proof (changeable_dir _ _ Hto) as Hparent. unfold is_dir_at in Hparent.
    rewrite (changeable_allows _ _ Hfrom), (changeable_allows _ _ Hto).
    destruct (fs !! dirname dst) as [[]|]; try discriminate.
    rewrite (bool_decide_eq_true_2 _ Hdev), (bool_decide_eq_false_2 _ Hne),
      (bool_decide_eq_false_2 _ Hsd), Hdst. simpl.
    destruct n as [dt dm|dm|t|dm]; try reflexivity.
    destruct Hown as [Hown|Hown];
      [rewrite (bool_decide_eq_true_2 _ Hown)|rewrite Hown, orb_true_r]; reflexivity. }
  split; [|split].
  - intros r. eapply option_same_trans; [|apply touch_parent_same].
    eapply option_same_trans; [|apply touch_parent_same].
    destruct (fs !! (src ++ r)) as [x|] eqn:E.
    + rewrite lookup_union_l' by (rewrite moved_lookup, E; eauto).
      rewrite moved_lookup, E. apply option_same_refl.
    + rewrite lookup_union_r by (rewrite moved_lookup; exact E).
      rewrite outside_out by (apply (below_apart dst src); [assumption..|apply below_app]).
      rewrite outside_in by apply below_app. apply option_same_refl.
  - intros q Hq. eapply option_same_None; [apply touch_parent_same|].
    eapply option_same_None; [apply touch_parent_same|].
    apply lookup_union_None. split.
    + apply moved_elsewhere. intros Hdq. exact (below_apart src dst q Hsd Hds Hq Hdq).
    + apply outside_in. exact Hq.
  - intros q Hsq Hdq. eapply option_same_trans; [|apply touch_parent_same].
    eapply option_same_trans; [|apply touch_parent_same].
    rewrite lookup_union_r by (apply moved_elsewhere; exact Hdq).
    rewrite (outside_out src q _ Hsq), (outside_out dst q _ Hdq). apply option_same_refl.
Qed.

(** X14. Moving a directory by a rename that is allowed (source and
    destination on one device, the destination a new name, both directories
    letting their entries be changed, the directory writable if it changes
    its parent, neither path inside the other, both paths such that they
    can be walked; no backup asked for): the item makes that one call,
    whatever the fallback flag, and returns the method ['atomic']; every
    entry of the source tree is at the same place under the destination, a
    link as a link, nothing is left under the source, and the entries
    outside both are as they were. *)
Theorem atomic_move_moves_the_tree (fuel : nat) (ps : params) (w : world) (s d : string)
    (m : meta) :
  assoc "sourcePath" ps = Some (VStr s) -> s <> "" ->
  assoc "destinationPath" ps = Some (VStr d) -> d <> "" ->
  strict_eq (js_or (field (moveOptions_of ps) "moveMode") (VStr "auto")) (VStr "file")
    = false ->
  truthy (js_or (field (moveOptions_of ps) "createBackup") (VBool false)) = false ->
  let src := resolve (cwd w) s in
  let dst := resolve (cwd w) d in
  files w !! src = Some (NDir m) -> files w !! dst = None ->
  rename_allowed (files w) src dst (NDir m) ->
  device_of (mounts w) src = device_of (mounts w) dst ->
  ~ below src dst -> ~ below dst src ->
  exists w' n,
    MoveFile.execute_item fuel ps w
    = (Ok (MoveFile.Moved src dst "directory" n "atomic" None), w') /\
    trace w' = trace w ++ [Event (RenameCall src dst) true] /\
    (forall r, option_same (files w !! (src ++ r)) (files w' !! (dst ++ r))) /\
    (forall q, below src q -> files w' !! q = None) /\
    (forall q, ~ below src q -> ~ below dst q -> option_same (files w !! q) (files w' !! q)).
Proof.
  intros Hsrc Hs Hdst Hd Hmode Hbackup src dst Hdir Hnew Hallowed Hdev Hsd Hds.
  subst src dst. unfold moveOptions_of in *. apply truthy_VStr in Hs, Hd.
  pose proof (stat_of_dir _ _ _ Hdir) as Hstat.
  pose proof (exists_of_stat _ _ _ Hstat) as Hex.
  assert (Hnodst : exists_pure (files w) (resolve (cwd w) d) = false).
  { unfold exists_pure, stat_pure. rewrite (follow_absent _ _ _ Hnew), Hnew. reflexivity. }
  pose proof (exists_of_dir _ _ (changeable_dir _ _ (proj1 (proj2 Hallowed)))) as Hparent.
  destruct (rename_moves (clock w) (mounts w) _ _ _ _ Hdir Hnew Hallowed Hdev Hsd Hds)
    as (fs' & Hrename & Hmoved & Hgone & Hkept).
  pose proof (Hmoved []) as Hroot. rewrite !app_nil_r in Hroot.
  destruct (option_same_Some _ _ _ Hroot Hdir) as (n' & Hn' & E).
  assert (Hn'dir : exists m', n' = NDir m').
  { apply same_node_shape in E. destruct n'; try discriminate. eauto. }
  destruct Hn'dir as (m' & ->).
  pose proof (stat_of_dir _ _ _ Hn') as Hstat'.
  assert (Hmove : MoveFile.perform_move fuel
                    (not_false (field (default (VObj []) (assoc "moveOptions" ps))
                                  "fallbackCopy"))
                    (resolve (cwd w) s) (resolve (cwd w) d) false true w
                  = (Ok "atomic", committed w (RenameCall (resolve (cwd w) s)
                                                 (resolve (cwd w) d)) fs')).
  { apply move_after_rename. exact Hrename. }
  exists (committed w (RenameCall (resolve (cwd w) s) (resolve (cwd w) d)) fs'), dir_size.
  split; [|repeat split; assumption].
  apply wp_ends. unfold MoveFile.execute_item, MoveFile.create_backup. wp_run.
  all: try (rewrite andb_false_r in *; discriminate).
  all: eapply wp_run; [exact Hmove|]; unfold after at 1; wp_run.
  all: split; reflexivity.
Qed.

Lemma atomic_move_moves_the_tree_witness :
  exists w' n,
    MoveFile.execute_item 0 Cases.move_directory Sample.w0
    = (Ok (MoveFile.Moved ["data"; "sub"] ["data"; "moved"] "directory" n
             "atomic" None), w') /\
    option_same (files Sample.w0 !! ["data"; "sub"; "b.txt"])
                (files w' !! ["data"; "moved"; "b.txt"]) /\
    files w' !! ["data"; "sub"; "b.txt"] = None.
Proof.
  destruct (atomic_move_moves_the_tree 0 Cases.move_directory Sample.w0
              "/data/sub" "/data/moved" Sample.dir_meta
              ltac:(vm_compute; reflexivity) ltac:(discriminate)
              ltac:(vm_compute; reflexivity) ltac:(discriminate)
              ltac:(vm_compute; reflexivity) ltac:(vm_compute; reflexivity)
              ltac:(vm_compute; reflexivity) ltac:(vm_compute; reflexivity)
              ltac:(refine (bool_decide_unpack _ _); vm_compute; exact I)
              ltac:(vm_compute; reflexivity)
              ltac:(refine (bool_decide_unpack _ _); vm_compute; exact I)
              ltac:(refine (bool_decide_unpack _ _); vm_compute; exact I))
    as (w' & n & Hrun & _ & Hmoved & Hgone & _).
  exists w', n. split; [exact Hrun|]. split.
  - exact (Hmoved ["b.txt"]).
  - apply Hgone. refine (bool_decide_unpack _ _). vm_compute. exact I.
Defined.

(** ** What the nodes refuse before they touch anything *)

(** X15. The copy and the move nodes do not write over a destination that
    exists unless [overwrite] is set: with the source found and of a kind
    the mode accepts, the item fails with the error of an existing
    destination and nothing is changed, no call being attempted. *)
Theorem existing_destination_is_refused (fuel : nat) (ps : params) (w : world)
    (s d : string) (st : Stats) :
  assoc "sourcePath" ps = Some (VStr s) -> s <> "" ->
  assoc "destinationPath" ps = Some (VStr d) -> d <> "" ->
  stat_pure (files w) (resolve (cwd w) s) = inr st ->
  exists_pure (files w) (resolve (cwd w) d) = true ->
  (mode_accepts (js_or (field (copyOptions_of ps) "copyMode") (VStr "auto")) st = true ->
   truthy (js_or (field (copyOptions_of ps) "overwrite") (VBool false)) = false ->
   CopyFile.execute_item fuel ps w
   = (Throw (OperationError (DestinationExists (resolve (cwd w) d))), w)) /\
  (mode_accepts (js_or (field (moveOptions_of ps) "moveMode") (VStr "auto")) st = true ->
   truthy (js_or (field (moveOptions_of ps) "overwrite") (VBool false)) = false ->
   MoveFile.execute_item fuel ps w
   = (Throw (OperationError (DestinationExists (resolve (cwd w) d))), w)).
Proof.
  unfold copyOptions_of, moveOptions_of.
  intros Hsrc Hs Hdst Hd Hstat Hthere. apply truthy_VStr in Hs, Hd.
  pose proof (exists_of_stat _ _ _ Hstat) as Hex.
  split; intros Hacc Hover; apply mode_accepts_split in Hacc as [Hf Hdir]; apply wp_ends.
  - unfold CopyFile.execute_item. wp_run.
    all: try (split; reflexivity).
    all: absurd_gate.
  - unfold MoveFile.execute_item. wp_run.
    all: try (split; reflexivity).
    all: absurd_gate.
Qed.

(** X16. The copy node does not copy a directory with [recursive] off: with
    the destination a new name in an existing directory, the item fails
    with the error that asks for the recursive option and nothing is
    changed, not even the destination directory being created. *)
Theorem directory_copy_needs_recursive (fuel : nat) (ps : params) (w : world)
    (s d : string) (m : meta) :
  assoc "sourcePath" ps = Some (VStr s) -> s <> "" ->
  assoc "destinationPath" ps = Some (VStr d) -> d <> "" ->
  files w !! resolve (cwd w) s = Some (NDir m) ->
  strict_eq (js_or (field (copyOptions_of ps) "copyMode") (VStr "auto")) (VStr "file") = false ->
  exists_pure (files w) (resolve (cwd w) d) = false ->
  exists_pure (files w) (dirname (resolve (cwd w) d)) = true ->
  not_false (field (copyOptions_of ps) "recursive") = false ->
  CopyFile.execute_item fuel ps w = (Throw (OperationError DirectoryNeedsRecursive), w).
Proof.
  unfold copyOptions_of.
  intros Hsrc Hs Hdst Hd Hdir Hmode Hnew Hparent Hrec. apply truthy_VStr in Hs, Hd.
  pose proof (stat_of_dir _ _ _ Hdir) as Hstat.
  pose proof (exists_of_stat _ _ _ Hstat) as Hex.
  apply wp_ends. unfold CopyFile.execute_item. wp_run.
  all: cbn [isFile isDirectory st_kind size negb andb] in *.
  all: try (split; reflexivity).
  all: absurd_gate.
Qed.
(** ** The record of the info node *)

Lemma attempt_Ok_inv {A : Type} (m : M A) (r : option A * option error) (w w' : world) :
  FileInfo.attempt m w = (Ok r, w') ->
  (exists a, m w = (Ok a, w') /\ r = (Some a, None)) \/
  (exists e, m w = (Throw e, w') /\ r = (None, Some e)).
Proof.
  unfold FileInfo.attempt, try_catch, bind. destruct (m w) as [[a|e|] w1]; simpl.
  - intros [= <- <-]. left. eauto.
  - intros [= <- <-]. right. eauto.
  - discriminate.
Qed.

Lemma count_items_add_up (absolutePath : path) (items : list string) :
  forall (c c' : FileInfo.counts) (w w' : world),
    for_fold items c (FileInfo.count_item absolutePath) w = (Ok c', w') ->
    FileInfo.c_files c' + FileInfo.c_directories c' + FileInfo.c_others c'
    = FileInfo.c_files c + FileInfo.c_directories c + FileInfo.c_others c
      + Z.of_nat (length items) /\
    FileInfo.c_total c' = FileInfo.c_total c.
Proof.
  induction items as [|item items IH]; intros c c' w w'; simpl.
  - intros [= <- _]. split; [lia|reflexivity].
  - intros H. apply bind_Ok_inv in H as (c1 & w1 & Hitem & Hrest).
    apply IH in Hrest as [Hsum Htotal]. rewrite Htotal. clear Htotal.
    unfold FileInfo.count_item in Hitem.
    apply bind_Ok_inv in Hitem as (st & w2 & _ & Hitem).
    destruct (isFile st); [|destruct (isDirectory st)]; injection Hitem as <- _;
      simpl in *; split; (lia || reflexivity).
Qed.

(** X17. The record the info node returns for a path.  It never says the
    path is a symbolic link and never carries a real path, even with
    [resolveRealPath] on, because the path is read with [stat], which
    follows links.  The type, the sample and the checksum are given for
    regular files only and the counts for directories only.  The sample
    holds at most 200 bytes.  The counts of files, directories and other
    entries add up to the total, the number of entries of the directory. *)
Theorem info_record_is_consistent (ps : params) (w w' : world) (info : FileInfo.fileInfo) :
  FileInfo.execute_item ps w = (Ok info, w') ->
  (FileInfo.i_isSymbolicLink info = false /\ FileInfo.i_realPath info = None /\
   FileInfo.i_realPathError info = None) /\
  (FileInfo.i_isFile info = false ->
   FileInfo.i_mimeType info = None /\ FileInfo.i_contentSample info = None /\
   FileInfo.i_isBinary info = None /\ FileInfo.i_checksum info = None) /\
  (FileInfo.i_isDirectory info = false -> FileInfo.i_contents info = None) /\
  (forall sample, FileInfo.i_contentSample info = Some sample -> (length sample <= 200)%nat) /\
  (forall c, FileInfo.i_contents info = Some c ->
     FileInfo.c_files c + FileInfo.c_directories c + FileInfo.c_others c = FileInfo.c_total c /\
     exists items, readdir_pure (files w) (FileInfo.i_path info) = inr items /\
                   FileInfo.c_total c = Z.of_nat (length items)).
Proof.
  unfold FileInfo.execute_item. intros H.
  apply bind_Ok_inv in H as (filePath & w1 & H1 & H).
  apply getNodeParameter_Ok_inv in H1 as [_ ->].
  apply bind_Ok_inv in H as (includeOptions & w1 & H1 & H).
  apply getNodeParameter_default_inv in H1 as [_ ->].
  apply bind_Ok_inv in H as (u & w1 & H1 & H). apply when_throw_Ok_inv in H1 as [_ ->].
  apply bind_Ok_inv in H as (absolutePath & w1 & H1 & H).
  apply path_resolve_Ok_inv in H1 as (s & _ & _ & ->).
  apply bind_Ok_inv in H as (found & w1 & H1 & H). injection H1 as _ <-.
  apply bind_Ok_inv in H as (u1 & w1 & H1 & H). apply when_throw_Ok_inv in H1 as [_ ->].
  apply bind_Ok_inv in H as (st & w1 & Hstat & H).
  assert (Hw1 : w1 = w) by (injection Hstat as _ <-; reflexivity). subst w1.
  assert (Hlink : isSymbolicLink st = false).
  { unfold stat in Hstat. destruct (stat_pure (files w) absolutePath) as [c|st'] eqn:E;
      [discriminate|]. injection Hstat as ->. exact (stat_never_a_link _ _ _ E). }
  rewrite Hlink, andb_false_r in H.
  apply bind_Ok_inv in H as (real & w1 & H1 & H). injection H1 as <- <-.
  apply bind_Ok_inv in H as (sample & w1 & Hsample & H).
  apply bind_Ok_inv in H as (contents & w2 & Hcontents & H).
  apply bind_Ok_inv in H as (checksum & w3 & Hchecksum & H).
  injection H as <- _. cbn [FileInfo.i_isSymbolicLink FileInfo.i_realPath
    FileInfo.i_realPathError FileInfo.i_isFile FileInfo.i_isDirectory FileInfo.i_mimeType
    FileInfo.i_contentSample FileInfo.i_isBinary FileInfo.i_checksum FileInfo.i_contents
    FileInfo.i_path fst snd].
  assert (Hw : w1 = w).
  { match type of Hsample with ?m w = _ => assert (Hro : read_only m) end.
    { destruct (_ && _); [apply read_only_attempt; read_only_steps|apply read_only_ret]. }
    specialize (Hro w). rewrite Hsample in Hro. exact Hro. }
  subst w1.
  split; [repeat split|]. split; [|split; [|split]].
  - intros Hfile. rewrite Hfile, !andb_false_r in *. simpl in *.
    first [injection Hsample as <- _|injection Hsample as <-]. first [injection Hchecksum as <- _|injection Hchecksum as <-]. repeat split.
  - intros Hdir. rewrite Hdir, !andb_false_r in *. first [injection Hcontents as <- _|injection Hcontents as <-]. reflexivity.
  - intros bytes Hbytes.
    destruct (_ && _) in Hsample; [|first [injection Hsample as <- _|injection Hsample as <-]; discriminate].
    apply attempt_Ok_inv in Hsample as [(a & Hrun & ->)|(e & _ & ->)]; [|discriminate].
    apply bind_Ok_inv in Hrun as (buffer & w4 & _ & Hret). first [injection Hret as <- _|injection Hret as <-].
    simpl in Hbytes. injection Hbytes as <-. rewrite length_take. lia.
  - intros c Hc.
    destruct (_ && _) in Hcontents; [|first [injection Hcontents as <- _|injection Hcontents as <-]; discriminate].
    apply attempt_Ok_inv in Hcontents as [(a & Hrun & ->)|(e & _ & ->)]; [|discriminate].
    simpl in Hc. injection Hc as ->.
    apply bind_Ok_inv in Hrun as (items & w4 & Hread & Hloop).
    unfold readdir in Hread.
    destruct (readdir_pure (files w) absolutePath) as [code|items'] eqn:E; [discriminate|].
    injection Hread as -> <-.
    apply count_items_add_up in Hloop as [Hsum Htotal]. simpl in Hsum, Htotal.
    split; [lia|]. exists items. split; [reflexivity|exact Htotal].
Qed.
(** ** The exists node always answers *)

Lemma bind_run {A B : Type} (m : M A) (k : A -> M B) (w w1 : world) (a : A) :
  m w = (Ok a, w1) -> bind m k w = k a w1.
Proof. unfold bind. intros ->. reflexivity. Qed.

Lemma quiet_access (p : path) (bit : N) : quiet (access p bit).
Proof. exact (quiet_lift "access" p (fun w => access_pure bit (files w) p)). Qed.

Lemma quiet_probe (absolutePath : path) (perms : list (string * bool)) (accessType : value) :
  quiet (FileExists.probe absolutePath perms accessType).
Proof.
  unfold FileExists.probe. apply quiet_try_catch; [|intros e; apply quiet_ret].
  repeat lazymatch goal with
         | |- quiet (match ?x with _ => _ end) => destruct x
         | |- quiet (if ?b then _ else _) => destruct b
         | |- quiet (ret _) => apply quiet_ret
         | |- quiet (bind _ _) => apply quiet_bind; [apply quiet_access|intros ?]
         end.
Qed.

(** The statements after the first two of the [try] block neither fail for
    want of fuel nor change the world, and keep [typeMatches]. *)
Lemma try_block_rest (checkOptions : value) (absolutePath : path) (l : FileExists.locals)
    (w : world) :
  exists l' e,
    run_try (drop 2 (FileExists.try_block checkOptions absolutePath)) l w = (Ok (l', e), w) /\
    FileExists.typeMatches l' = FileExists.typeMatches l.
Proof.
  unfold FileExists.try_block. cbn [drop].
  match goal with
  | |- context [run_try [?a; ?b] l w] => set (step3 := a); set (step4 := b)
  end.
  assert (H3 : exists l3, (step3 l w = (Ok l3, w) \/ exists e, step3 l w = (Throw e, w)) /\
                          FileExists.typeMatches l3 = FileExists.typeMatches l).
  { unfold step3. destruct (_ && _); [|exists l; split; [left; reflexivity|reflexivity]].
    unfold try_catch, bind, realpath. destruct (realpath_pure (files w) absolutePath); simpl;
      eexists; (split; [left; reflexivity|reflexivity]). }
  cbn [run_try].
  destruct H3 as (l3 & [H3|(e & H3)] & Ht3); rewrite H3; [|eauto].
  rewrite <- Ht3.
  assert (H4 : exists r, step4 l3 w = (r, w) /\ r <> OutOfFuel /\
                         forall l4, r = Ok l4 ->
                                    FileExists.typeMatches l4 = FileExists.typeMatches l3).
  { unfold step4. destruct (FileExists.js_length _) as [n|];
      [|eexists; split; [reflexivity|split; [discriminate|intros l4 [= <-]; reflexivity]]].
    destruct (0 <? n);
      [|eexists; split; [reflexivity|split; [discriminate|intros l4 [= <-]; reflexivity]]].
    unfold bind at 1.
    destruct (FileExists.iterate _ w) as [[items|e|] w1] eqn:Hit.
    - assert (w1 = w) as ->.
      { unfold FileExists.iterate in Hit. destruct (js_or _ _); try discriminate;
          injection Hit as _ <-; reflexivity. }
      destruct (quiet_for_fold items (FileExists.probe absolutePath)
                  (fun acc x => quiet_probe absolutePath acc x)
                  (FileExists.accessPermissions l3) w) as (r & Hr & Hne).
      unfold bind. rewrite Hr. destruct r as [perms|e|]; [| |contradiction].
      + eexists. split; [reflexivity|]. split; [discriminate|]. intros l4 [= <-]. reflexivity.
      + eexists. split; [reflexivity|]. split; [discriminate|]. discriminate.
    - assert (w1 = w) as ->.
      { unfold FileExists.iterate in Hit. destruct (js_or _ _); try discriminate;
          injection Hit as _ <-; reflexivity. }
      eexists. split; [reflexivity|]. split; discriminate.
    - unfold FileExists.iterate in Hit. destruct (js_or _ _); discriminate. }
  destruct H4 as (r & H4 & Hne & Ht4). rewrite H4.
  destruct r as [l4|e|]; [|eauto|contradiction].
  exists l4, None. split; [reflexivity|]. apply Ht4. reflexivity.
Qed.

(** The variables after the [try] block of the exists node. *)
Lemma exists_locals (checkOptions : value) (absolutePath : path) (w : world) :
  exists l,
    (if exists_pure (files w) absolutePath then
       r <- run_try (FileExists.try_block checkOptions absolutePath)
              (FileExists.Locals true None None []) ;;
       match r with
       | (l, Some _) =>
           ret (FileExists.Locals (FileExists.typeMatches l) None (FileExists.realPath l)
                  (FileExists.accessPermissions l))
       | (l, None) => ret l
       end
     else ret (FileExists.Locals true None None [])) w = (Ok l, w) /\
    (exists_pure (files w) absolutePath = false -> l = FileExists.Locals true None None []) /\
    (forall st, stat_pure (files w) absolutePath = inr st ->
       FileExists.typeMatches l
       = type_matches (js_or (field checkOptions "checkType") (VStr "any")) st).
Proof.
  unfold exists_pure.
  destruct (stat_pure (files w) absolutePath) as [c|st] eqn:Hstat.
  - eexists. split; [reflexivity|]. split; [reflexivity|discriminate].
  - set (l2 := FileExists.Locals
                 (type_matches (js_or (field checkOptions "checkType") (VStr "any")) st)
                 (Some st) None []).
    destruct (try_block_rest checkOptions absolutePath l2 w) as (l' & e & Hrest & Ht).
    assert (Hrun : run_try (FileExists.try_block checkOptions absolutePath)
                     (FileExists.Locals true None None []) w = (Ok (l', e), w)).
    { rewrite <- Hrest. unfold FileExists.try_block. cbn [drop run_try].
      unfold bind at 1, stat. rewrite Hstat. cbn [lift_fs ret FileExists.typeMatches
        FileExists.stats FileExists.realPath FileExists.accessPermissions default].
      reflexivity. }
    rewrite (bind_run _ _ _ _ _ Hrun).
    destruct e as [e|]; eexists; (split; [reflexivity|]); (split; [discriminate|]);
      intros st' [= <-]; simpl; exact Ht.
Qed.

(** X18. The exists node answers for every path it is given: the item
    never fails and changes nothing, whatever the files and the options,
    an error met while inspecting the path being swallowed.  Its answer
    says whether the path exists and, when it does, whether it is of the
    kind asked for; [exists] is the conjunction of the two.  For a path
    that does not exist it carries neither details nor access results.
    With [onlyIfExists] an answer is returned only when [exists] is true,
    and no answer otherwise. *)
Theorem exists_check_always_answers (inputData : value) (ps : params) (w : world)
    (s : string) :
  assoc "filePath" ps = Some (VStr s) -> s <> "" ->
  let p := resolve (cwd w) s in
  let checkType :=
    js_or (field (default (VObj []) (assoc "checkOptions" ps)) "checkType") (VStr "any") in
  let onlyIfExists :=
    truthy (field (default (VObj []) (assoc "outputOptions" ps)) "onlyIfExists") in
  exists o,
    FileExists.execute_item inputData ps w = (Ok o, w) /\
    match o with
    | Some out =>
        FileExists.o_path out = p /\
        FileExists.o_pathExists out = exists_pure (files w) p /\
        FileExists.o_exists out
        = FileExists.o_pathExists out && FileExists.o_typeMatches out /\
        (forall st, stat_pure (files w) p = inr st ->
           FileExists.o_typeMatches out = type_matches checkType st) /\
        (exists_pure (files w) p = false ->
         FileExists.o_details out = None /\ FileExists.o_access out = None) /\
        (onlyIfExists = true -> FileExists.o_exists out = true)
    | None =>
        onlyIfExists = true /\
        (exists_pure (files w) p = false \/
         exists st, stat_pure (files w) p = inr st /\ type_matches checkType st = false)
    end.
Proof.
  intros Hpath Hs p checkType onlyIfExists. apply truthy_VStr in Hs.
  destruct (exists_locals (default (VObj []) (assoc "checkOptions" ps)) p w)
    as (l & Hl & Hmissing & Hkind).
  unfold FileExists.execute_item.
  erewrite bind_run by (unfold getNodeParameter; rewrite Hpath; reflexivity).
  erewrite bind_run by reflexivity.
  erewrite bind_run by reflexivity.
  erewrite bind_run by (rewrite Hs; reflexivity).
  erewrite bind_run by reflexivity.
  erewrite bind_run by reflexivity.
  erewrite bind_run by exact Hl.
  fold p onlyIfExists checkType.
  destruct (onlyIfExists && negb (exists_pure (files w) p && FileExists.typeMatches l)) eqn:Hskip.
  - exists None. split; [reflexivity|].
    apply andb_prop in Hskip as [Honly Hno]. split; [exact Honly|].
    apply negb_true_iff, andb_false_iff in Hno as [Hno|Hno]; [left; exact Hno|].
    unfold exists_pure in *. destruct (stat_pure (files w) p) as [c|st] eqn:Hstat;
      [left; reflexivity|right].
    exists st. split; [reflexivity|]. exact (eq_trans (eq_sym (Hkind st eq_refl)) Hno).
  - eexists (Some _). split; [reflexivity|].
    cbn [FileExists.o_path FileExists.o_pathExists FileExists.o_exists
         FileExists.o_typeMatches FileExists.o_details FileExists.o_access].
    split; [reflexivity|]. split; [reflexivity|]. split; [reflexivity|].
    split; [exact Hkind|]. split.
    + intros Hno. rewrite (Hmissing Hno). split; reflexivity.
    + intros Honly. rewrite Honly in Hskip. simpl in Hskip.
      apply negb_false_iff in Hskip. exact Hskip.
Qed.
(** ** The paths are validated first *)

Lemma truthy_empty : truthy (VStr "") = false.
Proof. reflexivity. Qed.

(** X19. The copy and the move nodes check their paths before anything
    else: an empty source, then an empty destination, then a source that
    does not exist make the item fail with the error of that case, and
    nothing is changed. *)
Theorem transfer_paths_are_validated (fuel : nat) (ps : params) (w : world) (src dst : value) :
  assoc "sourcePath" ps = Some src -> assoc "destinationPath" ps = Some dst ->
  let refused_with e :=
    CopyFile.execute_item fuel ps w = (Throw (OperationError e), w) /\
    MoveFile.execute_item fuel ps w = (Throw (OperationError e), w) in
  (truthy src = false -> refused_with SourceRequired) /\
  (truthy src = true -> truthy dst = false -> refused_with DestinationRequired) /\
  (forall s d, src = VStr s -> s <> "" -> dst = VStr d -> d <> "" ->
     exists_pure (files w) (resolve (cwd w) s) = false ->
     refused_with (SourceNotFound (resolve (cwd w) s))).
Proof.
  intros Hsrc Hdst refused_with. subst refused_with. cbv beta.
  split; [|split].
  - intros Hs. split; apply wp_ends;
      [unfold CopyFile.execute_item|unfold MoveFile.execute_item]; wp_run; split; reflexivity.
  - intros Hs Hd. split; apply wp_ends;
      [unfold CopyFile.execute_item|unfold MoveFile.execute_item]; wp_run; split; reflexivity.
  - intros s d -> Hs -> Hd Hmissing. apply truthy_VStr in Hs, Hd.
    split; apply wp_ends;
      [unfold CopyFile.execute_item|unfold MoveFile.execute_item]; wp_run; split; reflexivity.
Qed.

(** X20. The list and the info nodes check their path before they read
    anything else: an empty path, a path that does not exist and, for the
    list node, a path that is not a directory make the item fail with the
    error of that case. *)
Theorem inspected_paths_are_validated (RegExp_test : string -> string -> option bool)
    (fuel : nat) (ps : params) (w : world) :
  (forall v, assoc "filePath" ps = Some v ->
     (truthy v = false ->
      FileInfo.execute_item ps w = (Throw (OperationError PathRequired), w)) /\
     (forall s, v = VStr s -> s <> "" -> exists_pure (files w) (resolve (cwd w) s) = false ->
        FileInfo.execute_item ps w
        = (Throw (OperationError (PathNotFound (resolve (cwd w) s))), w))) /\
  (forall v listMode recursive includeHidden,
     assoc "directoryPath" ps = Some v -> assoc "listMode" ps = Some listMode ->
     assoc "recursive" ps = Some recursive -> assoc "includeHidden" ps = Some includeHidden ->
     (truthy v = false ->
      ListFiles.execute_item RegExp_test fuel ps w
      = (Throw (OperationError DirectoryPathRequired), w)) /\
     (forall s, v = VStr s -> s <> "" -> exists_pure (files w) (resolve (cwd w) s) = false ->
        ListFiles.execute_item RegExp_test fuel ps w
        = (Throw (OperationError (DirectoryNotFound (resolve (cwd w) s))), w)) /\
     (forall s st, v = VStr s -> s <> "" ->
        stat_pure (files w) (resolve (cwd w) s) = inr st -> isDirectory st = false ->
        ListFiles.execute_item RegExp_test fuel ps w
        = (Throw (OperationError (NotADirectory (resolve (cwd w) s))), w))).
Proof.
  split.
  - intros v Hpath. split.
    + intros Hv. apply wp_ends. unfold FileInfo.execute_item. wp_run; split; reflexivity.
    + intros s -> Hs Hmissing. apply truthy_VStr in Hs.
      apply wp_ends. unfold FileInfo.execute_item. wp_run; split; reflexivity.
  - intros v listMode recursive includeHidden Hpath Hmode Hrec Hhid. split; [|split].
    + intros Hv. apply wp_ends. unfold ListFiles.execute_item. wp_run; split; reflexivity.
    + intros s -> Hs Hmissing. apply truthy_VStr in Hs.
      apply wp_ends. unfold ListFiles.execute_item. wp_run; split; reflexivity.
    + intros s st -> Hs Hstat Hdir. apply truthy_VStr in Hs.
      pose proof (exists_of_stat _ _ _ Hstat) as Hex.
      apply wp_ends. unfold ListFiles.execute_item. wp_run; split; reflexivity.
Qed.
(** ** Copying a directory with the copy node *)

(** X21. Copying a directory with the copy node, [recursive] on: when the
    source is a tree of files that can be read and of directories that can
    be read and searched, and the destination a new name in a directory
    that lets its entries be changed, neither inside the other, both paths
    such that they can be walked, the item returns, reports a directory,
    and leaves under the destination the shape of what is under the source
    (the same names, the same kinds, the same bytes in each file),
    everything outside the destination being as it was up to its times. *)
Theorem directory_copy_mirrors_the_source (fuel : nat) (ps : params) (w : world)
    (s d : string) :
  assoc "sourcePath" ps = Some (VStr s) -> s <> "" ->
  assoc "destinationPath" ps = Some (VStr d) -> d <> "" ->
  strict_eq (js_or (field (copyOptions_of ps) "copyMode") (VStr "auto")) (VStr "file") = false ->
  not_false (field (copyOptions_of ps) "recursive") = true ->
  copy_ready (files w) (resolve (cwd w) s) (resolve (cwd w) d) fuel ->
  exists out w',
    CopyFile.execute_item fuel ps w = (Ok out, w') /\
    CopyFile.sourceType out = "directory" /\
    copied_tree (files w) (resolve (cwd w) s) (resolve (cwd w) d) (files w').
Proof.
  unfold copyOptions_of.
  intros Hsrc Hs Hdst Hd Hmode Hrec Hready. apply truthy_VStr in Hs, Hd.
  destruct (copy_ready_source _ _ _ _ Hready) as (m & Hdir & _).
  pose proof (copy_ready_fresh _ _ _ _ Hready []) as Hnew. rewrite app_nil_r in Hnew.
  pose proof (stat_of_dir _ _ _ Hdir) as Hstat.
  pose proof (exists_of_stat _ _ _ Hstat) as Hex.
  assert (Hnodst : exists_pure (files w) (resolve (cwd w) d) = false).
  { unfold exists_pure, stat_pure. rewrite (follow_absent _ _ _ Hnew), Hnew. reflexivity. }
  assert (Hparent : exists_pure (files w) (dirname (resolve (cwd w) d)) = true).
  { apply exists_of_dir, changeable_dir. apply Hready. }
  destruct (copy_tree (not_false (field (default (VObj []) (assoc "copyOptions" ps))
                                    "preserveTimestamps"))
              fuel _ _ w Hready) as (n & w1 & Hcopy & Htree).
  assert (Hdone : exists m1, files w1 !! resolve (cwd w) d = Some (NDir m1)).
  { destruct Htree as [_ Hmirror]. specialize (Hmirror []). rewrite !app_nil_r, Hdir in Hmirror.
    destruct (files w1 !! resolve (cwd w) d) as [[]|]; try discriminate. eauto. }
  destruct Hdone as (m1 & Hdone).
  pose proof (stat_of_dir _ _ _ Hdone) as Hstat1.
  apply wp_returns. unfold CopyFile.execute_item.
  wp_run.
  all: cbn [isFile isDirectory st_kind size negb andb] in *.
  all: try absurd_gate.
  all: eapply wp_run; [exact Hcopy|]; unfold after at 1.
  all: wp_run.
  all: eexists; split; [reflexivity|]; split; [reflexivity|exact Htree].
Qed.

(** ** Deleting with a backup *)

Lemma mkdir_of_existing (now : Z) (fs : gmap path node) (dir : path) (name : string) :
  dirs_above fs (join dir name) -> mkdir_pure now fs (dirname (join dir name)) = inr fs.
Proof.
  intros Habove. rewrite dirname_join.
  assert (Hall : Forall (fun p => is_dir_at fs p = true) (ancestors_and_self dir)).
  { unfold ancestors_and_self. apply List.Forall_forall. intros p Hp.
    apply in_map_iff in Hp as (k & <- & Hk). apply in_seq in Hk.
    unfold dirs_above in Habove. rewrite List.Forall_forall in Habove.
    specialize (Habove k). unfold join in Habove. rewrite length_app in Habove.
    rewrite take_app_le in Habove by lia. apply Habove. apply in_seq. simpl. lia. }
  assert (Hdir : is_dir_at fs dir = true).
  { rewrite List.Forall_forall in Hall. apply Hall. unfold ancestors_and_self.
    apply in_map_iff. exists (length dir). split; [apply firstn_all|]. apply in_seq. lia. }
  unfold mkdir_pure. unfold is_dir_at in Hdir.
  destruct (fs !! dir) as [[d m|m|t|m]|] eqn:E; try discriminate.
  rewrite (follow_dir _ _ _ _ E). apply mkdir_existing. exact Hall.
Qed.

(** X23. Deleting a path that leads to a readable regular file with a
    backup asked for, the backup directory (given by an absolute path)
    being there; the backup directory and the directory of the path let
    their entries be changed, and the paths can be walked.  The item first
    copies the file into the backup directory, under the name of the path
    followed by [.backup.] and the time stamp, and then unlinks the path:
    it returns, the backup it names holds the bytes the file held, and the
    path is gone. *)
Theorem delete_backs_the_file_up (ps : params) (w : world) (s b : string) (deleteMode : value)
    (q : path) (data : list Byte.byte) (m : meta) :
  assoc "filePath" ps = Some (VStr s) -> s <> "" ->
  assoc "deleteMode" ps = Some deleteMode ->
  strict_eq deleteMode (VStr "directory") = false ->
  follow max_hops (files w) (resolve (cwd w) s) = Some q ->
  files w !! q = Some (NFile data m) -> can_read m = true ->
  within_size_limit (safetyOptions_of ps) (MkStats KFile (Z.of_nat (length data)) m) = true ->
  confirmation_passes ps = true ->
  truthy (field (safetyOptions_of ps) "createBackup") = true ->
  js_or (field (safetyOptions_of ps) "backupDirectory") (VStr "/tmp") = VStr b ->
  is_absolute b = true ->
  let p := resolve (cwd w) s in
  let backupPath := join (resolve (cwd w) b) (basename p +:+ ".backup." +:+ pretty (clock w)) in
  passable (files w) backupPath -> files w !! backupPath = None ->
  changeable (files w) (dirname backupPath) = true ->
  changeable (files w) (dirname p) = true ->
  passable (files w) p -> passable (files w) q ->
  exists w',
    DeleteFile.execute_item ps w =
      (Ok (DeleteFile.Deleted p (basename p) "file" (Z.of_nat (length data))
             (Some backupPath)), w') /\
    trace w' = trace w ++ [Event (MkdirCall (resolve (cwd w) b)) true;
                           Event (CopyFileCall p backupPath (Z.of_nat (length data))) true;
                           Event (UnlinkCall p) true] /\
    shape_of <$> files w' !! backupPath = Some (SFile data) /\
    files w' !! p = None.
Proof.
  intros Hpath Hs Hmode Hnotdir Hq Hfile Hread Hsize Hconfirm Hbackup Hb _ p backupPath
    Hwalk Hnew Hto Hfrom _ _. subst p backupPath.
  apply size_gate_lets_through in Hsize. apply passable_dirs_above in Hwalk as Habove.
  unfold confirmation_passes, safetyOptions_of, provided_of in *.
  apply truthy_VStr in Hs.
  pose proof (stat_of_file _ _ _ _ _ Hq Hfile) as Hstat.
  pose proof (exists_of_stat _ _ _ Hstat) as Hex.
  destruct (follow_to_file _ _ _ _ _ _ Hq Hfile) as (n & Hn & Hnd).
  pose proof (mkdir_of_existing (clock w) _ _ _ Habove) as Hmk.
  set (backupPath := join (resolve (cwd w) b)
                       (basename (resolve (cwd w) s) +:+ ".backup." +:+ pretty (clock w))) in *.
  pose (copied := NFile data (fresh_meta (clock w + 1) (mode m))).
  assert (Hcopy : copyFile_pure (clock w + 1) (files w) (resolve (cwd w) s) backupPath
                  = inr (add_entry (clock w + 1) backupPath copied (files w),
                         Z.of_nat (length data))).
  { unfold copyFile_pure, write_at.
    rewrite Hq, (follow_absent _ _ _ Hnew), Hfile, Hread, Hnew, (changeable_allows _ _ Hto).
    reflexivity. }
  assert (Hne : resolve (cwd w) s <> backupPath) by (intros E; rewrite E in Hn; congruence).
  assert (Hfrom1 : changeable (add_entry (clock w + 1) backupPath copied (files w))
                     (dirname (resolve (cwd w) s)) = true).
  { rewrite (changeable_same (files w)); [exact Hfrom|]. apply add_entry_same.
    intros E. rewrite E in Hfrom. unfold changeable in Hfrom. rewrite Hnew in Hfrom.
    discriminate. }
  destruct (option_same_Some _ _ _
              (add_entry_same (clock w + 1) backupPath (resolve (cwd w) s) copied (files w) Hne)
              Hn) as (n1 & Hn1 & Hsame).
  assert (Hnd1 : forall dm, n1 <> NDir dm).
  { intros dm ->. pose proof (same_node_shape _ _ Hsame) as Hsh.
    destruct n; simpl in Hsh; try discriminate. eapply Hnd. reflexivity. }
  pose proof (unlink_at (clock w + 1 + 1) _ _ _ Hn1 Hnd1 Hfrom1) as Hun.
  unfold backupPath in *. clear backupPath.
  eexists. split; [|split; [|split]].
  - apply wp_ends. unfold DeleteFile.execute_item. wp_run.
    all: cbn [isFile isDirectory st_kind size negb andb] in *.
    all: try (split; reflexivity).
    all: try absurd_gate.
  - simpl. rewrite dirname_join, <- !app_assoc. reflexivity.
  - simpl. erewrite option_same_shape; [|apply touch_parent_same].
    rewrite lookup_delete_ne by congruence. unfold add_entry. rewrite lookup_insert_eq.
    reflexivity.
  - simpl. eapply option_same_None; [apply touch_parent_same|]. apply lookup_delete_eq.
Qed.
(** ** The properties on the sample world *)

Lemma list_filters_bound_what_passes_witness :
  within_filters Sample.any_match Cases.text_filters "a.txt" 5 /\
  ListFiles.passesFileFilters Sample.any_match ["data"; "a.txt"]
    (MkStats KFile 5 Sample.file_meta) (VObj []) Sample.w0 = (Ok true, Sample.w0).
Proof.
  split.
  - apply (proj1 (list_filters_bound_what_passes Sample.any_match ["data"; "a.txt"]
                    (MkStats KFile 5 Sample.file_meta) Cases.text_filters Sample.w0)
             Sample.w0); vm_compute; reflexivity.
  - apply (proj2 (list_filters_bound_what_passes Sample.any_match ["data"; "a.txt"]
                    (MkStats KFile 5 Sample.file_meta) (VObj []) Sample.w0)); vm_compute; reflexivity.
Defined.

Lemma list_walk_returns_what_was_asked_witness :
  exists l w',
    ListFiles.getFilesRecursively Sample.any_match 5 ["data"] true false (VStr "both")
      (VObj []) Sample.w0 = (Ok l, w') /\
    length l = 3%nat /\
    Forall (listed_ok Sample.any_match ["data"] false (VStr "both") (VObj [])) l.
Proof.
  eexists _, _. split; [vm_compute; reflexivity|]. split; [vm_compute; reflexivity|].
  apply (list_walk_returns_what_was_asked Sample.any_match 5 ["data"] true false
           (VStr "both") (VObj []) Sample.w0 Sample.w0); vm_compute; reflexivity.
Defined.

Lemma list_item_orders_and_limits_witness :
  exists outs w',
    ListFiles.execute_item Sample.any_match 5 Cases.list_two_largest Sample.w0
    = (Ok outs, w') /\
    (length (listed_files outs) <= 2)%nat /\
    StronglySorted (in_order (VStr "size") (VStr "desc")) (listed_files outs).
Proof.
  eexists _, _. split; [vm_compute; reflexivity|].
  match goal with
  | |- (length (listed_files ?outs) <= _)%nat /\ _ =>
      destruct (list_item_orders_and_limits Sample.any_match 5 Cases.list_two_largest
                  Sample.w0 Sample.w0 outs ltac:(vm_compute; reflexivity))
        as (Hsorted & Hlimit & _)
  end.
  split; [exact (Hlimit 2 eq_refl eq_refl)|apply Hsorted].
  repeat constructor.
Defined.

Lemma delete_of_a_missing_path_witness :
  exists_pure (files Sample.w0) ["data"; "none.txt"] = false /\
  DeleteFile.execute_item Cases.delete_missing Sample.w0
  = (Ok (DeleteFile.Skipped ["data"; "none.txt"]), Sample.w0).
Proof.
  split; [vm_compute; reflexivity|].
  apply (delete_of_a_missing_path Cases.delete_missing Sample.w0 "/data/none.txt"
           (VStr "auto")); ((vm_compute; reflexivity) || discriminate).
Defined.

Lemma delete_unlinks_the_path_witness :
  files Sample.w0 !! ["link"] = Some (NSymlink ["data"; "a.txt"]) /\
  exists w',
    DeleteFile.execute_item Cases.delete_link Sample.w0
    = (Ok (DeleteFile.Deleted ["link"] "link" "file" 5 None), w') /\
    files w' !! ["link"] = None /\
    option_same (files Sample.w0 !! ["data"; "a.txt"]) (files w' !! ["data"; "a.txt"]).
Proof.
  split; [vm_compute; reflexivity|].
  destruct (delete_unlinks_the_path Cases.delete_link Sample.w0 "/link" (VStr "auto")
              ["data"; "a.txt"] (Sample.text "hello") Sample.file_meta
              ltac:(vm_compute; reflexivity) ltac:(discriminate)
              ltac:(vm_compute; reflexivity) ltac:(vm_compute; reflexivity)
              ltac:(vm_compute; reflexivity) ltac:(vm_compute; reflexivity)
              ltac:(vm_compute; reflexivity) ltac:(vm_compute; reflexivity)
              ltac:(vm_compute; reflexivity) ltac:(vm_compute; reflexivity)
              ltac:(refine (bool_decide_unpack _ _); vm_compute; exact I)
              ltac:(refine (bool_decide_unpack _ _); vm_compute; exact I))
    as (w' & Hrun & _ & Hgone & Hkept).
  exists w'. split; [exact Hrun|]. split; [exact Hgone|]. apply Hkept. discriminate.
Defined.


Lemma move_removes_by_its_calls_witness :
  fst (MoveFile.execute_item 5 Cases.move_guarded Sample.w0)
  = Throw (FsError EACCES "scandir" ["guarded"; "priv"]) /\
  remains (files Sample.w0)
    (files (snd (MoveFile.execute_item 5 Cases.move_guarded Sample.w0))).
Proof.
  split; [vm_compute; reflexivity|].
  destruct (move_removes_by_its_calls 5 Cases.move_guarded Sample.w0) as (evs & Hevs & Hrem).
  apply Hrem. vm_compute in Hevs. subst evs. repeat constructor.
Defined.

Lemma existing_destination_is_refused_witness :
  exists_pure (files Sample.w0) ["data"; "sub"] = true /\
  CopyFile.execute_item 5 Cases.onto_existing Sample.w0
  = (Throw (OperationError (DestinationExists ["data"; "sub"])), Sample.w0) /\
  MoveFile.execute_item 5 Cases.onto_existing Sample.w0
  = (Throw (OperationError (DestinationExists ["data"; "sub"])), Sample.w0).
Proof.
  split; [vm_compute; reflexivity|].
  destruct (existing_destination_is_refused 5 Cases.onto_existing Sample.w0
              "/data/a.txt" "/data/sub" (MkStats KFile 5 Sample.file_meta)
              ltac:(vm_compute; reflexivity) ltac:(discriminate)
              ltac:(vm_compute; reflexivity) ltac:(discriminate)
              ltac:(vm_compute; reflexivity) ltac:(vm_compute; reflexivity))
    as [Hcopy Hmove].
  split; [apply Hcopy|apply Hmove]; vm_compute; reflexivity.
Defined.

Lemma directory_copy_needs_recursive_witness :
  CopyFile.execute_item 5 Cases.copy_flat Sample.w0
  = (Throw (OperationError DirectoryNeedsRecursive), Sample.w0).
Proof.
  apply (directory_copy_needs_recursive 5 Cases.copy_flat Sample.w0 "/data/sub" "/data/copy"
           Sample.dir_meta); ((vm_compute; reflexivity) || discriminate).
Defined.

Lemma info_record_is_consistent_witness :
  exists info w',
    FileInfo.execute_item Cases.info_counted Sample.w0 = (Ok info, w') /\
    FileInfo.i_contents info = Some (FileInfo.Counts 1 1 0 2) /\
    FileInfo.i_realPath info = None /\
    1 + 1 + 0 = 2.
Proof.
  eexists _, _. split; [vm_compute; reflexivity|]. split; [vm_compute; reflexivity|].
  match goal with
  | |- FileInfo.i_realPath ?info = None /\ _ =>
      destruct (info_record_is_consistent Cases.info_counted Sample.w0 Sample.w0 info
                  ltac:(vm_compute; reflexivity))
        as ((_ & Hreal & _) & _ & _ & _ & Hcounts)
  end.
  split; [exact Hreal|]. exact (proj1 (Hcounts _ eq_refl)).
Defined.

Lemma exists_check_always_answers_witness :
  exists out,
    FileExists.execute_item VUndefined Cases.ask_nope Sample.w0 = (Ok (Some out), Sample.w0) /\
    FileExists.o_exists out = false /\ FileExists.o_details out = None.
Proof.
  destruct (exists_check_always_answers VUndefined Cases.ask_nope Sample.w0 "/nope"
              eq_refl ltac:(discriminate)) as ([out|] & Hrun & Hout).
  - exists out. split; [exact Hrun|].
    destruct Hout as (_ & Hthere & Hboth & _ & Hmissing & _).
    split; [rewrite Hboth, Hthere; vm_compute; reflexivity|]. apply Hmissing. vm_compute; reflexivity.
  - exfalso. destruct Hout as [Honly _]. discriminate.
Defined.

Lemma transfer_paths_are_validated_witness :
  CopyFile.execute_item 5 Cases.no_source Sample.w0
  = (Throw (OperationError SourceRequired), Sample.w0) /\
  MoveFile.execute_item 5 Cases.no_source Sample.w0
  = (Throw (OperationError SourceRequired), Sample.w0).
Proof.
  apply (proj1 (transfer_paths_are_validated 5 Cases.no_source Sample.w0 (VStr "")
                  (VStr "/data/copy") eq_refl eq_refl)).
  vm_compute; reflexivity.
Defined.

Lemma inspected_paths_are_validated_witness :
  FileInfo.execute_item Cases.no_path Sample.w0
  = (Throw (OperationError PathRequired), Sample.w0) /\
  ListFiles.execute_item Sample.any_match 5 Cases.list_nothing Sample.w0
  = (Throw (OperationError DirectoryPathRequired), Sample.w0).
Proof.
  split.
  - apply (proj1 (proj1 (inspected_paths_are_validated Sample.any_match 5 Cases.no_path
                           Sample.w0) (VStr "") eq_refl)).
    vm_compute; reflexivity.
  - apply (proj1 (proj2 (inspected_paths_are_validated Sample.any_match 5 Cases.list_nothing
                           Sample.w0) (VStr "") (VStr "both") (VBool false) (VBool false)
                    eq_refl eq_refl eq_refl eq_refl)).
    vm_compute; reflexivity.
Defined.

Lemma directory_copy_mirrors_the_source_witness :
  copy_ready (files Sample.w0) ["data"; "sub"] ["data"; "copy"] 5 /\
  exists out w',
    CopyFile.execute_item 5 Sample.copy_directory Sample.w0 = (Ok out, w') /\
    shape_of <$> files w' !! ["data"; "copy"; "b.txt"] = Some (SFile (Sample.text "abc")).
Proof.
  assert (Hready : copy_ready (files Sample.w0) ["data"; "sub"] ["data"; "copy"] 5)
    by (refine (bool_decide_unpack _ _); vm_compute; exact I).
  split; [exact Hready|].
  destruct (directory_copy_mirrors_the_source 5 Sample.copy_directory Sample.w0
              "/data/sub" "/data/copy" ltac:(vm_compute; reflexivity)
              ltac:(discriminate) ltac:(vm_compute; reflexivity) ltac:(discriminate)
              ltac:(vm_compute; reflexivity) ltac:(vm_compute; reflexivity) Hready)
    as (out & w' & Hrun & _ & _ & Hmirror).
  exists out, w'. split; [exact Hrun|]. exact (Hmirror ["b.txt"]).
Defined.


Lemma delete_backs_the_file_up_witness :
  exists w',
    DeleteFile.execute_item Cases.delete_backed_up Sample.w0
    = (Ok (DeleteFile.Deleted ["data"; "a.txt"] "a.txt" "file" 5
             (Some ["mnt"; "a.txt.backup.1000"])), w') /\
    shape_of <$> files w' !! ["mnt"; "a.txt.backup.1000"] = Some (SFile (Sample.text "hello")) /\
    files w' !! ["data"; "a.txt"] = None.
Proof.
  destruct (delete_backs_the_file_up Cases.delete_backed_up Sample.w0 "/data/a.txt" "/mnt"
              (VStr "auto") ["data"; "a.txt"] (Sample.text "hello") Sample.file_meta
              ltac:(vm_compute; reflexivity) ltac:(discriminate)
              ltac:(vm_compute; reflexivity) ltac:(vm_compute; reflexivity)
              ltac:(vm_compute; reflexivity) ltac:(vm_compute; reflexivity)
              ltac:(vm_compute; reflexivity) ltac:(vm_compute; reflexivity)
              ltac:(vm_compute; reflexivity) ltac:(vm_compute; reflexivity)
              ltac:(vm_compute; reflexivity) ltac:(vm_compute; reflexivity)
              ltac:(refine (bool_decide_unpack _ _); vm_compute; exact I)
              ltac:(vm_compute; reflexivity) ltac:(vm_compute; reflexivity)
              ltac:(vm_compute; reflexivity)
              ltac:(refine (bool_decide_unpack _ _); vm_compute; exact I)
              ltac:(refine (bool_decide_unpack _ _); vm_compute; exact I))
    as (w' & Hrun & _ & Hbackup & Hgone).
  exists w'. split; [exact Hrun|]. split; [exact Hbackup|exact Hgone].
Defined.
(** ** The gates of kind and size *)

(** X24. The nodes that take a mode check the kind of the path before they
    act: a delete, copy or move in ['file'] mode of a path that is not a
    regular file fails with the error for a path that is not a file, and in
    ['directory'] mode of a path that is not a directory with the error for
    a path that is not a directory; nothing is changed. *)
Theorem kind_mismatch_is_refused (fuel : nat) (ps : params) (w : world) (st : Stats) :
  (forall s mode,
     assoc "filePath" ps = Some (VStr s) -> s <> "" -> assoc "deleteMode" ps = Some mode ->
     stat_pure (files w) (resolve (cwd w) s) = inr st -> mode_accepts mode st = false ->
     DeleteFile.execute_item ps w = (Throw (kind_error mode st (resolve (cwd w) s)), w)) /\
  (forall s d,
     assoc "sourcePath" ps = Some (VStr s) -> s <> "" ->
     assoc "destinationPath" ps = Some (VStr d) -> d <> "" ->
     stat_pure (files w) (resolve (cwd w) s) = inr st ->
     (mode_accepts (js_or (field (copyOptions_of ps) "copyMode") (VStr "auto")) st = false ->
      CopyFile.execute_item fuel ps w
      = (Throw (kind_error (js_or (field (copyOptions_of ps) "copyMode") (VStr "auto")) st
                  (resolve (cwd w) s)), w)) /\
     (mode_accepts (js_or (field (moveOptions_of ps) "moveMode") (VStr "auto")) st = false ->
      MoveFile.execute_item fuel ps w
      = (Throw (kind_error (js_or (field (moveOptions_of ps) "moveMode") (VStr "auto")) st
                  (resolve (cwd w) s)), w))).
Proof.
  unfold copyOptions_of, moveOptions_of, mode_accepts, kind_error.
  split.
  - intros s mode Hpath Hs Hmode Hstat Hacc. apply truthy_VStr in Hs.
    pose proof (exists_of_stat _ _ _ Hstat) as Hex.
    apply wp_ends. unfold DeleteFile.execute_item. wp_run.
    all: try (split; reflexivity).
    all: absurd_gate.
  - intros s d Hsrc Hs Hdst Hd Hstat. apply truthy_VStr in Hs, Hd.
    pose proof (exists_of_stat _ _ _ Hstat) as Hex.
    split; intros Hacc; apply wp_ends.
    + unfold CopyFile.execute_item. wp_run.
      all: try (split; reflexivity).
      all: absurd_gate.
    + unfold MoveFile.execute_item. wp_run.
      all: try (split; reflexivity).
      all: absurd_gate.
Qed.

(** X25. The size limit of the delete node: a regular file larger than
    [maxFileSize] megabytes is refused with the error that gives its size
    and the limit in bytes, before the confirmation is looked at and
    whatever it is; nothing is changed. *)
Theorem oversized_file_is_refused (ps : params) (w : world) (s : string) (deleteMode : value)
    (st : Stats) (limit : Z) :
  assoc "filePath" ps = Some (VStr s) -> s <> "" ->
  assoc "deleteMode" ps = Some deleteMode ->
  stat_pure (files w) (resolve (cwd w) s) = inr st ->
  mode_accepts deleteMode st = true -> isFile st = true ->
  field (safetyOptions_of ps) "maxFileSize" = VNum limit -> limit <> 0 ->
  limit * 1024 * 1024 < size st ->
  DeleteFile.execute_item ps w
  = (Throw (OperationError (FileTooLarge (size st) (limit * 1024 * 1024))), w).
Proof.
  unfold safetyOptions_of.
  intros Hpath Hs Hmode Hstat Hacc Hfile Hmax Hnz Hbig. apply truthy_VStr in Hs.
  pose proof (exists_of_stat _ _ _ Hstat) as Hex.
  apply mode_accepts_split in Hacc as [Hf Hd].
  assert (Htruthy : truthy (VNum limit) = true).
  { simpl. destruct (Z.eqb_spec limit 0); [contradiction|reflexivity]. }
  apply Z.ltb_lt in Hbig.
  apply wp_ends. unfold DeleteFile.execute_item. wp_run.
  all: rewrite ?Hmax in *; cbn [megabytes] in *.
  all: try (split; reflexivity).
  all: try match goal with H : Some _ = Some _ |- _ => injection H as <- end.
  all: try (split; reflexivity).
  all: try absurd_gate.
  all: try match goal with H : Some _ = None |- _ => discriminate H end.
Qed.
(** ** The destination directory *)

Lemma dirname_differs (p : path) : p <> [] -> p <> dirname p.
Proof.
  intros Hne E. pose proof (app_removelast_last "" Hne) as H.
  unfold dirname in E. rewrite <- E in H. apply (f_equal (@length string)) in H.
  rewrite length_app in H. simpl in H. lia.
Qed.

(** X26. Copying a regular file that can be read to a path whose directory
    does not exist yet.  With [createDestDir] (on unless set to false),
    when the directory above the missing one lets its entries be changed
    and the paths can be walked, the copy node first creates the directory
    and then copies: the item returns, the directory is there and the
    destination holds the bytes of the source.  With [createDestDir] off
    the copy is attempted as it is and fails with [ENOENT]; nothing is
    created. *)
Theorem copy_creates_the_destination_directory (fuel : nat) (ps : params) (w : world)
    (s d : string) (q : path) (data : list Byte.byte) (m : meta) :
  assoc "sourcePath" ps = Some (VStr s) -> s <> "" ->
  assoc "destinationPath" ps = Some (VStr d) -> d <> "" ->
  strict_eq (js_or (field (copyOptions_of ps) "copyMode") (VStr "auto")) (VStr "directory")
    = false ->
  follow max_hops (files w) (resolve (cwd w) s) = Some q ->
  files w !! q = Some (NFile data m) -> can_read m = true ->
  resolve (cwd w) d <> [] ->
  files w !! resolve (cwd w) d = None ->
  files w !! dirname (resolve (cwd w) d) = None ->
  (not_false (field (copyOptions_of ps) "createDestDir") = true ->
   passable (files w) (dirname (resolve (cwd w) d)) ->
   changeable (files w) (dirname (dirname (resolve (cwd w) d))) = true ->
   passable (files w) (resolve (cwd w) s) -> passable (files w) q ->
   exists out w',
     CopyFile.execute_item fuel ps w = (Ok out, w') /\
     CopyFile.copiedBytes out = Z.of_nat (length data) /\
     is_dir_at (files w') (dirname (resolve (cwd w) d)) = true /\
     shape_of <$> files w' !! resolve (cwd w) d = Some (SFile data)) /\
  (not_false (field (copyOptions_of ps) "createDestDir") = false ->
   CopyFile.execute_item fuel ps w
   = (Throw (FsError ENOENT "copyfile" (resolve (cwd w) s)),
      refused w (CopyFileCall (resolve (cwd w) s) (resolve (cwd w) d) 0))).
Proof.
  unfold copyOptions_of.
  intros Hsrc Hs Hdst Hd Hmode Hq Hfile Hread Hroot Hnew Hnodir.
  apply truthy_VStr in Hs, Hd.
  pose proof (stat_of_file _ _ _ _ _ Hq Hfile) as Hstat.
  pose proof (exists_of_stat _ _ _ Hstat) as Hex.
  assert (Hnodst : exists_pure (files w) (resolve (cwd w) d) = false).
  { unfold exists_pure, stat_pure. rewrite (follow_absent _ _ _ Hnew), Hnew. reflexivity. }
  assert (Hnoparent : exists_pure (files w) (dirname (resolve (cwd w) d)) = false).
  { unfold exists_pure, stat_pure. rewrite (follow_absent _ _ _ Hnodir), Hnodir. reflexivity. }
  split.
  - intros Hcreate Hwalk Hchange _ _.
    pose proof (mkdir_new (clock w) _ _ (passable_dirs_above _ _ Hwalk) Hchange Hnodir) as Hmk.
    set (parent := dirname (resolve (cwd w) d)) in *.
    set (fs1 := add_entry (clock w) parent (NDir (fresh_meta (clock w) 493)) (files w)) in *.
    assert (K : kept (files w) fs1) by (apply kept_add_entry; exact Hnodir).
    pose proof (follow_kept _ _ _ K _ _ Hq (ex_intro _ _ Hfile)) as Hq1.
    destruct (K q _ Hfile) as (n1 & Hfile1 & E1).
    apply same_node_file in E1 as (m1 & -> & Hmode1 & _).
    assert (Hread1 : can_read m1 = true).
    { unfold can_read, owner_can in *. rewrite Hmode1. exact Hread. }
    assert (Hparent1 : fs1 !! parent = Some (NDir (fresh_meta (clock w) 493))).
    { unfold fs1, add_entry. apply lookup_insert_eq. }
    assert (Hne : resolve (cwd w) d <> parent) by (apply dirname_differs; exact Hroot).
    assert (Hnew1 : fs1 !! resolve (cwd w) d = None).
    { eapply option_same_None; [apply add_entry_same; exact Hne|exact Hnew]. }
    pose (copied := NFile data (fresh_meta (clock w + 1) (mode m1))).
    assert (Hcopy : copyFile_pure (clock w + 1) fs1 (resolve (cwd w) s) (resolve (cwd w) d)
                    = inr (add_entry (clock w + 1) (resolve (cwd w) d) copied fs1,
                           Z.of_nat (length data))).
    { unfold copyFile_pure, write_at, parent_allows.
      rewrite Hq1, (follow_absent _ _ _ Hnew1), Hfile1, Hread1. fold parent.
      rewrite Hparent1, Hnew1. reflexivity. }
    set (fs2 := add_entry (clock w + 1) (resolve (cwd w) d) copied fs1) in *.
    assert (H2 : fs2 !! resolve (cwd w) d = Some copied).
    { unfold fs2, add_entry. apply lookup_insert_eq. }
    assert (Hut : utimes_pure fs2 (resolve (cwd w) d) (atime m) (mtime m)
                  = inr (alter (node_set_times (atime m) (mtime m)) (resolve (cwd w) d) fs2)).
    { apply (utimes_at _ _ _ _ _ H2). discriminate. }
    assert (H3 : alter (node_set_times (atime m) (mtime m)) (resolve (cwd w) d) fs2
                 !! resolve (cwd w) d
                 = Some (NFile data (set_times (atime m) (mtime m)
                                       (fresh_meta (clock w + 1) (mode m1))))).
    { rewrite lookup_alter_eq, H2. reflexivity. }
    pose proof (stat_of_file _ _ _ _ _ (follow_file _ _ _ _ _ H2) H2) as Hs2.
    pose proof (stat_of_file _ _ _ _ _ (follow_file _ _ _ _ _ H3) H3) as Hs3.
    assert (Hdir2 : is_dir_at fs2 parent = true).
    { rewrite (is_dir_at_same fs1 fs2 parent).
      - unfold is_dir_at. rewrite Hparent1. reflexivity.
      - apply add_entry_same. congruence. }
    assert (Hshape2 : shape_of <$> fs2 !! resolve (cwd w) d = Some (SFile data))
      by (rewrite H2; reflexivity).
    assert (Hshape3 : shape_of <$> alter (node_set_times (atime m) (mtime m))
                                     (resolve (cwd w) d) fs2 !! resolve (cwd w) d
                      = Some (SFile data)) by (rewrite H3; reflexivity).
    assert (Hdir3 : is_dir_at (alter (node_set_times (atime m) (mtime m))
                                 (resolve (cwd w) d) fs2) parent = true).
    { rewrite (is_dir_at_same fs2 _ parent); [exact Hdir2|apply set_times_same]. }
    clearbody copied. unfold fs2, fs1, parent in *. clear fs2 fs1 parent.
    apply wp_returns. unfold CopyFile.execute_item. wp_run.
    all: try (rewrite andb_false_r in *; discriminate).
    all: eexists; split; [reflexivity|]; cbn [CopyFile.copiedBytes files committed].
    all: split; [reflexivity|]; split.
    all: first [exact Hshape3|exact Hshape2|exact Hdir3|exact Hdir2].
  - intros Hcreate.
    assert (Hcopy : copyFile_pure (clock w) (files w) (resolve (cwd w) s) (resolve (cwd w) d)
                    = inl ENOENT).
    { unfold copyFile_pure, write_at, parent_allows.
      rewrite Hq, (follow_absent _ _ _ Hnew), Hfile, Hread, Hnew, Hnodir. reflexivity. }
    apply wp_ends. unfold CopyFile.execute_item. wp_run.
    all: try (rewrite andb_false_r in *; discriminate).
    all: split; reflexivity.
Qed.
(** ** The item of the move node *)

(** X27. Moving a regular file to a new name in a directory of the same
    device, with no backup asked for, both directories letting their
    entries be changed and both paths such that they can be walked: the
    item makes one call, the rename, and returns a record that reports a
    file, the method ['atomic'] and the size of the content; the
    destination holds the bytes and the mode the source held, and the
    source is gone. *)
Theorem move_item_renames_the_file (fuel : nat) (ps : params) (w : world) (s d : string)
    (data : list Byte.byte) (m : meta) :
  assoc "sourcePath" ps = Some (VStr s) -> s <> "" ->
  assoc "destinationPath" ps = Some (VStr d) -> d <> "" ->
  strict_eq (js_or (field (moveOptions_of ps) "moveMode") (VStr "auto")) (VStr "directory")
    = false ->
  truthy (js_or (field (moveOptions_of ps) "createBackup") (VBool false)) = false ->
  files w !! resolve (cwd w) s = Some (NFile data m) ->
  files w !! resolve (cwd w) d = None ->
  rename_allowed (files w) (resolve (cwd w) s) (resolve (cwd w) d) (NFile data m) ->
  device_of (mounts w) (resolve (cwd w) s) = device_of (mounts w) (resolve (cwd w) d) ->
  ~ below (resolve (cwd w) s) (resolve (cwd w) d) ->
  ~ below (resolve (cwd w) d) (resolve (cwd w) s) ->
  exists out w' m',
    MoveFile.execute_item fuel ps w = (Ok out, w') /\
    MoveFile.sourceType out = "file" /\ MoveFile.moveMethod out = "atomic" /\
    MoveFile.out_size out = Z.of_nat (length data) /\ MoveFile.backupPath out = None /\
    trace w' = trace w ++ [Event (RenameCall (resolve (cwd w) s) (resolve (cwd w) d)) true] /\
    files w' !! resolve (cwd w) d = Some (NFile data m') /\ mode m' = mode m /\
    files w' !! resolve (cwd w) s = None.
Proof.
  unfold moveOptions_of.
  intros Hsrc Hs Hdst Hd Hmode Hbackup Hfile Hnew Hallowed Hdev Hsd Hds.
  apply truthy_VStr in Hs, Hd.
  pose proof (stat_of_file _ _ _ _ _ (follow_file _ _ _ _ _ Hfile) Hfile) as Hstat.
  pose proof (exists_of_stat _ _ _ Hstat) as Hex.
  assert (Hnodst : exists_pure (files w) (resolve (cwd w) d) = false).
  { unfold exists_pure, stat_pure. rewrite (follow_absent _ _ _ Hnew), Hnew. reflexivity. }
  pose proof (exists_of_dir _ _ (changeable_dir _ _ (proj1 (proj2 Hallowed)))) as Hdir.
  destruct (rename_moves (clock w) (mounts w) _ _ _ _ Hfile Hnew Hallowed Hdev Hsd Hds)
    as (fs' & Hrename & Hmoved & Hgone & _).
  specialize (Hmoved []). rewrite !app_nil_r in Hmoved.
  destruct (option_same_Some _ _ _ Hmoved Hfile) as (n' & Hn' & E).
  apply same_node_file in E as (m' & -> & Hm' & _).
  pose proof (stat_of_file _ _ _ _ _ (follow_file _ _ _ _ _ Hn') Hn') as Hstat'.
  specialize (Hgone _ (below_refl _)).
  assert (Hmove : MoveFile.perform_move fuel
                    (not_false (field (default (VObj []) (assoc "moveOptions" ps))
                                  "fallbackCopy"))
                    (resolve (cwd w) s) (resolve (cwd w) d) true false w
                  = (Ok "atomic", committed w (RenameCall (resolve (cwd w) s)
                                                 (resolve (cwd w) d)) fs')).
  { apply move_after_rename. exact Hrename. }
  exists (MoveFile.Moved (resolve (cwd w) s) (resolve (cwd w) d) "file"
            (Z.of_nat (length data)) "atomic" None),
    (committed w (RenameCall (resolve (cwd w) s) (resolve (cwd w) d)) fs'), m'.
  split; [|repeat split; assumption].
  apply wp_ends. unfold MoveFile.execute_item, MoveFile.create_backup. wp_run.
  all: try (rewrite andb_false_r in *; discriminate).
  all: eapply wp_run; [exact Hmove|]; unfold after at 1; wp_run.
  all: split; reflexivity.
Qed.

(** ** The last four properties on the sample world *)

Lemma kind_mismatch_is_refused_witness :
  mode_accepts (VStr "file") (MkStats KDirectory dir_size Sample.dir_meta) = false /\
  DeleteFile.execute_item Cases.delete_as_file Sample.w0
  = (Throw (OperationError (NotAFile ["data"])), Sample.w0).
Proof.
  split; [vm_compute; reflexivity|].
  apply (proj1 (kind_mismatch_is_refused 0 Cases.delete_as_file Sample.w0
                  (MkStats KDirectory dir_size Sample.dir_meta)) "/data" (VStr "file")
           ltac:(vm_compute; reflexivity) ltac:(discriminate) ltac:(vm_compute; reflexivity)
           ltac:(vm_compute; reflexivity) ltac:(vm_compute; reflexivity)).
Defined.

Lemma oversized_file_is_refused_witness :
  stat_pure (files Cases.big_world) ["big.bin"] = inr (MkStats KFile 2097152 Sample.file_meta) /\
  DeleteFile.execute_item Cases.delete_big Cases.big_world
  = (Throw (OperationError (FileTooLarge 2097152 1048576)), Cases.big_world).
Proof.
  assert (Hstat : stat_pure (files Cases.big_world) (resolve (cwd Cases.big_world) "/big.bin")
                  = inr (MkStats KFile 2097152 Sample.file_meta))
    by (vm_compute; reflexivity).
  split; [exact Hstat|].
  apply (oversized_file_is_refused Cases.delete_big Cases.big_world "/big.bin" (VStr "auto")
           (MkStats KFile 2097152 Sample.file_meta) 1
           ltac:(vm_compute; reflexivity) ltac:(discriminate) ltac:(vm_compute; reflexivity)
           Hstat ltac:(vm_compute; reflexivity) ltac:(vm_compute; reflexivity)
           ltac:(vm_compute; reflexivity) ltac:(discriminate) ltac:(vm_compute; reflexivity)).
Defined.

Lemma copy_creates_the_destination_directory_witness :
  files Sample.w0 !! ["new"] = None /\
  (exists out w',
     CopyFile.execute_item 5 Cases.copy_into_new Sample.w0 = (Ok out, w') /\
     is_dir_at (files w') ["new"] = true /\
     shape_of <$> files w' !! ["new"; "a.txt"] = Some (SFile (Sample.text "hello"))) /\
  CopyFile.execute_item 5 Cases.copy_into_missing Sample.w0
  = (Throw (FsError ENOENT "copyfile" ["data"; "a.txt"]),
     refused Sample.w0 (CopyFileCall ["data"; "a.txt"] ["new"; "a.txt"] 0)).
Proof.
  split; [vm_compute; reflexivity|]. split.
  - destruct (proj1 (copy_creates_the_destination_directory 5 Cases.copy_into_new Sample.w0
                       "/data/a.txt" "/new/a.txt" ["data"; "a.txt"] (Sample.text "hello")
                       Sample.file_meta
                       ltac:(vm_compute; reflexivity) ltac:(discriminate)
                       ltac:(vm_compute; reflexivity) ltac:(discriminate)
                       ltac:(vm_compute; reflexivity) ltac:(vm_compute; reflexivity)
                       ltac:(vm_compute; reflexivity) ltac:(vm_compute; reflexivity)
                       ltac:(discriminate)
                       ltac:(vm_compute; reflexivity) ltac:(vm_compute; reflexivity))
                ltac:(vm_compute; reflexivity)
                ltac:(refine (bool_decide_unpack _ _); vm_compute; exact I)
                ltac:(vm_compute; reflexivity)
                ltac:(refine (bool_decide_unpack _ _); vm_compute; exact I)
                ltac:(refine (bool_decide_unpack _ _); vm_compute; exact I))
      as (out & w' & Hrun & _ & Hdir & Hdata).
    exists out, w'. split; [exact Hrun|]. split; [exact Hdir|exact Hdata].
  - apply (proj2 (copy_creates_the_destination_directory 5 Cases.copy_into_missing Sample.w0
                    "/data/a.txt" "/new/a.txt" ["data"; "a.txt"] (Sample.text "hello")
                    Sample.file_meta
                    ltac:(vm_compute; reflexivity) ltac:(discriminate)
                    ltac:(vm_compute; reflexivity) ltac:(discriminate)
                    ltac:(vm_compute; reflexivity) ltac:(vm_compute; reflexivity)
                    ltac:(vm_compute; reflexivity) ltac:(vm_compute; reflexivity)
                    ltac:(discriminate)
                    ltac:(vm_compute; reflexivity) ltac:(vm_compute; reflexivity))).
    vm_compute; reflexivity.
Defined.

Lemma move_item_renames_the_file_witness :
  exists out w' m',
    MoveFile.execute_item 0 Cases.move_file Sample.w0 = (Ok out, w') /\
    MoveFile.moveMethod out = "atomic" /\
    files w' !! ["data"; "c.txt"] = Some (NFile (Sample.text "hello") m') /\
    files w' !! ["data"; "a.txt"] = None.
Proof.
  destruct (move_item_renames_the_file 0 Cases.move_file Sample.w0
              "/data/a.txt" "/data/c.txt" (Sample.text "hello") Sample.file_meta
              ltac:(vm_compute; reflexivity) ltac:(discriminate)
              ltac:(vm_compute; reflexivity) ltac:(discriminate)
              ltac:(vm_compute; reflexivity) ltac:(vm_compute; reflexivity)
              ltac:(vm_compute; reflexivity) ltac:(vm_compute; reflexivity)
              ltac:(refine (bool_decide_unpack _ _); vm_compute; exact I)
              ltac:(vm_compute; reflexivity)
              ltac:(refine (bool_decide_unpack _ _); vm_compute; exact I)
              ltac:(refine (bool_decide_unpack _ _); vm_compute; exact I))
    as (out & w' & m' & Hrun & _ & Hmethod & _ & _ & _ & Hdst & _ & Hsrc).
  exists out, w', m'. split; [exact Hrun|]. split; [exact Hmethod|].
  split; [exact Hdst|exact Hsrc].
Defined.

(** ** The loop over the input items *)

Section Loop.

Context {I A : Type} (item : I -> M (list A)) (failed : error -> I -> M A).

Lemma for_items_app (c : bool) (xs ys : list I) :
  forall (i : nat) (acc : list (returned A)) (w : world),
    for_items c item failed i (xs ++ ys) acc w
    = (acc' <- for_items c item failed i xs acc ;;
       for_items c item failed (i + length xs) ys acc') w.
Proof.
  induction xs as [|x xs IH]; intros i acc w; cbn [app length for_items].
  - rewrite Nat.add_0_r. reflexivity.
  - rewrite <- Nat.add_succ_comm. unfold bind in *.
    destruct (try_catch _ _ w) as [[acc'| |] w1]; try reflexivity.
    apply IH.
Qed.

Lemma for_items_throw (x : I) (rest : list I) (i : nat) (acc : list (returned A))
    (w w2 : world) (e : error) :
  item x w = (Throw e, w2) ->
  for_items false item failed i (x :: rest) acc w = (Throw e, w2).
Proof.
  intros H. simpl. unfold bind, try_catch, throw. rewrite H. reflexivity.
Qed.

Lemma for_items_stops (done rest : list I) (x : I) (i : nat) (acc out : list (returned A))
    (w w1 w2 : world) (e : error) :
  for_items false item failed i done acc w = (Ok out, w1) ->
  item x w1 = (Throw e, w2) ->
  for_items false item failed i (done ++ x :: rest) acc w = (Throw e, w2).
Proof.
  intros Hdone Hx. rewrite for_items_app. unfold bind at 1. rewrite Hdone.
  apply for_items_throw, Hx.
Qed.

Lemma for_items_same (xs : list I) :
  forall (i : nat) (acc out : list (returned A)) (w w1 : world),
    for_items false item failed i xs acc w = (Ok out, w1) ->
    for_items true item failed i xs acc w = (Ok out, w1).
Proof.
  induction xs as [|x xs IH]; intros i acc out w w1; simpl; [trivial|].
  unfold bind, try_catch, throw.
  destruct (item x w) as [[l|e|] w2]; simpl; [apply IH|discriminate|discriminate].
Qed.

Lemma for_items_extends (c : bool) (xs : list I) :
  forall (i : nat) (acc out : list (returned A)) (w w1 : world),
    for_items c item failed i xs acc w = (Ok out, w1) ->
    exists more, out = acc ++ more.
Proof.
  induction xs as [|x xs IH]; intros i acc out w w1; simpl.
  - intros [= <- _]. exists []. rewrite app_nil_r. reflexivity.
  - unfold bind at 1. destruct (try_catch _ _ w) as [[acc'| |] w2] eqn:Htry; try discriminate.
    intros Hrest. apply IH in Hrest as [more ->].
    unfold try_catch, bind at 1 in Htry.
    destruct (item x w) as [[l|e|] w3]; simpl in Htry.
    + injection Htry as <- _. rewrite <- app_assoc. eauto.
    + destruct c; [|discriminate].
      unfold bind in Htry. destruct (failed e x w3) as [[a| |] w4]; try discriminate.
      injection Htry as <- _. rewrite <- app_assoc. eauto.
    + discriminate.
Qed.

Hypothesis failed_returns : forall e x w, exists a, failed e x w = (Ok a, w).
Hypothesis item_pushes_one : forall x w l w', item x w = (Ok l, w') -> length l = 1%nat.

Lemma for_items_continue (xs : list I) :
  forall (i : nat) (acc : list (returned A)) (w : world),
    match fst (for_items true item failed i xs acc w) with
    | Ok out => List.map pairedItem out = List.map pairedItem acc ++ seq i (length xs)
    | Throw _ => False
    | OutOfFuel => True
    end.
Proof.
  induction xs as [|x xs IH]; intros i acc w; simpl.
  - rewrite app_nil_r. reflexivity.
  - unfold bind at 1, try_catch, bind at 1.
    destruct (item x w) as [[l|e|] w1] eqn:Hitem; simpl.
    + specialize (IH (S i) (acc ++ List.map (fun j => Returned j i) l) w1).
      destruct (fst _); [|exact IH|trivial].
      rewrite IH, List.map_app, <- app_assoc. f_equal.
      apply item_pushes_one in Hitem. destruct l as [|? [|? ?]]; try discriminate.
      reflexivity.
    + destruct (failed_returns e x w1) as [a Ha]. unfold bind, ret. rewrite Ha.
      specialize (IH (S i) (acc ++ [Returned a i]) w1).
      destruct (fst _); [|exact IH|trivial].
      rewrite IH, List.map_app, <- app_assoc. reflexivity.
    + trivial.
Qed.

Hypothesis item_settles : forall x w, fst (item x w) <> OutOfFuel.

Lemma for_items_returns (xs : list I) :
  forall (i : nat) (acc : list (returned A)) (w : world),
    exists out w', for_items true item failed i xs acc w = (Ok out, w').
Proof.
  induction xs as [|x xs IH]; intros i acc w; simpl.
  - eexists _, _. reflexivity.
  - unfold bind at 1, try_catch, bind at 1. pose proof (item_settles x w) as Hs.
    destruct (item x w) as [[l|e|] w1] eqn:Hitem; simpl in *.
    + apply IH.
    + destruct (failed_returns e x w1) as [a Ha]. unfold bind, ret. rewrite Ha. apply IH.
    + contradiction.
Qed.

Lemma for_items_reports (done rest : list I) (x : I) (i : nat) (acc out : list (returned A))
    (w w1 w2 : world) (e : error) (a : A) :
  for_items false item failed i done acc w = (Ok out, w1) ->
  item x w1 = (Throw e, w2) ->
  failed e x w2 = (Ok a, w2) ->
  exists more w',
    for_items true item failed i (done ++ x :: rest) acc w
    = (Ok (out ++ Returned a (i + length done) :: more), w') /\
    length more = length rest.
Proof.
  intros Hdone Hx Ha. apply for_items_same in Hdone.
  destruct (for_items_returns rest (S (i + length done)) (out ++ [Returned a (i + length done)]) w2)
    as (out' & w' & Hrest).
  pose proof (for_items_continue rest (S (i + length done))
                (out ++ [Returned a (i + length done)]) w2) as Hlen.
  rewrite Hrest in Hlen. simpl in Hlen.
  destruct (for_items_extends _ _ _ _ _ _ _ Hrest) as [more ->].
  exists more, w'. split.
  - rewrite for_items_app. unfold bind at 1. rewrite Hdone.
    cbn [for_items]. unfold bind, try_catch. rewrite Hx, Ha. unfold ret.
    rewrite Hrest, <- !app_assoc. reflexivity.
  - apply (f_equal (@length nat)) in Hlen.
    rewrite ?List.length_map, ?List.length_app, ?length_seq in Hlen.
    rewrite ?List.length_map, ?List.length_app in Hlen. simpl in Hlen. lia.
Qed.

End Loop.

(** The item of the delete node has no recursion of its own: it never runs
    out of fuel. *)
Lemma delete_item_settles (ps : params) (w : world) :
  fst (DeleteFile.execute_item ps w) <> OutOfFuel.
Proof.
  change (wp (DeleteFile.execute_item ps) (fun r _ => r <> OutOfFuel) w).
  unfold DeleteFile.execute_item. wp_run.
  all: discriminate.
Qed.

Lemma pushes_one {S A : Type} (m : M S) (f : S -> A) (w w' : world) (l : list A) :
  (a <- m ;; ret [f a]) w = (Ok l, w') -> length l = 1%nat.
Proof.
  unfold bind, ret. destruct (m w) as [[a| |] w1]; try discriminate.
  intros [= <- _]. reflexivity.
Qed.

Lemma pushes_throw {S A : Type} (m : M S) (f : S -> A) (w w' : world) (e : error) :
  m w = (Throw e, w') -> (a <- m ;; ret [f a]) w = (Throw e, w').
Proof. unfold bind. intros ->. reflexivity. Qed.

Lemma pushes_settles {S A : Type} (m : M S) (f : S -> A) (w : world) :
  fst (m w) <> OutOfFuel -> fst ((a <- m ;; ret [f a]) w) <> OutOfFuel.
Proof. unfold bind, ret. destruct (m w) as [[a| |] w1]; simpl; congruence. Qed.

(** X28. With [continueOnFail] on, the delete, copy and move nodes answer
    every item: the node does not throw, whatever the items and the
    filesystem are, and what it returns holds one record per input item,
    paired with the items in their order.  The delete node always
    returns. *)
Theorem continue_on_fail_answers_every_item (fuel : nat) (items : list params) (w : world) :
  (exists out w',
     DeleteFile.execute true items w = (Ok out, w') /\
     List.map pairedItem out = seq 0 (length items)) /\
  answers_each (length items) (fst (CopyFile.execute fuel true items w)) /\
  answers_each (length items) (fst (MoveFile.execute fuel true items w)).
Proof.
  assert (Hall : forall (S A : Type) (one : params -> M S) (f : S -> A)
                   (failed : error -> params -> M A),
             (forall e ps w0, exists a, failed e ps w0 = (Ok a, w0)) ->
             answers_each (length items)
               (fst (for_items true (fun ps => a <- one ps ;; ret [f a]) failed 0 items [] w))).
  { intros S A one f failed Hfailed.
    exact (for_items_continue _ failed Hfailed
             (fun ps w0 l w1 => pushes_one (one ps) f w0 w1 l) items 0%nat [] w). }
  split; [|split].
  - unfold DeleteFile.execute.
    match goal with
    | |- context [for_items true ?item ?failed 0 items [] w] =>
        destruct (for_items_returns item failed) with (xs := items) (i := 0%nat)
          (acc := @nil (returned DeleteFile.answer)) (w := w) as (out & w' & Hrun)
    end.
    + intros e ps w0. eexists. reflexivity.
    + intros ps w0. apply pushes_settles, delete_item_settles.
    + exists out, w'. split; [exact Hrun|].
      match type of Hrun with
      | for_items true (fun ps => a <- ?one ps ;; ret [?f a]) ?failed _ _ _ _ = _ =>
          specialize (Hall _ _ one f failed)
      end.
      unfold answers_each in Hall. rewrite Hrun in Hall. apply Hall.
      intros e ps w0. eexists. reflexivity.
  - apply Hall. intros e ps w0. eexists. reflexivity.
  - apply Hall. intros e ps w0. eexists. reflexivity.
Qed.

(** X29. With [continueOnFail] off, the delete, copy and move nodes end at
    the first item that throws, with its error; nothing is rolled back:
    the world is the one the earlier items and the failing one left, the
    records of the earlier items are not returned, and the later items are
    not run. *)
Theorem first_failure_stops_the_node (fuel : nat) :
  stops_at_first_failure DeleteFile.execute DeleteFile.execute_item /\
  stops_at_first_failure (CopyFile.execute fuel) (CopyFile.execute_item fuel) /\
  stops_at_first_failure (MoveFile.execute fuel) (MoveFile.execute_item fuel).
Proof.
  split; [|split]; intros done rest ps w w1 w2 out e Hdone Hitem.
  - unfold DeleteFile.execute in *. eapply for_items_stops; [exact Hdone|].
    apply pushes_throw, Hitem.
  - unfold CopyFile.execute in *. eapply for_items_stops; [exact Hdone|].
    apply pushes_throw, Hitem.
  - unfold MoveFile.execute in *. eapply for_items_stops; [exact Hdone|].
    apply pushes_throw, Hitem.
Qed.

(** X30. With [continueOnFail] on, an item of the delete node that throws
    is recorded and the loop goes on: the node returns the records of the
    items before it unchanged, then the record of the failure, which holds
    the error thrown and the [filePath] parameter of the item (the empty
    string when it has none) and is paired with the index of the item,
    then one record for each item after it. *)
Theorem failed_delete_is_recorded (done rest : list params) (ps : params) (w w1 w2 : world)
    (out : list (returned DeleteFile.answer)) (e : error) :
  DeleteFile.execute false done w = (Ok out, w1) ->
  DeleteFile.execute_item ps w1 = (Throw e, w2) ->
  exists more w',
    DeleteFile.execute true (done ++ ps :: rest) w
    = (Ok (out ++ Returned (DeleteFile.Failure e (default (VStr "") (assoc "filePath" ps)))
                     (length done) :: more), w') /\
    length more = length rest.
Proof.
  unfold DeleteFile.execute. intros Hdone Hitem.
  eapply for_items_reports with (i := 0%nat) in Hdone as (more & w' & Hrun & Hlen);
    [exists more, w'; split; [exact Hrun|exact Hlen]| | | |apply pushes_throw, Hitem|reflexivity].
  - intros e0 ps0 w0. eexists. reflexivity.
  - intros ps0 w0 l w3. apply pushes_one.
  - intros ps0 w0. apply pushes_settles, delete_item_settles.
Qed.


Lemma first_failure_stops_the_node_witness :
  DeleteFile.execute false three_deletions Sample.w0
  = (Throw (FsError ENOTEMPTY "rmdir" ["data"]),
     refused after_first_deletion (RmdirCall ["data"] false)) /\
  files after_first_deletion !! ["data"; "a.txt"] = None /\
  is_Some (files after_first_deletion !! ["link"]).
Proof.
  split; [|split; [vm_compute; reflexivity|vm_compute; eexists; reflexivity]].
  apply (proj1 (first_failure_stops_the_node 0) [delete_file] [Cases.delete_link]
           Cases.delete_directory Sample.w0 after_first_deletion
           (refused after_first_deletion (RmdirCall ["data"] false))
           [Returned (DeleteFile.Success
                        (DeleteFile.Deleted ["data"; "a.txt"] "a.txt" "file" 5 None)) 0]
           (FsError ENOTEMPTY "rmdir" ["data"])
           ltac:(vm_compute; reflexivity) ltac:(vm_compute; reflexivity)).
Defined.

Lemma failed_delete_is_recorded_witness :
  exists more w',
    DeleteFile.execute true three_deletions Sample.w0
    = (Ok ([Returned (DeleteFile.Success
                        (DeleteFile.Deleted ["data"; "a.txt"] "a.txt" "file" 5 None)) 0]
           ++ Returned (DeleteFile.Failure (FsError ENOTEMPTY "rmdir" ["data"]) (VStr "/data"))
                1 :: more), w') /\
    length more = 1%nat.
Proof.
  exact (failed_delete_is_recorded [delete_file] [Cases.delete_link] Cases.delete_directory
           Sample.w0 after_first_deletion
           (refused after_first_deletion (RmdirCall ["data"] false))
           [Returned (DeleteFile.Success
                        (DeleteFile.Deleted ["data"; "a.txt"] "a.txt" "file" 5 None)) 0]
           (FsError ENOTEMPTY "rmdir" ["data"])
           ltac:(vm_compute; reflexivity) ltac:(vm_compute; reflexivity)).
Defined.
